(** * libnunchuk: wallet store and chain synchronisation

    A shallow embedding of the wallet database (walletdb.cpp: address
    space, transaction store, coin ledger) and of the Electrum
    synchroniser's [UpdateTransactions], with the properties the
    specification states about them.

    Conventions.
    - SQLite tables with a primary key are finite maps from the key to the
      remaining columns; [std::map<std::string, T>] is [gmap string T].
    - C++ [int], [int64_t], [time_t] and [Amount] values are [Z].  The
      source never relies on wrap-around for them (signed overflow is
      undefined in C++), so no reduction is written.
    - Exceptions are an explicit result type threaded with the store: a
      throwing call keeps every write it made before the throw. *)

From Stdlib Require Import ZArith Lia Permutation.
From stdpp Require Import base option list strings pretty gmap fin_maps
  sorting.

Local Open Scope Z_scope.

(** ** Enumerations of the public header *)

(** Modelled from the spec: [TransactionStatus] is declared in the public
    header nunchuk.h, which is not among the sources.  Its states are the
    ones of the transaction store's state machine; the sources only compare
    them for equality. *)
Module TransactionStatus.
Inductive t :=
  | PENDING_SIGNATURES
  | READY_TO_BROADCAST
  | NETWORK_REJECTED
  | PENDING_CONFIRMATION
  | REPLACED
  | CONFIRMED.
#[global] Instance transaction_status_eq_dec : EqDecision t.
Proof. solve_decision. Defined.
End TransactionStatus.

Module CoinStatus.
Inductive t :=
  | INCOMING_PENDING_CONFIRMATION
  | CONFIRMED
  | OUTGOING_PENDING_SIGNATURES
  | OUTGOING_PENDING_BROADCAST
  | OUTGOING_PENDING_CONFIRMATION
  | SPENT.
#[global] Instance coin_status_eq_dec : EqDecision t.
Proof. solve_decision. Defined.

(** Modelled from the spec: the enumerator values of [CoinStatus] are
    declared in the public header nunchuk.h, which is not among the
    sources.  The spec orders the outgoing tier
    OUTGOING_PENDING_SIGNATURES < OUTGOING_PENDING_BROADCAST <
    OUTGOING_PENDING_CONFIRMATION < SPENT, the incoming tier
    INCOMING_PENDING_CONFIRMATION < CONFIRMED, and lets an unbroadcast
    spend lift a confirmed coin to the OUTGOING_PENDING_SIGNATURES tier, so
    the outgoing tier sits above the incoming one. *)
Definition rank (s : t) : Z :=
  match s with
  | INCOMING_PENDING_CONFIRMATION => 0
  | CONFIRMED => 1
  | OUTGOING_PENDING_SIGNATURES => 2
  | OUTGOING_PENDING_BROADCAST => 3
  | OUTGOING_PENDING_CONFIRMATION => 4
  | SPENT => 5
  end.

(** [a < b] on the enumeration, as [set_status] compares. *)
Definition lt (a b : t) : bool := rank a <? rank b.
End CoinStatus.

(** ** Data transfer objects *)

(** The classes [Transaction], [UnspentOutput] and [AddressData] are
    declared in headers that are not among the sources; the records below
    have the fields that the sources read and write through their getters
    and setters.  [TxInput] is (previous txid, vout); [TxOutput] is
    (address, amount). *)
Definition TxInput : Type := string * Z.
Definition TxOutput : Type := string * Z.

Record Transaction := mkTransaction {
  get_txid : string;
  get_height : Z;
  get_inputs : list TxInput;
  get_outputs : list TxOutput;
  get_user_outputs : list TxOutput;
  get_receive_outputs : list TxOutput;
  get_change_index : Z;
  get_m : Z;
  get_signers : gmap string bool;
  get_memo : string;
  get_status : TransactionStatus.t;
  get_replaced_by_txid : string;
  get_replace_txid : string;
  get_fee : Z;
  get_fee_rate : Z;
  get_blocktime : Z;
  is_subtract_fee_from_amount : bool;
  is_receive : bool;
  get_sub_amount : Z;
  get_psbt : string;
  get_raw : string;
  get_reject_msg : string;
  get_schedule_time : Z
}.

(** The coin annotations (lock, tags, collections) are filled by the coin
    control functions, not by the ledger replay, and are left out. *)
Record UnspentOutput := mkUnspentOutput {
  utxo_txid : string;
  utxo_vout : Z;
  utxo_address : string;
  utxo_amount : Z;
  utxo_height : Z;
  utxo_memo : string;
  utxo_change : bool;
  utxo_blocktime : Z;
  utxo_schedule_time : Z;
  utxo_status : CoinStatus.t
}.

(** Modelled from the spec: [UnspentOutput]'s constructor lives in the
    header and dto sources that are not among the sources.  A coin that
    [coins[id]] creates starts in the lowest status, which is what the
    "only ever increases" replay of the spec needs. *)
Definition UnspentOutput_new : UnspentOutput :=
  mkUnspentOutput "" 0 "" 0 0 "" false 0 0
    CoinStatus.INCOMING_PENDING_CONFIRMATION.

Record AddressData := mkAddressData {
  ad_address : string;
  ad_index : Z;
  ad_internal : bool;
  ad_used : bool
}.

(** ** Coin ledger: [GetCoinsFromTransactions] *)

(** [strprintf("%s:%d", tx_id, vout)] *)
Definition CoinId (tx_id : string) (vout : Z) : string :=
  tx_id +:+ ":" +:+ pretty vout.

Definition IsMyAddress (all : gmap string AddressData) (address : string)
  : bool :=
  bool_decide (is_Some (all !! address)).

Definition IsMyChange (all : gmap string AddressData) (address : string)
  : bool :=
  match all !! address with
  | Some d => ad_internal d
  | None => false
  end.

(** [outputs[vout]].  The source indexes the vector unchecked, which is
    undefined outside the vector; the model answers the empty output
    there. *)
Definition output_at (outputs : list TxOutput) (vout : Z) : TxOutput :=
  if vout <? 0 then ("", 0)
  else default ("", 0) (outputs !! Z.to_nat vout).

(** First loop: [tx_map.insert] keeps the first transaction of an id;
    [used_by[CoinId] = txid] is written only for transactions with
    [height > 0] and the last writer wins. *)
Definition claim_inputs (tx : Transaction) (used_by : gmap string string)
  : gmap string string :=
  fold_left
    (fun ub (input : TxInput) => <[CoinId input.1 input.2 := get_txid tx]> ub)
    (get_inputs tx) used_by.

Definition index_transaction
    (acc : gmap string Transaction * gmap string string) (tx : Transaction)
  : gmap string Transaction * gmap string string :=
  let tx_map :=
    match acc.1 !! get_txid tx with
    | Some _ => acc.1
    | None => <[get_txid tx := tx]> acc.1
    end in
  if get_height tx <=? 0 then (tx_map, acc.2)
  else (tx_map, claim_inputs tx acc.2).

Definition index_transactions (transactions : list Transaction)
  : gmap string Transaction * gmap string string :=
  fold_left index_transaction transactions (∅, ∅).

(** [coins[id]]: the entry, created when absent. *)
Definition coin_at (coins : gmap string UnspentOutput) (id : string)
  : UnspentOutput :=
  default UnspentOutput_new (coins !! id).

Definition with_status (status : CoinStatus.t) (c : UnspentOutput)
  : UnspentOutput :=
  mkUnspentOutput (utxo_txid c) (utxo_vout c) (utxo_address c)
    (utxo_amount c) (utxo_height c) (utxo_memo c) (utxo_change c)
    (utxo_blocktime c) (utxo_schedule_time c) status.

(** The setters [set_txid] .. [set_schedule_time] that open both loops. *)
Definition with_origin (txid : string) (vout : Z) (address : string)
    (amount height blocktime schedule_time : Z) (c : UnspentOutput)
  : UnspentOutput :=
  mkUnspentOutput txid vout address amount height (utxo_memo c)
    (utxo_change c) blocktime schedule_time (utxo_status c).

(** [set_memo] and [set_change], which close both loops. *)
Definition with_memo_change (memo : string) (change : bool)
    (c : UnspentOutput) : UnspentOutput :=
  mkUnspentOutput (utxo_txid c) (utxo_vout c) (utxo_address c)
    (utxo_amount c) (utxo_height c) memo change
    (utxo_blocktime c) (utxo_schedule_time c) (utxo_status c).

(** The lambda [set_status]:
    [if (coins[id].get_status() < status) coins[id].set_status(status)]. *)
Definition set_status (id : string) (status : CoinStatus.t)
    (coins : gmap string UnspentOutput) : gmap string UnspentOutput :=
  let c := coin_at coins id in
  if CoinStatus.lt (utxo_status c) status
  then <[id := with_status status c]> coins
  else <[id := c]> coins.

(** The status a spending transaction gives to the coin it spends; the
    last two statuses never reach the chain of [else if]s. *)
Definition spend_status (s : TransactionStatus.t) : option CoinStatus.t :=
  match s with
  | TransactionStatus.CONFIRMED => Some CoinStatus.SPENT
  | TransactionStatus.PENDING_CONFIRMATION =>
      Some CoinStatus.OUTGOING_PENDING_CONFIRMATION
  | TransactionStatus.READY_TO_BROADCAST =>
      Some CoinStatus.OUTGOING_PENDING_BROADCAST
  | TransactionStatus.PENDING_SIGNATURES =>
      Some CoinStatus.OUTGOING_PENDING_SIGNATURES
  | TransactionStatus.REPLACED | TransactionStatus.NETWORK_REJECTED => None
  end.

Definition receive_status (height : Z) : CoinStatus.t :=
  if 0 <? height then CoinStatus.CONFIRMED
  else CoinStatus.INCOMING_PENDING_CONFIRMATION.

Section CoinLedger.
Variable all : gmap string AddressData.
Variable tx_map : gmap string Transaction.
Variable used_by : gmap string string.

(** Body of the loop over [tx.get_inputs()]. *)
Definition spend_input (tx : Transaction)
    (coins : gmap string UnspentOutput) (input : TxInput)
  : gmap string UnspentOutput :=
  match tx_map !! input.1 with
  | None => coins
  | Some prev_tx =>
      let out := output_at (get_outputs prev_tx) input.2 in
      let address := out.1 in
      if negb (IsMyAddress all address) then coins
      else
        let id := CoinId input.1 input.2 in
        let coins1 :=
          <[id := with_origin input.1 input.2 address out.2
                    (get_height prev_tx) (get_blocktime prev_tx)
                    (get_schedule_time prev_tx) (coin_at coins id)]> coins in
        let coins2 :=
          match spend_status (get_status tx) with
          | Some s => set_status id s coins1
          | None => coins1
          end in
        <[id := with_memo_change (get_memo prev_tx) (IsMyChange all address)
                  (coin_at coins2 id)]> coins2
  end.

(** Body of the loop over [vout = 0 .. nout-1]. *)
Definition receive_output (tx : Transaction)
    (coins : gmap string UnspentOutput) (vo : Z * TxOutput)
  : gmap string UnspentOutput :=
  let vout := vo.1 in
  let output := vo.2 in
  if negb (IsMyAddress all output.1) then coins
  else
    let id := CoinId (get_txid tx) vout in
    let coins1 :=
      <[id := with_origin (get_txid tx) vout output.1 output.2
                (get_height tx) (get_blocktime tx) (get_schedule_time tx)
                (coin_at coins id)]> coins in
    let coins2 := set_status id (receive_status (get_height tx)) coins1 in
    <[id := with_memo_change (get_memo tx) (IsMyChange all output.1)
              (coin_at coins2 id)]> coins2.

Definition numbered_outputs (tx : Transaction) : list (Z * TxOutput) :=
  imap (fun i o => (Z.of_nat i, o)) (get_outputs tx).

(** [used_by.count(id) && used_by[id] != tx.get_txid()] for some input. *)
Definition shadowed (tx : Transaction) : bool :=
  existsb
    (fun input : TxInput =>
       match used_by !! CoinId input.1 input.2 with
       | Some spender => bool_decide (spender ≠ get_txid tx)
       | None => false
       end)
    (get_inputs tx).

Definition skipped_status (tx : Transaction) : bool :=
  bool_decide (get_status tx = TransactionStatus.REPLACED) ||
  bool_decide (get_status tx = TransactionStatus.NETWORK_REJECTED).

(** Body of the second loop over the transactions. *)
Definition replay_transaction (coins : gmap string UnspentOutput)
    (tx : Transaction) : gmap string UnspentOutput :=
  if skipped_status tx then coins
  else if shadowed tx then coins
  else
    let coins1 := fold_left (spend_input tx) (get_inputs tx) coins in
    fold_left (receive_output tx) (numbered_outputs tx) coins1.

End CoinLedger.

Definition GetCoinsFromTransactions (all : gmap string AddressData)
    (transactions : list Transaction) : gmap string UnspentOutput :=
  let '(tx_map, used_by) := index_transactions transactions in
  fold_left (replay_transaction all tx_map used_by) transactions ∅.

(** ** Balance *)

(** Body of the loop of [GetBalance]: the two [continue]s, then the sum. *)
Definition GetBalance_step (include_mempool : bool) (balance : Z)
    (coin : UnspentOutput) : Z :=
  if bool_decide (utxo_status coin = CoinStatus.SPENT) ||
     bool_decide (utxo_status coin = CoinStatus.OUTGOING_PENDING_CONFIRMATION)
  then balance
  else if negb include_mempool && negb (utxo_change coin) &&
          bool_decide
            (utxo_status coin = CoinStatus.INCOMING_PENDING_CONFIRMATION)
  then balance
  else balance + utxo_amount coin.

Definition balance_of (include_mempool : bool) (coins : list UnspentOutput)
  : Z :=
  fold_left (GetBalance_step include_mempool) coins 0.

(** The balance in the words of the specification: a coin is left out when
    it is SPENT or OUTGOING_PENDING_CONFIRMATION and, when the mempool is
    excluded, when it is an unconfirmed incoming coin that is not change. *)
Definition spec_excluded (include_mempool : bool) (coin : UnspentOutput)
  : Prop :=
  utxo_status coin = CoinStatus.SPENT ∨
  utxo_status coin = CoinStatus.OUTGOING_PENDING_CONFIRMATION ∨
  (include_mempool = false ∧ utxo_change coin = false ∧
   utxo_status coin = CoinStatus.INCOMING_PENDING_CONFIRMATION).

#[global] Instance spec_excluded_dec include_mempool coin :
  Decision (spec_excluded include_mempool coin).
Proof. unfold spec_excluded. apply _. Defined.

Definition spec_balance (include_mempool : bool) (coins : list UnspentOutput)
  : Z :=
  foldr Z.add 0
    (utxo_amount <$>
       filter (fun c => ¬ spec_excluded include_mempool c) coins).

(** ** The wallet store *)

(** The EXTRA column holds the dump of a JSON object with optional members.
    A member is [Some] when [extra_json[key] != nullptr]. *)
Record ExtraJson := mkExtraJson {
  ej_signers : option (gmap string bool);
  ej_outputs : option (gmap string Z);
  ej_fee_rate : option Z;
  ej_subtract : option bool;
  ej_replace_txid : option string;
  ej_schedule_time : option Z;
  ej_replaced_by_txid : option string;
  ej_reject_msg : option string
}.

(** The text of the column as a [std::string]: empty ([None], what
    [InsertTransaction] writes) or the dump of a JSON document. *)
Definition ExtraString : Type := option ExtraJson.

(** The column itself is NULL in rows older than the column. *)
Inductive ExtraColumn :=
  | SqlNull
  | SqlText (text : ExtraString).

Record VtxRow := mkVtxRow {
  VALUE : string;
  HEIGHT : Z;
  FEE : Z;
  MEMO : string;
  CHANGEPOS : Z;
  BLOCKTIME : Z;
  EXTRA : ExtraColumn
}.

Record AddressRow := mkAddressRow {
  IDX : Z;
  INTERNAL : bool;
  USED : bool;
  UTXO : string
}.

(** One wallet store: the tables VTX and ADDRESS, and the entry of the
    static [addr_cache_] for this store's file, if there is one. *)
Record WalletDb := mkWalletDb {
  VTX : gmap string VtxRow;
  ADDRESS : gmap string AddressRow;
  addr_cache : option (gmap string AddressData)
}.

Definition with_VTX (vtx : gmap string VtxRow) (db : WalletDb) : WalletDb :=
  mkWalletDb vtx (ADDRESS db) (addr_cache db).

Definition with_ADDRESS (a : gmap string AddressRow) (db : WalletDb)
  : WalletDb :=
  mkWalletDb (VTX db) a (addr_cache db).

Definition with_addr_cache (c : option (gmap string AddressData))
    (db : WalletDb) : WalletDb :=
  mkWalletDb (VTX db) (ADDRESS db) c.

(** What a call can throw: [StorageException::TX_NOT_FOUND], a storage
    error raised by [SQLCHECK], an exception of the JSON library, or an
    exception of the chain-data client. *)
Inductive Exception :=
  | TX_NOT_FOUND
  | SQL_ERROR
  | JSON_ERROR
  | CLIENT_ERROR.

#[global] Instance Exception_eq_dec : EqDecision Exception.
Proof. solve_decision. Defined.

Inductive Result (A : Type) :=
  | Ok (a : A)
  | Throw (e : Exception).
Arguments Ok {A} a.
Arguments Throw {A} e.

(** A call on a state [S]: its result and the state it leaves. *)
Definition StateM (S A : Type) : Type := S → Result A * S.

Definition ret {S A} (a : A) : StateM S A := fun st => (Ok a, st).
Definition throw {S A} (e : Exception) : StateM S A :=
  fun st => (Throw e, st).
Definition bind {S A B} (c : StateM S A) (k : A → StateM S B)
  : StateM S B :=
  fun st =>
    match c st with
    | (Ok a, st') => k a st'
    | (Throw e, st') => (Throw e, st')
    end.
Definition modify {S} (f : S → S) : StateM S unit :=
  fun st => (Ok tt, f st).
Definition get_db {S} : StateM S S := fun st => (Ok st, st).

(** The calls of [NunchukWalletDb] run on the wallet store. *)
Abbreviation M := (StateM WalletDb).

Notation "'let*' x ':=' c 'in' k" := (bind c (fun x => k))
  (at level 10, x name, c at level 100, k at level 200).

(** [for (auto&& x : l) body(x);] *)
Fixpoint for_each {S A} (l : list A) (body : A → StateM S unit)
  : StateM S unit :=
  match l with
  | [] => ret tt
  | x :: l' => let* _ := body x in for_each l' body
  end.

(** A pure result lifted to a call. *)
Definition lift {S A} (r : Result A) : StateM S A := fun st => (r, st).

(** A loop that carries local variables [acc] through its body. *)
Fixpoint for_each_acc {S A B} (l : list A) (acc : B)
    (body : B → A → StateM S B) : StateM S B :=
  match l with
  | [] => ret acc
  | x :: l' => let* acc' := body acc x in for_each_acc l' acc' body
  end.

Fixpoint collect {A B} (f : A → Result B) (l : list A) : Result (list B) :=
  match l with
  | [] => Ok []
  | x :: l' =>
      match f x with
      | Throw e => Throw e
      | Ok y =>
          match collect f l' with
          | Throw e => Throw e
          | Ok ys => Ok (y :: ys)
          end
      end
  end.

(** The state a call leaves, and its result. *)
Definition exec {S A} (c : StateM S A) (st : S) : S := (c st).2.
Definition result {S A} (c : StateM S A) (st : S) : Result A := (c st).1.

Definition ADDRESS_LOOK_AHEAD : Z := 20.

(** [json::parse(extra)]: the empty string is not a JSON document. *)
Definition json_parse (extra : ExtraString) : Result ExtraJson :=
  match extra with
  | Some j => Ok j
  | None => Throw JSON_ERROR
  end.

Definition ej_with_signers (v : option (gmap string bool)) (j : ExtraJson)
  : ExtraJson :=
  mkExtraJson v (ej_outputs j) (ej_fee_rate j) (ej_subtract j)
    (ej_replace_txid j) (ej_schedule_time j) (ej_replaced_by_txid j)
    (ej_reject_msg j).

Definition ej_with_reject_msg (v : option string) (j : ExtraJson)
  : ExtraJson :=
  mkExtraJson (ej_signers j) (ej_outputs j) (ej_fee_rate j) (ej_subtract j)
    (ej_replace_txid j) (ej_schedule_time j) (ej_replaced_by_txid j) v.

Definition ej_with_replaced_by_txid (v : option string) (j : ExtraJson)
  : ExtraJson :=
  mkExtraJson (ej_signers j) (ej_outputs j) (ej_fee_rate j) (ej_subtract j)
    (ej_replace_txid j) (ej_schedule_time j) v (ej_reject_msg j).

Definition row_with_VALUE (v : string) (r : VtxRow) : VtxRow :=
  mkVtxRow v (HEIGHT r) (FEE r) (MEMO r) (CHANGEPOS r) (BLOCKTIME r)
    (EXTRA r).

Definition row_with_HEIGHT (h : Z) (r : VtxRow) : VtxRow :=
  mkVtxRow (VALUE r) h (FEE r) (MEMO r) (CHANGEPOS r) (BLOCKTIME r)
    (EXTRA r).

Definition row_with_BLOCKTIME (t : Z) (r : VtxRow) : VtxRow :=
  mkVtxRow (VALUE r) (HEIGHT r) (FEE r) (MEMO r) (CHANGEPOS r) t (EXTRA r).

Definition row_with_EXTRA (e : ExtraColumn) (r : VtxRow) : VtxRow :=
  mkVtxRow (VALUE r) (HEIGHT r) (FEE r) (MEMO r) (CHANGEPOS r) (BLOCKTIME r)
    e.

(** [UPDATE VTX SET ... WHERE ID = tx_id]; the result is
    [sqlite3_changes(db_) == 1]. *)
Definition sql_update_vtx (tx_id : string) (f : VtxRow → VtxRow) : M bool :=
  fun db =>
    match VTX db !! tx_id with
    | Some r => (Ok true, with_VTX (<[tx_id := f r]> (VTX db)) db)
    | None => (Ok false, db)
    end.

(** [INSERT INTO VTX ... ON CONFLICT(ID) DO UPDATE SET VALUE, HEIGHT]. *)
Definition sql_upsert_vtx (tx_id : string) (new : VtxRow) : M unit :=
  modify (fun db =>
    match VTX db !! tx_id with
    | Some r =>
        with_VTX
          (<[tx_id := row_with_HEIGHT (HEIGHT new)
                        (row_with_VALUE (VALUE new) r)]> (VTX db)) db
    | None => with_VTX (<[tx_id := new]> (VTX db)) db
    end).

(** Modelled from the spec: the macro [SQLCHECK] is defined in
    storage/common.h, which is not among the sources.  A plain INSERT on
    an ID that is taken violates the primary key; the statement writes
    nothing and the failure is a storage error that propagates to the
    caller. *)
Definition sql_insert_vtx (tx_id : string) (new : VtxRow) : M unit :=
  fun db =>
    match VTX db !! tx_id with
    | Some _ => (Throw SQL_ERROR, db)
    | None => (Ok tt, with_VTX (<[tx_id := new]> (VTX db)) db)
    end.

(** [SELECT ... FROM VTX WHERE ID = ? AND HEIGHT = -1] *)
Definition select_unbroadcast (tx_id : string) (db : WalletDb)
  : option VtxRow :=
  match VTX db !! tx_id with
  | Some r => if bool_decide (HEIGHT r = -1) then Some r else None
  | None => None
  end.

(** [SetAddress]: insert, or on a known address overwrite USED and UTXO
    only; USED is bound to [utxos.empty() ? 0 : 1]. *)
Definition SetAddress (address : string) (index : Z) (internal : bool)
    (utxos : string) : M unit :=
  modify (fun db =>
    let used := negb (String.eqb utxos "") in
    match ADDRESS db !! address with
    | Some r =>
        with_ADDRESS
          (<[address := mkAddressRow (IDX r) (INTERNAL r) used utxos]>
             (ADDRESS db)) db
    | None =>
        with_ADDRESS
          (<[address := mkAddressRow index internal used utxos]>
             (ADDRESS db)) db
    end).

(** [SELECT MAX(IDX) FROM ADDRESS WHERE INTERNAL = ? GROUP BY INTERNAL],
    and -1 when the branch has no row. *)
Definition GetCurrentAddressIndex (internal : bool) (db : WalletDb) : Z :=
  match IDX <$> filter (fun r => INTERNAL r = internal)
                  (map_to_list (ADDRESS db)).*2 with
  | [] => -1
  | i :: l => foldr Z.max i l
  end.

Definition ad_use (d : AddressData) : AddressData :=
  mkAddressData (ad_address d) (ad_index d) (ad_internal d) true.

(** [UseAddress]: three early returns, then [used = true]. *)
Definition UseAddress (address : string) : M unit :=
  modify (fun db =>
    if String.eqb address "" then db
    else
      match addr_cache db with
      | None => db
      | Some cache =>
          match cache !! address with
          | None => db
          | Some d =>
              with_addr_cache (Some (<[address := ad_use d]> cache)) db
          end
      end).

(** [DELETE FROM VTX WHERE ID = ?] *)
Definition DeleteTransaction (tx_id : string) : M bool :=
  fun db =>
    match VTX db !! tx_id with
    | Some _ => (Ok true, with_VTX (delete tx_id (VTX db)) db)
    | None => (Ok false, db)
    end.

(** [ForceRefresh]: both tables emptied, the cache entry erased. *)
Definition ForceRefresh : M unit :=
  modify (fun _ => mkWalletDb ∅ ∅ None).

(** The loop of [FillExtra] over [tx.get_signers()]:
    [tx.set_signer(name, extra_json["signers"][name])].  A name the JSON
    object lacks reads as null, whose conversion to [bool] throws. *)
Definition fill_signers (from_extra signers : gmap string bool)
  : Result (gmap string bool) :=
  if bool_decide (dom signers ⊆ dom from_extra)
  then Ok (map_imap (fun name _ => from_extra !! name) signers)
  else Throw JSON_ERROR.

(** The loop of [FillExtra] over [tx.get_outputs()]. *)
Definition fill_user_outputs (amounts : gmap string Z)
    (outputs : list TxOutput) : list TxOutput :=
  omap (fun o : TxOutput => (fun a => (o.1, a)) <$> amounts !! o.1) outputs.

Definition FillExtra (extra : ExtraString) (tx : Transaction)
  : Result Transaction :=
  match extra with
  | None => Ok tx
  | Some extra_json =>
      let signers :=
        match ej_signers extra_json with
        | Some sg =>
            if (0 <=? get_height tx) || negb (String.eqb (get_raw tx) "")
            then fill_signers sg (get_signers tx)
            else Ok (get_signers tx)
        | None => Ok (get_signers tx)
        end in
      match signers with
      | Throw e => Throw e
      | Ok signers =>
          let replaced :=
            bool_decide
              (get_status tx = TransactionStatus.PENDING_CONFIRMATION) &&
            bool_decide (is_Some (ej_replaced_by_txid extra_json)) in
          let rejected :=
            negb replaced &&
            bool_decide
              (get_status tx = TransactionStatus.NETWORK_REJECTED) in
          Ok (mkTransaction
                (get_txid tx) (get_height tx) (get_inputs tx)
                (get_outputs tx)
                (get_user_outputs tx ++
                 match ej_outputs extra_json with
                 | Some amounts => fill_user_outputs amounts (get_outputs tx)
                 | None => []
                 end)
                (get_receive_outputs tx) (get_change_index tx) (get_m tx)
                signers (get_memo tx)
                (if replaced then TransactionStatus.REPLACED
                 else get_status tx)
                (if replaced
                 then default "" (ej_replaced_by_txid extra_json)
                 else get_replaced_by_txid tx)
                (default (get_replace_txid tx) (ej_replace_txid extra_json))
                (get_fee tx)
                (default (get_fee_rate tx) (ej_fee_rate extra_json))
                (get_blocktime tx)
                (default (is_subtract_fee_from_amount tx)
                   (ej_subtract extra_json))
                (is_receive tx) (get_sub_amount tx) (get_psbt tx)
                (get_raw tx)
                (if rejected
                 then default (get_reject_msg tx) (ej_reject_msg extra_json)
                 else get_reject_msg tx)
                (default (get_schedule_time tx)
                   (ej_schedule_time extra_json)))
      end
  end.

(** ** Reads of SQLite columns *)

(** The byte 0, which ends a C string. *)
Definition NUL : Ascii.ascii := Ascii.zero.

(** A [std::string] built from the [char] pointer that
    [sqlite3_column_text] returns.  A text is bound with its size and
    stored whole, but such a read takes it as a C string: it ends before
    the first NUL byte of the text. *)
Fixpoint c_str (s : string) : string :=
  match s with
  | EmptyString => EmptyString
  | String c s' => if Ascii.eqb c NUL then EmptyString else String c (c_str s')
  end.

(** The conversion of a 64-bit integer to [int]: its low 32 bits. *)
Definition to_int (v : Z) : Z :=
  (v + 2147483648) mod 4294967296 - 2147483648.

(** [sqlite3_column_int]: the stored integer as an [int]. *)
Definition sqlite3_column_int (v : Z) : Z := to_int v.

(** The integers that are the value of an [int]. *)
Definition is_int (v : Z) : Prop := -2147483648 ≤ v ≤ 2147483647.

(** The wallet's immutable data ([is_escrow], [m]) and the collaborators
    that live outside the store: descriptor derivation and the decoding of
    payloads (Bitcoin Core), applied with the wallet's signers.  They are
    taken on payloads that decode: every call decodes before its first
    write, so a payload that does not decode only makes the call throw.
    The signing-provider cache that [GetAllAddressData] and [AddAddress]
    also notify ([SetMaxIndex]) is outside the store and left out. *)
Class Wallet := {
  is_escrow : bool;
  wallet_m : Z;
  (** [DeriveAddress(descriptor)] of an escrow wallet *)
  DeriveAddress : string;
  (** the address of a branch ([true] is the internal one) at an index *)
  DeriveAddressAt : bool → Z → string;
  (** [GetTransactionFromStr(str, signers, m, height)]: the transaction
      and the flag [is_hex_tx] *)
  GetTransactionFromStr : string → Z → Z → Transaction * bool;
  (** [DecodeRawTransaction(raw_tx).GetHash().GetHex()] *)
  RawTxId : string → string;
  (** [DecodePsbt(psbt).tx.value().GetHash().GetHex()] *)
  PsbtTxId : string → string;
  (** [GetVirtualTransactionSize(CTransaction(DecodeRawTransaction(raw)))] *)
  GetVirtualTransactionSize : string → Z
}.

Section WalletStore.
Context `{Wallet}.

(** Modelled from the spec: [CoreUtils::DeriveAddresses(descriptor, from,
    to)] is not among the sources.  It derives the addresses of the
    indices [from] up to [to], as the spec's "up to max(usedIndex) +
    gapLimit" says. *)
Definition DeriveAddresses (internal : bool) (fromIndex toIndex : Z)
  : list string :=
  DeriveAddressAt internal <$> seqZ fromIndex (toIndex - fromIndex + 1).

(** [for (addr : derived) addresses[addr] = {addr, index++, internal,
    false};] *)
Definition number_addresses (internal : bool) (derived : list string)
    (addresses : gmap string AddressData) : gmap string AddressData :=
  fold_left
    (fun acc (ia : Z * string) =>
       <[ia.2 := mkAddressData ia.2 ia.1 internal false]> acc)
    (imap (fun i a => (Z.of_nat i, a)) derived) addresses.

(** The map [addresses] that [GetAllAddressData] builds when the cache has
    no entry. *)
Definition derive_address_data (db : WalletDb) : gmap string AddressData :=
  if is_escrow
  then <[DeriveAddress := mkAddressData DeriveAddress 0 false false]> ∅
  else
    let internal_addr :=
      DeriveAddresses true 0
        (GetCurrentAddressIndex true db + ADDRESS_LOOK_AHEAD) in
    let addresses := number_addresses true internal_addr ∅ in
    let external_addr :=
      DeriveAddresses false 0
        (GetCurrentAddressIndex false db + ADDRESS_LOOK_AHEAD) in
    number_addresses false external_addr addresses.

(** The shared body of [GetTransaction] and [GetTransactions] for one row:
    decode, overwrite the stored fields, then [FillExtra] unless the
    column is NULL.  The memo is read as a C string.  So is the payload,
    which is a hex or base64 text that decodes and holds no NUL byte. *)
Definition read_row (tx_id : string) (row : VtxRow) : Result Transaction :=
  let '(tx, is_hex_tx) :=
    GetTransactionFromStr (VALUE row) wallet_m (HEIGHT row) in
  let tx1 :=
    mkTransaction tx_id (get_height tx) (get_inputs tx) (get_outputs tx)
      (get_user_outputs tx) (get_receive_outputs tx) (CHANGEPOS row)
      wallet_m (get_signers tx) (c_str (MEMO row)) (get_status tx)
      (get_replaced_by_txid tx) (get_replace_txid tx) (FEE row) 0
      (BLOCKTIME row) (is_subtract_fee_from_amount tx) false 0
      (if is_hex_tx then get_psbt tx else VALUE row)
      (if is_hex_tx then VALUE row else get_raw tx)
      (get_reject_msg tx) (-1) in
  match EXTRA row with
  | SqlNull => Ok tx1
  | SqlText extra => FillExtra extra tx1
  end.

(** [GetTransactions]: every row of VTX. *)
Definition GetTransactions (db : WalletDb) : Result (list Transaction) :=
  collect (fun ir : string * VtxRow => read_row ir.1 ir.2)
    (map_to_list (VTX db)).

Definition GetTransaction (tx_id : string) : M Transaction :=
  let* db := get_db in
  match VTX db !! tx_id with
  | Some row =>
      let* tx := lift (read_row tx_id row) in
      let* _ := for_each (get_outputs tx)
                  (fun output => UseAddress output.1) in
      ret tx
  | None => throw TX_NOT_FOUND
  end.

(** [GetAllAddressData]: the cache entry when there is one; otherwise the
    derived map is cached, the outputs of the stored transactions are
    marked used in the cache, and the map built before the marking is
    returned. *)
Definition GetAllAddressData : M (gmap string AddressData) :=
  let* db := get_db in
  match addr_cache db with
  | Some cache => ret cache
  | None =>
      let addresses := derive_address_data db in
      let* _ := modify (with_addr_cache (Some addresses)) in
      let* txs := lift (GetTransactions db) in
      let* _ := for_each txs (fun tx =>
                  for_each (get_outputs tx)
                    (fun output => UseAddress output.1)) in
      ret addresses
  end.

(** [IsMyAddress] as a call on the store. *)
Definition IsMyAddressM (address : string) : M bool :=
  let* all := GetAllAddressData in
  ret (IsMyAddress all address).

(** [AddAddress]; [SetAddress] gets the default argument [utxos = {}]. *)
Definition AddAddress (address : string) (index : Z) (internal : bool)
  : M bool :=
  let* _ := SetAddress address index internal "" in
  let* mine := IsMyAddressM address in
  let* _ :=
    if negb mine
    then modify (fun db =>
           with_addr_cache
             (Some (<[address := mkAddressData address index internal false]>
                      (default ∅ (addr_cache db)))) db)
    else ret tt in
  ret true.

Definition SetUtxos (address : string) (utxo : string) : M bool :=
  let* all := GetAllAddressData in
  match all !! address with
  | None => ret false
  | Some d =>
      let* _ := SetAddress address (ad_index d) (ad_internal d) utxo in
      ret true
  end.

Definition InsertTransaction (raw_tx : string) (height blocktime fee : Z)
    (memo : string) (change_pos : Z) : M Transaction :=
  let tx_id := RawTxId raw_tx in
  let* _ := sql_upsert_vtx tx_id
              (mkVtxRow raw_tx height fee memo change_pos blocktime
                 (SqlText None)) in
  GetTransaction tx_id.

(** [SetReplacedBy]: the row [old_txid], when it has a non-NULL EXTRA, gets
    [replaced_by_txid = new_txid] in its JSON document. *)
Definition SetReplacedBy (old_txid new_txid : string) : M unit :=
  let* db := get_db in
  match VTX db !! old_txid with
  | Some row =>
      match EXTRA row with
      | SqlText extra =>
          let* extra_json := lift (json_parse extra) in
          let* _ := sql_update_vtx old_txid
                      (row_with_EXTRA
                         (SqlText
                            (Some (ej_with_replaced_by_txid (Some new_txid)
                                     extra_json)))) in
          ret tt
      | SqlNull => ret tt
      end
  | None => ret tt
  end.

Definition UpdateTransaction (raw_tx : string) (height blocktime : Z)
    (reject_msg : string) : M bool :=
  if bool_decide (height = -1) then
    let tx := (GetTransactionFromStr raw_tx 0 (-1)).1 in
    let tx_id := get_txid tx in
    let* db := get_db in
    let* extra :=
      match EXTRA <$> select_unbroadcast tx_id db with
      | Some (SqlText extra) =>
          let* extra_json := lift (json_parse extra) in
          ret (Some (ej_with_signers (Some (get_signers tx)) extra_json))
      | Some SqlNull | None => throw TX_NOT_FOUND
      end in
    let* updated :=
      match extra : ExtraString with
      | None => sql_update_vtx tx_id (row_with_VALUE raw_tx)
      | Some _ =>
          sql_update_vtx tx_id
            (fun r => row_with_EXTRA (SqlText extra)
                        (row_with_VALUE raw_tx r))
      end in
    let* _ := if updated : bool
              then let* _ := GetTransaction tx_id in ret tt
              else ret tt in
    ret updated
  else
    let tx_id := RawTxId raw_tx in
    let* extra :=
      if height <=? 0 then
        let* db := get_db in
        match select_unbroadcast tx_id db with
        | Some row =>
            match EXTRA row with
            | SqlText extra =>
                let tx := (GetTransactionFromStr (VALUE row) 0 (-1)).1 in
                let* extra_json := lift (json_parse extra) in
                let extra_json1 :=
                  ej_with_signers (Some (get_signers tx)) extra_json in
                let extra_json2 :=
                  if negb (String.eqb reject_msg "")
                  then ej_with_reject_msg (Some reject_msg) extra_json1
                  else extra_json1 in
                let* _ :=
                  match ej_replace_txid extra_json2 with
                  | Some old_txid => SetReplacedBy old_txid tx_id
                  | None => ret tt
                  end in
                ret (Some extra_json2 : ExtraString)
            | SqlNull => ret (None : ExtraString)
            end
        | None => ret (None : ExtraString)
        end
      else ret (None : ExtraString) in
    let* updated :=
      match extra with
      | None =>
          sql_update_vtx tx_id
            (fun r => row_with_BLOCKTIME blocktime
                        (row_with_HEIGHT height (row_with_VALUE raw_tx r)))
      | Some _ =>
          sql_update_vtx tx_id
            (fun r => row_with_EXTRA (SqlText extra)
                        (row_with_BLOCKTIME blocktime
                           (row_with_HEIGHT height
                              (row_with_VALUE raw_tx r))))
      end in
    let* _ := if updated : bool
              then let* _ := GetTransaction tx_id in ret tt
              else ret tt in
    ret updated.

Definition CreatePsbt (psbt : string) (fee : Z) (memo : string)
    (change_pos : Z) (outputs : gmap string Z) (fee_rate : Z)
    (subtract_fee_from_amount : bool) (replace_tx : string)
  : M Transaction :=
  let tx_id := PsbtTxId psbt in
  let extra :=
    mkExtraJson None (Some outputs) (Some fee_rate)
      (Some subtract_fee_from_amount)
      (if String.eqb replace_tx "" then None else Some replace_tx)
      None None None in
  let* _ := sql_upsert_vtx tx_id
              (mkVtxRow psbt (-1) fee memo change_pos 0
                 (SqlText (Some extra))) in
  GetTransaction tx_id.

Definition UpdatePsbtTxId (old_id new_id : string) : M bool :=
  let* db := get_db in
  match select_unbroadcast old_id db with
  | Some row =>
      let extra : ExtraString :=
        match EXTRA row with
        | SqlText extra => extra
        | SqlNull => None
        end in
      let* _ := sql_insert_vtx new_id
                  (mkVtxRow (VALUE row) (-1) (FEE row) (MEMO row)
                     (CHANGEPOS row) 0 (SqlText extra)) in
      DeleteTransaction old_id
  | None => throw TX_NOT_FOUND
  end.

(** The [try]/[catch] of [FillSendReceiveData]: the previous output, or
    the default-constructed one when the previous transaction is not
    stored; any other exception goes on. *)
Definition previous_output (input : TxInput) : M TxOutput :=
  fun db =>
    match GetTransaction input.1 db with
    | (Ok prev_tx, db') => (Ok (output_at (get_outputs prev_tx) input.2), db')
    | (Throw TX_NOT_FOUND, db') => (Ok ("", 0), db')
    | (Throw e, db') => (Throw e, db')
    end.

Definition FillSendReceiveData (tx : Transaction) : M Transaction :=
  let* spent :=
    for_each_acc (get_inputs tx) (0, false)
      (fun (acc : Z * bool) input =>
         let* prev_out := previous_output input in
         let* mine := IsMyAddressM prev_out.1 in
         ret (if mine : bool then (acc.1 + prev_out.2, true) else acc)) in
  if spent.2 : bool then
    let* sent :=
      for_each_acc (numbered_outputs tx) (spent.1, 0, get_change_index tx)
        (fun (acc : Z * Z * Z) (io : Z * TxOutput) =>
           let '(total_amount, send_amount, change_index) := acc in
           let* mine := IsMyAddressM io.2.1 in
           ret (if negb mine
                then (total_amount - io.2.2, send_amount + io.2.2,
                      change_index)
                else if change_index <? 0
                then (total_amount - io.2.2, send_amount, io.1)
                else (total_amount - io.2.2, send_amount, change_index))) in
    let '(total_amount, send_amount, change_index) := sent in
    ret (mkTransaction
           (get_txid tx) (get_height tx) (get_inputs tx) (get_outputs tx)
           (get_user_outputs tx) (get_receive_outputs tx) change_index
           (get_m tx) (get_signers tx) (get_memo tx) (get_status tx)
           (get_replaced_by_txid tx) (get_replace_txid tx) total_amount
           (if (get_fee_rate tx =? 0) && negb (String.eqb (get_raw tx) "")
            then Z.quot (total_amount * 1000)
                   (GetVirtualTransactionSize (get_raw tx))
            else get_fee_rate tx)
           (get_blocktime tx) (is_subtract_fee_from_amount tx) false
           send_amount (get_psbt tx) (get_raw tx) (get_reject_msg tx)
           (get_schedule_time tx))
  else
    let* received :=
      for_each_acc (get_outputs tx) (0, get_receive_outputs tx)
        (fun (acc : Z * list TxOutput) (output : TxOutput) =>
           let* mine := IsMyAddressM output.1 in
           ret (if mine : bool
                then (acc.1 + output.2, acc.2 ++ [output])
                else acc)) in
    ret (mkTransaction
           (get_txid tx) (get_height tx) (get_inputs tx) (get_outputs tx)
           (get_user_outputs tx) received.2 (get_change_index tx)
           (get_m tx) (get_signers tx) (get_memo tx) (get_status tx)
           (get_replaced_by_txid tx) (get_replace_txid tx) (get_fee tx)
           (get_fee_rate tx) (get_blocktime tx)
           (is_subtract_fee_from_amount tx) true received.1 (get_psbt tx)
           (get_raw tx) (get_reject_msg tx) (get_schedule_time tx)).

(** What [GetAllAddressData] answers on a store: the cache entry, or the
    map it derives.  [IsMyAddress] and [IsMyChange] read only the keys and
    the internal flags, which the marking of used addresses leaves alone,
    so the coin replay sees this one map throughout. *)
Definition address_view (db : WalletDb) : gmap string AddressData :=
  match addr_cache db with
  | Some cache => cache
  | None => derive_address_data db
  end.

(** [GetCoins]: the coins of the map, one after the other (the balance
    does not depend on their order).  The call is [const]; only its value
    is modelled. *)
Definition GetCoins (db : WalletDb) : Result (list UnspentOutput) :=
  match GetTransactions db with
  | Ok transactions =>
      Ok (map_to_list
            (GetCoinsFromTransactions (address_view db) transactions)).*2
  | Throw e => Throw e
  end.

Definition GetBalance (include_mempool : bool) (db : WalletDb) : Result Z :=
  match GetCoins db with
  | Ok coins => Ok (balance_of include_mempool coins)
  | Throw e => Throw e
  end.

(** ** The storage facade used by the synchroniser *)

(** Modelled from the spec: [NunchukStorage] (storage.cpp) is not among the
    sources, only its declarations are.  Its transaction calls forward to
    the wallet store; [GetTransaction] completes the view with the
    send/receive classification, and the filtered [GetTransactions] keeps
    the transactions of the given status and direction ("any locally-known
    unconfirmed, receive-type transaction"). *)
Definition storage_GetTransaction (tx_id : string) : M Transaction :=
  let* tx := GetTransaction tx_id in
  FillSendReceiveData tx.

Definition storage_GetTransactions (status : TransactionStatus.t)
    (receive : bool) : M (list Transaction) :=
  let* db := get_db in
  let* txs := lift (GetTransactions db) in
  let* filled :=
    for_each_acc txs []
      (fun acc tx => let* tx' := FillSendReceiveData tx in
                     ret (acc ++ [tx'])) in
  ret (filter (fun tx => get_status tx = status ∧ is_receive tx = receive)
         filled).

End WalletStore.

(** ** Electrum synchroniser: [UpdateTransactions] *)

(** One entry [{tx_hash, height, fee?}] of a scripthash history. *)
Record HistoryItem := mkHistoryItem {
  item_tx_hash : string;
  item_height : Z;
  item_fee : option Z
}.

(** The JSON argument [history]: an array of entries, or something else. *)
Inductive History :=
  | HistoryNotArray
  | HistoryArray (items : list HistoryItem).

(** The chain-data client and what else the synchroniser reads: a fetch
    that throws is [None]. *)
Class ElectrumClient := {
  support_batch_requests : bool;
  blockchain_transaction_get : string → option string;
  blockchain_block_header : Z → option string;
  get_multi_rawtx : list string → gmap string string;
  get_multi_rawheader : list Z → gmap Z string;
  (** [GetBlockTime(raw_header)] *)
  GetBlockTime : string → Z;
  (** [status_ == Status::READY] *)
  status_is_READY : bool
}.

(** The wallet store behind [storage_] and the calls made on
    [transaction_listener_], oldest first. *)
Record SyncState := mkSyncState {
  storage_ : WalletDb;
  transaction_listener_calls : list (string * TransactionStatus.t)
}.

Definition on_storage {A} (c : M A) : StateM SyncState A :=
  fun st =>
    let '(r, db') := c (storage_ st) in
    (r, mkSyncState db' (transaction_listener_calls st)).

Definition transaction_listener_ (tx_id : string)
    (status : TransactionStatus.t) : StateM SyncState unit :=
  modify (fun st =>
    mkSyncState (storage_ st)
      (transaction_listener_calls st ++ [(tx_id, status)])).

Section Synchronizer.
Context `{Wallet} `{ElectrumClient}.

(** The local variables of the first loop of the batch branch. *)
Record BatchScan := mkBatchScan {
  scan_txs_hash : list string;
  scan_heights : list Z;
  scan_founds : gmap string bool
}.

(** Body of the first loop of the batch branch: the [try] around
    [storage_->GetTransaction] with its [catch (StorageException&)], which
    lets every other exception through. *)
Definition batch_scan_item (acc : BatchScan) (item : HistoryItem)
  : StateM SyncState BatchScan :=
  let tx_id := item_tx_hash item in
  let height := item_height item in
  let queued founds :=
    mkBatchScan (scan_txs_hash acc ++ [tx_id])
      (if 0 <? height then scan_heights acc ++ [height]
       else scan_heights acc)
      founds in
  fun st =>
    let '(r, db') := storage_GetTransaction tx_id (storage_ st) in
    let st' := mkSyncState db' (transaction_listener_calls st) in
    match r with
    | Ok stx =>
        let founds := <[tx_id := true]> (scan_founds acc) in
        if bool_decide (get_status stx = TransactionStatus.CONFIRMED)
        then (Ok (mkBatchScan (scan_txs_hash acc) (scan_heights acc) founds),
              st')
        else (Ok (queued founds), st')
    | Throw TX_NOT_FOUND =>
        (Ok (queued (<[tx_id := false]> (scan_founds acc))), st')
    | Throw SQL_ERROR => (Ok acc, st')
    | Throw e => (Throw e, st')
    end.

(** The upsert and the notification that close the body of every update
    loop. *)
Definition apply_history_item (found : bool) (tx_id raw : string)
    (height0 time fee : Z) : StateM SyncState unit :=
  let status :=
    if height0 <=? 0 then TransactionStatus.PENDING_CONFIRMATION
    else TransactionStatus.CONFIRMED in
  let height := if height0 <=? 0 then 0 else height0 in
  let* _ :=
    if found
    then let* _ := on_storage (UpdateTransaction raw height time "") in
         ret tt
    else let* _ := on_storage
                     (InsertTransaction raw height time fee "" (-1)) in
         ret tt in
  if status_is_READY then transaction_listener_ tx_id status else ret tt.

(** Body of the second loop of the batch branch; the local [isSynced] is
    carried.  [rawheader[height]] of a height that was not fetched is the
    empty string. *)
Definition batch_update_item (txs_hash : list string)
    (founds : gmap string bool) (rawtx : gmap string string)
    (rawheader : gmap Z string) (isSynced : bool) (item : HistoryItem)
  : StateM SyncState bool :=
  let tx_id := item_tx_hash item in
  let height := item_height item in
  if bool_decide (tx_id ∉ txs_hash) then ret isSynced
  else
    let fetched :=
      match rawtx !! tx_id with
      | Some raw => Some raw
      | None => blockchain_transaction_get tx_id
      end in
    match fetched with
    | None => ret false
    | Some raw =>
        let time :=
          if height <=? 0 then 0
          else GetBlockTime (default "" (rawheader !! height)) in
        let fee := default 0 (item_fee item) in
        let* _ := apply_history_item (default false (founds !! tx_id))
                    tx_id raw height time fee in
        ret isSynced
    end.

(** The closing loop of every branch: the pending receive transactions
    that [kept] does not vouch for are deleted and reported as REPLACED. *)
Definition evict_pending_receive (kept : string → bool)
  : StateM SyncState unit :=
  let* pending_receive_txs :=
    on_storage
      (storage_GetTransactions TransactionStatus.PENDING_CONFIRMATION true) in
  for_each pending_receive_txs
    (fun tx =>
       let txid := get_txid tx in
       if negb (kept txid)
       then let* _ := on_storage (DeleteTransaction txid) in
            transaction_listener_ txid TransactionStatus.REPLACED
       else ret tt).

(** The part of the body of the sequential loop that follows the lookup:
    the fetches (a fetch that throws ends the call), the upsert and the
    notification, with [tx_id] pushed on [txs_hash]. *)
Definition sequential_fetch (txs_hash : list string) (item : HistoryItem)
    (found : bool) : StateM SyncState (list string) :=
  let tx_id := item_tx_hash item in
  let height := item_height item in
  match blockchain_transaction_get tx_id with
  | None => throw CLIENT_ERROR
  | Some raw =>
      let* time :=
        if height <=? 0 then ret 0
        else match blockchain_block_header height with
             | Some header => ret (GetBlockTime header)
             | None => throw CLIENT_ERROR
             end in
      let fee := default 0 (item_fee item) in
      let* _ := apply_history_item found tx_id raw height time fee in
      ret (txs_hash ++ [tx_id])
  end.

(** Body of the loop of the sequential branch; the local [txs_hash] is
    carried. *)
Definition sequential_item (txs_hash : list string) (item : HistoryItem)
  : StateM SyncState (list string) :=
  let tx_id := item_tx_hash item in
  fun st =>
    let '(r, db') := storage_GetTransaction tx_id (storage_ st) in
    let st' := mkSyncState db' (transaction_listener_calls st) in
    match r with
    | Ok stx =>
        if bool_decide (get_status stx = TransactionStatus.CONFIRMED)
        then (Ok txs_hash, st')
        else sequential_fetch txs_hash item true st'
    | Throw TX_NOT_FOUND => sequential_fetch txs_hash item false st'
    | Throw SQL_ERROR => (Ok txs_hash, st')
    | Throw e => (Throw e, st')
    end.

(** [UpdateTransactions(chain, wallet_id, history)].  In the sequential
    branch [std::binary_search] on the sorted [txs_hash] is membership. *)
Definition UpdateTransactions (history : History) : StateM SyncState bool :=
  match history with
  | HistoryNotArray => ret false
  | HistoryArray items =>
      if support_batch_requests then
        let* scan := for_each_acc items (mkBatchScan [] [] ∅)
                       batch_scan_item in
        let rawtx := get_multi_rawtx (scan_txs_hash scan) in
        let rawheader := get_multi_rawheader (scan_heights scan) in
        let* isSynced :=
          for_each_acc items true
            (batch_update_item (scan_txs_hash scan) (scan_founds scan)
               rawtx rawheader) in
        let* _ := evict_pending_receive
                    (fun txid => bool_decide (is_Some (rawtx !! txid))) in
        ret isSynced
      else
        let* txs_hash := for_each_acc items [] sequential_item in
        let* _ := evict_pending_receive
                    (fun txid => bool_decide (txid ∈ txs_hash)) in
        ret true
  end.

(** The overload that is handed [rawtx] and [rawheader]; its first loop
    is the scan above without the heights. *)
Definition UpdateTransactions_batched (history : History)
    (rawtx : gmap string string) (rawheader : gmap Z string)
  : StateM SyncState bool :=
  match history with
  | HistoryNotArray => ret false
  | HistoryArray items =>
      if support_batch_requests then
        let* scan := for_each_acc items (mkBatchScan [] [] ∅)
                       batch_scan_item in
        let* isSynced :=
          for_each_acc items true
            (batch_update_item (scan_txs_hash scan) (scan_founds scan)
               rawtx rawheader) in
        let* _ := evict_pending_receive
                    (fun txid => bool_decide (is_Some (rawtx !! txid))) in
        ret isSynced
      else UpdateTransactions history
  end.

End Synchronizer.

(** ** Vocabulary of the statements *)

(** The coin a transaction input refers to. *)
Definition input_coin (input : TxInput) : string := CoinId input.1 input.2.

(** No two transactions with different ids that both enter [used_by]
    (height above 0) claim the same coin: the transaction set has no
    conflicting double-spend. *)
Definition no_conflicting_spends (txs : list Transaction) : Prop :=
  Forall (fun t1 =>
    Forall (fun t2 =>
      0 < get_height t1 → 0 < get_height t2 →
      Forall (fun i1 =>
        Forall (fun i2 =>
          input_coin i1 = input_coin i2 → get_txid t1 = get_txid t2)
          (get_inputs t2))
        (get_inputs t1))
      txs)
    txs.

#[global] Instance no_conflicting_spends_dec txs :
  Decision (no_conflicting_spends txs).
Proof. unfold no_conflicting_spends. apply _. Defined.

(** The status of every coin of a coin map. *)
Definition status_view (coins : gmap string UnspentOutput)
  : gmap string CoinStatus.t :=
  utxo_status <$> coins.

(** The larger of two statuses, keeping the first on a tie. *)
Definition status_max (a b : CoinStatus.t) : CoinStatus.t :=
  if CoinStatus.lt a b then b else a.

(** What one [set_status] call does to the statuses. *)
Definition raise_status (m : gmap string CoinStatus.t)
    (mark : string * CoinStatus.t) : gmap string CoinStatus.t :=
  <[mark.1 :=
      status_max
        (default CoinStatus.INCOMING_PENDING_CONFIRMATION (m !! mark.1))
        mark.2]> m.

(** The [set_status] calls one transaction makes, in order. *)
Definition input_marks (all : gmap string AddressData)
    (tx_map : gmap string Transaction) (tx : Transaction) (input : TxInput)
  : list (string * CoinStatus.t) :=
  match tx_map !! input.1 with
  | None => []
  | Some prev_tx =>
      if negb (IsMyAddress all (output_at (get_outputs prev_tx) input.2).1)
      then []
      else [(input_coin input,
             default CoinStatus.INCOMING_PENDING_CONFIRMATION
               (spend_status (get_status tx)))]
  end.

Definition output_marks (all : gmap string AddressData) (tx : Transaction)
    (vo : Z * TxOutput) : list (string * CoinStatus.t) :=
  if negb (IsMyAddress all vo.2.1) then []
  else [(CoinId (get_txid tx) vo.1, receive_status (get_height tx))].

Definition transaction_marks (all : gmap string AddressData)
    (tx_map : gmap string Transaction) (used_by : gmap string string)
    (tx : Transaction) : list (string * CoinStatus.t) :=
  if skipped_status tx then []
  else if shadowed used_by tx then []
  else flat_map (input_marks all tx_map tx) (get_inputs tx) ++
       flat_map (output_marks all tx) (numbered_outputs tx).

(** A transaction that is not broadcast yet. *)
Definition unbroadcast_status (s : TransactionStatus.t) : Prop :=
  s = TransactionStatus.PENDING_SIGNATURES ∨
  s = TransactionStatus.READY_TO_BROADCAST.

(** [c] keeps [P]: whatever [c] returns or throws, a state in [P] is left
    in [P]. *)
Definition keeps {S A} (P : S → Prop) (c : StateM S A) : Prop :=
  ∀ st, P st → P (c st).2.

(** The transaction view with another id and block time 0. *)
Definition retagged (tx_id : string) (tx : Transaction) : Transaction :=
  mkTransaction tx_id (get_height tx) (get_inputs tx) (get_outputs tx)
    (get_user_outputs tx) (get_receive_outputs tx) (get_change_index tx)
    (get_m tx) (get_signers tx) (get_memo tx) (get_status tx)
    (get_replaced_by_txid tx) (get_replace_txid tx) (get_fee tx)
    (get_fee_rate tx) 0 (is_subtract_fee_from_amount tx)
    (is_receive tx) (get_sub_amount tx) (get_psbt tx) (get_raw tx)
    (get_reject_msg tx) (get_schedule_time tx).

(** The rows of VTX that carry an id. *)
Definition rows_with_id (tx_id : string) (db : WalletDb)
  : list (string * VtxRow) :=
  filter (fun ir => ir.1 = tx_id) (map_to_list (VTX db)).

(** The record of an address in the cached map, if there is one. *)
Definition cached_record (address : string) (db : WalletDb)
  : option AddressData :=
  addr_cache db ≫= (fun cache => cache !! address).

(** The address has a record in the cached map. *)
Definition cached_address (address : string) (db : WalletDb) : Prop :=
  is_Some (cached_record address db).

(** The cached record of an address is marked used. *)
Definition marked_used (address : string) (db : WalletDb) : Prop :=
  ad_used <$> cached_record address db = Some true.

(** What a call returned, when it did not throw. *)
Definition returned {A} (r : Result A) : option A :=
  match r with
  | Ok a => Some a
  | Throw _ => None
  end.

(** The JSON document in the EXTRA column of a row, if it holds one. *)
Definition extra_of (tx_id : string) (db : WalletDb) : option ExtraJson :=
  match VTX db !! tx_id with
  | Some row =>
      match EXTRA row with
      | SqlText extra => extra
      | SqlNull => None
      end
  | None => None
  end.

(** The calls on the wallet store, [ForceRefresh] apart (it empties both
    tables and erases the cache entry). *)
Inductive Operation :=
  | OpSetAddress (address : string) (index : Z) (internal : bool)
      (utxos : string)
  | OpAddAddress (address : string) (index : Z) (internal : bool)
  | OpUseAddress (address : string)
  | OpSetUtxos (address utxo : string)
  | OpGetAllAddressData
  | OpGetTransaction (tx_id : string)
  | OpFillSendReceiveData (tx : Transaction)
  | OpInsertTransaction (raw_tx : string) (height blocktime fee : Z)
      (memo : string) (change_pos : Z)
  | OpUpdateTransaction (raw_tx : string) (height blocktime : Z)
      (reject_msg : string)
  | OpCreatePsbt (psbt : string) (fee : Z) (memo : string) (change_pos : Z)
      (outputs : gmap string Z) (fee_rate : Z) (subtract : bool)
      (replace_tx : string)
  | OpUpdatePsbtTxId (old_id new_id : string)
  | OpDeleteTransaction (tx_id : string).

(** The store an operation leaves, whether it returns or throws. *)
Definition run `{Wallet} (op : Operation) (db : WalletDb) : WalletDb :=
  match op with
  | OpSetAddress address index internal utxos =>
      exec (SetAddress address index internal utxos) db
  | OpAddAddress address index internal =>
      exec (AddAddress address index internal) db
  | OpUseAddress address => exec (UseAddress address) db
  | OpSetUtxos address utxo => exec (SetUtxos address utxo) db
  | OpGetAllAddressData => exec GetAllAddressData db
  | OpGetTransaction tx_id => exec (GetTransaction tx_id) db
  | OpFillSendReceiveData tx => exec (FillSendReceiveData tx) db
  | OpInsertTransaction raw_tx height blocktime fee memo change_pos =>
      exec (InsertTransaction raw_tx height blocktime fee memo change_pos) db
  | OpUpdateTransaction raw_tx height blocktime reject_msg =>
      exec (UpdateTransaction raw_tx height blocktime reject_msg) db
  | OpCreatePsbt psbt fee memo change_pos outputs fee_rate subtract
      replace_tx =>
      exec (CreatePsbt psbt fee memo change_pos outputs fee_rate subtract
              replace_tx) db
  | OpUpdatePsbtTxId old_id new_id => exec (UpdatePsbtTxId old_id new_id) db
  | OpDeleteTransaction tx_id => exec (DeleteTransaction tx_id) db
  end.

Definition run_all `{Wallet} (ops : list Operation) (db : WalletDb)
  : WalletDb :=
  fold_left (fun db op => run op db) ops db.

(** ** A concrete wallet for the examples *)

(** Payloads are decoded through a table: the id, the inputs and the
    outputs of the transaction, and whether the payload is a PSBT. *)
Record Skeleton := mkSkeleton {
  sk_txid : string;
  sk_inputs : list TxInput;
  sk_outputs : list TxOutput;
  sk_is_psbt : bool
}.

Definition demo_payloads : list (string * Skeleton) :=
  [ ("rawT1", mkSkeleton "t1" [("t0", 0)] [("ext3", 50000)] false);
    ("psbtT2", mkSkeleton "t2" [("t1", 0)] [("dest", 40000)] true);
    ("rawT2", mkSkeleton "t2" [("t1", 0)] [("dest", 40000)] false);
    ("rawA", mkSkeleton "a" [("t1", 0)] [("ext1", 30000)] false);
    ("psbtB", mkSkeleton "b" [("t1", 0)] [("ext2", 29000)] true);
    ("rawB", mkSkeleton "b" [("t1", 0)] [("ext2", 29000)] false);
    ("rawR", mkSkeleton "r" [("z", 1)] [("ext25", 7000)] false) ].

(** Modelled from the spec: [GetTransactionFromStr] (utils/txutils.hpp) is
    not among the sources.  The status follows the state machine of the
    transaction store: height -1 is unbroadcast (PENDING_SIGNATURES for a
    PSBT, READY_TO_BROADCAST for a signed payload), height 0 is
    PENDING_CONFIRMATION, a height above 0 is CONFIRMED, and what is left
    (the rejection sentinel) is NETWORK_REJECTED. *)
Definition demo_status (height : Z) (is_psbt : bool) : TransactionStatus.t :=
  if height =? -1 then
    if is_psbt then TransactionStatus.PENDING_SIGNATURES
    else TransactionStatus.READY_TO_BROADCAST
  else if height =? 0 then TransactionStatus.PENDING_CONFIRMATION
  else if 0 <? height then TransactionStatus.CONFIRMED
  else TransactionStatus.NETWORK_REJECTED.

Definition demo_skeleton (value : string) : Skeleton :=
  default (mkSkeleton "" [] [] false)
    ((list_to_map demo_payloads : gmap string Skeleton) !! value).

Definition demo_GetTransactionFromStr (value : string) (m height : Z)
  : Transaction * bool :=
  let sk := demo_skeleton value in
  (mkTransaction (sk_txid sk) height (sk_inputs sk) (sk_outputs sk) [] []
     (-1) m {["key1" := negb (sk_is_psbt sk)]} ""
     (demo_status height (sk_is_psbt sk)) "" "" 0 0 0 false false 0
     (if sk_is_psbt sk then value else "")
     (if sk_is_psbt sk then "" else value) "" (-1),
   negb (sk_is_psbt sk)).

#[global] Instance demo_wallet : Wallet := {|
  is_escrow := false;
  wallet_m := 1;
  DeriveAddress := "escrow";
  DeriveAddressAt := fun internal index =>
    (if internal then "int" else "ext") +:+ pretty index;
  GetTransactionFromStr := demo_GetTransactionFromStr;
  RawTxId := fun raw => sk_txid (demo_skeleton raw);
  PsbtTxId := fun psbt => sk_txid (demo_skeleton psbt);
  GetVirtualTransactionSize := fun _ => 100
|}.

Definition empty_db : WalletDb := mkWalletDb ∅ ∅ None.


(** The transactions of the examples: [t1] pays the external address of
    index 3 and is confirmed at height 100; [a] and [b] both spend its
    output; [t2] is an unbroadcast PSBT that spends it too. *)
Definition demo_T1 : Transaction :=
  (demo_GetTransactionFromStr "rawT1" 1 100).1.
Definition demo_TA : Transaction :=
  (demo_GetTransactionFromStr "rawA" 1 0).1.
Definition demo_TB : Transaction :=
  (demo_GetTransactionFromStr "rawB" 1 0).1.
Definition demo_TB_confirmed : Transaction :=
  (demo_GetTransactionFromStr "rawB" 1 101).1.
Definition demo_T2 : Transaction :=
  (demo_GetTransactionFromStr "psbtT2" 1 (-1)).1.

(** A transaction [c] that awaits signatures and spends the first output
    of [a]. *)
Definition demo_TC : Transaction :=
  mkTransaction "c" (-1) [("a", 0)] [("dest", 20000)] [] [] (-1) 1 ∅ ""
    TransactionStatus.PENDING_SIGNATURES "" "" 0 0 0 false false 0 "" ""
    "" (-1).

(** The addresses of a fresh store: indices 0 to 19 of both branches. *)
Definition demo_addresses : gmap string AddressData :=
  derive_address_data empty_db.

(** The store of the balance scenario: [t1] inserted at height 100, then
    the PSBT [t2] created on top of it. *)
Definition demo_balance_db : WalletDb :=
  exec (CreatePsbt "psbtT2" 1000 "" (-1) {["dest" := 40000]} 1 false "")
    (exec (InsertTransaction "rawT1" 100 1700000000 0 "" (-1)) empty_db).

Definition demo_balance_txs : list Transaction :=
  match GetTransactions demo_balance_db with
  | Ok txs => txs
  | Throw _ => []
  end.

(** A store with the unbroadcast PSBT [b], created as the replacement of
    [a], and the transaction [a] in the mempool. *)
Definition demo_replace_db : WalletDb :=
  exec (CreatePsbt "psbtB" 1200 "bump" (-1) {["ext2" := 29000]} 5 false "a")
    (exec (CreatePsbt "rawA" 1000 "pay" (-1) {["ext1" := 30000]} 2 false "")
       empty_db).

Definition demo_replace_db_sent : WalletDb :=
  exec (UpdateTransaction "rawA" 0 0 "") demo_replace_db.

(** Stores with an unbroadcast row for [t2] whose EXTRA is the empty text
    (the row [InsertTransaction] writes) and whose EXTRA is NULL (a row
    older than the column). *)
Definition demo_empty_extra_db : WalletDb :=
  exec (InsertTransaction "rawT2" (-1) 0 0 "" (-1)) empty_db.

Definition demo_null_extra_db : WalletDb :=
  mkWalletDb {["t2" := mkVtxRow "psbtT2" (-1) 0 "" (-1) 0 SqlNull]} ∅ None.

(** A store whose address cache was filled while the store was empty;
    then the external address of index 1 was registered, a transaction
    paying it was inserted, and its UTXO status was recorded. *)
Definition demo_stale_db : WalletDb :=
  exec (SetUtxos "ext1" "a:0|status")
    (exec (InsertTransaction "rawA" 0 0 0 "" (-1))
       (exec (AddAddress "ext1" 1 false)
          (exec GetAllAddressData empty_db))).

(** A store without a cached map where the external address of index 7
    is registered. *)
Definition demo_registered_db : WalletDb :=
  exec (SetAddress "ext7" 7 false "t:0|status") empty_db.

(** Two chain-data clients that know the transaction [a]: one answers
    batch requests but its batch answer came back empty, the other has no
    batch support. *)
Definition demo_batch_client : ElectrumClient := {|
  support_batch_requests := true;
  blockchain_transaction_get := fun tx_id =>
    if String.eqb tx_id "a" then Some "rawA" else None;
  blockchain_block_header := fun _ => Some "header";
  get_multi_rawtx := fun _ => ∅;
  get_multi_rawheader := fun _ => ∅;
  GetBlockTime := fun _ => 1700000000;
  status_is_READY := true
|}.

Definition demo_sequential_client : ElectrumClient := {|
  support_batch_requests := false;
  blockchain_transaction_get := fun tx_id =>
    if String.eqb tx_id "a" then Some "rawA" else None;
  blockchain_block_header := fun _ => Some "header";
  get_multi_rawtx := fun _ => ∅;
  get_multi_rawheader := fun _ => ∅;
  GetBlockTime := fun _ => 1700000000;
  status_is_READY := true
|}.

(** The synchroniser over a store that holds [a], received and still in
    the mempool, and a history that lists [a] as unconfirmed. *)
Definition demo_sync_state : SyncState :=
  mkSyncState (exec (InsertTransaction "rawA" 0 0 0 "" (-1)) empty_db) [].

Definition demo_history : History :=
  HistoryArray [mkHistoryItem "a" 0 None].

(** [UpdateTransactions] on that state and history, with either client. *)
Definition demo_batch_run : Result bool * SyncState :=
  @UpdateTransactions demo_wallet demo_batch_client demo_history
    demo_sync_state.

Definition demo_sequential_run : Result bool * SyncState :=
  @UpdateTransactions demo_wallet demo_sequential_client demo_history
    demo_sync_state.

(** The ids of the pending receive transactions of a store. *)
Definition pending_receive_ids `{Wallet} (db : WalletDb)
  : option (list string) :=
  match result
          (storage_GetTransactions TransactionStatus.PENDING_CONFIRMATION
             true) db with
  | Ok txs => Some (get_txid <$> txs)
  | Throw _ => None
  end.

(** ** Time locks: dto/timelock.cpp *)

Module Timelock.

(** The enumerators that timelock.cpp names. *)
Inductive Based := NONE | TIME_LOCK | HEIGHT_LOCK.
Inductive Type_ := LOCKTYPE_ABSOLUTE | LOCKTYPE_RELATIVE.

#[global] Instance Based_eq_dec : EqDecision Based.
Proof. solve_decision. Defined.
#[global] Instance Type_eq_dec : EqDecision Type_.
Proof. solve_decision. Defined.

(** The members [based_], [type_] and [value_] (an [int64_t]). *)
Record t := mk {
  based_ : Based;
  type_ : Type_;
  value_ : Z
}.

(** A value, or [NunchukException(INVALID_PARAMETER, message)]. *)
Inductive Checked (A : Type) :=
  | Valid (a : A)
  | Invalid (message : string).
Arguments Valid {A} a.
Arguments Invalid {A} message.

(** Constants of Bitcoin Core that timelock.cpp reads through
    primitives/transaction.h: [LOCKTIME_THRESHOLD] of script/script.h and
    the relative lock-time constants of [CTxIn] (BIP 68). *)
Definition LOCKTIME_THRESHOLD : Z := 500000000.
Definition SEQUENCE_LOCKTIME_TYPE_FLAG : Z := Z.shiftl 1 22.
Definition SEQUENCE_LOCKTIME_MASK : Z := 65535.
Definition SEQUENCE_LOCKTIME_GRANULARITY : Z := 9.

(** [Timelock::k()].  The bit operations act on values the checks have
    bounded, so they are the ones of [Z]. *)
Definition k (tl : t) : Checked Z :=
  match type_ tl with
  | LOCKTYPE_ABSOLUTE =>
      if (value_ tl <? LOCKTIME_THRESHOLD) &&
         bool_decide (based_ tl = TIME_LOCK)
      then Invalid "Invalid time value"
      else if (LOCKTIME_THRESHOLD <=? value_ tl) &&
              bool_decide (based_ tl = HEIGHT_LOCK)
      then Invalid "Invalid height value"
      else Valid (value_ tl)
  | LOCKTYPE_RELATIVE =>
      match based_ tl with
      | TIME_LOCK =>
          if (value_ tl <? 0) || (33554431 <=? value_ tl)
          then Invalid "Invalid time value"
          else Valid (Z.lor
                        (Z.shiftr (value_ tl) SEQUENCE_LOCKTIME_GRANULARITY)
                        SEQUENCE_LOCKTIME_TYPE_FLAG)
      | HEIGHT_LOCK =>
          if (value_ tl <? 0) || (65535 <=? value_ tl)
          then Invalid "Invalid height value"
          else Valid (Z.land (value_ tl) SEQUENCE_LOCKTIME_MASK)
      | NONE => Valid 0
      end
  end.

(** The constructor: the clamp of a relative time lock, then the call of
    [k()] for its checks. *)
Definition Timelock (based : Based) (type : Type_) (value : Z) : Checked t :=
  let value_ :=
    if bool_decide (based = TIME_LOCK) &&
       bool_decide (type = LOCKTYPE_RELATIVE) && (value <? 512)
    then 512 else value in
  let tl := mk based type value_ in
  match k tl with
  | Valid _ => Valid tl
  | Invalid message => Invalid message
  end.

(** [Timelock::FromK(is_absolute, k)] *)
Definition FromK (is_absolute : bool) (k : Z) : Checked t :=
  let '(b, t, v) :=
    if is_absolute then
      (if LOCKTIME_THRESHOLD <=? k then TIME_LOCK else HEIGHT_LOCK,
       LOCKTYPE_ABSOLUTE, k)
    else if negb (Z.land k SEQUENCE_LOCKTIME_TYPE_FLAG =? 0) then
      (TIME_LOCK, LOCKTYPE_RELATIVE,
       Z.shiftl (Z.land k SEQUENCE_LOCKTIME_MASK)
         SEQUENCE_LOCKTIME_GRANULARITY)
    else
      (HEIGHT_LOCK, LOCKTYPE_RELATIVE, Z.land k SEQUENCE_LOCKTIME_MASK) in
  let b := if v =? 0 then NONE else b in
  Timelock b t v.

(** [Timelock::to_miniscript()] *)
Definition to_miniscript (tl : t) : Checked string :=
  match k tl with
  | Valid n =>
      Valid (match type_ tl with
             | LOCKTYPE_ABSOLUTE => "after(" +:+ pretty n +:+ ")"
             | LOCKTYPE_RELATIVE => "older(" +:+ pretty n +:+ ")"
             end)
  | Invalid message => Invalid message
  end.

End Timelock.

(** ** String utilities: utils/stringutils.hpp *)

(** The character ['|'] that separates the two parts of an address
    status. *)
Definition PIPE : Ascii.ascii := Ascii.ascii_of_nat 124.

(** [join(v, delim)]: the delimiter goes before every element but the
    first. *)
Definition join (v : list string) (delim : Ascii.ascii) : string :=
  fold_left
    (fun (s : string) (ii : nat * string) =>
       if decide (ii.1 = 0%nat) then s +:+ ii.2
       else s +:+ String delim ii.2)
    (imap (fun i x => (i, x)) v) "".

(** [std::getline(ss, item, delim)] on the characters a stream has left:
    the characters up to the delimiter, which is extracted and dropped, or
    up to the end of the stream, which sets [eofbit].  The stream left is
    [None] once [eofbit] is set. *)
Fixpoint getline_chars (delim : Ascii.ascii) (s : string)
  : string * option string :=
  match s with
  | EmptyString => (EmptyString, None)
  | String c s' =>
      if Ascii.eqb c delim then (EmptyString, Some s')
      else let '(item, rest) := getline_chars delim s' in
           (String c item, rest)
  end.

(** The call fails, and the loop of [split] ends, when the stream is not
    good or no character at all could be extracted. *)
Definition getline (delim : Ascii.ascii) (ss : option string)
  : option (string * option string) :=
  match ss with
  | None => None
  | Some EmptyString => None
  | Some s => Some (getline_chars delim s)
  end.

(** [while (std::getline(ss, item, delim)) result.push_back(item);] with a
    bound on the number of turns; [None] when the bound is reached. *)
Fixpoint split_loop (turns : nat) (delim : Ascii.ascii) (ss : option string)
    (result : list string) : option (list string) :=
  match turns with
  | O => None
  | S turns' =>
      match getline delim ss with
      | None => Some result
      | Some (item, ss') => split_loop turns' delim ss' (result ++ [item])
      end
  end.

(** [split(s, delim)].  Every turn but the last extracts a character, so
    one turn more than the string has characters ends the loop
    ([split_loop_total] below). *)
Definition split (s : string) (delim : Ascii.ascii) : list string :=
  default [] (split_loop (S (String.length s)) delim (Some s) []).

(** Whether a character occurs in a string. *)
Fixpoint has_char (c : Ascii.ascii) (s : string) : bool :=
  match s with
  | EmptyString => false
  | String c' s' => Ascii.eqb c' c || has_char c s'
  end.

(** What [split] gives back of strings that were joined: a last string
    that is empty is not seen. *)
Definition without_empty_last (v : list string) : list string :=
  match last v with
  | Some EmptyString => removelast v
  | _ => v
  end.

(** The characters [join] puts after the first string. *)
Definition join_tail (v : list string) (delim : Ascii.ascii) : string :=
  foldr (fun y acc => String delim (y +:+ acc)) "" v.

Definition stream_length (ss : option string) : nat :=
  match ss with
  | Some s => String.length s
  | None => 0
  end.

(** ** Wallet store: memo, schedule, PSBT and address queries *)

Definition row_with_MEMO (m : string) (r : VtxRow) : VtxRow :=
  mkVtxRow (VALUE r) (HEIGHT r) (FEE r) m (CHANGEPOS r) (BLOCKTIME r)
    (EXTRA r).

Definition ej_with_schedule_time (v : option Z) (j : ExtraJson) : ExtraJson :=
  mkExtraJson (ej_signers j) (ej_outputs j) (ej_fee_rate j) (ej_subtract j)
    (ej_replace_txid j) v (ej_replaced_by_txid j) (ej_reject_msg j).

(** [json{}]: no member is set. *)
Definition ej_null : ExtraJson :=
  mkExtraJson None None None None None None None None.

(** [UPDATE VTX SET MEMO = ?1 WHERE ID = ?2] *)
Definition UpdateTransactionMemo (tx_id memo : string) : M bool :=
  sql_update_vtx tx_id (row_with_MEMO memo).

(** [UpdateTransactionSchedule]: a row with a non-NULL EXTRA gets
    [schedule_time] in its JSON document, the empty text standing for
    [json{}]; without such a row nothing is written. *)
Definition UpdateTransactionSchedule (tx_id : string) (value : Z) : M bool :=
  let* db := get_db in
  match EXTRA <$> VTX db !! tx_id with
  | Some (SqlText extra) =>
      let* extra_json :=
        match extra with
        | None => ret ej_null
        | Some _ => lift (json_parse extra)
        end in
      let* _ := sql_update_vtx tx_id
                  (row_with_EXTRA
                     (SqlText
                        (Some (ej_with_schedule_time (Some value)
                                 extra_json)))) in
      ret true
  | Some SqlNull | None => ret false
  end.

(** [SELECT VALUE FROM VTX WHERE ID = ? AND HEIGHT = -1], and the empty
    string when there is no such row. *)
Definition GetPsbt (tx_id : string) (db : WalletDb) : string :=
  match select_unbroadcast tx_id db with
  | Some row => VALUE row
  | None => ""
  end.

(** [SELECT UTXO FROM ADDRESS WHERE ADDR = ? AND UTXO IS NOT NULL]: the
    column is read as a C string, and the status is the second of the
    parts of it that ['|'] separates, when there are two.  A NULL column
    reads like the empty text here, which has no part. *)
Definition GetAddressStatus (address : string) (db : WalletDb) : string :=
  match ADDRESS db !! address with
  | Some row =>
      let utxo := split (c_str (UTXO row)) PIPE in
      if (1 <? length utxo)%nat then default "" (utxo !! 1%nat) else ""
  | None => ""
  end.

(** The text that [UpdateScripthashStatus] and [UpdateScripthashesStatus]
    (electrum/synchronizer.cpp) hand to [SetUtxos]:
    [join(std::vector{utxo.dump(), status}, '|')], where [utxo] is a
    default-constructed JSON value, whose dump is [null]. *)
Definition utxostatus (status : string) : string :=
  join ["null"; status] PIPE.

(** [tx.set_memo] and [tx.set_schedule_time] *)
Definition set_memo (memo : string) (tx : Transaction) : Transaction :=
  mkTransaction
    (get_txid tx) (get_height tx) (get_inputs tx) (get_outputs tx)
    (get_user_outputs tx) (get_receive_outputs tx) (get_change_index tx)
    (get_m tx) (get_signers tx) memo (get_status tx)
    (get_replaced_by_txid tx) (get_replace_txid tx) (get_fee tx)
    (get_fee_rate tx) (get_blocktime tx) (is_subtract_fee_from_amount tx)
    (is_receive tx) (get_sub_amount tx) (get_psbt tx) (get_raw tx)
    (get_reject_msg tx) (get_schedule_time tx).

Definition set_schedule_time (value : Z) (tx : Transaction) : Transaction :=
  mkTransaction
    (get_txid tx) (get_height tx) (get_inputs tx) (get_outputs tx)
    (get_user_outputs tx) (get_receive_outputs tx) (get_change_index tx)
    (get_m tx) (get_signers tx) (get_memo tx) (get_status tx)
    (get_replaced_by_txid tx) (get_replace_txid tx) (get_fee tx)
    (get_fee_rate tx) (get_blocktime tx) (is_subtract_fee_from_amount tx)
    (is_receive tx) (get_sub_amount tx) (get_psbt tx) (get_raw tx)
    (get_reject_msg tx) value.

Section WalletStoreQueries.
Context `{Wallet}.

(** [UPDATE VTX SET VALUE = ?1 WHERE ID = ?2 AND HEIGHT = -1], then the
    read that refreshes the used addresses. *)
Definition UpdatePsbt (psbt : string) : M bool :=
  let tx_id := PsbtTxId psbt in
  let* db := get_db in
  let* updated :=
    match select_unbroadcast tx_id db with
    | Some _ => sql_update_vtx tx_id (row_with_VALUE psbt)
    | None => ret false
    end in
  let* _ := if updated : bool
            then let* _ := GetTransaction tx_id in ret tt
            else ret tt in
  ret updated.

(** [GetAddressIndex]: the index of a known address, and -1. *)
Definition GetAddressIndex (address : string) : M Z :=
  let* all := GetAllAddressData in
  ret match all !! address with
      | Some d => ad_index d
      | None => -1
      end.

End WalletStoreQueries.

(** The indices that the cached address map records. *)
Definition index_view (db : WalletDb) : option (gmap string Z) :=
  fmap (M := gmap string) ad_index <$> addr_cache db.

(** A store with a cached address map where the external address of
    index 1 was registered. *)
Definition demo_known_db : WalletDb :=
  exec (AddAddress "ext1" 1 false) (exec GetAllAddressData empty_db).

(** ** Vocabulary of the coin ledger *)

(** The character [':'] of a coin id. *)
Definition COLON : Ascii.ascii := Ascii.ascii_of_nat 58.

(** A coin of the ledger is sound for a transaction set and an address map
    when it is an output of one of the transactions that pays an address
    of the map, and its key is the coin id of that output. *)
Definition coin_sound (all : gmap string AddressData)
    (transactions : list Transaction) (id : string) (c : UnspentOutput)
  : Prop :=
  id = CoinId (utxo_txid c) (utxo_vout c) ∧
  IsMyAddress all (utxo_address c) = true ∧
  ∃ tx, tx ∈ transactions ∧ get_txid tx = utxo_txid c ∧
        output_at (get_outputs tx) (utxo_vout c)
          = (utxo_address c, utxo_amount c).

Definition coins_sound (all : gmap string AddressData)
    (transactions : list Transaction) (coins : gmap string UnspentOutput)
  : Prop :=
  map_Forall (coin_sound all transactions) coins.

(** ** Balance of one address *)

(** Body of the loop of [GetAddressBalance]: the two [continue]s, then
    the sum. *)
Definition GetAddressBalance_step (address : string) (balance : Z)
    (coin : UnspentOutput) : Z :=
  if bool_decide (utxo_status coin = CoinStatus.SPENT) ||
     bool_decide (utxo_status coin = CoinStatus.OUTGOING_PENDING_CONFIRMATION)
     || bool_decide
          (utxo_status coin = CoinStatus.INCOMING_PENDING_CONFIRMATION)
  then balance
  else if negb (String.eqb (utxo_address coin) address) then balance
  else balance + utxo_amount coin.

Definition address_balance_of (address : string) (coins : list UnspentOutput)
  : Z :=
  fold_left (GetAddressBalance_step address) coins 0.

Definition GetAddressBalance `{Wallet} (address : string) (db : WalletDb)
  : Result Z :=
  match GetCoins db with
  | Ok coins => Ok (address_balance_of address coins)
  | Throw e => Throw e
  end.

(** The sum of a quantity over a list. *)
Fixpoint sum_of {A} (f : A → Z) (l : list A) : Z :=
  match l with
  | [] => 0
  | x :: l' => f x + sum_of f l'
  end.

(** The amount of a coin when it is change that is not confirmed yet. *)
Definition pending_change (coin : UnspentOutput) : Z :=
  if utxo_change coin &&
     bool_decide (utxo_status coin = CoinStatus.INCOMING_PENDING_CONFIRMATION)
  then utxo_amount coin else 0.

(** ** Coin control: tags, collections, memos and locks *)

(** The tables of [CreateCoinControlTable].  COININFO is keyed by the coin
    id; TAGS and COLLECTIONS by their integer id, with a NAME that is
    UNIQUE; COINTAGS and COINCOLLECTIONS hold pairs (coin, id), the pair
    being the primary key.  The SETTINGS text of a collection is the dump
    of its two flags.  The calls of walletdb.cpp on these tables touch no
    other table, and no other call touches these, so they run on a state
    of their own.  The order in which SQLite returns rows is not
    modelled: a query answers the rows of a finite map or set. *)
Record CoinInfoRow := mkCoinInfoRow {
  CI_MEMO : string;
  CI_LOCKED : Z
}.

Record TagRow := mkTagRow {
  TAG_NAME : string;
  TAG_COLOR : string
}.

Record CollectionRow := mkCollectionRow {
  COLLECTION_NAME : string;
  COLLECTION_add_new_coin : bool;
  COLLECTION_auto_lock : bool
}.

Record CoinControl := mkCoinControl {
  COININFO : gmap string CoinInfoRow;
  TAGS : gmap Z TagRow;
  COINTAGS : gset (string * Z);
  COLLECTIONS : gmap Z CollectionRow;
  COINCOLLECTIONS : gset (string * Z)
}.

Definition with_COININFO (t : gmap string CoinInfoRow) (db : CoinControl)
  : CoinControl :=
  mkCoinControl t (TAGS db) (COINTAGS db) (COLLECTIONS db)
    (COINCOLLECTIONS db).

Definition with_TAGS (t : gmap Z TagRow) (db : CoinControl) : CoinControl :=
  mkCoinControl (COININFO db) t (COINTAGS db) (COLLECTIONS db)
    (COINCOLLECTIONS db).

Definition with_COINTAGS (t : gset (string * Z)) (db : CoinControl)
  : CoinControl :=
  mkCoinControl (COININFO db) (TAGS db) t (COLLECTIONS db)
    (COINCOLLECTIONS db).

Definition with_COLLECTIONS (t : gmap Z CollectionRow) (db : CoinControl)
  : CoinControl :=
  mkCoinControl (COININFO db) (TAGS db) (COINTAGS db) t
    (COINCOLLECTIONS db).

Definition with_COINCOLLECTIONS (t : gset (string * Z)) (db : CoinControl)
  : CoinControl :=
  mkCoinControl (COININFO db) (TAGS db) (COINTAGS db) (COLLECTIONS db) t.

(** What a coin control call can throw: the two storage exceptions the
    file raises itself, the storage error that [SQLCHECK] raises when a
    statement failed on a constraint, and an exception of the JSON
    library. *)
Inductive CoinControlException :=
  | TAG_EXISTS
  | COLLECTION_EXISTS
  | CONSTRAINT_FAILED
  | JSON_EXCEPTION.

Inductive Outcome (A : Type) :=
  | Returns (a : A)
  | Raises (e : CoinControlException).
Arguments Returns {A} a.
Arguments Raises {A} e.

(** [INSERT INTO COININFO ... ON CONFLICT(COIN) DO UPDATE SET
    MEMO=excluded.MEMO]; an upsert always changes one row. *)
Definition UpdateCoinMemo (tx_id : string) (vout : Z) (memo : string)
    (db : CoinControl) : bool * CoinControl :=
  let coin := CoinId tx_id vout in
  (true,
   with_COININFO
     (<[coin := match COININFO db !! coin with
                | Some r => mkCoinInfoRow memo (CI_LOCKED r)
                | None => mkCoinInfoRow memo 0
                end]> (COININFO db)) db).

(** The upsert of [LockCoin] (LOCKED 1) and of [UnlockCoin] (LOCKED 0),
    which keeps the memo of a row that is there. *)
Definition set_locked (locked : Z) (tx_id : string) (vout : Z)
    (db : CoinControl) : bool * CoinControl :=
  let coin := CoinId tx_id vout in
  (true,
   with_COININFO
     (<[coin := match COININFO db !! coin with
                | Some r => mkCoinInfoRow (CI_MEMO r) locked
                | None => mkCoinInfoRow "" locked
                end]> (COININFO db)) db).

Definition LockCoin : string → Z → CoinControl → bool * CoinControl :=
  set_locked 1.

Definition UnlockCoin : string → Z → CoinControl → bool * CoinControl :=
  set_locked 0.

Definition IsLock (tx_id : string) (vout : Z) (db : CoinControl) : bool :=
  match COININFO db !! CoinId tx_id vout with
  | Some r => bool_decide (CI_LOCKED r = 1)
  | None => false
  end.

(** The row id SQLite gives to a row inserted without one: one more than
    the largest in use, and 1 in an empty table.  (When the largest in
    use is the largest 64-bit integer, SQLite tries unused ids at random
    instead; that case is left out.) *)
Definition next_rowid {A} (table : gmap Z A) : Z :=
  match (map_to_list table).*1 with
  | [] => 1
  | i :: l => foldr Z.max i l + 1
  end.

Definition name_taken {A} (name_of : A → string) (name : string)
    (table : gmap Z A) : bool :=
  bool_decide (Exists (fun ir => name_of ir.2 = name) (map_to_list table)).

(** [CreateCoinTag]: the INSERT fails on a NAME that is taken, which
    leaves [sqlite3_changes] at 0; otherwise the row is stored under the
    new row id, and [last_insert_rowid()] is returned as the [int] that
    [sqlite3_column_int] reads. *)
Definition CreateCoinTag (name color : string) (db : CoinControl)
  : Outcome Z * CoinControl :=
  if name_taken TAG_NAME name (TAGS db) then (Raises TAG_EXISTS, db)
  else
    let rowid := next_rowid (TAGS db) in
    (Returns (sqlite3_column_int rowid),
     with_TAGS (<[rowid := mkTagRow name color]> (TAGS db)) db).

(** [GetCoinTags]: of every row the id as an [int], and the name and the
    colour as C strings. *)
Definition GetCoinTags (db : CoinControl) : list (Z * TagRow) :=
  (fun ir : Z * TagRow =>
     (sqlite3_column_int ir.1,
      mkTagRow (c_str (TAG_NAME ir.2)) (c_str (TAG_COLOR ir.2))))
    <$> map_to_list (TAGS db).

(** [UpdateCoinTag]: no row of the id changes nothing; a NAME that another
    row holds fails the UPDATE, which [SQLCHECK] reports. *)
Definition UpdateCoinTag (id : Z) (name color : string) (db : CoinControl)
  : Outcome bool * CoinControl :=
  match TAGS db !! id with
  | None => (Returns false, db)
  | Some _ =>
      if name_taken TAG_NAME name (delete id (TAGS db))
      then (Raises CONSTRAINT_FAILED, db)
      else (Returns true,
            with_TAGS (<[id := mkTagRow name color]> (TAGS db)) db)
  end.

(** [DeleteCoinTag]: the row of the tag, then every membership of the
    tag. *)
Definition DeleteCoinTag (tag_id : Z) (db : CoinControl)
  : bool * CoinControl :=
  (bool_decide (is_Some (TAGS db !! tag_id)),
   with_COINTAGS (filter (fun ct => ct.2 ≠ tag_id) (COINTAGS db))
     (with_TAGS (delete tag_id (TAGS db)) db)).

(** [INSERT OR IGNORE INTO COINTAGS] *)
Definition AddToCoinTag (tag_id : Z) (tx_id : string) (vout : Z)
    (db : CoinControl) : bool * CoinControl :=
  let coin := CoinId tx_id vout in
  if bool_decide ((coin, tag_id) ∈ COINTAGS db) then (false, db)
  else (true, with_COINTAGS ({[(coin, tag_id)]} ∪ COINTAGS db) db).


Definition GetCoinByTag (tag_id : Z) (db : CoinControl) : list string :=
  (elements (filter (fun ct => ct.2 = tag_id) (COINTAGS db))).*1.

Definition GetAddedTags (tx_id : string) (vout : Z) (db : CoinControl)
  : list Z :=
  (elements (filter (fun ct => ct.1 = CoinId tx_id vout) (COINTAGS db))).*2.

(** [CreateCoinCollection]: both settings start false; the id is
    returned as in [CreateCoinTag]. *)
Definition CreateCoinCollection (name : string) (db : CoinControl)
  : Outcome Z * CoinControl :=
  if name_taken COLLECTION_NAME name (COLLECTIONS db)
  then (Raises COLLECTION_EXISTS, db)
  else
    let rowid := next_rowid (COLLECTIONS db) in
    (Returns (sqlite3_column_int rowid),
     with_COLLECTIONS
       (<[rowid := mkCollectionRow name false false]> (COLLECTIONS db)) db).

(** [GetCoinCollections]: of every row the id as an [int], the name as a
    C string and the two flags of the settings. *)
Definition GetCoinCollections (db : CoinControl)
  : list (Z * CollectionRow) :=
  (fun ir : Z * CollectionRow =>
     (sqlite3_column_int ir.1,
      mkCollectionRow (c_str (COLLECTION_NAME ir.2))
        (COLLECTION_add_new_coin ir.2) (COLLECTION_auto_lock ir.2)))
    <$> map_to_list (COLLECTIONS db).

Definition UpdateCoinCollection (id : Z) (name : string)
    (is_add_new_coin is_auto_lock : bool) (db : CoinControl)
  : Outcome bool * CoinControl :=
  match COLLECTIONS db !! id with
  | None => (Returns false, db)
  | Some _ =>
      if name_taken COLLECTION_NAME name (delete id (COLLECTIONS db))
      then (Raises CONSTRAINT_FAILED, db)
      else (Returns true,
            with_COLLECTIONS
              (<[id := mkCollectionRow name is_add_new_coin is_auto_lock]>
                 (COLLECTIONS db)) db)
  end.

Definition DeleteCoinCollection (collection_id : Z) (db : CoinControl)
  : bool * CoinControl :=
  (bool_decide (is_Some (COLLECTIONS db !! collection_id)),
   with_COINCOLLECTIONS
     (filter (fun cc => cc.2 ≠ collection_id) (COINCOLLECTIONS db))
     (with_COLLECTIONS (delete collection_id (COLLECTIONS db)) db)).

Definition AddToCoinCollection (collection_id : Z) (tx_id : string)
    (vout : Z) (db : CoinControl) : bool * CoinControl :=
  let coin := CoinId tx_id vout in
  if bool_decide ((coin, collection_id) ∈ COINCOLLECTIONS db)
  then (false, db)
  else (true,
        with_COINCOLLECTIONS
          ({[(coin, collection_id)]} ∪ COINCOLLECTIONS db) db).

Definition RemoveFromCoinCollection (collection_id : Z) (tx_id : string)
    (vout : Z) (db : CoinControl) : bool * CoinControl :=
  let coin := CoinId tx_id vout in
  (bool_decide ((coin, collection_id) ∈ COINCOLLECTIONS db),
   with_COINCOLLECTIONS (COINCOLLECTIONS db ∖ {[(coin, collection_id)]}) db).

Definition GetCoinInCollection (collection_id : Z) (db : CoinControl)
  : list string :=
  (elements
     (filter (fun cc => cc.2 = collection_id) (COINCOLLECTIONS db))).*1.

Definition GetAddedCollections (tx_id : string) (vout : Z)
    (db : CoinControl) : list Z :=
  (elements
     (filter (fun cc => cc.1 = CoinId tx_id vout) (COINCOLLECTIONS db))).*2.

(** [ClearCoinControlData] *)
Definition ClearCoinControlData (db : CoinControl) : CoinControl :=
  mkCoinControl ∅ ∅ ∅ ∅ ∅.

(** No membership names a tag or a collection that has no row. *)
Definition memberships_consistent (db : CoinControl) : Prop :=
  (∀ ct, ct ∈ COINTAGS db → is_Some (TAGS db !! ct.2)) ∧
  (∀ cc, cc ∈ COINCOLLECTIONS db → is_Some (COLLECTIONS db !! cc.2)).

(** No two rows of TAGS, and no two of COLLECTIONS, have the same NAME:
    what the UNIQUE constraints enforce. *)
Definition names_unique (db : CoinControl) : Prop :=
  (∀ i j r1 r2, TAGS db !! i = Some r1 → TAGS db !! j = Some r2 →
     TAG_NAME r1 = TAG_NAME r2 → i = j) ∧
  (∀ i j r1 r2, COLLECTIONS db !! i = Some r1 → COLLECTIONS db !! j = Some r2 →
     COLLECTION_NAME r1 = COLLECTION_NAME r2 → i = j).

(** *** Export and import *)

(** The JSON document that [ExportCoinControlData] builds and dumps, and
    that [ImportCoinControlData] reads after [json::parse]: [export_ts],
    and the arrays [tags], [collections] and [coininfo]. *)
Record TagExport := mkTagExport {
  te_id : Z;
  te_name : string;
  te_color : string;
  te_coins : list string
}.

Record CollectionExport := mkCollectionExport {
  ce_id : Z;
  ce_name : string;
  ce_add_new_coin : bool;
  ce_auto_lock : bool;
  ce_coins : list string
}.

Record CoinInfoExport := mkCoinInfoExport {
  cie_coin : string;
  cie_memo : string;
  cie_locked : Z
}.

Record CoinControlData := mkCoinControlData {
  export_ts : Z;
  data_tags : list TagExport;
  data_collections : list CollectionExport;
  data_coininfo : list CoinInfoExport
}.

(** What [json::parse] makes of a text: it throws, or the text is such a
    document, or it is another JSON text (a member is missing or has
    another type), of which the import is not modelled. *)
Inductive Parsed :=
  | NOT_JSON
  | OTHER_JSON
  | DOCUMENT (data : CoinControlData).

(** The JSON library (nlohmann::json), which is not among the sources, as
    far as the export and the import use it: [dump], which throws on a
    text that is not UTF-8 ([None]), and [json::parse], which gives back
    the document of a text that [dump] returned. *)
Class JsonLibrary := {
  json_dump : CoinControlData → option string;
  json_parse_text : string → Parsed;
  json_parse_dump : ∀ data text,
    json_dump data = Some text → json_parse_text text = DOCUMENT data
}.

(** The document of [ExportCoinControlData]; [now] is [std::time(0)].
    The tags and the collections are those [GetCoinTags] and
    [GetCoinCollections] return, each with the coins of its id; the rows
    of COININFO are read with the coin and the memo as C strings and
    LOCKED as an [int]. *)
Definition export_document (now : Z) (db : CoinControl) : CoinControlData :=
  mkCoinControlData now
    ((fun ir : Z * TagRow =>
        mkTagExport ir.1 (TAG_NAME ir.2) (TAG_COLOR ir.2)
          (GetCoinByTag ir.1 db)) <$> GetCoinTags db)
    ((fun ir : Z * CollectionRow =>
        mkCollectionExport ir.1 (COLLECTION_NAME ir.2)
          (COLLECTION_add_new_coin ir.2) (COLLECTION_auto_lock ir.2)
          (GetCoinInCollection ir.1 db)) <$> GetCoinCollections db)
    ((fun cr : string * CoinInfoRow =>
        mkCoinInfoExport (c_str cr.1) (c_str (CI_MEMO cr.2))
          (sqlite3_column_int (CI_LOCKED cr.2)))
       <$> map_to_list (COININFO db)).

(** [ExportCoinControlData]: the dump of the document. *)
Definition ExportCoinControlData `{JsonLibrary} (now : Z) (db : CoinControl)
  : Outcome string :=
  match json_dump (export_document now db) with
  | Some text => Returns text
  | None => Raises JSON_EXCEPTION
  end.

(** The inner loop of the import: a plain INSERT of every membership,
    which fails on a pair that is there. *)
Fixpoint insert_members (id : Z) (coins : list string)
    (members : gset (string * Z)) : Outcome unit * gset (string * Z) :=
  match coins with
  | [] => (Returns tt, members)
  | coin :: coins' =>
      if bool_decide ((coin, id) ∈ members)
      then (Raises CONSTRAINT_FAILED, members)
      else insert_members id coins' ({[(coin, id)]} ∪ members)
  end.

(** The loop over the tags, and the one over the collections, of the
    import: the upsert [ON CONFLICT(ID)] of the row, which fails on a NAME
    that another row holds, then the memberships. *)
Fixpoint import_group {R} (name_of : R → string)
    (items : list (Z * R * list string)) (table : gmap Z R)
    (members : gset (string * Z))
  : Outcome unit * (gmap Z R * gset (string * Z)) :=
  match items with
  | [] => (Returns tt, (table, members))
  | (id, row, coins) :: items' =>
      if name_taken name_of (name_of row) (delete id table)
      then (Raises CONSTRAINT_FAILED, (table, members))
      else
        match insert_members id coins members with
        | (Raises e, members') => (Raises e, (<[id := row]> table, members'))
        | (Returns _, members') =>
            import_group name_of items' (<[id := row]> table) members'
        end
  end.

(** The loop over [coininfo]: an upsert that overwrites LOCKED and
    MEMO; [locked] is converted to [int]. *)
Definition import_coininfo (items : list CoinInfoExport)
    (table : gmap string CoinInfoRow) : gmap string CoinInfoRow :=
  fold_left
    (fun t i =>
       <[cie_coin i := mkCoinInfoRow (cie_memo i) (to_int (cie_locked i))]> t)
    items table.

(** [ImportCoinControlData] after [json::parse]: the five tables are
    emptied, then filled from the document, every [id] converted to
    [int]; a failing statement ends the call with what was written so
    far. *)
Definition import_document (data : CoinControlData) (db : CoinControl)
  : Outcome unit * CoinControl :=
  let db0 := ClearCoinControlData db in
  let '(r1, (tags, cointags)) :=
    import_group TAG_NAME
      ((fun t => (to_int (te_id t), mkTagRow (te_name t) (te_color t),
                  te_coins t))
         <$> data_tags data)
      (TAGS db0) (COINTAGS db0) in
  match r1 with
  | Raises e =>
      (Raises e,
       mkCoinControl (COININFO db0) tags cointags (COLLECTIONS db0)
         (COINCOLLECTIONS db0))
  | Returns _ =>
      let '(r2, (collections, coincollections)) :=
        import_group COLLECTION_NAME
          ((fun c => (to_int (ce_id c),
                      mkCollectionRow (ce_name c) (ce_add_new_coin c)
                        (ce_auto_lock c),
                      ce_coins c)) <$> data_collections data)
          (COLLECTIONS db0) (COINCOLLECTIONS db0) in
      match r2 with
      | Raises e =>
          (Raises e,
           mkCoinControl (COININFO db0) tags cointags collections
             coincollections)
      | Returns _ =>
          (Returns tt,
           mkCoinControl
             (import_coininfo (data_coininfo data) (COININFO db0))
             tags cointags collections coincollections)
      end
  end.

(** [ImportCoinControlData(dataStr)]: a text that does not parse makes the
    call throw before anything is written; [None] is the import of a JSON
    text that is not a document, which is not modelled. *)
Definition ImportCoinControlData `{JsonLibrary} (dataStr : string)
    (db : CoinControl) : option (Outcome unit * CoinControl) :=
  match json_parse_text dataStr with
  | NOT_JSON => Some (Raises JSON_EXCEPTION, db)
  | OTHER_JSON => None
  | DOCUMENT data => Some (import_document data db)
  end.

(** The store holds what every read gives back unchanged: texts without a
    NUL byte, and ids and lock values that are [int]s. *)
Definition store_plain (db : CoinControl) : Prop :=
  (∀ i row, TAGS db !! i = Some row →
     is_int i ∧ has_char NUL (TAG_NAME row) = false ∧
     has_char NUL (TAG_COLOR row) = false) ∧
  (∀ i row, COLLECTIONS db !! i = Some row →
     is_int i ∧ has_char NUL (COLLECTION_NAME row) = false) ∧
  (∀ coin row, COININFO db !! coin = Some row →
     has_char NUL coin = false ∧ has_char NUL (CI_MEMO row) = false ∧
     is_int (CI_LOCKED row)) ∧
  (∀ ct, ct ∈ COINTAGS db → has_char NUL ct.1 = false) ∧
  (∀ cc, cc ∈ COINCOLLECTIONS db → has_char NUL cc.1 = false).

(** The memberships whose tag, or collection, has a row. *)
Definition with_row {R} (table : gmap Z R) (members : gset (string * Z))
  : gset (string * Z) :=
  filter (fun m => is_Some (table !! m.2)) members.

(** A coin control store with one tag that holds the coin [a:0], a lock on
    that coin, and a membership of the coin in a tag 7 that has no row. *)
Definition demo_coin_control : CoinControl :=
  (AddToCoinTag 7 "a" 0
     (AddToCoinTag 1 "a" 0
        (LockCoin "a" 0
           (CreateCoinTag "savings" "#00ff00"
              (mkCoinControl ∅ ∅ ∅ ∅ ∅)).2).2).2).2.

(** A stand-in for the JSON library: the text of a document is the
    number of the document, written in binary digits. *)
Definition DIGIT_1 : Ascii.ascii := Ascii.ascii_of_nat 49.
Definition DIGIT_0 : Ascii.ascii := Ascii.ascii_of_nat 48.

Fixpoint pos_to_bits (p : positive) : string :=
  match p with
  | xH => EmptyString
  | xO p' => String DIGIT_0 (pos_to_bits p')
  | xI p' => String DIGIT_1 (pos_to_bits p')
  end.

Fixpoint bits_to_pos (s : string) : positive :=
  match s with
  | EmptyString => xH
  | String c s' =>
      if Ascii.eqb c DIGIT_1 then xI (bits_to_pos s') else xO (bits_to_pos s')
  end.

#[global] Instance TagExport_eq_dec : EqDecision TagExport.
Proof. solve_decision. Defined.
#[global] Instance CollectionExport_eq_dec : EqDecision CollectionExport.
Proof. solve_decision. Defined.
#[global] Instance CoinInfoExport_eq_dec : EqDecision CoinInfoExport.
Proof. solve_decision. Defined.
#[global] Instance CoinControlData_eq_dec : EqDecision CoinControlData.
Proof. solve_decision. Defined.

#[global] Instance TagExport_countable : Countable TagExport.
Proof.
  refine (inj_countable'
            (fun t => (te_id t, te_name t, te_color t, te_coins t))
            (fun t => mkTagExport t.1.1.1 t.1.1.2 t.1.2 t.2) _).
  by intros [].
Defined.

#[global] Instance CollectionExport_countable : Countable CollectionExport.
Proof.
  refine (inj_countable'
            (fun c => (ce_id c, ce_name c, ce_add_new_coin c, ce_auto_lock c,
                       ce_coins c))
            (fun c => mkCollectionExport c.1.1.1.1 c.1.1.1.2 c.1.1.2 c.1.2
                        c.2) _).
  by intros [].
Defined.

#[global] Instance CoinInfoExport_countable : Countable CoinInfoExport.
Proof.
  refine (inj_countable'
            (fun i => (cie_coin i, cie_memo i, cie_locked i))
            (fun i => mkCoinInfoExport i.1.1 i.1.2 i.2) _).
  by intros [].
Defined.

#[global] Instance CoinControlData_countable : Countable CoinControlData.
Proof.
  refine (inj_countable'
            (fun d => (export_ts d, data_tags d, data_collections d,
                       data_coininfo d))
            (fun d => mkCoinControlData d.1.1.1 d.1.1.2 d.1.2 d.2) _).
  by intros [].
Defined.

Definition demo_json : JsonLibrary.
Proof.
  refine {|
    json_dump := fun data => Some (pos_to_bits (encode data));
    json_parse_text := fun text =>
      match decode (bits_to_pos text) with
      | Some data => DOCUMENT data
      | None => NOT_JSON
      end
  |}.
  intros data text [= <-].
  assert (Hbits : ∀ p, bits_to_pos (pos_to_bits p) = p).
  { induction p as [p IH|p IH|]; cbn; [|by rewrite IH|done].
    change (Ascii.eqb DIGIT_1 DIGIT_1) with true. by rewrite IH. }
  by rewrite Hbits, decode_encode.
Defined.

(** ** Vocabulary of the notifications *)

Definition history_items (history : History) : list HistoryItem :=
  match history with
  | HistoryNotArray => []
  | HistoryArray items => items
  end.

(** What a call of the transaction listener during [UpdateTransactions]
    says: a transaction was evicted, or the transaction of an entry of the
    history is pending or confirmed, by the height of the entry, which is
    only said when the synchroniser is READY. *)
Definition announces `{ElectrumClient} (items : list HistoryItem)
    (call : string * TransactionStatus.t) : Prop :=
  call.2 = TransactionStatus.REPLACED ∨
  (status_is_READY = true ∧
   ∃ item, item ∈ items ∧ call.1 = item_tx_hash item ∧
     call.2 = if item_height item <=? 0
              then TransactionStatus.PENDING_CONFIRMATION
              else TransactionStatus.CONFIRMED).

(** The listener calls of a state are the ones of [calls] followed by
    calls that announce the history. *)
Definition extends_calls `{ElectrumClient} (items : list HistoryItem)
    (calls : list (string * TransactionStatus.t)) (st : SyncState) : Prop :=
  ∃ added,
    transaction_listener_calls st = calls ++ added ∧
    Forall (announces items) added.

(** ** Derivation paths: descriptor.cpp *)

Definition LETTER_m : Ascii.ascii := Ascii.ascii_of_nat 109.
Definition LETTER_h : Ascii.ascii := Ascii.ascii_of_nat 104.
Definition APOSTROPHE : Ascii.ascii := Ascii.ascii_of_nat 39.
Definition SLASH : Ascii.ascii := Ascii.ascii_of_nat 47.

(** [std::replace(s.begin(), s.end(), from, to)] *)
Fixpoint replace_char (from to : Ascii.ascii) (s : string) : string :=
  match s with
  | EmptyString => EmptyString
  | String c s' =>
      String (if Ascii.eqb c from then to else c) (replace_char from to s')
  end.

(** [FormalizePath(path)]: [rs.rfind("m", 0) == 0] says that [rs] begins
    with an [m]. *)
Definition FormalizePath (path : string) : string :=
  let rs :=
    match path with
    | String c rest => if Ascii.eqb c LETTER_m then rest else path
    | EmptyString => path
    end in
  let rs := replace_char LETTER_h APOSTROPHE rs in
  match rs with
  | EmptyString => rs
  | String c _ => if Ascii.eqb c SLASH then rs else String SLASH rs
  end.

(** ** Signer tags: dto/singlesigner.cpp *)

(** [std::unique]: of every run of equal neighbours the first is kept. *)
Fixpoint unique (l : list Z) : list Z :=
  match l with
  | [] => []
  | x :: l' =>
      match l' with
      | [] => [x]
      | y :: _ => if x =? y then unique l' else x :: unique l'
      end
  end.

(** [SingleSigner::set_tags(tags)], as the value it leaves in [tags_].  A
    tag is the value of an enumeration and is written as its number, the
    order [std::sort] compares by; numbers that compare equal are equal,
    so the sorted sequence is the same whatever the sorting algorithm. *)
Definition set_tags (tags : list Z) : list Z :=
  unique (merge_sort Z.le tags).

(** ** Settings of the synchroniser: backend/synchronizer.cpp *)

Module AppSettings.

(** The enumerations of nunchuk.h, which is not among the sources; the
    code below names [CORERPC], [TESTNET], [MAIN] and [SIGNET]. *)
Inductive Chain := MAIN | TESTNET | SIGNET | REGTEST.
Inductive BackendType := ELECTRUM | CORERPC.

#[global] Instance Chain_eq_dec : EqDecision Chain.
Proof. solve_decision. Defined.
#[global] Instance BackendType_eq_dec : EqDecision BackendType.
Proof. solve_decision. Defined.

(** The settings that [NeedRecreate] reads. *)
Record t := mk {
  get_backend_type : BackendType;
  get_chain : Chain;
  use_proxy : bool;
  get_proxy_host : string;
  get_proxy_port : Z;
  get_proxy_username : string;
  get_proxy_password : string;
  get_corerpc_host : string;
  get_corerpc_port : Z;
  get_corerpc_username : string;
  get_corerpc_password : string;
  get_testnet_servers : list string;
  get_mainnet_servers : list string;
  get_signet_servers : list string
}.

End AppSettings.

(** What a call of [NeedRecreate] ends in: the exception
    APP_RESTART_REQUIRED, or the answer. *)
Inductive Recreation :=
  | APP_RESTART_REQUIRED
  | Recreate (answer : bool).

(** [x != y] *)
Definition differs {A} `{EqDecision A} (x y : A) : bool :=
  bool_decide (x ≠ y).

(** [Synchronizer::NeedRecreate(new_settings)] of a synchroniser that
    holds [app_settings_]. *)
Definition NeedRecreate (app_settings_ new_settings : AppSettings.t)
  : Recreation :=
  let old := app_settings_ in
  let new := new_settings in
  if differs (AppSettings.get_backend_type old)
       (AppSettings.get_backend_type new)
     || differs (AppSettings.get_chain old) (AppSettings.get_chain new)
  then APP_RESTART_REQUIRED
  else if differs (AppSettings.use_proxy old) (AppSettings.use_proxy new)
  then Recreate true
  else if AppSettings.use_proxy new
          && (differs (AppSettings.get_proxy_host old)
                (AppSettings.get_proxy_host new)
              || differs (AppSettings.get_proxy_port old)
                   (AppSettings.get_proxy_port new)
              || differs (AppSettings.get_proxy_username old)
                   (AppSettings.get_proxy_username new)
              || differs (AppSettings.get_proxy_password old)
                   (AppSettings.get_proxy_password new))
  then Recreate true
  else if bool_decide
            (AppSettings.get_backend_type new = AppSettings.CORERPC)
  then
    if differs (AppSettings.get_corerpc_host old)
         (AppSettings.get_corerpc_host new)
       || differs (AppSettings.get_corerpc_port old)
            (AppSettings.get_corerpc_port new)
       || differs (AppSettings.get_corerpc_username old)
            (AppSettings.get_corerpc_username new)
       || differs (AppSettings.get_corerpc_password old)
            (AppSettings.get_corerpc_password new)
    then Recreate true
    else Recreate false
  else
    if (bool_decide (AppSettings.get_chain new = AppSettings.TESTNET)
        && differs (AppSettings.get_testnet_servers old)
             (AppSettings.get_testnet_servers new))
       || (bool_decide (AppSettings.get_chain new = AppSettings.MAIN)
           && differs (AppSettings.get_mainnet_servers old)
                (AppSettings.get_mainnet_servers new))
       || (bool_decide (AppSettings.get_chain new = AppSettings.SIGNET)
           && differs (AppSettings.get_signet_servers old)
                (AppSettings.get_signet_servers new))
    then Recreate true
    else Recreate false.

(** Settings of an Electrum synchroniser on the main chain without a
    proxy, and the same with another proxy host written down. *)
Definition demo_settings : AppSettings.t :=
  AppSettings.mk AppSettings.ELECTRUM AppSettings.MAIN false
    "127.0.0.1" 9050 "" "" "127.0.0.1" 8332 "" ""
    ["testnet.example:50001"] ["mainnet.example:50001"] [].

Definition demo_settings_other_proxy : AppSettings.t :=
  AppSettings.mk AppSettings.ELECTRUM AppSettings.MAIN false
    "10.0.0.1" 9050 "" "" "127.0.0.1" 8332 "" ""
    ["testnet.example:50001"] ["mainnet.example:50001"] [].

(** ** Script nodes: dto/scriptnode.cpp *)

Module ScriptNode.

Inductive Type_ :=
  | NONE | PK | OLDER | AFTER | HASH160 | HASH256 | RIPEMD160 | SHA256
  | AND | OR | ANDOR | THRESH | MULTI.

(** A node with its [sub_] nodes; an id is a [std::vector<size_t>]. *)
#[warnings="-register-all"] Inductive t := mk {
  node_type_ : Type_;
  sub_ : list t;
  keys_ : list string;
  data_ : list Z;
  k_ : Z;
  id_ : list N
}.

(** [ScriptNode::set_id(id)]: the sub node at position [i] gets the id
    followed by [i + 1], and so on below it. *)
Fixpoint set_id (id : list N) (node : t) : t :=
  mk (node_type_ node)
    ((fix each (i : N) (subs : list t) : list t :=
        match subs with
        | [] => []
        | sub :: rest => set_id (id ++ [i + 1]%N) sub :: each (i + 1)%N rest
        end) 0%N (sub_ node))
    (keys_ node) (data_ node) (k_ node) id.

(** The node reached from [node] by going, at each step, to the sub node
    at the given position (counted from 0). *)
Fixpoint node_at (path : list nat) (node : t) : option t :=
  match path with
  | [] => Some node
  | i :: path' =>
      match sub_ node !! i with
      | Some sub => node_at path' sub
      | None => None
      end
  end.

(** The id [set_id] gives at the end of a path. *)
Definition id_of_path (id : list N) (path : list nat) : list N :=
  id ++ ((fun i : nat => N.of_nat i + 1)%N <$> path).

Definition demo_script : t :=
  mk ANDOR
    [mk PK [] ["key_0"] [] 0 [];
     mk AND [mk OLDER [] [] [] 144 []; mk PK [] ["key_1"] [] 0 []] [] [] 0 [];
     mk PK [] ["key_2"] [] 0 []]
    [] [] 0 [].

End ScriptNode.

(** ** Vocabulary of the send and receive amounts *)

(** The output an input spends, as [FillSendReceiveData] reads it from the
    store: the default-constructed output when the transaction of the
    input is not stored. *)
Definition stored_output `{Wallet} (db : WalletDb) (input : TxInput)
  : TxOutput :=
  match VTX db !! input.1 with
  | Some row =>
      match read_row input.1 row with
      | Ok prev_tx => output_at (get_outputs prev_tx) input.2
      | Throw _ => ("", 0)
      end
  | None => ("", 0)
  end.

(** The outputs that pay an address of the map, and the others. *)
Definition own_outputs (all : gmap string AddressData)
    (outputs : list TxOutput) : list TxOutput :=
  filter (fun output : TxOutput => IsMyAddress all output.1 = true) outputs.

Definition foreign_outputs (all : gmap string AddressData)
    (outputs : list TxOutput) : list TxOutput :=
  filter (fun output : TxOutput => IsMyAddress all output.1 = false) outputs.

Definition amount_of (outputs : list TxOutput) : Z := sum_of snd outputs.

(** The position of the first output that pays an address of the map. *)
Definition first_own_output (all : gmap string AddressData)
    (outputs : list TxOutput) : option Z :=
  (fun found : nat * TxOutput => Z.of_nat found.1)
    <$> list_find (fun output : TxOutput => IsMyAddress all output.1 = true)
          outputs.

(** The tables are those of [db0], and the same addresses are the
    wallet's. *)
Definition same_addresses `{Wallet} (db0 db : WalletDb) : Prop :=
  VTX db = VTX db0 ∧ ADDRESS db = ADDRESS db0 ∧
  ∀ address, IsMyAddress (address_view db) address
             = IsMyAddress (address_view db0) address.

(** ** Script path of a descriptor: descriptor.cpp *)

Definition COMMA : Ascii.ascii := Ascii.ascii_of_nat 44.
Definition LBRACE : Ascii.ascii := Ascii.ascii_of_nat 123.
Definition RBRACE : Ascii.ascii := Ascii.ascii_of_nat 125.

(** The loop of [GetScriptpathDescriptor]: the nodes are taken two by two
    and written [{a,b}]; a last node without a partner is kept as it is. *)
Fixpoint pair_nodes (nodes : list string) : list string :=
  match nodes with
  | a :: b :: rest =>
      String LBRACE (a +:+ String COMMA (b +:+ String RBRACE ""))
        :: pair_nodes rest
  | _ => nodes
  end.

(** [GetScriptpathDescriptor(nodes)], with a bound on the depth of the
    recursion; [None] when the bound is reached. *)
Fixpoint GetScriptpathDescriptor (depth : nat) (nodes : list string)
  : option string :=
  match depth with
  | O => None
  | S depth' =>
      match nodes with
      | [node] => Some node
      | _ => GetScriptpathDescriptor depth' (pair_nodes nodes)
      end
  end.

(** A string without its braces. *)
Fixpoint without_braces (s : string) : string :=
  match s with
  | EmptyString => EmptyString
  | String c s' =>
      if Ascii.eqb c LBRACE || Ascii.eqb c RBRACE then without_braces s'
      else String c (without_braces s')
  end.

(** ** Keys of the policy compiler: miniscript/compiler.h *)

Module CompilerContext.

(** A [std::vector<unsigned char>] is a list of characters; the byte of
    a number. *)
Definition byte (n : nat) : Ascii.ascii := Ascii.ascii_of_nat n.

(** [FromString(first, last)] on the characters from [first] to [last]. *)
Definition FromString (chars : string) : option string :=
  if (String.length chars =? 0)%nat || (17 <? String.length chars)%nat
  then None
  else Some chars.

(** [ret.resize(size, 0)] of a vector that is shorter than [size]. *)
Definition resize (size : nat) (ret : list Ascii.ascii) : list Ascii.ascii :=
  ret ++ replicate (size - length ret) (byte 0).

(** [std::copy(key.begin(), key.end(), ret.begin() + offset)].  Writing
    past the end of [ret] is undefined in the source; the model answers
    [None] there. *)
Definition copy_at (offset : nat) (key : string) (ret : list Ascii.ascii)
  : option (list Ascii.ascii) :=
  let chars := String.list_ascii_of_string key in
  if (offset + length chars <=? length ret)%nat
  then Some (take offset ret ++ chars ++ drop (offset + length chars) ret)
  else None.

Definition ToPKBytes (key : string) : option (list Ascii.ascii) :=
  copy_at 4 key (resize 33 [byte 2; byte 80; byte 75; byte 98]).

Definition ToPKHBytes (key : string) : option (list Ascii.ascii) :=
  copy_at 3 key (resize 20 [byte 80; byte 75; byte 104]).

End CompilerContext.

(** ** Signer names: descriptor.cpp *)

(** [GetSignerNameFromDerivationPath(derivation_path, prefix)] *)
Definition GetSignerNameFromDerivationPath (derivation_path prefix : string)
  : string :=
  if String.eqb derivation_path "" then ""
  else
    match split derivation_path SLASH with
    | sp0 :: sp1 :: _ =>
        replace_char APOSTROPHE LETTER_h
          (((prefix +:+ sp0) +:+ String SLASH "") +:+ sp1)
    | _ => ""
    end.

(** * Properties *)

(** ** Coin ledger *)

Section FoldLemmas.
Context {A B : Type}.

Lemma fold_left_commute_perm (f : B → A → B) (l l' : list A) :
  (∀ b x y, f (f b x) y = f (f b y) x) →
  l ≡ₚ l' → ∀ b, fold_left f l b = fold_left f l' b.
Proof.
  intros Hcomm Hperm.
  induction Hperm as [|x l l' _ IH|x y l|l l' l'' _ IH1 _ IH2]; intros b;
    simpl.
  - reflexivity.
  - apply IH.
  - by rewrite Hcomm.
  - by rewrite IH1, IH2.
Qed.

Lemma fold_left_flat_map {C} (f : B → C → B) (g : A → list C)
    (l : list A) (b : B) :
  fold_left f (flat_map g l) b =
  fold_left (fun acc x => fold_left f (g x) acc) l b.
Proof.
  revert b. induction l as [|x l IH]; intros b; simpl; [done|].
  by rewrite fold_left_app, IH.
Qed.

End FoldLemmas.

(** *** The status order *)

Lemma status_max_lowest_r (a : CoinStatus.t) :
  status_max a CoinStatus.INCOMING_PENDING_CONFIRMATION = a.
Proof. by destruct a. Qed.

Lemma status_max_lowest_l (a : CoinStatus.t) :
  status_max CoinStatus.INCOMING_PENDING_CONFIRMATION a = a.
Proof. by destruct a. Qed.

Lemma status_max_assoc (a b c : CoinStatus.t) :
  status_max (status_max a b) c = status_max a (status_max b c).
Proof. by destruct a, b, c. Qed.

Lemma status_max_comm (a b : CoinStatus.t) :
  status_max a b = status_max b a.
Proof. by destruct a, b. Qed.

Lemma status_max_swap (a b c : CoinStatus.t) :
  status_max (status_max a b) c = status_max (status_max a c) b.
Proof. by destruct a, b, c. Qed.

Lemma status_max_rank (a b : CoinStatus.t) :
  CoinStatus.rank (status_max a b) =
  Z.max (CoinStatus.rank a) (CoinStatus.rank b).
Proof. by destruct a, b. Qed.

Lemma rank_inj (a b : CoinStatus.t) :
  CoinStatus.rank a = CoinStatus.rank b → a = b.
Proof. by destruct a, b. Qed.

(** *** [set_status] on the statuses *)

Lemma raise_status_swap (m : gmap string CoinStatus.t)
    (x y : string * CoinStatus.t) :
  raise_status (raise_status m x) y = raise_status (raise_status m y) x.
Proof.
  destruct x as [i a], y as [j b]. unfold raise_status. simpl.
  destruct (decide (i = j)) as [->|Hne].
  - rewrite !lookup_insert_eq, !insert_insert_eq. simpl.
    by rewrite status_max_swap.
  - rewrite !lookup_insert_ne by done.
    by rewrite insert_insert_ne by done.
Qed.

Lemma raise_status_twice (m : gmap string CoinStatus.t) (id : string)
    (a b : CoinStatus.t) :
  raise_status (raise_status m (id, a)) (id, b) =
  raise_status m (id, status_max a b).
Proof.
  unfold raise_status. simpl.
  rewrite lookup_insert_eq, insert_insert_eq. simpl.
  by rewrite status_max_assoc.
Qed.

Lemma coin_at_status (coins : gmap string UnspentOutput) (id : string) :
  utxo_status (coin_at coins id) =
  default CoinStatus.INCOMING_PENDING_CONFIRMATION (status_view coins !! id).
Proof.
  unfold coin_at, status_view. rewrite lookup_fmap.
  by destruct (coins !! id).
Qed.

Lemma status_view_touch (coins : gmap string UnspentOutput) (id : string)
    (c : UnspentOutput) :
  utxo_status c = utxo_status (coin_at coins id) →
  status_view (<[id := c]> coins) =
  raise_status (status_view coins)
    (id, CoinStatus.INCOMING_PENDING_CONFIRMATION).
Proof.
  intros Hc. unfold status_view at 1. rewrite fmap_insert.
  unfold raise_status. simpl.
  by rewrite status_max_lowest_r, Hc, coin_at_status.
Qed.

Lemma status_view_set_status (coins : gmap string UnspentOutput)
    (id : string) (s : CoinStatus.t) :
  status_view (set_status id s coins) = raise_status (status_view coins) (id, s).
Proof.
  unfold set_status, raise_status, status_max. simpl.
  rewrite <- coin_at_status.
  destruct (CoinStatus.lt _ s); unfold status_view; by rewrite fmap_insert.
Qed.

Lemma status_view_spend_input all tx_map tx coins input :
  status_view (spend_input all tx_map tx coins input) =
  fold_left raise_status (input_marks all tx_map tx input)
    (status_view coins).
Proof.
  unfold spend_input, input_marks, input_coin.
  destruct (tx_map !! input.1) as [prev_tx|]; [|done].
  destruct (negb _); [done|]. simpl.
  rewrite status_view_touch by done.
  destruct (spend_status (get_status tx)) as [s|]; simpl.
  - rewrite status_view_set_status, status_view_touch by done.
    by rewrite !raise_status_twice, status_max_lowest_l,
      status_max_lowest_r.
  - rewrite status_view_touch by done.
    by rewrite raise_status_twice.
Qed.

Lemma status_view_receive_output all tx coins vo :
  status_view (receive_output all tx coins vo) =
  fold_left raise_status (output_marks all tx vo) (status_view coins).
Proof.
  unfold receive_output, output_marks.
  destruct (negb _); [done|]. simpl.
  rewrite status_view_touch by done.
  rewrite status_view_set_status, status_view_touch by done.
  by rewrite !raise_status_twice, status_max_lowest_l, status_max_lowest_r.
Qed.

Lemma fold_left_ext_view {X} (f : gmap string UnspentOutput → X → _)
    (g : X → list (string * CoinStatus.t)) (l : list X) coins :
  (∀ c x, status_view (f c x) = fold_left raise_status (g x) (status_view c)) →
  status_view (fold_left f l coins) =
  fold_left raise_status (flat_map g l) (status_view coins).
Proof.
  intros Hf. revert coins.
  induction l as [|x l IH]; intros coins; simpl; [done|].
  by rewrite IH, Hf, fold_left_app.
Qed.

Lemma status_view_replay all tx_map used_by coins tx :
  status_view (replay_transaction all tx_map used_by coins tx) =
  fold_left raise_status (transaction_marks all tx_map used_by tx)
    (status_view coins).
Proof.
  unfold replay_transaction, transaction_marks.
  destruct (skipped_status tx); [done|].
  destruct (shadowed used_by tx); [done|].
  rewrite fold_left_app.
  rewrite (fold_left_ext_view _ (output_marks all tx))
    by apply status_view_receive_output.
  by rewrite (fold_left_ext_view _ (input_marks all tx_map tx))
    by apply status_view_spend_input.
Qed.

Lemma status_view_replay_all all tx_map used_by txs :
  status_view (fold_left (replay_transaction all tx_map used_by) txs ∅) =
  fold_left raise_status
    (flat_map (transaction_marks all tx_map used_by) txs) ∅.
Proof.
  rewrite (fold_left_ext_view _ (transaction_marks all tx_map used_by))
    by apply status_view_replay.
  unfold status_view. by rewrite fmap_empty.
Qed.

(** *** The first loop: [tx_map] and [used_by] *)

Lemma index_transaction_tx_map acc tx :
  (index_transaction acc tx).1 =
  match acc.1 !! get_txid tx with
  | Some _ => acc.1
  | None => <[get_txid tx := tx]> acc.1
  end.
Proof. unfold index_transaction. by destruct (get_height tx <=? 0). Qed.

Lemma index_transaction_used_by acc tx :
  (index_transaction acc tx).2 =
  if get_height tx <=? 0 then acc.2 else claim_inputs tx acc.2.
Proof. unfold index_transaction. by destruct (get_height tx <=? 0). Qed.

Lemma claim_inputs_lookup tx used_by id :
  claim_inputs tx used_by !! id =
  if decide (id ∈ input_coin <$> get_inputs tx) then Some (get_txid tx)
  else used_by !! id.
Proof.
  unfold claim_inputs. generalize (get_inputs tx) as inputs.
  intros inputs. revert used_by.
  induction inputs as [|i inputs IH]; intros used_by; cbn [fold_left].
  - case_decide as Hin; [by apply elem_of_nil in Hin|done].
  - rewrite IH, fmap_cons. fold (input_coin i).
    destruct (decide (id ∈ input_coin <$> inputs)) as [Hin|Hnin].
    + case_decide as Hc; [done|].
      exfalso. apply Hc. by apply list_elem_of_further.
    + destruct (decide (id = input_coin i)) as [->|Hne].
      * rewrite lookup_insert_eq. case_decide as Hc; [done|].
        exfalso. apply Hc. apply list_elem_of_here.
      * rewrite lookup_insert_ne by done.
        case_decide as Hc; [|done].
        apply elem_of_cons in Hc as [?|?]; done.
Qed.

Lemma tx_map_sound txs acc id tx :
  (fold_left index_transaction txs acc).1 !! id = Some tx →
  acc.1 !! id = Some tx ∨ (tx ∈ txs ∧ get_txid tx = id).
Proof.
  revert acc. induction txs as [|x txs IH]; intros acc; simpl; [by left|].
  intros [Hacc|[Hin Hid]]%IH.
  - rewrite index_transaction_tx_map in Hacc.
    destruct (acc.1 !! get_txid x) eqn:Hx; [by left|].
    destruct (decide (get_txid x = id)) as [<-|Hne].
    + rewrite lookup_insert_eq in Hacc. injection Hacc as <-.
      right. split; [apply list_elem_of_here|done].
    + rewrite lookup_insert_ne in Hacc by done. by left.
  - right. split; [by apply list_elem_of_further|done].
Qed.

Lemma tx_map_complete txs acc id :
  is_Some (acc.1 !! id) ∨ (∃ tx, tx ∈ txs ∧ get_txid tx = id) →
  is_Some ((fold_left index_transaction txs acc).1 !! id).
Proof.
  revert acc. induction txs as [|x txs IH]; intros acc; simpl.
  - intros [?|(tx & Hin & _)]; [done|]. by apply elem_of_nil in Hin.
  - intros Hyp. apply IH. rewrite index_transaction_tx_map.
    destruct Hyp as [Hacc|(tx & Hin & Hid)].
    + left. destruct (acc.1 !! get_txid x) eqn:Hx; [done|].
      destruct (decide (get_txid x = id)) as [<-|Hne].
      * by rewrite Hx in Hacc; destruct Hacc.
      * by rewrite lookup_insert_ne.
    + apply elem_of_cons in Hin as [->|Hin]; [|right; eauto].
      left. destruct (acc.1 !! get_txid x) eqn:Hx.
      * rewrite <- Hid, Hx. eauto.
      * rewrite <- Hid, lookup_insert_eq. eauto.
Qed.

Lemma used_by_sound txs acc id spender :
  (fold_left index_transaction txs acc).2 !! id = Some spender →
  acc.2 !! id = Some spender ∨
  ∃ tx, tx ∈ txs ∧ 0 < get_height tx ∧ get_txid tx = spender ∧
        id ∈ input_coin <$> get_inputs tx.
Proof.
  revert acc. induction txs as [|x txs IH]; intros acc; simpl; [by left|].
  intros [Hacc|(tx & Hin & ?)]%IH.
  - rewrite index_transaction_used_by in Hacc.
    destruct (get_height x <=? 0) eqn:Hh; [by left|].
    rewrite claim_inputs_lookup in Hacc.
    destruct (decide _) as [Hid|]; [|by left].
    injection Hacc as <-. right. exists x.
    split; [apply list_elem_of_here|]. split; [lia|done].
  - right. exists tx. split; [by apply list_elem_of_further|done].
Qed.

Lemma used_by_complete txs acc id :
  is_Some (acc.2 !! id) ∨
  (∃ tx, tx ∈ txs ∧ 0 < get_height tx ∧
         id ∈ input_coin <$> get_inputs tx) →
  is_Some ((fold_left index_transaction txs acc).2 !! id).
Proof.
  revert acc. induction txs as [|x txs IH]; intros acc; simpl.
  - intros [?|(tx & Hin & _)]; [done|]. by apply elem_of_nil in Hin.
  - intros Hyp. apply IH. rewrite index_transaction_used_by.
    destruct Hyp as [Hacc|(tx & Hin & Hh & Hid)].
    + left. destruct (get_height x <=? 0); [done|].
      rewrite claim_inputs_lookup. by destruct (decide _).
    + apply elem_of_cons in Hin as [->|Hin]; [|right; eauto].
      left. destruct (get_height x <=? 0) eqn:Hx; [lia|].
      rewrite claim_inputs_lookup, decide_True by done. eauto.
Qed.

Lemma NoDup_txid_eq (txs : list Transaction) (a b : Transaction) :
  NoDup (get_txid <$> txs) → a ∈ txs → b ∈ txs →
  get_txid a = get_txid b → a = b.
Proof.
  induction txs as [|x txs IH]; simpl; intros Hnd Ha Hb Heq.
  - by apply elem_of_nil in Ha.
  - apply NoDup_cons in Hnd as [Hx Hnd].
    apply elem_of_cons in Ha as [->|Ha], Hb as [->|Hb]; [done| | |by apply IH].
    + exfalso. apply Hx. rewrite Heq. by apply list_elem_of_fmap_2.
    + exfalso. apply Hx. rewrite <- Heq. by apply list_elem_of_fmap_2.
Qed.

Lemma no_conflicting_spends_spec txs t1 t2 id :
  no_conflicting_spends txs → t1 ∈ txs → t2 ∈ txs →
  0 < get_height t1 → 0 < get_height t2 →
  id ∈ input_coin <$> get_inputs t1 → id ∈ input_coin <$> get_inputs t2 →
  get_txid t1 = get_txid t2.
Proof.
  unfold no_conflicting_spends. rewrite Forall_forall.
  intros Hall H1 H2 Hh1 Hh2 Hi1 Hi2.
  specialize (Hall t1 H1). rewrite Forall_forall in Hall.
  specialize (Hall t2 H2 Hh1 Hh2). rewrite Forall_forall in Hall.
  apply list_elem_of_fmap in Hi1 as (i1 & -> & Hi1).
  apply list_elem_of_fmap in Hi2 as (i2 & Heq & Hi2).
  specialize (Hall i1 Hi1). rewrite Forall_forall in Hall.
  by apply (Hall i2 Hi2).
Qed.

Lemma index_transactions_perm txs txs' :
  NoDup (get_txid <$> txs) → no_conflicting_spends txs → txs ≡ₚ txs' →
  index_transactions txs = index_transactions txs'.
Proof.
  intros Hnd Hnc Hperm. unfold index_transactions.
  assert (Hsub : ∀ t, t ∈ txs' → t ∈ txs) by (intros t; by rewrite Hperm).
  assert (Hsub' : ∀ t, t ∈ txs → t ∈ txs') by (intros t; by rewrite Hperm).
  rewrite (surjective_pairing (fold_left _ txs _)),
    (surjective_pairing (fold_left _ txs' _)).
  f_equal; apply map_eq; intros id.
  - destruct (_ !! id) as [tx|] eqn:Htx.
    + apply tx_map_sound in Htx as [Htx|[Hin Hid]]; [done|].
      destruct (tx_map_complete txs' (∅, ∅) id) as [tx' Htx'];
        [right; eauto|].
      rewrite Htx'. f_equal.
      apply tx_map_sound in Htx' as [Htx'|[Hin' Hid']]; [done|].
      apply (NoDup_txid_eq txs); auto. congruence.
    + symmetry. apply eq_None_not_Some. intros [tx' Htx'].
      apply tx_map_sound in Htx' as [Htx'|[Hin' Hid']]; [done|].
      destruct (tx_map_complete txs (∅, ∅) id) as [? Hc]; [right; eauto|].
      congruence.
  - destruct (_ !! id) as [spender|] eqn:Hs.
    + apply used_by_sound in Hs as [Hs|(t & Hin & Hh & Hid & Hcoin)];
        [done|].
      destruct (used_by_complete txs' (∅, ∅) id) as [spender' Hs'];
        [right; eauto|].
      rewrite Hs'. f_equal.
      apply used_by_sound in Hs' as [Hs'|(t' & Hin' & Hh' & Hid' & Hcoin')];
        [done|].
      subst. apply (no_conflicting_spends_spec txs t t' id); auto.
    + symmetry. apply eq_None_not_Some. intros [spender' Hs'].
      apply used_by_sound in Hs' as [Hs'|(t' & Hin' & Hh' & Hid' & Hcoin')];
        [done|].
      destruct (used_by_complete txs (∅, ∅) id) as [? Hc];
        [right; eauto|].
      congruence.
Qed.

Lemma set_status_never_lowers (id : string) (s : CoinStatus.t)
    (coins : gmap string UnspentOutput) :
  CoinStatus.rank (utxo_status (coin_at coins id)) ≤
  CoinStatus.rank (utxo_status (coin_at (set_status id s coins) id)).
Proof.
  rewrite (coin_at_status (set_status _ _ _)), status_view_set_status.
  unfold raise_status. simpl. rewrite lookup_insert_eq. simpl.
  rewrite <- coin_at_status, status_max_rank. lia.
Qed.

(** C2.  On a transaction set with distinct ids and no conflicting
    double-spend, every permutation of the transactions gives every coin
    the same status: [set_status] never lowers a status in the total order
    INCOMING_PENDING_CONFIRMATION < CONFIRMED < OUTGOING_PENDING_SIGNATURES
    < OUTGOING_PENDING_BROADCAST < OUTGOING_PENDING_CONFIRMATION < SPENT,
    so the replay does not depend on the order of the transactions. *)
Theorem coin_status_order_independent
    (all : gmap string AddressData) (txs txs' : list Transaction) :
  NoDup (get_txid <$> txs) → no_conflicting_spends txs → txs ≡ₚ txs' →
  (∀ id,
     utxo_status <$> GetCoinsFromTransactions all txs !! id =
     utxo_status <$> GetCoinsFromTransactions all txs' !! id) ∧
  (∀ id s coins,
     CoinStatus.rank (utxo_status (coin_at coins id)) ≤
     CoinStatus.rank (utxo_status (coin_at (set_status id s coins) id))) ∧
  (∀ a b, CoinStatus.rank a = CoinStatus.rank b → a = b) ∧
  CoinStatus.lt CoinStatus.OUTGOING_PENDING_SIGNATURES
    CoinStatus.OUTGOING_PENDING_BROADCAST = true ∧
  CoinStatus.lt CoinStatus.OUTGOING_PENDING_BROADCAST
    CoinStatus.OUTGOING_PENDING_CONFIRMATION = true ∧
  CoinStatus.lt CoinStatus.OUTGOING_PENDING_CONFIRMATION
    CoinStatus.SPENT = true ∧
  CoinStatus.lt CoinStatus.INCOMING_PENDING_CONFIRMATION
    CoinStatus.CONFIRMED = true.
Proof.
  intros Hnd Hnc Hperm.
  split; [|split; [apply set_status_never_lowers|]];
    [|split; [apply rank_inj|done]].
  intros id. unfold GetCoinsFromTransactions.
  rewrite <- (index_transactions_perm txs txs') by done.
  destruct (index_transactions txs) as [tx_map used_by].
  rewrite <- !lookup_fmap. fold (status_view).
  change (status_view (fold_left (replay_transaction all tx_map used_by) txs ∅)
            !! id =
          status_view (fold_left (replay_transaction all tx_map used_by) txs' ∅)
            !! id).
  rewrite !status_view_replay_all. f_equal.
  apply fold_left_commute_perm; [apply raise_status_swap|].
  by apply Permutation_flat_map.
Qed.

Lemma coin_status_order_independent_witness :
  utxo_status <$>
    GetCoinsFromTransactions demo_addresses
      ([demo_TB] ++ [demo_T1; demo_TA]) !! "t1:0"
  = Some CoinStatus.OUTGOING_PENDING_CONFIRMATION ∧
  utxo_status <$>
    GetCoinsFromTransactions demo_addresses
      ([demo_TB] ++ [demo_T1; demo_TA]) !! "b:0"
  = Some CoinStatus.INCOMING_PENDING_CONFIRMATION.
Proof.
  destruct (coin_status_order_independent demo_addresses
              ([demo_T1; demo_TA] ++ [demo_TB])
              ([demo_TB] ++ [demo_T1; demo_TA])) as [Hperm _].
  - apply (bool_decide_unpack _). vm_compute. exact I.
  - apply (bool_decide_unpack _). vm_compute. exact I.
  - apply Permutation_app_comm.
  - rewrite <- !Hperm. by vm_compute.
Defined.

Lemma shadowed_spec (used_by : gmap string string) (tx : Transaction) :
  shadowed used_by tx = true ↔
  ∃ input spender,
    input ∈ get_inputs tx ∧
    used_by !! input_coin input = Some spender ∧ spender ≠ get_txid tx.
Proof.
  unfold shadowed. rewrite existsb_exists. split.
  - intros (input & Hin & Hs). apply list_elem_of_In in Hin.
    fold (input_coin input) in Hs.
    destruct (used_by !! input_coin input) as [spender|] eqn:Hu; [|done].
    apply bool_decide_eq_true in Hs. eauto.
  - intros (input & spender & Hin & Hu & Hne).
    exists input. split; [by apply list_elem_of_In|].
    fold (input_coin input). rewrite Hu. by apply bool_decide_eq_true.
Qed.

(** *** Where the coins of the map come from *)

Lemma fold_left_skip {A B} (f : B → A → B) (P : A → Prop)
    `{∀ x, Decision (P x)} (l : list A) (acc : B) :
  (∀ b x, ¬ P x → f b x = b) →
  fold_left f l acc = fold_left f (filter P l) acc.
Proof.
  intros Hskip. revert acc. induction l as [|x l IH]; intros acc; [done|].
  rewrite filter_cons. cbn [fold_left]. destruct (decide (P x)) as [Hx|Hx].
  - cbn [fold_left]. apply IH.
  - rewrite (Hskip acc x Hx). apply IH.
Qed.

Lemma set_status_keys (id : string) (status : CoinStatus.t)
    (coins : gmap string UnspentOutput) (id' : string) :
  is_Some (set_status id status coins !! id') →
  is_Some (coins !! id') ∨ id' = id.
Proof.
  unfold set_status. destruct (decide (id' = id)) as [->|Hne]; [by right|].
  destruct (CoinStatus.lt _ _); rewrite lookup_insert_ne by done; by left.
Qed.

Section Provenance.
Variable all : gmap string AddressData.
Variable tx_map : gmap string Transaction.
Variable used_by : gmap string string.

Lemma spend_input_keys (tx : Transaction)
    (coins : gmap string UnspentOutput) (input : TxInput) (id : string) :
  is_Some (spend_input all tx_map tx coins input !! id) →
  is_Some (coins !! id) ∨ id = input_coin input.
Proof.
  unfold spend_input, input_coin.
  destruct (tx_map !! input.1) as [prev_tx|]; [|by left].
  destruct (negb _); [by left|].
  destruct (decide (id = CoinId input.1 input.2)) as [->|Hne]; [by right|].
  rewrite lookup_insert_ne by done.
  destruct (spend_status (get_status tx)) as [status|].
  - intros [Hin|?]%set_status_keys; [|done].
    rewrite lookup_insert_ne in Hin by done. by left.
  - rewrite lookup_insert_ne by done. by left.
Qed.

Lemma receive_output_keys (tx : Transaction)
    (coins : gmap string UnspentOutput) (vo : Z * TxOutput) (id : string) :
  is_Some (receive_output all tx coins vo !! id) →
  is_Some (coins !! id) ∨ id = CoinId (get_txid tx) vo.1.
Proof.
  unfold receive_output. destruct (negb _); [by left|].
  destruct (decide (id = CoinId (get_txid tx) vo.1)) as [->|Hne];
    [by right|].
  rewrite lookup_insert_ne by done.
  intros [Hin|?]%set_status_keys; [|done].
  rewrite lookup_insert_ne in Hin by done. by left.
Qed.

Lemma fold_left_keys {A} (f : gmap string UnspentOutput → A →
                              gmap string UnspentOutput)
    (key : A → string) (l : list A) (coins : gmap string UnspentOutput)
    (id : string) :
  (∀ c x, is_Some (f c x !! id) → is_Some (c !! id) ∨ id = key x) →
  is_Some (fold_left f l coins !! id) →
  is_Some (coins !! id) ∨ id ∈ key <$> l.
Proof.
  intros Hf. revert coins. induction l as [|x l IH]; intros coins;
    [by left|].
  cbn [fold_left]. intros [Hin|Hin]%IH.
  - apply Hf in Hin as [?| ->]; [by left|].
    right. rewrite fmap_cons. apply list_elem_of_here.
  - right. rewrite fmap_cons. by apply list_elem_of_further.
Qed.

Lemma replay_transaction_keys (coins : gmap string UnspentOutput)
    (tx : Transaction) (id : string) :
  is_Some (replay_transaction all tx_map used_by coins tx !! id) →
  is_Some (coins !! id) ∨
  (skipped_status tx = false ∧ shadowed used_by tx = false ∧
   (id ∈ input_coin <$> get_inputs tx ∨
    id ∈ (fun vo : Z * TxOutput => CoinId (get_txid tx) vo.1)
           <$> numbered_outputs tx)).
Proof.
  unfold replay_transaction.
  destruct (skipped_status tx); [by left|].
  destruct (shadowed used_by tx); [by left|].
  intros [Hin|Hin]%(fold_left_keys _
                      (fun vo : Z * TxOutput => CoinId (get_txid tx) vo.1)).
  - apply (fold_left_keys _ input_coin) in Hin as [?|?];
      [by left|by right; auto|].
    intros c x. apply spend_input_keys.
  - right. auto.
  - intros c x. apply receive_output_keys.
Qed.

Lemma replay_all_keys (txs : list Transaction)
    (coins : gmap string UnspentOutput) (id : string) :
  is_Some (fold_left (replay_transaction all tx_map used_by) txs coins
             !! id) →
  is_Some (coins !! id) ∨
  ∃ tx, tx ∈ txs ∧
    skipped_status tx = false ∧ shadowed used_by tx = false ∧
    (id ∈ input_coin <$> get_inputs tx ∨
     id ∈ (fun vo : Z * TxOutput => CoinId (get_txid tx) vo.1)
            <$> numbered_outputs tx).
Proof.
  revert coins. induction txs as [|x txs IH]; intros coins; [by left|].
  cbn [fold_left]. intros [Hin|(tx & Htx & Hrest)]%IH.
  - apply replay_transaction_keys in Hin as [?|Hx]; [by left|].
    right. exists x. split; [apply list_elem_of_here|done].
  - right. exists tx. split; [by apply list_elem_of_further|done].
Qed.

End Provenance.

(** C1 (amended).  A transaction one of whose inputs [used_by] gives to
    another txid is shadowed, and the replay loop skips the turn of a
    shadowed transaction: it leaves the coin map as it is, so the coin map
    of [GetCoinsFromTransactions] is the replay of the transactions that
    are not shadowed, and every coin of the map is an input or an output
    of a transaction of the set that is neither shadowed nor REPLACED nor
    NETWORK_REJECTED.  The shadowed transaction stays in [tx_map], which
    is where the replay of a transaction that spends one of its outputs
    finds that output.  [used_by] holds only the inputs of transactions
    with a height above 0, so when no transaction is confirmed nothing is
    shadowed. *)
Theorem shadowed_transaction_contributes_nothing
    (all : gmap string AddressData) (txs : list Transaction) :
  let tx_map := (index_transactions txs).1 in
  let used_by := (index_transactions txs).2 in
  (∀ tx,
     shadowed used_by tx = true ↔
     ∃ input spender,
       input ∈ get_inputs tx ∧
       used_by !! input_coin input = Some spender ∧
       spender ≠ get_txid tx) ∧
  (∀ tx coins,
     shadowed used_by tx = true →
     replay_transaction all tx_map used_by coins tx = coins) ∧
  (∀ id spender,
     used_by !! id = Some spender →
     ∃ t, t ∈ txs ∧ 0 < get_height t ∧ get_txid t = spender ∧
          id ∈ input_coin <$> get_inputs t) ∧
  ((∀ t, t ∈ txs → get_height t ≤ 0) → ∀ tx, shadowed used_by tx = false) ∧
  GetCoinsFromTransactions all txs
  = fold_left (replay_transaction all tx_map used_by)
      (filter (fun tx => shadowed used_by tx = false) txs) ∅ ∧
  (∀ id,
     is_Some (GetCoinsFromTransactions all txs !! id) →
     ∃ tx, tx ∈ txs ∧
       skipped_status tx = false ∧ shadowed used_by tx = false ∧
       (id ∈ input_coin <$> get_inputs tx ∨
        id ∈ (fun vo : Z * TxOutput => CoinId (get_txid tx) vo.1)
               <$> numbered_outputs tx)) ∧
  (∀ tx, tx ∈ txs → tx_map !! get_txid tx ≠ None).
Proof.
  intros tx_map used_by.
  assert (Hsound : ∀ id spender,
    used_by !! id = Some spender →
    ∃ t, t ∈ txs ∧ 0 < get_height t ∧ get_txid t = spender ∧
         id ∈ input_coin <$> get_inputs t).
  { intros id spender Hu.
    apply used_by_sound in Hu as [Hu|Hu]; [done|exact Hu]. }
  assert (Hskip : ∀ tx coins,
    shadowed used_by tx = true →
    replay_transaction all tx_map used_by coins tx = coins).
  { intros tx coins Hs. unfold replay_transaction.
    destruct (skipped_status tx); [done|]. by rewrite Hs. }
  assert (Hwhole : GetCoinsFromTransactions all txs
    = fold_left (replay_transaction all tx_map used_by) txs ∅).
  { unfold GetCoinsFromTransactions, tx_map, used_by.
    by destruct (index_transactions txs). }
  split; [intros tx; apply shadowed_spec|].
  split; [exact Hskip|].
  split; [exact Hsound|].
  split.
  { intros Hlow tx. apply not_true_iff_false.
    intros (input & spender & _ & Hu & _)%shadowed_spec.
    apply Hsound in Hu as (t & Hin & Hh & _). specialize (Hlow t Hin). lia. }
  split.
  { rewrite Hwhole. apply fold_left_skip. intros coins tx Hs.
    apply Hskip. by destruct (shadowed used_by tx). }
  split.
  { intros id. rewrite Hwhole.
    intros [Hin|Htx]%replay_all_keys; [|exact Htx].
    rewrite lookup_empty in Hin. by destruct Hin. }
  intros tx Htx. unfold tx_map.
  assert (Hkept : ∀ l acc t,
    (t ∈ l ∨ acc.1 !! get_txid t ≠ None) →
    (fold_left index_transaction l acc).1 !! get_txid t ≠ None).
  { induction l as [|x l IH]; intros acc t.
    - intros [Hin|?]; [by apply elem_of_nil in Hin|done].
    - cbn [fold_left]. intros [Hin|Hacc]; apply IH.
      + apply elem_of_cons in Hin as [->|Hin]; [right|by left].
        unfold index_transaction.
        destruct (acc.1 !! get_txid x) eqn:Hx;
          destruct (get_height x <=? 0); cbn [fst];
          rewrite ?Hx, ?lookup_insert_eq; done.
      + right. unfold index_transaction.
        destruct (acc.1 !! get_txid x) eqn:Hx;
          destruct (get_height x <=? 0); cbn [fst]; try done;
          (destruct (decide (get_txid t = get_txid x)) as [->|Hne];
             [by rewrite lookup_insert_eq|by rewrite lookup_insert_ne]). }
  apply Hkept. by left.
Qed.

Lemma shadowed_transaction_contributes_nothing_witness :
  shadowed (index_transactions [demo_T1; demo_TB_confirmed; demo_TA]).2
    demo_TA = true ∧
  replay_transaction demo_addresses
    (index_transactions [demo_T1; demo_TB_confirmed; demo_TA]).1
    (index_transactions [demo_T1; demo_TB_confirmed; demo_TA]).2
    ∅ demo_TA = ∅ ∧
  shadowed (index_transactions [demo_TA; demo_TB]).2 demo_TA = false ∧
  GetCoinsFromTransactions demo_addresses
    [demo_T1; demo_TB_confirmed; demo_TA] !! "a:0" = None.
Proof.
  pose proof (shadowed_transaction_contributes_nothing demo_addresses
                [demo_T1; demo_TB_confirmed; demo_TA])
    as (_ & Hskip & _ & _ & Hwhole & _).
  pose proof (shadowed_transaction_contributes_nothing demo_addresses
                [demo_TA; demo_TB]) as (_ & _ & _ & Hnone & _).
  split; [by vm_compute|].
  split; [apply Hskip; by vm_compute|].
  split.
  - apply Hnone. intros t Ht.
    apply elem_of_cons in Ht as [->|Ht]; [by vm_compute|].
    apply list_elem_of_singleton in Ht as ->. by vm_compute.
  - rewrite Hwhole. by vm_compute.
Defined.

(** The output of a shadowed transaction that a replayed transaction
    spends: [a] is shadowed by the confirmed [b], which spends the same
    coin, and [c], which awaits signatures, spends the first output of
    [a]; the replay of [c] finds [a] in [tx_map] and puts that output in
    the coin map, where it counts for the balance. *)
Lemma shadowed_output_spent_by_child :
  let txs := [demo_T1; demo_TB_confirmed; demo_TA; demo_TC] in
  shadowed (index_transactions txs).2 demo_TA = true ∧
  shadowed (index_transactions txs).2 demo_TC = false ∧
  (fun c => (utxo_amount c, utxo_status c))
    <$> GetCoinsFromTransactions demo_addresses txs !! "a:0"
  = Some (30000, CoinStatus.OUTGOING_PENDING_SIGNATURES) ∧
  balance_of true
    (map_to_list (GetCoinsFromTransactions demo_addresses txs)).*2
  = 59000.
Proof. by vm_compute. Qed.

(** C1 (as stated, refuted).  [a] and [b] are unconfirmed and spend the
    same coin; neither is shadowed and the coin map holds the output of
    both. *)
Lemma unconfirmed_double_spend_both_applied :
  get_height demo_TA = 0 ∧ get_height demo_TB = 0 ∧
  get_status demo_TA = TransactionStatus.PENDING_CONFIRMATION ∧
  get_status demo_TB = TransactionStatus.PENDING_CONFIRMATION ∧
  get_txid demo_TA ≠ get_txid demo_TB ∧
  get_inputs demo_TA = get_inputs demo_TB ∧
  shadowed (index_transactions [demo_T1; demo_TA; demo_TB]).2 demo_TA
    = false ∧
  shadowed (index_transactions [demo_T1; demo_TA; demo_TB]).2 demo_TB
    = false ∧
  utxo_amount <$>
    GetCoinsFromTransactions demo_addresses [demo_T1; demo_TA; demo_TB]
      !! "a:0" = Some 30000 ∧
  utxo_amount <$>
    GetCoinsFromTransactions demo_addresses [demo_T1; demo_TA; demo_TB]
      !! "b:0" = Some 29000.
Proof. by vm_compute. Qed.

(** *** Balance *)

Lemma GetBalance_step_spec (include_mempool : bool) (balance : Z)
    (coin : UnspentOutput) :
  GetBalance_step include_mempool balance coin =
  if decide (spec_excluded include_mempool coin) then balance
  else balance + utxo_amount coin.
Proof.
  unfold GetBalance_step.
  destruct (decide _) as [[Hs|[Hs|(-> & Hc & Hs)]]|Hd].
  - by rewrite Hs.
  - by rewrite Hs.
  - by rewrite Hc, Hs.
  - unfold spec_excluded in Hd.
    rewrite (bool_decide_eq_false_2 (_ = CoinStatus.SPENT)) by tauto.
    rewrite (bool_decide_eq_false_2
               (_ = CoinStatus.OUTGOING_PENDING_CONFIRMATION)) by tauto.
    simpl. destruct include_mempool, (utxo_change coin) eqn:Hc; simpl;
      try done.
    rewrite bool_decide_eq_false_2; [done|]. tauto.
Qed.

Lemma balance_of_from (include_mempool : bool) (coins : list UnspentOutput)
    (start : Z) :
  fold_left (GetBalance_step include_mempool) coins start =
  start + spec_balance include_mempool coins.
Proof.
  revert start. unfold spec_balance.
  induction coins as [|c coins IH]; intros start.
  - rewrite filter_nil. simpl. lia.
  - cbn [fold_left]. rewrite IH, GetBalance_step_spec, filter_cons.
    destruct (decide (spec_excluded include_mempool c)) as [Hex|Hin].
    + rewrite decide_False by tauto. lia.
    + rewrite decide_True by done. rewrite fmap_cons. simpl. lia.
Qed.

Lemma raise_status_invariant (P : CoinStatus.t → Prop) (id : string)
    (marks : list (string * CoinStatus.t)) (m : gmap string CoinStatus.t) :
  P CoinStatus.INCOMING_PENDING_CONFIRMATION →
  (∀ a b, P a → P b → P (status_max a b)) →
  (∀ s, m !! id = Some s → P s) →
  (∀ s, (id, s) ∈ marks → P s) →
  ∀ s, fold_left raise_status marks m !! id = Some s → P s.
Proof.
  intros Hlow Hmax. revert m.
  induction marks as [|[k a] marks IH]; intros m Hm Hmarks s; simpl;
    [apply Hm|].
  apply IH.
  - intros s'. unfold raise_status. simpl.
    destruct (decide (k = id)) as [->|Hne].
    + rewrite lookup_insert_eq. intros [= <-]. apply Hmax.
      * destruct (m !! id) eqn:Hl; simpl; [by apply Hm|done].
      * apply Hmarks, list_elem_of_here.
    + rewrite lookup_insert_ne by done. apply Hm.
  - intros s' Hin. by apply Hmarks, list_elem_of_further.
Qed.

Lemma transaction_marks_origin all tx_map used_by tx id s :
  (id, s) ∈ transaction_marks all tx_map used_by tx →
  (id ∈ input_coin <$> get_inputs tx ∧
   s = default CoinStatus.INCOMING_PENDING_CONFIRMATION
         (spend_status (get_status tx))) ∨
  s = receive_status (get_height tx).
Proof.
  unfold transaction_marks.
  destruct (skipped_status tx); [by intros ?%elem_of_nil|].
  destruct (shadowed used_by tx); [by intros ?%elem_of_nil|].
  rewrite elem_of_app. intros [Hin|Hout].
  - left. apply list_elem_of_In, in_flat_map in Hin as (input & Hi & Hm).
    unfold input_marks in Hm.
    destruct (tx_map !! input.1); [|done].
    destruct (negb _); [done|].
    destruct Hm as [[= <- <-]|[]].
    split; [|done].
    apply (list_elem_of_fmap_2' _ _ input); [by apply list_elem_of_In|done].
  - right. apply list_elem_of_In, in_flat_map in Hout as (vo & _ & Hm).
    unfold output_marks in Hm. destruct (negb _); [done|].
    by destruct Hm as [[= _ <-]|[]].
Qed.

Lemma unbroadcast_spends_keep_coin all txs id coin :
  (∀ tx, tx ∈ txs → id ∈ input_coin <$> get_inputs tx →
         unbroadcast_status (get_status tx)) →
  GetCoinsFromTransactions all txs !! id = Some coin →
  ¬ spec_excluded true coin.
Proof.
  intros Hspend Hcoin.
  assert (Hs : status_view (GetCoinsFromTransactions all txs) !! id =
               Some (utxo_status coin)).
  { unfold status_view. by rewrite lookup_fmap, Hcoin. }
  unfold GetCoinsFromTransactions in Hs.
  destruct (index_transactions txs) as [tx_map used_by].
  rewrite status_view_replay_all in Hs.
  assert (HP : utxo_status coin ≠ CoinStatus.SPENT ∧
               utxo_status coin ≠ CoinStatus.OUTGOING_PENDING_CONFIRMATION).
  { revert Hs. generalize (utxo_status coin).
    apply (raise_status_invariant
             (fun s => s ≠ CoinStatus.SPENT ∧
                       s ≠ CoinStatus.OUTGOING_PENDING_CONFIRMATION)
             id _ ∅).
    - done.
    - intros a b Ha Hb. unfold status_max.
      by destruct (CoinStatus.lt a b).
    - intros s. by rewrite lookup_empty.
    - intros s Hin.
      apply list_elem_of_In, in_flat_map in Hin as (tx & Htx & Hm).
      apply list_elem_of_In in Htx, Hm.
      apply transaction_marks_origin in Hm as [[Hid ->]| ->].
      + by destruct (Hspend tx Htx Hid) as [-> | ->].
      + unfold receive_status. by destruct (0 <? get_height tx). }
  intros [?|[?|(? & _)]]; [tauto|tauto|done].
Qed.

(** C6.  [GetBalance] is the sum of the amounts of the derived coins that
    are neither SPENT nor OUTGOING_PENDING_CONFIRMATION nor, with the
    mempool excluded, unconfirmed incoming coins that are not change; a
    coin whose only spenders are unbroadcast transactions is never SPENT
    nor OUTGOING_PENDING_CONFIRMATION, so its amount is added whenever the
    mempool rule does not leave it out. *)
Theorem GetBalance_is_filtered_sum `{Wallet} (include_mempool : bool)
    (db : WalletDb) (txs : list Transaction) :
  GetTransactions db = Ok txs →
  GetBalance include_mempool db =
    Ok (spec_balance include_mempool
          (map_to_list (GetCoinsFromTransactions (address_view db) txs)).*2)
  ∧
  (∀ id coin,
     (∀ tx, tx ∈ txs → id ∈ input_coin <$> get_inputs tx →
            unbroadcast_status (get_status tx)) →
     GetCoinsFromTransactions (address_view db) txs !! id = Some coin →
     utxo_status coin ≠ CoinStatus.SPENT ∧
     utxo_status coin ≠ CoinStatus.OUTGOING_PENDING_CONFIRMATION ∧
     (∀ include,
        include = true ∨ utxo_change coin = true ∨
        utxo_status coin ≠ CoinStatus.INCOMING_PENDING_CONFIRMATION →
        GetBalance_step include 0 coin = utxo_amount coin)).
Proof.
  intros Htxs. split.
  - unfold GetBalance, GetCoins. rewrite Htxs. f_equal.
    unfold balance_of. by rewrite balance_of_from.
  - intros id coin Hspend Hcoin.
    pose proof (unbroadcast_spends_keep_coin _ _ _ _ Hspend Hcoin) as Hkeep.
    split; [|split].
    + intros Hs. apply Hkeep. by left.
    + intros Hs. apply Hkeep. right. by left.
    + intros include Hrule.
      rewrite GetBalance_step_spec, decide_False; [lia|].
      intros [Hs|[Hs|(Hi & Hc & Hs)]].
      * apply Hkeep. by left.
      * apply Hkeep. right. by left.
      * destruct Hrule as [->|[Hch|Hst]]; congruence.
Qed.

Lemma GetBalance_is_filtered_sum_witness :
  GetBalance false demo_balance_db = Ok 50000 ∧
  GetBalance true demo_balance_db = Ok 50000 ∧
  utxo_status <$>
    GetCoinsFromTransactions (address_view demo_balance_db)
      demo_balance_txs !! "t1:0"
    = Some CoinStatus.OUTGOING_PENDING_SIGNATURES.
Proof.
  assert (Htxs : GetTransactions demo_balance_db = Ok demo_balance_txs)
    by (by vm_compute).
  destruct (GetBalance_is_filtered_sum false demo_balance_db
              demo_balance_txs Htxs) as [Hf _].
  destruct (GetBalance_is_filtered_sum true demo_balance_db
              demo_balance_txs Htxs) as [Ht _].
  split; [rewrite Hf; by vm_compute|].
  split; [rewrite Ht; by vm_compute|by vm_compute].
Defined.

(** ** The wallet store *)

(** *** What a call keeps *)

Section Preservation.
Context {S : Type} (P : S → Prop).

Lemma keeps_ret {A} (a : A) : keeps P (ret a).
Proof. by intros st. Qed.

Lemma keeps_throw {A} (e : Exception) : keeps P (throw (A := A) e).
Proof. by intros st. Qed.

Lemma keeps_lift {A} (r : Result A) : keeps P (lift r).
Proof. by intros st. Qed.

Lemma keeps_get_db : keeps P get_db.
Proof. by intros st. Qed.

Lemma keeps_modify (f : S → S) : (∀ st, P st → P (f st)) → keeps P (modify f).
Proof. intros Hf st. apply Hf. Qed.

Lemma keeps_bind {A B} (c : StateM S A) (k : A → StateM S B) :
  keeps P c → (∀ a, keeps P (k a)) → keeps P (bind c k).
Proof.
  intros Hc Hk st HP. unfold bind. specialize (Hc st HP).
  destruct (c st) as [[a|e] st']; simpl in *; [by apply Hk|done].
Qed.

Lemma keeps_for_each {A} (l : list A) (body : A → StateM S unit) :
  (∀ x, keeps P (body x)) → keeps P (for_each l body).
Proof.
  intros Hbody. induction l as [|x l IH]; simpl.
  - apply keeps_ret.
  - apply keeps_bind; [apply Hbody|by intros _].
Qed.

Lemma keeps_for_each_acc {A B} (l : list A) (acc : B)
    (body : B → A → StateM S B) :
  (∀ b x, keeps P (body b x)) → keeps P (for_each_acc l acc body).
Proof.
  intros Hbody. revert acc. induction l as [|x l IH]; intros acc; simpl.
  - apply keeps_ret.
  - apply keeps_bind; [apply Hbody|apply IH].
Qed.

End Preservation.

(** What the calls keep, from what their primitives keep. *)
Section Keepers.
Context `{Wallet} (P : WalletDb → Prop).
Hypothesis P_use : ∀ address, keeps P (UseAddress address).

Lemma GetTransaction_keeps tx_id : keeps P (GetTransaction tx_id).
Proof.
  unfold GetTransaction. apply keeps_bind; [apply keeps_get_db|].
  intros db. destruct (VTX db !! tx_id); [|apply keeps_throw].
  apply keeps_bind; [apply keeps_lift|]. intros tx.
  apply keeps_bind; [|intros; apply keeps_ret].
  apply keeps_for_each. intros. apply P_use.
Qed.

Lemma previous_output_keeps input : keeps P (previous_output input).
Proof.
  intros db HP. unfold previous_output.
  pose proof (GetTransaction_keeps input.1 db HP) as Hk.
  destruct (GetTransaction input.1 db) as [[tx|[]] db']; done.
Qed.

Section WithAddressData.
Hypothesis P_all : keeps P GetAllAddressData.

Lemma IsMyAddressM_keeps address : keeps P (IsMyAddressM address).
Proof.
  unfold IsMyAddressM. apply keeps_bind; [apply P_all|].
  intros. apply keeps_ret.
Qed.

Lemma FillSendReceiveData_keeps tx : keeps P (FillSendReceiveData tx).
Proof.
  unfold FillSendReceiveData. apply keeps_bind.
  { apply keeps_for_each_acc. intros acc input.
    apply keeps_bind; [apply previous_output_keeps|]. intros prev_out.
    apply keeps_bind; [apply IsMyAddressM_keeps|]. intros.
    apply keeps_ret. }
  intros [total is_send]. destruct is_send; simpl.
  - apply keeps_bind.
    { apply keeps_for_each_acc. intros [[a b] c] io.
      apply keeps_bind; [apply IsMyAddressM_keeps|]. intros.
      apply keeps_ret. }
    intros [[a b] c]. apply keeps_ret.
  - apply keeps_bind.
    { apply keeps_for_each_acc. intros acc output.
      apply keeps_bind; [apply IsMyAddressM_keeps|]. intros.
      apply keeps_ret. }
    intros. apply keeps_ret.
Qed.

Section Tables.
Hypothesis P_vtx : ∀ db vtx, P db → P (with_VTX vtx db).
Hypothesis P_address : ∀ db a, P db → P (with_ADDRESS a db).

Lemma sql_update_vtx_keeps tx_id f : keeps P (sql_update_vtx tx_id f).
Proof.
  intros db HP. unfold sql_update_vtx.
  destruct (VTX db !! tx_id); [by apply P_vtx|done].
Qed.

Lemma sql_upsert_vtx_keeps tx_id new : keeps P (sql_upsert_vtx tx_id new).
Proof.
  apply keeps_modify. intros db HP.
  destruct (VTX db !! tx_id); by apply P_vtx.
Qed.

Lemma sql_insert_vtx_keeps tx_id new : keeps P (sql_insert_vtx tx_id new).
Proof.
  intros db HP. unfold sql_insert_vtx.
  destruct (VTX db !! tx_id); [done|by apply P_vtx].
Qed.

Lemma DeleteTransaction_keeps tx_id : keeps P (DeleteTransaction tx_id).
Proof.
  intros db HP. unfold DeleteTransaction.
  destruct (VTX db !! tx_id); [by apply P_vtx|done].
Qed.

Lemma SetAddress_keeps address index internal utxos :
  keeps P (SetAddress address index internal utxos).
Proof.
  apply keeps_modify. intros db HP.
  destruct (ADDRESS db !! address); by apply P_address.
Qed.

Lemma SetUtxos_keeps address utxo : keeps P (SetUtxos address utxo).
Proof.
  unfold SetUtxos. apply keeps_bind; [apply P_all|]. intros all.
  destruct (all !! address); [|apply keeps_ret].
  apply keeps_bind; [apply SetAddress_keeps|]. intros. apply keeps_ret.
Qed.

Lemma InsertTransaction_keeps raw height blocktime fee memo change_pos :
  keeps P (InsertTransaction raw height blocktime fee memo change_pos).
Proof.
  unfold InsertTransaction.
  apply keeps_bind; [apply sql_upsert_vtx_keeps|].
  intros. apply GetTransaction_keeps.
Qed.

Lemma CreatePsbt_keeps psbt fee memo change_pos outputs fee_rate subtract
    replace_tx :
  keeps P (CreatePsbt psbt fee memo change_pos outputs fee_rate subtract
             replace_tx).
Proof.
  unfold CreatePsbt.
  apply keeps_bind; [apply sql_upsert_vtx_keeps|].
  intros. apply GetTransaction_keeps.
Qed.

Lemma UpdatePsbtTxId_keeps old_id new_id :
  keeps P (UpdatePsbtTxId old_id new_id).
Proof.
  unfold UpdatePsbtTxId. apply keeps_bind; [apply keeps_get_db|].
  intros db. destruct (select_unbroadcast old_id db); [|apply keeps_throw].
  apply keeps_bind; [apply sql_insert_vtx_keeps|].
  intros. apply DeleteTransaction_keeps.
Qed.

Lemma SetReplacedBy_keeps old_txid new_txid :
  keeps P (SetReplacedBy old_txid new_txid).
Proof.
  unfold SetReplacedBy. apply keeps_bind; [apply keeps_get_db|].
  intros db. destruct (VTX db !! old_txid) as [row|]; [|apply keeps_ret].
  destruct (EXTRA row); [apply keeps_ret|].
  apply keeps_bind; [apply keeps_lift|]. intros.
  apply keeps_bind; [apply sql_update_vtx_keeps|]. intros.
  apply keeps_ret.
Qed.

Lemma refresh_keeps (updated : bool) tx_id :
  keeps P
    (let* _ := (if updated then let* _ := GetTransaction tx_id in ret tt
                else ret tt) in
     ret updated).
Proof.
  apply keeps_bind; [|intros; apply keeps_ret].
  destruct updated; [|apply keeps_ret].
  apply keeps_bind; [apply GetTransaction_keeps|]. intros. apply keeps_ret.
Qed.

Lemma UpdateTransaction_keeps raw height blocktime reject_msg :
  keeps P (UpdateTransaction raw height blocktime reject_msg).
Proof.
  unfold UpdateTransaction. destruct (bool_decide (height = -1)).
  - apply keeps_bind; [apply keeps_get_db|]. intros db.
    apply keeps_bind.
    { destruct (EXTRA <$> select_unbroadcast _ db) as [[|extra]|];
        [apply keeps_throw| |apply keeps_throw].
      apply keeps_bind; [apply keeps_lift|]. intros. apply keeps_ret. }
    intros extra. apply keeps_bind.
    { destruct extra; apply sql_update_vtx_keeps. }
    intros updated. apply refresh_keeps.
  - apply keeps_bind.
    { destruct (height <=? 0); [|apply keeps_ret].
      apply keeps_bind; [apply keeps_get_db|]. intros db.
      destruct (select_unbroadcast _ db) as [row|]; [|apply keeps_ret].
      destruct (EXTRA row); [apply keeps_ret|].
      apply keeps_bind; [apply keeps_lift|]. intros extra_json.
      apply keeps_bind; [|intros; apply keeps_ret].
      destruct (ej_replace_txid _); [apply SetReplacedBy_keeps|].
      apply keeps_ret. }
    intros extra. apply keeps_bind.
    { destruct extra; apply sql_update_vtx_keeps. }
    intros updated. apply refresh_keeps.
Qed.

End Tables.
End WithAddressData.
End Keepers.

(** Calls that write nothing but the address cache keep whatever does not
    read the cache. *)
Section CacheOnly.
Context `{Wallet} (P : WalletDb → Prop).
Hypothesis P_cache_blind : ∀ db c, P db → P (with_addr_cache c db).

Lemma UseAddress_keeps_blind address : keeps P (UseAddress address).
Proof.
  apply keeps_modify. intros db HP.
  destruct (String.eqb address ""); [done|].
  destruct (addr_cache db) as [cache|]; [|done].
  destruct (cache !! address); [|done]. by apply P_cache_blind.
Qed.

Lemma GetAllAddressData_keeps_blind : keeps P GetAllAddressData.
Proof.
  unfold GetAllAddressData. apply keeps_bind; [apply keeps_get_db|].
  intros db. destruct (addr_cache db); [apply keeps_ret|].
  apply keeps_bind; [apply keeps_modify; intros; by apply P_cache_blind|].
  intros _. apply keeps_bind; [apply keeps_lift|]. intros txs.
  apply keeps_bind; [|intros; apply keeps_ret].
  apply keeps_for_each. intros tx.
  apply keeps_for_each. intros. apply UseAddress_keeps_blind.
Qed.

End CacheOnly.

Lemma GetTransaction_tables `{Wallet} tx_id db :
  VTX (exec (GetTransaction tx_id) db) = VTX db ∧
  ADDRESS (exec (GetTransaction tx_id) db) = ADDRESS db.
Proof.
  apply (GetTransaction_keeps
           (fun d => VTX d = VTX db ∧ ADDRESS d = ADDRESS db)); [|done].
  intros address. by apply UseAddress_keeps_blind.
Qed.

Lemma for_each_UseAddress_ok {A} (l : list A) (address : A → string) db :
  (for_each l (fun x => UseAddress (address x)) db).1 = Ok tt.
Proof.
  revert db. induction l as [|x l IH]; intros db; [done|].
  cbn [for_each]. unfold bind. by cbn.
Qed.

Lemma GetTransaction_result `{Wallet} tx_id db :
  result (GetTransaction tx_id) db =
  match VTX db !! tx_id with
  | Some row => read_row tx_id row
  | None => Throw TX_NOT_FOUND
  end.
Proof.
  unfold result, GetTransaction, bind, get_db, lift, ret, throw. simpl.
  destruct (VTX db !! tx_id) as [row|]; [|done].
  destruct (read_row tx_id row) as [tx|e]; [|done].
  pose proof (for_each_UseAddress_ok (get_outputs tx) fst db) as Hok.
  by destruct (for_each _ _ db) as [[[]|e] db'].
Qed.

(** *** Transaction store *)

Lemma filter_none {A} (P : A → Prop) `{∀ x, Decision (P x)} (l : list A) :
  (∀ x, x ∈ l → ¬ P x) → filter P l = [].
Proof.
  induction l as [|x l IH]; intros Hl; [done|].
  rewrite filter_cons, decide_False by (apply Hl, list_elem_of_here).
  apply IH. intros y Hy. by apply Hl, list_elem_of_further.
Qed.

Lemma rows_with_id_lookup (tx_id : string) (db : WalletDb) (row : VtxRow) :
  VTX db !! tx_id = Some row → rows_with_id tx_id db = [(tx_id, row)].
Proof.
  intros Hrow. unfold rows_with_id.
  apply Permutation_singleton_r.
  rewrite <- (map_to_list_delete _ _ _ Hrow), filter_cons, decide_True by done.
  apply Permutation_cons; [done|].
  rewrite filter_none; [done|].
  intros [k v] Hin Hk. simpl in Hk. subst k.
  apply elem_of_map_to_list in Hin. by rewrite lookup_delete_eq in Hin.
Qed.

Lemma sql_upsert_vtx_lookup tx_id new db id :
  VTX (exec (sql_upsert_vtx tx_id new) db) !! id =
  if decide (tx_id = id) then
    Some match VTX db !! tx_id with
         | Some r => row_with_HEIGHT (HEIGHT new) (row_with_VALUE (VALUE new) r)
         | None => new
         end
  else VTX db !! id.
Proof.
  unfold exec, sql_upsert_vtx, modify. simpl.
  destruct (VTX db !! tx_id) eqn:Hr; simpl;
    case_decide as Hd; subst;
    by rewrite ?lookup_insert_eq, ?lookup_insert_ne by done.
Qed.

Lemma InsertTransaction_VTX `{Wallet} raw height blocktime fee memo
    change_pos db :
  VTX (exec (InsertTransaction raw height blocktime fee memo change_pos) db) =
  VTX (exec (sql_upsert_vtx (RawTxId raw)
               (mkVtxRow raw height fee memo change_pos blocktime
                  (SqlText None))) db).
Proof.
  unfold InsertTransaction, exec at 1, bind.
  destruct (sql_upsert_vtx _ _ db) as [[[]|e] db1] eqn:Hup;
    unfold exec; rewrite Hup; simpl; [|done].
  apply GetTransaction_tables.
Qed.

(** C4.  [InsertTransaction] on an id that has a row leaves exactly one row
    for the id, with the payload and the height of the call and with the
    fee, memo, change position, block time and extra it had; on a new id
    the row is the call's; every other row is as before. *)
Theorem InsertTransaction_upsert `{Wallet} (raw : string)
    (height blocktime fee : Z) (memo : string) (change_pos : Z)
    (db : WalletDb) :
  let tx_id := RawTxId raw in
  let db' :=
    exec (InsertTransaction raw height blocktime fee memo change_pos) db in
  (∀ row,
     VTX db !! tx_id = Some row →
     rows_with_id tx_id db' =
       [(tx_id, mkVtxRow raw height (FEE row) (MEMO row) (CHANGEPOS row)
                  (BLOCKTIME row) (EXTRA row))]) ∧
  (VTX db !! tx_id = None →
   rows_with_id tx_id db' =
     [(tx_id, mkVtxRow raw height fee memo change_pos blocktime
                (SqlText None))]) ∧
  (∀ id, id ≠ tx_id → VTX db' !! id = VTX db !! id).
Proof.
  intros tx_id db'. split; [|split].
  - intros row Hrow. apply rows_with_id_lookup. unfold db'.
    rewrite InsertTransaction_VTX, sql_upsert_vtx_lookup.
    fold tx_id. by rewrite decide_True, Hrow.
  - intros Hrow. apply rows_with_id_lookup. unfold db'.
    rewrite InsertTransaction_VTX, sql_upsert_vtx_lookup.
    fold tx_id. by rewrite decide_True, Hrow.
  - intros id Hne. unfold db'.
    rewrite InsertTransaction_VTX, sql_upsert_vtx_lookup.
    fold tx_id. by rewrite decide_False.
Qed.

Lemma InsertTransaction_upsert_witness :
  rows_with_id "t1"
    (exec (InsertTransaction "rawT1" 100 1700000000 0 "" (-1))
       (exec (InsertTransaction "rawT1" 0 0 250 "rent" 1) empty_db)) =
  [("t1", mkVtxRow "rawT1" 100 250 "rent" 1 0 (SqlText None))].
Proof.
  destruct (InsertTransaction_upsert "rawT1" 100 1700000000 0 "" (-1)
              (exec (InsertTransaction "rawT1" 0 0 250 "rent" 1) empty_db))
    as [Hrow _].
  apply (Hrow (mkVtxRow "rawT1" 0 250 "rent" 1 0 (SqlText None))).
  by vm_compute.
Defined.

Lemma FillExtra_retagged (extra : ExtraString) (tx_id : string)
    (tx tx' : Transaction) :
  FillExtra extra tx = Ok tx' →
  FillExtra extra (retagged tx_id tx) = Ok (retagged tx_id tx').
Proof.
  unfold FillExtra. destruct extra as [extra_json|]; [|by intros [= <-]].
  simpl.
  destruct (match ej_signers extra_json with
            | Some sg => _
            | None => _
            end) as [signers|e]; [|done].
  by intros [= <-].
Qed.

Lemma read_row_moved `{Wallet} (old_id new_id : string) (row : VtxRow)
    (tx : Transaction) :
  HEIGHT row = -1 →
  read_row old_id row = Ok tx →
  read_row new_id
    (mkVtxRow (VALUE row) (-1) (FEE row) (MEMO row) (CHANGEPOS row) 0
       (SqlText match EXTRA row with
                | SqlText extra => extra
                | SqlNull => None
                end)) = Ok (retagged new_id tx).
Proof.
  intros Hh. unfold read_row. simpl. rewrite Hh.
  destruct (GetTransactionFromStr (VALUE row) wallet_m (-1)) as [tx0 is_hex].
  destruct (EXTRA row) as [|extra].
  - by intros [= <-].
  - intros Hfill. by apply (FillExtra_retagged _ new_id) in Hfill.
Qed.

Lemma select_unbroadcast_Some tx_id db row :
  select_unbroadcast tx_id db = Some row ↔
  VTX db !! tx_id = Some row ∧ HEIGHT row = -1.
Proof.
  unfold select_unbroadcast.
  destruct (VTX db !! tx_id) as [r|]; [|by split; [|intros []]].
  case_bool_decide as Hh; split.
  - by intros [= <-].
  - by intros [[= <-] _].
  - done.
  - intros [[= <-] ?]. done.
Qed.

(** C7 (amended).  When [old_id] has an unbroadcast row and [new_id] has no
    row, [UpdatePsbtTxId] returns true and leaves a store where reading
    [new_id] gives what reading [old_id] gave (payload, fee, memo, change
    position and the data of extra), under the new id and with block time
    0, and where reading [old_id] throws TX_NOT_FOUND; the other rows are
    as before.  When [old_id] has no unbroadcast row the call throws
    TX_NOT_FOUND and changes nothing. *)
Theorem UpdatePsbtTxId_moves_row `{Wallet} (old_id new_id : string)
    (db : WalletDb) :
  let db' := exec (UpdatePsbtTxId old_id new_id) db in
  (∀ row,
     select_unbroadcast old_id db = Some row →
     VTX db !! new_id = None →
     result (UpdatePsbtTxId old_id new_id) db = Ok true ∧
     result (GetTransaction old_id) db' = Throw TX_NOT_FOUND ∧
     (∀ tx,
        result (GetTransaction old_id) db = Ok tx →
        result (GetTransaction new_id) db' = Ok (retagged new_id tx)) ∧
     (∀ id, id ≠ old_id → id ≠ new_id → VTX db' !! id = VTX db !! id)) ∧
  (select_unbroadcast old_id db = None →
   result (UpdatePsbtTxId old_id new_id) db = Throw TX_NOT_FOUND ∧
   db' = db).
Proof.
  intros db'. split.
  - intros row Hsel Hnew.
    pose proof Hsel as [Hrow Hh]%select_unbroadcast_Some.
    assert (Hne : new_id ≠ old_id) by (intros ->; congruence).
    assert (Hrun : UpdatePsbtTxId old_id new_id db =
              (Ok true,
               with_VTX
                 (delete old_id
                    (<[new_id :=
                         mkVtxRow (VALUE row) (-1) (FEE row) (MEMO row)
                           (CHANGEPOS row) 0
                           (SqlText match EXTRA row with
                                    | SqlText extra => extra
                                    | SqlNull => None
                                    end)]> (VTX db))) db)).
    { unfold UpdatePsbtTxId, bind, get_db, sql_insert_vtx,
        DeleteTransaction. simpl. rewrite Hsel, Hnew. simpl.
      by rewrite lookup_insert_ne, Hrow by done. }
    unfold db', exec, result at 1. rewrite Hrun. simpl.
    split; [done|]. split; [|split].
    + rewrite GetTransaction_result. simpl. by rewrite lookup_delete_eq.
    + intros tx Hold. rewrite GetTransaction_result in Hold.
      rewrite Hrow in Hold.
      rewrite GetTransaction_result. simpl.
      rewrite lookup_delete_ne, lookup_insert_eq by done.
      by apply (read_row_moved old_id).
    + intros id Hid1 Hid2. simpl.
      by rewrite lookup_delete_ne, lookup_insert_ne.
  - intros Hsel. unfold db', exec, result, UpdatePsbtTxId, bind, get_db.
    simpl. by rewrite Hsel.
Qed.

Lemma UpdatePsbtTxId_moves_row_witness :
  result (UpdatePsbtTxId "b" "newid") demo_replace_db = Ok true ∧
  result (GetTransaction "b")
    (exec (UpdatePsbtTxId "b" "newid") demo_replace_db)
    = Throw TX_NOT_FOUND ∧
  get_psbt <$>
    returned (result (GetTransaction "newid")
                (exec (UpdatePsbtTxId "b" "newid") demo_replace_db))
    = Some "psbtB" ∧
  result (UpdatePsbtTxId "missing" "newid") demo_replace_db
    = Throw TX_NOT_FOUND.
Proof.
  destruct (UpdatePsbtTxId_moves_row "b" "newid" demo_replace_db)
    as [Hmove _].
  destruct (UpdatePsbtTxId_moves_row "missing" "newid" demo_replace_db)
    as [_ Hmissing].
  edestruct Hmove as (Hret & Hold & Hnew & _);
    [by vm_compute|by vm_compute|].
  assert (∃ tx, result (GetTransaction "b") demo_replace_db = Ok tx ∧
                get_psbt tx = "psbtB") as (tx & Hread & Hpsbt)
    by (eexists; split; by vm_compute).
  split; [exact Hret|]. split; [exact Hold|]. split.
  - rewrite (Hnew tx Hread). simpl. by rewrite Hpsbt.
  - apply Hmissing. by vm_compute.
Defined.

(** C7 (as stated, refuted).  [UpdatePsbtTxId] onto an id that already has
    a row throws a storage error: the old id is still readable and the new
    id still reads as its own transaction. *)
Lemma UpdatePsbtTxId_onto_existing_id :
  select_unbroadcast "b" demo_replace_db_sent ≠ None ∧
  result (UpdatePsbtTxId "b" "a") demo_replace_db_sent = Throw SQL_ERROR ∧
  get_psbt <$>
    returned (result (GetTransaction "b")
                (exec (UpdatePsbtTxId "b" "a") demo_replace_db_sent))
    = Some "psbtB" ∧
  get_psbt <$>
    returned (result (GetTransaction "a")
                (exec (UpdatePsbtTxId "b" "a") demo_replace_db_sent))
    = Some "" ∧
  get_raw <$>
    returned (result (GetTransaction "a")
                (exec (UpdatePsbtTxId "b" "a") demo_replace_db_sent))
    = Some "rawA".
Proof. by vm_compute. Qed.

Lemma bind_Ok {S A B} (c : StateM S A) (k : A → StateM S B) st a st' :
  c st = (Ok a, st') → bind c k st = k a st'.
Proof. intros Hc. unfold bind. by rewrite Hc. Qed.

Lemma bind_Throw {S A B} (c : StateM S A) (k : A → StateM S B) st e st' :
  c st = (Throw e, st') → bind c k st = (Throw e, st').
Proof. intros Hc. unfold bind. by rewrite Hc. Qed.

(** The closing [if (updated) GetTransaction(tx_id); return updated;]. *)
Lemma refresh_after_update `{Wallet} (tx_id : string) (db : WalletDb) :
  let c : M bool :=
    let* _ := (let* _ := GetTransaction tx_id in ret tt) in ret true in
  VTX (c db).2 = VTX db ∧ ADDRESS (c db).2 = ADDRESS db ∧
  (c db).1 = match result (GetTransaction tx_id) db with
             | Ok _ => Ok true
             | Throw e => Throw e
             end.
Proof.
  intros c. unfold c, bind, ret, result.
  pose proof (GetTransaction_tables tx_id db) as [Hv Ha].
  unfold exec in Hv, Ha.
  by destruct (GetTransaction tx_id db) as [[tx|e] db1].
Qed.

Lemma sql_update_vtx_Some tx_id f db row :
  VTX db !! tx_id = Some row →
  sql_update_vtx tx_id f db =
  (Ok true, with_VTX (<[tx_id := f row]> (VTX db)) db).
Proof. intros Hrow. unfold sql_update_vtx. by rewrite Hrow. Qed.

(** C10 (amended).  [UpdateTransaction(raw, -1, ...)]: when the id derived
    from [raw] has no row with height -1, or has one whose EXTRA is NULL,
    the call throws TX_NOT_FOUND and leaves the store as it was; when it
    has one whose EXTRA is a JSON document, only that row changes: its
    payload becomes [raw] and the [signers] member of its extra becomes
    the signers of [raw]; the call then returns true unless the closing
    read of the row throws. *)
Theorem UpdateTransaction_unbroadcast `{Wallet} (raw : string)
    (blocktime : Z) (reject_msg : string) (db : WalletDb) :
  let tx := (GetTransactionFromStr raw 0 (-1)).1 in
  let tx_id := get_txid tx in
  let call := UpdateTransaction raw (-1) blocktime reject_msg in
  (select_unbroadcast tx_id db = None →
   result call db = Throw TX_NOT_FOUND ∧ exec call db = db) ∧
  (∀ row,
     select_unbroadcast tx_id db = Some row → EXTRA row = SqlNull →
     result call db = Throw TX_NOT_FOUND ∧ exec call db = db) ∧
  (∀ row extra_json,
     select_unbroadcast tx_id db = Some row →
     EXTRA row = SqlText (Some extra_json) →
     let row' :=
       mkVtxRow raw (HEIGHT row) (FEE row) (MEMO row) (CHANGEPOS row)
         (BLOCKTIME row)
         (SqlText (Some (ej_with_signers (Some (get_signers tx))
                           extra_json))) in
     VTX (exec call db) = <[tx_id := row']> (VTX db) ∧
     ADDRESS (exec call db) = ADDRESS db ∧
     result call db = match read_row tx_id row' with
                      | Ok _ => Ok true
                      | Throw e => Throw e
                      end).
Proof.
  intros tx tx_id call.
  assert (Hcall : call =
    (let* db0 := get_db in
     let* extra :=
       match EXTRA <$> select_unbroadcast tx_id db0 with
       | Some (SqlText extra) =>
           let* extra_json := lift (json_parse extra) in
           ret (Some (ej_with_signers (Some (get_signers tx)) extra_json))
       | Some SqlNull | None => throw TX_NOT_FOUND
       end in
     let* updated :=
       match extra : ExtraString with
       | None => sql_update_vtx tx_id (row_with_VALUE raw)
       | Some _ =>
           sql_update_vtx tx_id
             (fun r => row_with_EXTRA (SqlText extra)
                         (row_with_VALUE raw r))
       end in
     let* _ := if updated : bool
               then let* _ := GetTransaction tx_id in ret tt
               else ret tt in
     ret updated)) by reflexivity.
  rewrite Hcall. clear Hcall call.
  split; [|split].
  - intros Hsel. unfold result, exec, bind, get_db. simpl.
    by rewrite Hsel.
  - intros row Hsel Hnull. unfold result, exec, bind, get_db. simpl.
    by rewrite Hsel; simpl; rewrite Hnull.
  - intros row extra_json Hsel Hextra row'.
    pose proof Hsel as [Hrow Hh]%select_unbroadcast_Some.
    set (db1 := with_VTX (<[tx_id:=row']> (VTX db)) db).
    destruct (refresh_after_update tx_id db1) as (Hv & Ha & Hr).
    cbv zeta in Hv, Ha, Hr.
    unfold result, exec.
    rewrite (bind_Ok _ _ db db db) by done.
    rewrite Hsel. cbn [fmap option_fmap option_map]. rewrite Hextra.
    erewrite bind_Ok; [|by erewrite bind_Ok].
    erewrite bind_Ok; [|by apply sql_update_vtx_Some].
    cbv beta iota.
    change (row_with_EXTRA _ (row_with_VALUE raw row)) with row'.
    fold db1. rewrite Hv, Ha, Hr, GetTransaction_result.
    unfold db1. simpl. by rewrite lookup_insert_eq.
Qed.

Lemma UpdateTransaction_unbroadcast_witness :
  result (UpdateTransaction "rawT2" (-1) 0 "") demo_replace_db
    = Throw TX_NOT_FOUND ∧
  exec (UpdateTransaction "rawT2" (-1) 0 "") demo_replace_db
    = demo_replace_db ∧
  VALUE <$>
    VTX (exec (UpdateTransaction "rawB" (-1) 0 "") demo_replace_db) !! "b"
    = Some "rawB".
Proof.
  destruct (UpdateTransaction_unbroadcast "rawT2" 0 "" demo_replace_db)
    as (Hnone & _ & _).
  destruct (UpdateTransaction_unbroadcast "rawB" 0 "" demo_replace_db)
    as (_ & _ & Hdoc).
  destruct Hnone as [Hthrow Hsame]; [by vm_compute|].
  edestruct Hdoc as (Hvtx & _); [by vm_compute|by vm_compute|].
  split; [exact Hthrow|]. split; [exact Hsame|].
  rewrite Hvtx. by vm_compute.
Defined.

(** C10 (as stated, refuted).  An unbroadcast row exists for [t2], yet the
    call does not update it: with the empty EXTRA that [InsertTransaction]
    writes the parse of EXTRA throws, and with a NULL EXTRA the call throws
    TX_NOT_FOUND. *)
Lemma UpdateTransaction_unbroadcast_row_not_updated :
  select_unbroadcast "t2" demo_empty_extra_db ≠ None ∧
  result (UpdateTransaction "psbtT2" (-1) 0 "") demo_empty_extra_db
    = Throw JSON_ERROR ∧
  VALUE <$>
    VTX (exec (UpdateTransaction "psbtT2" (-1) 0 "") demo_empty_extra_db)
      !! "t2"
    = Some "rawT2" ∧
  select_unbroadcast "t2" demo_null_extra_db ≠ None ∧
  result (UpdateTransaction "rawT2" (-1) 0 "") demo_null_extra_db
    = Throw TX_NOT_FOUND ∧
  VALUE <$>
    VTX (exec (UpdateTransaction "rawT2" (-1) 0 "") demo_null_extra_db)
      !! "t2"
    = Some "psbtT2".
Proof. by vm_compute. Qed.

(** *** Replacement chain *)

Lemma SetReplacedBy_Some old_txid new_txid db row extra_json :
  VTX db !! old_txid = Some row →
  EXTRA row = SqlText (Some extra_json) →
  SetReplacedBy old_txid new_txid db =
  (Ok tt,
   with_VTX
     (<[old_txid :=
          row_with_EXTRA
            (SqlText (Some (ej_with_replaced_by_txid (Some new_txid)
                              extra_json))) row]> (VTX db)) db).
Proof.
  intros Hrow Hextra. unfold SetReplacedBy.
  rewrite (bind_Ok _ _ db db db) by done.
  rewrite Hrow, Hextra.
  erewrite bind_Ok; [|done].
  erewrite bind_Ok; [|by apply sql_update_vtx_Some]. done.
Qed.

Lemma FillExtra_status (extra_json : ExtraJson) (tx tx' : Transaction) :
  FillExtra (Some extra_json) tx = Ok tx' →
  let replaced :=
    bool_decide (get_status tx = TransactionStatus.PENDING_CONFIRMATION) &&
    bool_decide (is_Some (ej_replaced_by_txid extra_json)) in
  get_status tx' =
    (if replaced then TransactionStatus.REPLACED else get_status tx) ∧
  get_replaced_by_txid tx' =
    (if replaced then default "" (ej_replaced_by_txid extra_json)
     else get_replaced_by_txid tx).
Proof.
  unfold FillExtra.
  destruct (match ej_signers extra_json with
            | Some sg => _
            | None => _
            end) as [signers|e]; [|done].
  by intros [= <-].
Qed.

(** C5 (amended).  Let the unbroadcast row [B] carry [replace_txid = A] in
    its extra, and let [A] be another row whose extra is a JSON document.
    [UpdateTransaction] of [B] to height 0 (to any height at or below 0
    other than -1) writes [replaced_by_txid = B] into the extra of [A] and
    changes nothing else of [A]; [B] keeps its row under its own id, with
    the new payload and height; and a read of [A] then shows REPLACED,
    with [replaced_by_txid = B], when the status decoded from its payload
    and height is PENDING_CONFIRMATION, and the decoded status
    otherwise. *)
Theorem UpdateTransaction_marks_replaced `{Wallet} (raw : string)
    (height blocktime : Z) (reject_msg : string) (db : WalletDb)
    (rowB rowA : VtxRow) (extraB extraA : ExtraJson) (A : string) :
  let B := RawTxId raw in
  select_unbroadcast B db = Some rowB →
  EXTRA rowB = SqlText (Some extraB) →
  ej_replace_txid extraB = Some A →
  VTX db !! A = Some rowA →
  EXTRA rowA = SqlText (Some extraA) →
  A ≠ B →
  height ≤ 0 → height ≠ -1 →
  let db' := exec (UpdateTransaction raw height blocktime reject_msg) db in
  let rowA' :=
    row_with_EXTRA
      (SqlText (Some (ej_with_replaced_by_txid (Some B) extraA))) rowA in
  let stored :=
    get_status (GetTransactionFromStr (VALUE rowA) wallet_m (HEIGHT rowA)).1
  in
  VTX db' !! A = Some rowA' ∧
  (∃ rowB',
     VTX db' !! B = Some rowB' ∧ VALUE rowB' = raw ∧
     HEIGHT rowB' = height ∧
     result (GetTransaction B) db' = read_row B rowB') ∧
  (∀ txA,
     result (GetTransaction A) db' = Ok txA →
     get_status txA =
       (if bool_decide (stored = TransactionStatus.PENDING_CONFIRMATION)
        then TransactionStatus.REPLACED else stored) ∧
     (stored = TransactionStatus.PENDING_CONFIRMATION →
      get_replaced_by_txid txA = B)).
Proof.
  intros B Hsel HextraB Hreplace HrowA HextraA Hne Hle Hnot db' rowA' stored.
  pose proof Hsel as [HrowB HhB]%select_unbroadcast_Some.
  set (extra2 :=
         if negb (String.eqb reject_msg "")
         then ej_with_reject_msg (Some reject_msg)
                (ej_with_signers
                   (Some (get_signers
                            (GetTransactionFromStr (VALUE rowB) 0 (-1)).1))
                   extraB)
         else ej_with_signers
                (Some (get_signers
                         (GetTransactionFromStr (VALUE rowB) 0 (-1)).1))
                extraB).
  assert (Hreplace2 : ej_replace_txid extra2 = Some A).
  { unfold extra2. by destruct (negb _). }
  set (rowB' :=
         row_with_EXTRA (SqlText (Some extra2))
           (row_with_BLOCKTIME blocktime
              (row_with_HEIGHT height (row_with_VALUE raw rowB)))).
  set (dbA := with_VTX (<[A := rowA']> (VTX db)) db).
  set (dbB := with_VTX (<[B := rowB']> (VTX dbA)) dbA).
  assert (Hvtx : VTX db' = VTX dbB).
  { destruct (refresh_after_update B dbB) as (Hv & _ & _).
    cbv zeta in Hv. rewrite <- Hv. unfold db', exec, UpdateTransaction.
    rewrite bool_decide_eq_false_2 by done.
    rewrite (proj2 (Z.leb_le height 0)) by done.
    fold B.
    erewrite bind_Ok.
    2:{ rewrite (bind_Ok _ _ db db db) by done.
        rewrite Hsel, HextraB.
        erewrite bind_Ok; [|done]. cbv zeta. fold extra2.
        rewrite Hreplace2.
        erewrite bind_Ok; [|by apply (SetReplacedBy_Some _ _ _ rowA extraA)].
        done. }
    erewrite bind_Ok.
    2:{ apply sql_update_vtx_Some. simpl.
        by rewrite lookup_insert_ne. }
    done. }
  assert (HA : VTX db' !! A = Some rowA').
  { rewrite Hvtx. simpl.
    by rewrite lookup_insert_ne, lookup_insert_eq by done. }
  split; [exact HA|]. split.
  - exists rowB'. rewrite GetTransaction_result, Hvtx. simpl.
    by rewrite lookup_insert_eq.
  - intros txA. rewrite GetTransaction_result, HA.
    unfold read_row.
    change (VALUE rowA') with (VALUE rowA).
    change (HEIGHT rowA') with (HEIGHT rowA).
    change (EXTRA rowA')
      with (SqlText (Some (ej_with_replaced_by_txid (Some B) extraA))).
    unfold stored.
    destruct (GetTransactionFromStr (VALUE rowA) wallet_m (HEIGHT rowA))
      as [tx0 is_hex].
    intros [Hst Hby]%FillExtra_status. cbn in Hst, Hby.
    rewrite andb_true_r in Hst, Hby.
    split; [exact Hst|].
    intros Hpending. cbn in Hpending.
    by rewrite Hby, bool_decide_eq_true_2.
Qed.

Lemma UpdateTransaction_marks_replaced_witness :
  extra_of "a" (exec (UpdateTransaction "rawB" 0 0 "") demo_replace_db_sent)
    ≫= ej_replaced_by_txid = Some "b" ∧
  get_status <$>
    returned (result (GetTransaction "a")
                (exec (UpdateTransaction "rawB" 0 0 "")
                   demo_replace_db_sent))
    = Some TransactionStatus.REPLACED ∧
  get_replaced_by_txid <$>
    returned (result (GetTransaction "a")
                (exec (UpdateTransaction "rawB" 0 0 "")
                   demo_replace_db_sent))
    = Some "b".
Proof.
  edestruct (UpdateTransaction_marks_replaced "rawB" 0 0 ""
               demo_replace_db_sent) as (HA & _ & Hread);
    [by vm_compute|by vm_compute|by vm_compute|by vm_compute|by vm_compute
    |by vm_compute|done|done|].
  assert (∃ txA,
            result (GetTransaction "a")
              (exec (UpdateTransaction "rawB" 0 0 "") demo_replace_db_sent)
            = Ok txA) as [txA HtxA]
    by (eexists; by vm_compute).
  destruct (Hread txA HtxA) as [Hst Hby].
  split; [|split].
  - unfold extra_of. rewrite HA. by vm_compute.
  - rewrite HtxA. simpl. rewrite Hst. by vm_compute.
  - rewrite HtxA. simpl. rewrite Hby; by vm_compute.
Defined.

(** C5 (as stated, refuted).  [b] is stored unbroadcast with
    [replace_txid = a]; updating it straight to the confirmed height 100
    leaves the row of [a] as it was, and [a], whose stored status is
    PENDING_CONFIRMATION, still reads as PENDING_CONFIRMATION. *)
Lemma confirmed_replacement_leaves_no_back_link :
  select_unbroadcast "b" demo_replace_db_sent ≠ None ∧
  extra_of "b" demo_replace_db_sent ≫= ej_replace_txid = Some "a" ∧
  result (UpdateTransaction "rawB" 100 1700000000 "") demo_replace_db_sent
    = Ok true ∧
  VTX (exec (UpdateTransaction "rawB" 100 1700000000 "")
         demo_replace_db_sent) !! "a"
    = VTX demo_replace_db_sent !! "a" ∧
  extra_of "a"
    (exec (UpdateTransaction "rawB" 100 1700000000 "") demo_replace_db_sent)
    ≫= ej_replaced_by_txid = None ∧
  get_status (demo_GetTransactionFromStr "rawA" 1 0).1
    = TransactionStatus.PENDING_CONFIRMATION ∧
  get_status <$>
    returned (result (GetTransaction "a")
                (exec (UpdateTransaction "rawB" 100 1700000000 "")
                   demo_replace_db_sent))
    = Some TransactionStatus.PENDING_CONFIRMATION.
Proof. by vm_compute. Qed.

(** ** Address space *)

Lemma for_each_ok {S A} (l : list A) (body : A → StateM S unit) st :
  (∀ x st', (body x st').1 = Ok tt) → (for_each l body st).1 = Ok tt.
Proof.
  intros Hbody. revert st. induction l as [|x l IH]; intros st; [done|].
  cbn [for_each]. unfold bind. specialize (Hbody x st).
  destruct (body x st) as [[[]|e] st']; simpl in *; [apply IH|done].
Qed.

Lemma GetAllAddressData_cached `{Wallet} db cache :
  addr_cache db = Some cache → GetAllAddressData db = (Ok cache, db).
Proof.
  intros Hc. unfold GetAllAddressData.
  rewrite (bind_Ok _ _ db db db) by done. by rewrite Hc.
Qed.

Lemma GetAllAddressData_fresh `{Wallet} db txs :
  addr_cache db = None → GetTransactions db = Ok txs →
  result GetAllAddressData db = Ok (derive_address_data db).
Proof.
  intros Hc Htxs. unfold result, GetAllAddressData.
  rewrite (bind_Ok _ _ db db db) by done. rewrite Hc.
  erewrite bind_Ok; [|done].
  erewrite bind_Ok; [|by unfold lift; rewrite Htxs].
  set (marking := for_each txs _).
  set (db1 := with_addr_cache _ db).
  assert (Hok : (marking db1).1 = Ok tt).
  { apply for_each_ok. intros tx st. apply for_each_UseAddress_ok. }
  unfold bind. destruct (marking db1) as [[[]|e] db2]; simpl in *; done.
Qed.

Lemma number_addresses_covers `{Wallet} internal derived addresses a :
  a ∈ derived ∨ is_Some (addresses !! a) →
  is_Some (number_addresses internal derived addresses !! a).
Proof.
  unfold number_addresses.
  assert (Hgen : ∀ (l : list (Z * string))
                   (acc : gmap string AddressData),
            a ∈ l.*2 ∨ is_Some (acc !! a) →
            is_Some
              (fold_left
                 (fun acc (ia : Z * string) =>
                    <[ia.2 := mkAddressData ia.2 ia.1 internal false]> acc)
                 l acc !! a)).
  { induction l as [|[i x] l IH]; intros acc; simpl.
    - intros [Hin|?]; [by apply elem_of_nil in Hin|done].
    - intros [Hin|Hacc]; apply IH.
      + apply elem_of_cons in Hin as [->|Hin]; [right|by left].
        by rewrite lookup_insert_eq.
      + right. destruct (decide (x = a)) as [->|Hne].
        * by rewrite lookup_insert_eq.
        * by rewrite lookup_insert_ne. }
  intros [Hin|Hacc]; apply Hgen; [left|by right].
  apply list_elem_of_lookup in Hin as [i Hi].
  apply list_elem_of_fmap. exists (Z.of_nat i, a). split; [done|].
  apply list_elem_of_lookup. exists i.
  by rewrite list_lookup_imap, Hi.
Qed.

Lemma derive_address_data_covers `{Wallet} db internal index :
  is_escrow = false →
  0 ≤ index ≤ GetCurrentAddressIndex internal db + ADDRESS_LOOK_AHEAD →
  is_Some (derive_address_data db !! DeriveAddressAt internal index).
Proof.
  intros Hesc Hrange. unfold derive_address_data. rewrite Hesc.
  assert (Hin : DeriveAddressAt internal index ∈
                DeriveAddresses internal 0
                  (GetCurrentAddressIndex internal db + ADDRESS_LOOK_AHEAD)).
  { unfold DeriveAddresses. apply list_elem_of_fmap_2, elem_of_seqZ. lia. }
  destruct internal.
  - apply number_addresses_covers. right.
    apply number_addresses_covers. by left.
  - apply number_addresses_covers. by left.
Qed.

Lemma foldr_max_ge (i x : Z) (l : list Z) :
  x ∈ i :: l → x ≤ foldr Z.max i l.
Proof.
  induction l as [|y l IH]; simpl.
  - intros ->%list_elem_of_singleton. lia.
  - intros [->|[->|Hin]%elem_of_cons]%elem_of_cons.
    + etrans; [apply IH, list_elem_of_here|lia].
    + lia.
    + etrans; [apply IH; by apply list_elem_of_further|lia].
Qed.

Lemma GetCurrentAddressIndex_max db address row :
  ADDRESS db !! address = Some row →
  IDX row ≤ GetCurrentAddressIndex (INTERNAL row) db.
Proof.
  intros Hrow. unfold GetCurrentAddressIndex.
  assert (Hin : IDX row ∈
            IDX <$> filter (fun r => INTERNAL r = INTERNAL row)
                      (map_to_list (ADDRESS db)).*2).
  { apply list_elem_of_fmap_2, list_elem_of_filter. split; [done|].
    apply list_elem_of_fmap. exists (address, row). split; [done|].
    by apply elem_of_map_to_list. }
  destruct (IDX <$> _) as [|i l]; [by apply elem_of_nil in Hin|].
  by apply foldr_max_ge.
Qed.

(** C3 (amended).  On a store without a cached address map, and when the
    stored transactions can be read, [GetAllAddressData] of a wallet that
    is not escrow returns, for the internal and for the external branch, an
    address for every index from 0 to [GetCurrentAddressIndex] + 20, where
    [GetCurrentAddressIndex] is at least the index of every address
    registered for the branch in the ADDRESS table.  On a store with a
    cached map the call returns that map as it is. *)
Theorem GetAllAddressData_covers_gap `{Wallet} (db : WalletDb) :
  (∀ txs,
     is_escrow = false → addr_cache db = None →
     GetTransactions db = Ok txs →
     ∃ all,
       result GetAllAddressData db = Ok all ∧
       (∀ internal index,
          0 ≤ index ≤
            GetCurrentAddressIndex internal db + ADDRESS_LOOK_AHEAD →
          is_Some (all !! DeriveAddressAt internal index)) ∧
       (∀ address row index,
          ADDRESS db !! address = Some row →
          0 ≤ index ≤ IDX row + 20 →
          is_Some (all !! DeriveAddressAt (INTERNAL row) index))) ∧
  (∀ cache,
     addr_cache db = Some cache →
     result GetAllAddressData db = Ok cache ∧
     exec GetAllAddressData db = db).
Proof.
  split.
  - intros txs Hesc Hc Htxs. exists (derive_address_data db).
    split; [by apply (GetAllAddressData_fresh db txs)|].
    split.
    + intros internal index Hrange.
      by apply derive_address_data_covers.
    + intros address row index Hrow Hrange.
      apply derive_address_data_covers; [done|].
      pose proof (GetCurrentAddressIndex_max db address row Hrow).
      unfold ADDRESS_LOOK_AHEAD. lia.
  - intros cache Hc. unfold result, exec.
    by rewrite (GetAllAddressData_cached db cache).
Qed.

Lemma GetAllAddressData_covers_gap_witness :
  ∃ all,
    result GetAllAddressData demo_registered_db = Ok all ∧
    is_Some (all !! DeriveAddressAt false 27) ∧
    is_Some (all !! DeriveAddressAt true 19).
Proof.
  destruct (GetAllAddressData_covers_gap demo_registered_db) as [Hfresh _].
  edestruct Hfresh as (all & Hres & Hcur & Hrow);
    [done|done|by vm_compute|].
  exists all. split; [exact Hres|]. split.
  - apply (Hrow "ext7" (mkAddressRow 7 false true "t:0|status") 27).
    + by vm_compute.
    + vm_compute. split; discriminate.
  - apply (Hcur true 19). vm_compute. split; discriminate.
Defined.

(** C3 (as stated, refuted).  The external address of index 1 is
    registered, recorded as used in the table and marked used in the cache,
    yet [GetAllAddressData] answers the cached map of 40 addresses, which
    has no address for the external index 21 = 1 + 20. *)
Lemma cached_address_map_misses_gap :
  is_escrow = false ∧
  GetCurrentAddressIndex false demo_stale_db = 1 ∧
  ADDRESS demo_stale_db !! "ext1"
    = Some (mkAddressRow 1 false true "a:0|status") ∧
  addr_cache demo_stale_db ≫= (fun cache => cache !! "ext1")
    = Some (mkAddressData "ext1" 1 false true) ∧
  DeriveAddressAt false 21 = "ext21" ∧
  size <$> returned (result GetAllAddressData demo_stale_db)
    = Some 40%nat ∧
  returned (result GetAllAddressData demo_stale_db)
    ≫= (fun all => all !! DeriveAddressAt false 21) = None.
Proof. by vm_compute. Qed.

(** *** The used mark *)

Lemma marked_used_spec address db :
  marked_used address db ↔
  ∃ cache d,
    addr_cache db = Some cache ∧ cache !! address = Some d ∧
    ad_used d = true.
Proof.
  unfold marked_used, cached_record. split.
  - destruct (addr_cache db) as [cache|]; [|done]. simpl.
    destruct (cache !! address) as [d|] eqn:Hd; [|done]. simpl.
    intros [= Hu]. by exists cache, d.
  - intros (cache & d & -> & Hd & Hu). simpl. rewrite Hd. simpl.
    by rewrite Hu.
Qed.

Lemma cached_address_spec address db :
  cached_address address db ↔
  ∃ cache d, addr_cache db = Some cache ∧ cache !! address = Some d.
Proof.
  unfold cached_address, cached_record. split.
  - destruct (addr_cache db) as [cache|]; [|by intros [? ?]]. simpl.
    intros [d Hd]. by exists cache, d.
  - intros (cache & d & -> & Hd). simpl. by rewrite Hd.
Qed.

Lemma UseAddress_keeps_marked address address' :
  keeps (marked_used address) (UseAddress address').
Proof.
  apply keeps_modify.
  intros db HP. pose proof HP as (cache & d & Hc & Hd & Hu)%marked_used_spec.
  destruct (String.eqb address' ""); [done|].
  rewrite Hc. destruct (cache !! address') as [d'|] eqn:Hd'; [|done].
  apply marked_used_spec.
  destruct (decide (address' = address)) as [->|Hne].
  - exists (<[address := ad_use d']> cache), (ad_use d').
    by rewrite lookup_insert_eq.
  - exists (<[address' := ad_use d']> cache), d.
    by rewrite lookup_insert_ne.
Qed.

Lemma UseAddress_keeps_cached address address' :
  keeps (cached_address address) (UseAddress address').
Proof.
  apply keeps_modify.
  intros db HP. pose proof HP as (cache & d & Hc & Hd)%cached_address_spec.
  destruct (String.eqb address' ""); [done|].
  rewrite Hc. destruct (cache !! address') as [d'|] eqn:Hd'; [|done].
  apply cached_address_spec.
  destruct (decide (address' = address)) as [->|Hne].
  - exists (<[address := ad_use d']> cache), (ad_use d').
    by rewrite lookup_insert_eq.
  - exists (<[address' := ad_use d']> cache), d.
    by rewrite lookup_insert_ne.
Qed.

Lemma UseAddress_marks address db :
  address ≠ "" → cached_address address db →
  marked_used address (exec (UseAddress address) db).
Proof.
  intros Hne (cache & d & Hc & Hd)%cached_address_spec.
  unfold exec, UseAddress, modify. simpl.
  rewrite (proj2 (String.eqb_neq address "")) by done.
  rewrite Hc, Hd. apply marked_used_spec.
  exists (<[address := ad_use d]> cache), (ad_use d).
  by rewrite lookup_insert_eq.
Qed.

Lemma for_each_UseAddress_marks (outputs : list TxOutput)
    (output : TxOutput) db :
  output ∈ outputs → output.1 ≠ "" → cached_address output.1 db →
  marked_used output.1
    (exec (for_each outputs (fun o => UseAddress o.1)) db).
Proof.
  revert db. induction outputs as [|o outputs IH]; intros db Hin Hne Hc.
  - by apply elem_of_nil in Hin.
  - unfold exec. cbn [for_each].
    rewrite (bind_Ok _ _ db tt (exec (UseAddress o.1) db)) by done.
    apply elem_of_cons in Hin as [->|Hin].
    + apply (keeps_for_each (marked_used o.1)).
      * intros. apply UseAddress_keeps_marked.
      * by apply UseAddress_marks.
    + apply IH; [done|done|].
      by apply UseAddress_keeps_cached.
Qed.

Lemma GetAllAddressData_keeps_marked `{Wallet} address :
  keeps (marked_used address) GetAllAddressData.
Proof.
  intros db HP. pose proof HP as (cache & d & Hc & _)%marked_used_spec.
  by rewrite (GetAllAddressData_cached db cache).
Qed.

Lemma marked_used_with_VTX address db vtx :
  marked_used address db → marked_used address (with_VTX vtx db).
Proof. done. Qed.

Lemma marked_used_with_ADDRESS address db a :
  marked_used address db → marked_used address (with_ADDRESS a db).
Proof. done. Qed.

Lemma AddAddress_keeps_marked `{Wallet} address address' index internal :
  keeps (marked_used address) (AddAddress address' index internal).
Proof.
  intros db HP. unfold AddAddress.
  unfold SetAddress, modify.
  erewrite bind_Ok; [|done].
  set (db1 := match ADDRESS db !! address' with
              | Some r => _
              | None => _
              end).
  assert (HP1 : marked_used address db1)
    by (subst db1; by destruct (ADDRESS db !! address')).
  pose proof HP1 as (cache & d & Hc & Hd & Hu)%marked_used_spec.
  unfold IsMyAddressM.
  erewrite bind_Ok;
    [|erewrite bind_Ok; [done|by apply GetAllAddressData_cached]].
  unfold IsMyAddress.
  destruct (cache !! address') as [d'|] eqn:Hd'.
  - rewrite bool_decide_eq_true_2 by eauto. done.
  - rewrite bool_decide_eq_false_2 by (by intros [? ?]). simpl.
    rewrite Hc. simpl. apply marked_used_spec.
    exists (<[address' := mkAddressData address' index internal false]>
              cache), d.
    rewrite lookup_insert_ne; [done|]. intros ->. congruence.
Qed.

Lemma run_keeps_marked `{Wallet} (op : Operation) (address : string)
    (db : WalletDb) :
  marked_used address db → marked_used address (run op db).
Proof.
  intros HP.
  pose proof (@UseAddress_keeps_marked address) as Huse.
  pose proof (GetAllAddressData_keeps_marked address) as Hall.
  pose proof (marked_used_with_VTX address) as Hvtx.
  pose proof (marked_used_with_ADDRESS address) as Haddr.
  destruct op; simpl; unfold exec.
  - by apply SetAddress_keeps.
  - by apply AddAddress_keeps_marked.
  - by apply Huse.
  - by apply SetUtxos_keeps.
  - by apply Hall.
  - by apply GetTransaction_keeps.
  - by apply FillSendReceiveData_keeps.
  - by apply InsertTransaction_keeps.
  - by apply UpdateTransaction_keeps.
  - by apply CreatePsbt_keeps.
  - by apply UpdatePsbtTxId_keeps.
  - by apply DeleteTransaction_keeps.
Qed.

(** C8 (amended).  The used flag in question is the one of the cached
    address record.  [UseAddress] sets it on a cached address, so reading
    a stored transaction marks the cached addresses of its outputs; and
    once the flag of an address is set, it stays set through every
    sequence of calls on the wallet store ([ForceRefresh], which drops the
    cache, apart).  The USED column of the table is instead written anew by
    every [SetAddress], from whether its [utxos] argument is empty. *)
Theorem used_mark_is_kept `{Wallet} :
  (∀ address db,
     address ≠ "" → cached_address address db →
     marked_used address (exec (UseAddress address) db)) ∧
  (∀ tx_id tx output db,
     result (GetTransaction tx_id) db = Ok tx →
     output ∈ get_outputs tx → output.1 ≠ "" →
     cached_address output.1 db →
     marked_used output.1 (exec (GetTransaction tx_id) db)) ∧
  (∀ ops address db,
     marked_used address db → marked_used address (run_all ops db)) ∧
  (∀ address index internal utxos db,
     USED <$> ADDRESS (exec (SetAddress address index internal utxos) db)
                !! address
     = Some (negb (String.eqb utxos ""))).
Proof.
  split; [apply UseAddress_marks|]. split; [|split].
  - intros tx_id tx output db Hres Hin Hne Hc.
    rewrite GetTransaction_result in Hres.
    unfold exec, GetTransaction.
    rewrite (bind_Ok _ _ db db db) by done.
    destruct (VTX db !! tx_id) as [row|]; [|done].
    erewrite bind_Ok; [|by unfold lift; rewrite Hres].
    pose proof (for_each_UseAddress_marks (get_outputs tx) output db
                  Hin Hne Hc) as Hm.
    pose proof (for_each_UseAddress_ok (get_outputs tx) fst db) as Hok.
    unfold exec in Hm. unfold bind.
    by destruct (for_each _ _ db) as [[[]|e] db1].
  - intros ops. induction ops as [|op ops IH]; intros address db HP;
      [done|].
    apply IH. by apply run_keeps_marked.
  - intros address index internal utxos db.
    unfold exec, SetAddress, modify. simpl.
    destruct (ADDRESS db !! address); simpl; by rewrite lookup_insert_eq.
Qed.

Lemma used_mark_is_kept_witness :
  marked_used "ext1"
    (exec (GetTransaction "a")
       (exec (InsertTransaction "rawA" 0 0 0 "" (-1))
          (exec GetAllAddressData empty_db))) ∧
  marked_used "ext1"
    (run_all
       [OpAddAddress "ext1" 1 false; OpSetUtxos "ext1" "";
        OpGetAllAddressData; OpUpdateTransaction "rawA" 100 1700000000 "";
        OpDeleteTransaction "a"]
       demo_stale_db).
Proof.
  destruct used_mark_is_kept as (_ & Hmark & Hkeep & _).
  split.
  - eapply (Hmark "a" _ ("ext1", 30000)).
    + by vm_compute.
    + apply list_elem_of_here.
    + done.
    + vm_compute. eauto.
  - apply Hkeep. by vm_compute.
Defined.

(** C8 (as stated, refuted).  The stored transaction [a] pays the external
    address of index 1, whose row has USED set.  [AddAddress] on that
    address, or [SetUtxos] with an empty status, clears USED; and a store
    that has no cached map yet answers [GetAllAddressData] with a record
    of the address whose used flag is false. *)
Lemma used_flag_is_cleared :
  get_outputs <$> returned (result (GetTransaction "a") demo_stale_db)
    = Some [("ext1", 30000)] ∧
  USED <$> ADDRESS demo_stale_db !! "ext1" = Some true ∧
  USED <$> ADDRESS (exec (AddAddress "ext1" 1 false) demo_stale_db)
             !! "ext1" = Some false ∧
  USED <$> ADDRESS (exec (SetUtxos "ext1" "") demo_stale_db)
             !! "ext1" = Some false ∧
  ad_used <$>
    (returned (result GetAllAddressData (with_addr_cache None demo_stale_db))
       ≫= (fun all => all !! "ext1")) = Some false.
Proof. by vm_compute. Qed.

(** ** Synchroniser *)

(** C9 (the code departs from it).  The store holds [a], unconfirmed and
    received, and the history lists [a].  The batch branch, whose batch
    fetch came back without [a], fetches [a] alone, updates it and then
    deletes it and reports it REPLACED, because the closing loop looks the
    id up in the batch answer; the sequential branch, on the same store and
    history, keeps [a]. *)
Theorem batch_branch_evicts_listed_transaction :
  pending_receive_ids (storage_ demo_sync_state) = Some ["a"] ∧
  demo_batch_run.1 = Ok true ∧
  VTX (storage_ demo_batch_run.2) !! "a" = None ∧
  transaction_listener_calls demo_batch_run.2
    = [("a", TransactionStatus.PENDING_CONFIRMATION);
       ("a", TransactionStatus.REPLACED)] ∧
  demo_sequential_run.1 = Ok true ∧
  VALUE <$> VTX (storage_ demo_sequential_run.2) !! "a" = Some "rawA" ∧
  transaction_listener_calls demo_sequential_run.2
    = [("a", TransactionStatus.PENDING_CONFIRMATION)].
Proof. by vm_compute. Qed.

(** *** The sequential branch evicts by the history *)

Section Eviction.
Context `{Wallet}.

Lemma evict_step_spec (kept : string → bool) (tx : Transaction)
    (st : SyncState) :
  let body := fun tx : Transaction =>
    if negb (kept (get_txid tx))
    then let* _ := on_storage (DeleteTransaction (get_txid tx)) in
         transaction_listener_ (get_txid tx) TransactionStatus.REPLACED
    else ret tt in
  body tx st =
  (Ok tt,
   if kept (get_txid tx) then st
   else mkSyncState
          (with_VTX (delete (get_txid tx) (VTX (storage_ st))) (storage_ st))
          (transaction_listener_calls st ++
           [(get_txid tx, TransactionStatus.REPLACED)])).
Proof.
  intros body. unfold body. destruct (kept (get_txid tx)); simpl.
  - by destruct st.
  - unfold bind, on_storage, DeleteTransaction, transaction_listener_,
      modify.
    destruct (VTX (storage_ st) !! get_txid tx) eqn:Hrow; simpl; [done|].
    rewrite delete_id by done. by destruct st as [[] ?].
Qed.

Lemma evict_loop_spec (kept : string → bool) (pending : list Transaction)
    (st : SyncState) :
  let loop :=
    for_each pending
      (fun tx : Transaction =>
         if negb (kept (get_txid tx))
         then let* _ := on_storage (DeleteTransaction (get_txid tx)) in
              transaction_listener_ (get_txid tx) TransactionStatus.REPLACED
         else ret tt) in
  result loop st = Ok tt ∧
  (∀ tx, tx ∈ pending → kept (get_txid tx) = false →
     VTX (storage_ (exec loop st)) !! get_txid tx = None ∧
     (get_txid tx, TransactionStatus.REPLACED)
       ∈ transaction_listener_calls (exec loop st)) ∧
  (∀ id, kept id = true →
     VTX (storage_ (exec loop st)) !! id = VTX (storage_ st) !! id) ∧
  (∀ id, VTX (storage_ st) !! id = None →
     VTX (storage_ (exec loop st)) !! id = None) ∧
  (∀ call, call ∈ transaction_listener_calls st →
     call ∈ transaction_listener_calls (exec loop st)).
Proof.
  revert st. induction pending as [|tx pending IH]; intros st loop.
  - unfold loop, result, exec. simpl. split; [done|].
    split; [by intros ? ?%elem_of_nil|done].
  - unfold loop, result, exec. cbn [for_each].
    erewrite bind_Ok; [|apply evict_step_spec].
    set (st1 := if kept (get_txid tx) then st else _).
    destruct (IH st1) as (Hres & Hdel & Hkeep & Hnone & Hcalls).
    unfold result, exec in Hres, Hdel, Hkeep, Hnone, Hcalls.
    split; [exact Hres|].
    assert (Hnone1 : ∀ id, VTX (storage_ st) !! id = None →
                           VTX (storage_ st1) !! id = None).
    { intros id Hid. unfold st1. destruct (kept (get_txid tx)); [done|].
      simpl. destruct (decide (get_txid tx = id)) as [->|Hne].
      - by rewrite lookup_delete_eq.
      - by rewrite lookup_delete_ne. }
    assert (Hcalls1 : ∀ call, call ∈ transaction_listener_calls st →
                              call ∈ transaction_listener_calls st1).
    { intros call Hin. unfold st1. destruct (kept (get_txid tx)); [done|].
      simpl. apply elem_of_app. by left. }
    split; [|split; [|split]].
    + intros tx' Hin Hk. apply elem_of_cons in Hin as [->|Hin];
        [|by apply Hdel].
      split.
      * apply Hnone. unfold st1. rewrite Hk. simpl.
        by rewrite lookup_delete_eq.
      * apply Hcalls. unfold st1. rewrite Hk. simpl.
        apply elem_of_app. right. apply list_elem_of_here.
    + intros id Hk. rewrite (Hkeep id Hk). unfold st1.
      destruct (kept (get_txid tx)) eqn:Hkt; [done|]. simpl.
      apply lookup_delete_ne. intros Heq. rewrite Heq in Hkt. congruence.
    + intros id Hid. by apply Hnone, Hnone1.
    + intros call Hin. by apply Hcalls, Hcalls1.
Qed.

End Eviction.

Section SequentialBranch.
Context `{Wallet} `{ElectrumClient}.

Lemma sequential_fetch_txs_hash (txs_hash txs_hash' : list string)
    (item : HistoryItem) (found : bool) (st st' : SyncState) :
  sequential_fetch txs_hash item found st = (Ok txs_hash', st') →
  txs_hash' = txs_hash ++ [item_tx_hash item].
Proof.
  unfold sequential_fetch.
  destruct (blockchain_transaction_get (item_tx_hash item)); [|done].
  unfold bind.
  match goal with
  | |- context [match ?c st with _ => _ end] =>
      destruct (c st) as [[time|e] st1]; [|done]
  end.
  match goal with
  | |- context [match ?c st1 with _ => _ end] =>
      destruct (c st1) as [[[]|e] st2]; [|done]
  end.
  by intros [= <- _].
Qed.

Lemma sequential_item_txs_hash (txs_hash txs_hash' : list string)
    (item : HistoryItem) (st st' : SyncState) :
  sequential_item txs_hash item st = (Ok txs_hash', st') →
  txs_hash' = txs_hash ∨ txs_hash' = txs_hash ++ [item_tx_hash item].
Proof.
  unfold sequential_item.
  destruct (storage_GetTransaction (item_tx_hash item) (storage_ st))
    as [r db'].
  destruct r as [stx|[]]; try done.
  - destruct (bool_decide _); [by intros [= <- _]; left|].
    intros Hf. right. by apply sequential_fetch_txs_hash in Hf.
  - intros Hf. right. by apply sequential_fetch_txs_hash in Hf.
  - intros [= <- _]. by left.
Qed.

Lemma sequential_loop_txs_hash (items : list HistoryItem)
    (txs_hash txs_hash' : list string) (st st' : SyncState) :
  for_each_acc items txs_hash sequential_item st = (Ok txs_hash', st') →
  ∀ id, id ∈ txs_hash' → id ∈ txs_hash ∨ id ∈ item_tx_hash <$> items.
Proof.
  revert txs_hash st.
  induction items as [|item items IH]; intros txs_hash st; simpl.
  - intros [= <- _] id Hid. by left.
  - unfold bind.
    destruct (sequential_item txs_hash item st) as [[acc|e] st1] eqn:Hitem;
      [|done].
    intros Hloop id Hid.
    destruct (IH _ _ Hloop id Hid) as [Hacc|Hin].
    + apply sequential_item_txs_hash in Hitem as [->| ->]; [by left|].
      apply elem_of_app in Hacc as [?|Hx]; [by left|].
      apply list_elem_of_singleton in Hx as ->.
      right. apply list_elem_of_here.
    + right. by apply list_elem_of_further.
Qed.

(** The sequential branch does what the specification says of the
    eviction: when the call completes, every pending receive transaction
    whose id the history does not list is deleted and reported REPLACED,
    and no transaction that was processed from the history is deleted. *)
Lemma sequential_branch_evicts_unlisted (items : list HistoryItem)
    (st st' : SyncState) (isSynced : bool) :
  support_batch_requests = false →
  UpdateTransactions (HistoryArray items) st = (Ok isSynced, st') →
  ∃ txs_hash st1 pending st2,
    for_each_acc items [] sequential_item st = (Ok txs_hash, st1) ∧
    on_storage
      (storage_GetTransactions TransactionStatus.PENDING_CONFIRMATION true)
      st1 = (Ok pending, st2) ∧
    (∀ tx, tx ∈ pending →
       get_txid tx ∉ item_tx_hash <$> items →
       VTX (storage_ st') !! get_txid tx = None ∧
       (get_txid tx, TransactionStatus.REPLACED)
         ∈ transaction_listener_calls st') ∧
    (∀ id, id ∈ txs_hash →
       VTX (storage_ st') !! id = VTX (storage_ st2) !! id).
Proof.
  intros Hseq. unfold UpdateTransactions. rewrite Hseq. unfold bind at 1.
  destruct (for_each_acc items [] sequential_item st)
    as [[txs_hash|e] st1] eqn:Hloop; [|done].
  unfold bind at 1, evict_pending_receive, bind at 1.
  destruct (on_storage _ st1) as [[pending|e] st2] eqn:Hpending; [|done].
  set (kept := fun txid : string => bool_decide (txid ∈ txs_hash)).
  destruct (evict_loop_spec kept pending st2)
    as (Hres & Hdel & Hkeep & _ & _).
  unfold result, exec in Hres, Hdel, Hkeep.
  destruct (for_each pending _ st2) as [[[]|e] st3]; [|done].
  simpl in *. intros [= _ <-].
  exists txs_hash, st1, pending, st2.
  split; [done|]. split; [done|]. split.
  - intros tx Hin Hnot. apply Hdel; [done|].
    unfold kept. apply bool_decide_eq_false_2. intros Hhash.
    destruct (sequential_loop_txs_hash _ _ _ _ _ Hloop _ Hhash)
      as [Hnil|Hids]; [by apply elem_of_nil in Hnil|done].
  - intros id Hid. apply Hkeep. unfold kept.
    by apply bool_decide_eq_true_2.
Qed.

End SequentialBranch.

(** ** Time locks *)

Section TimelockProperties.
Import Timelock.

Lemma land_mask_small (a : Z) :
  0 <= a < 65536 → Z.land a SEQUENCE_LOCKTIME_MASK = a.
Proof.
  intros Ha. change SEQUENCE_LOCKTIME_MASK with (Z.ones 16).
  rewrite Z.land_ones by lia. apply Z.mod_small. change (2 ^ 16) with 65536. lia.
Qed.

Lemma land_mask_range (a : Z) :
  0 <= Z.land a SEQUENCE_LOCKTIME_MASK < 65536.
Proof.
  change SEQUENCE_LOCKTIME_MASK with (Z.ones 16).
  rewrite Z.land_ones by lia. apply Z.mod_pos_bound. done.
Qed.

Lemma land_flag_cases (a : Z) :
  Z.land a SEQUENCE_LOCKTIME_TYPE_FLAG
    = if Z.testbit a 22 then SEQUENCE_LOCKTIME_TYPE_FLAG else 0.
Proof.
  change SEQUENCE_LOCKTIME_TYPE_FLAG with (2 ^ 22).
  apply Z.bits_inj'; intros n Hn.
  rewrite Z.land_spec, Z.pow2_bits_eqb by lia.
  destruct (Z.eqb_spec 22 n) as [<-|Hne].
  - destruct (Z.testbit a 22); [by rewrite Z.pow2_bits_true|by rewrite Z.bits_0].
  - rewrite andb_false_r.
    destruct (Z.testbit a 22); [by rewrite Z.pow2_bits_false|by rewrite Z.bits_0].
Qed.

Lemma lor_flag_land_mask (a : Z) :
  0 <= a < 65536 →
  Z.land (Z.lor a SEQUENCE_LOCKTIME_TYPE_FLAG)
    SEQUENCE_LOCKTIME_MASK = a.
Proof.
  intros Ha. rewrite Z.land_lor_distr_l, land_mask_small by done.
  change (Z.land _ _) with 0. apply Z.lor_0_r.
Qed.

Lemma lor_flag_testbit (a : Z) :
  Z.testbit (Z.lor a SEQUENCE_LOCKTIME_TYPE_FLAG) 22 = true.
Proof.
  rewrite Z.lor_spec. change SEQUENCE_LOCKTIME_TYPE_FLAG with (2 ^ 22).
  rewrite Z.pow2_bits_true by lia. apply orb_true_r.
Qed.

Lemma shiftr_granularity_range (v : Z) :
  0 <= v < 33554431 → 0 <= Z.shiftr v 9 < 65536.
Proof.
  intros Hv. rewrite Z.shiftr_div_pow2 by lia. change (2 ^ 9) with 512.
  split; [apply Z.div_pos; lia|apply Z.div_lt_upper_bound; lia].
Qed.


Lemma shiftl_mask_range (kk : Z) :
  0 <= Z.shiftl (Z.land kk SEQUENCE_LOCKTIME_MASK) 9 <= 33553920 ∧
  (Z.shiftl (Z.land kk SEQUENCE_LOCKTIME_MASK) 9 = 0 ∨
   512 <= Z.shiftl (Z.land kk SEQUENCE_LOCKTIME_MASK) 9).
Proof.
  pose proof (land_mask_range kk) as Hr.
  rewrite Z.shiftl_mul_pow2 by lia. change (2 ^ 9) with 512. lia.
Qed.

Lemma Timelock_absolute (b : Based) (v : Z) :
  Timelock b LOCKTYPE_ABSOLUTE v =
    if (v <? LOCKTIME_THRESHOLD) && bool_decide (b = TIME_LOCK)
    then Invalid "Invalid time value"
    else if (LOCKTIME_THRESHOLD <=? v) && bool_decide (b = HEIGHT_LOCK)
    then Invalid "Invalid height value"
    else Valid (mk b LOCKTYPE_ABSOLUTE v).
Proof.
  unfold Timelock.
  replace (bool_decide (b = TIME_LOCK) &&
           bool_decide (LOCKTYPE_ABSOLUTE = LOCKTYPE_RELATIVE) && (v <? 512))
    with false by (by rewrite andb_false_r).
  unfold k. cbn [type_ based_ value_].
  destruct ((v <? LOCKTIME_THRESHOLD) && bool_decide (b = TIME_LOCK)); [done|].
  by destruct ((LOCKTIME_THRESHOLD <=? v) && bool_decide (b = HEIGHT_LOCK)).
Qed.

Lemma Timelock_NONE (ty : Type_) (v : Z) :
  Timelock NONE ty v = Valid (mk NONE ty v).
Proof.
  unfold Timelock. cbn [bool_decide decide_rel andb]. rewrite bool_decide_eq_false_2 by done.
  cbn [andb]. unfold k. cbn [type_ based_ value_].
  destruct ty; [|done].
  rewrite !bool_decide_eq_false_2 by done. by rewrite !andb_false_r.
Qed.

Lemma Timelock_relative_time (v : Z) :
  Timelock TIME_LOCK LOCKTYPE_RELATIVE v =
    if 33554431 <=? v then Invalid "Invalid time value"
    else Valid (mk TIME_LOCK LOCKTYPE_RELATIVE (Z.max v 512)).
Proof.
  unfold Timelock. rewrite !bool_decide_eq_true_2 by done. cbn [andb].
  unfold k. cbn [type_ based_ value_].
  destruct (Z.ltb_spec v 512) as [Hv|Hv].
  - rewrite Z.max_r by lia.
    destruct (Z.leb_spec 33554431 v); [lia|]. done.
  - rewrite Z.max_l by lia.
    destruct (Z.ltb_spec v 0); [lia|].
    by destruct (Z.leb_spec 33554431 v).
Qed.

Lemma Timelock_relative_height (v : Z) :
  Timelock HEIGHT_LOCK LOCKTYPE_RELATIVE v =
    if (v <? 0) || (65535 <=? v) then Invalid "Invalid height value"
    else Valid (mk HEIGHT_LOCK LOCKTYPE_RELATIVE v).
Proof.
  unfold Timelock. rewrite (bool_decide_eq_false_2 (HEIGHT_LOCK = TIME_LOCK)) by done.
  cbn [andb]. unfold k. cbn [type_ based_ value_].
  by destruct ((v <? 0) || (65535 <=? v)).
Qed.

(** X1.  [Timelock::FromK] throws for exactly one kind of argument: a
    relative lock whose type flag is clear and whose masked value is
    65535, the height that [k()] refuses.  Every absolute value and every
    other relative value gives a time lock. *)
Theorem FromK_invalid_iff (is_absolute : bool) (kk : Z) :
  (∃ message, FromK is_absolute kk = Invalid message) ↔
  is_absolute = false ∧
  Z.land kk SEQUENCE_LOCKTIME_TYPE_FLAG = 0 ∧
  Z.land kk SEQUENCE_LOCKTIME_MASK = 65535.
Proof.
  unfold FromK. destruct is_absolute.
  - split; [|by intros [? _]]. intros [message Hm]. exfalso.
    destruct (Z.eqb_spec kk 0) as [->|Hk].
    { by rewrite Timelock_NONE in Hm. }
    rewrite Timelock_absolute in Hm.
    destruct (Z.leb_spec LOCKTIME_THRESHOLD kk) as [Hle|Hlt].
    + rewrite bool_decide_eq_true_2, andb_true_r in Hm by done.
      destruct (Z.ltb_spec kk LOCKTIME_THRESHOLD); [lia|].
      by rewrite bool_decide_eq_false_2 in Hm.
    + by rewrite bool_decide_eq_false_2, andb_false_r in Hm.
  - unfold SEQUENCE_LOCKTIME_GRANULARITY.
    destruct (Z.eqb_spec (Z.land kk SEQUENCE_LOCKTIME_TYPE_FLAG) 0)
      as [Hflag|Hflag]; cbn [negb].
    + pose proof (land_mask_range kk) as Hr.
      destruct (Z.eqb_spec (Z.land kk SEQUENCE_LOCKTIME_MASK) 0) as [Hz|Hz].
      * rewrite Timelock_NONE, Hz. split; [by intros [? ?]|]. intros (_ & _ & ?). lia.
      * rewrite Timelock_relative_height.
        destruct (Z.ltb_spec (Z.land kk SEQUENCE_LOCKTIME_MASK) 0); [lia|].
        destruct (Z.leb_spec 65535 (Z.land kk SEQUENCE_LOCKTIME_MASK)); cbn [orb].
        -- split; [intros _; repeat split; [done|lia]|by eexists].
        -- split; [by intros [? ?]|]. intros (_ & _ & ?). lia.
    + destruct (shiftl_mask_range kk) as [Hr Hz].
      split; [|by intros (_ & ? & _)]. intros [message Hm]. exfalso.
      destruct (Z.eqb_spec (Z.shiftl (Z.land kk SEQUENCE_LOCKTIME_MASK) 9) 0).
      { by rewrite Timelock_NONE in Hm. }
      rewrite Timelock_relative_time in Hm.
      by destruct (Z.leb_spec 33554431
                  (Z.shiftl (Z.land kk SEQUENCE_LOCKTIME_MASK) 9)); [lia|].
Qed.

(** X2.  Decoding then encoding: the [k()] of [FromK(is_absolute, kk)] is
    [kk] for an absolute lock; for a relative lock it is [kk] reduced to
    the type flag and the 16 value bits, and 0 when the value bits are
    0. *)
Theorem k_FromK (is_absolute : bool) (kk : Z) (tl : t) :
  FromK is_absolute kk = Valid tl →
  k tl = Valid (if is_absolute then kk
                else if Z.land kk SEQUENCE_LOCKTIME_MASK =? 0 then 0
                else Z.land kk (Z.lor SEQUENCE_LOCKTIME_TYPE_FLAG
                                  SEQUENCE_LOCKTIME_MASK)).
Proof.
  unfold FromK. destruct is_absolute.
  - destruct (Z.eqb_spec kk 0) as [->|Hk].
    { rewrite Timelock_NONE. by intros [= <-]. }
    rewrite Timelock_absolute. unfold k.
    destruct ((kk <? LOCKTIME_THRESHOLD) && _) eqn:H1; [done|].
    destruct ((LOCKTIME_THRESHOLD <=? kk) && _) eqn:H2; [done|].
    intros [= <-]. cbn [type_ based_ value_]. by rewrite H1, H2.
  - unfold SEQUENCE_LOCKTIME_GRANULARITY.
    rewrite Z.land_lor_distr_r.
    pose proof (land_mask_range kk) as Hr.
    destruct (Z.eqb_spec (Z.land kk SEQUENCE_LOCKTIME_TYPE_FLAG) 0)
      as [Hflag|Hflag]; cbn [negb].
    + rewrite Hflag, Z.lor_0_l.
      destruct (Z.eqb_spec (Z.land kk SEQUENCE_LOCKTIME_MASK) 0) as [Hz|Hz].
      * rewrite Timelock_NONE. by intros [= <-].
      * rewrite Timelock_relative_height.
        destruct ((_ <? 0) || _) eqn:Hchk; [done|].
        intros [= <-]. unfold k. cbn [type_ based_ value_]. rewrite Hchk.
        by rewrite land_mask_small by lia.
    + destruct (shiftl_mask_range kk) as [Hsr Hsz].
      assert (Hshift : Z.shiftl (Z.land kk SEQUENCE_LOCKTIME_MASK) 9 = 0
                       ↔ Z.land kk SEQUENCE_LOCKTIME_MASK = 0).
      { rewrite Z.shiftl_mul_pow2 by lia. change (2 ^ 9) with 512. lia. }
      destruct (Z.eqb_spec (Z.shiftl (Z.land kk SEQUENCE_LOCKTIME_MASK) 9) 0)
        as [Hz|Hz].
      * rewrite Timelock_NONE. apply Hshift in Hz. rewrite Hz.
        by intros [= <-].
      * destruct (Z.eqb_spec (Z.land kk SEQUENCE_LOCKTIME_MASK) 0) as [Hm|Hm];
          [by apply Hshift in Hm|].
        rewrite Timelock_relative_time.
        destruct (Z.leb_spec 33554431
                    (Z.shiftl (Z.land kk SEQUENCE_LOCKTIME_MASK) 9));
          [lia|].
        intros [= <-]. unfold k. cbn [type_ based_ value_].
        rewrite Z.max_l by lia.
        destruct (Z.ltb_spec (Z.shiftl (Z.land kk SEQUENCE_LOCKTIME_MASK) 9)
                    0); [lia|].
        destruct (Z.leb_spec 33554431
                    (Z.shiftl (Z.land kk SEQUENCE_LOCKTIME_MASK) 9));
          [lia|cbn [orb]].
        unfold SEQUENCE_LOCKTIME_GRANULARITY.
        rewrite Z.shiftr_shiftl_l, Z.sub_diag, Z.shiftl_0_r by lia.
        rewrite land_flag_cases in Hflag |- *.
        destruct (Z.testbit kk 22); [|done].
        f_equal. apply Z.lor_comm.
Qed.

(** Witness of X2. *)
Lemma k_FromK_witness :
  FromK false 4194305 = Valid (mk TIME_LOCK LOCKTYPE_RELATIVE 512) ∧
  k (mk TIME_LOCK LOCKTYPE_RELATIVE 512) = Valid 4194305.
Proof.
  split; [done|]. by rewrite (k_FromK false 4194305).
Defined.

(** X3.  Encoding then decoding: for a constructed time lock that is based
    on time or height and whose value is not 0, [FromK] of its [k()] gives
    the lock back, except that a relative time lock comes back with its
    value rounded down to a multiple of 512 seconds. *)
Theorem FromK_k (b : Based) (ty : Type_) (v : Z) (tl : t) :
  Timelock b ty v = Valid tl →
  b ≠ NONE → value_ tl ≠ 0 →
  ∃ kk, k tl = Valid kk ∧
    FromK (bool_decide (ty = LOCKTYPE_ABSOLUTE)) kk =
      Valid (mk b ty
               (if bool_decide (b = TIME_LOCK ∧ ty = LOCKTYPE_RELATIVE)
                then 512 * (value_ tl / 512) else value_ tl)).
Proof.
  intros Htl Hb Hv. destruct ty.
  - rewrite Timelock_absolute in Htl.
    destruct ((v <? LOCKTIME_THRESHOLD) && _) eqn:H1; [done|].
    destruct ((LOCKTIME_THRESHOLD <=? v) && _) eqn:H2; [done|].
    injection Htl as <-. cbn [value_] in *.
    exists v. split.
    { unfold k. cbn [type_ based_ value_]. by rewrite H1, H2. }
    rewrite bool_decide_eq_true_2 by done.
    rewrite (bool_decide_eq_false_2 (_ ∧ _)) by (by intros [_ ?]).
    unfold FromK. destruct (Z.eqb_spec v 0) as [|_]; [done|].
    destruct b; [done| |].
    + rewrite bool_decide_eq_true_2, andb_true_r in H1 by done.
      apply Z.ltb_ge in H1. apply Z.leb_le in H1 as H1'. rewrite H1'.
      rewrite Timelock_absolute.
      rewrite (proj2 (Z.ltb_ge _ _)) by done. cbn [andb].
      by rewrite bool_decide_eq_false_2, andb_false_r.
    + rewrite bool_decide_eq_true_2, andb_true_r in H2 by done.
      rewrite H2. rewrite Timelock_absolute.
      rewrite (bool_decide_eq_false_2 (HEIGHT_LOCK = TIME_LOCK)) by done.
      by rewrite andb_false_r, H2.
  - rewrite (bool_decide_eq_false_2 (LOCKTYPE_RELATIVE = _)) by done.
    destruct b; [done| |].
    + rewrite Timelock_relative_time in Htl.
      destruct (Z.leb_spec 33554431 v) as [|Hlt]; [done|].
      injection Htl as <-. cbn [value_] in *.
      rewrite bool_decide_eq_true_2 by done.
      set (w := Z.max v 512) in *.
      assert (Hw : 512 <= w < 33554431) by (unfold w; lia).
      pose proof (shiftr_granularity_range w ltac:(lia)) as Hs.
      exists (Z.lor (Z.shiftr w 9) SEQUENCE_LOCKTIME_TYPE_FLAG). split.
      { unfold k. cbn [type_ based_ value_].
        destruct (Z.ltb_spec w 0); [lia|].
        by destruct (Z.leb_spec 33554431 w); [lia|]. }
      unfold FromK.
      rewrite land_flag_cases, lor_flag_testbit.
      change (SEQUENCE_LOCKTIME_TYPE_FLAG =? 0) with false. cbn [negb].
      rewrite lor_flag_land_mask by done.
      unfold SEQUENCE_LOCKTIME_GRANULARITY.
      rewrite Z.shiftl_mul_pow2, Z.shiftr_div_pow2 by lia.
      change (2 ^ 9) with 512.
      assert (Hq : 1 <= w / 512).
      { apply Z.div_le_lower_bound; lia. }
      assert (Hq' : w / 512 * 512 <= w).
      { rewrite Z.mul_comm. apply Z.mul_div_le. lia. }
      destruct (Z.eqb_spec (w / 512 * 512) 0); [lia|].
      rewrite Timelock_relative_time.
      destruct (Z.leb_spec 33554431 (w / 512 * 512)); [lia|].
      do 2 f_equal. lia.
    + rewrite Timelock_relative_height in Htl.
      destruct (Z.ltb_spec v 0) as [|Hge]; [done|].
      destruct (Z.leb_spec 65535 v) as [|Hlt]; [done|].
      injection Htl as <-. cbn [value_] in *.
      rewrite (bool_decide_eq_false_2 (_ ∧ _)) by (by intros [? _]).
      exists v. split.
      { unfold k. cbn [type_ based_ value_].
        destruct (Z.ltb_spec v 0); [lia|].
        destruct (Z.leb_spec 65535 v); [lia|cbn [orb]].
        by rewrite land_mask_small by lia. }
      unfold FromK.
      assert (Hflag : Z.land v SEQUENCE_LOCKTIME_TYPE_FLAG = 0).
      { rewrite land_flag_cases.
        rewrite (Z.bits_above_log2 v 22); [done|lia|].
        apply Z.log2_lt_pow2; [lia|]. change (2 ^ 22) with 4194304. lia. }
      rewrite Hflag. change (0 =? 0) with true. cbn [negb].
      rewrite land_mask_small by lia.
      destruct (Z.eqb_spec v 0); [done|].
      rewrite Timelock_relative_height.
      destruct (Z.ltb_spec v 0); [lia|].
      by destruct (Z.leb_spec 65535 v); [lia|].
Qed.

(** Witness of X3. *)
Lemma FromK_k_witness :
  ∃ kk, k (mk TIME_LOCK LOCKTYPE_RELATIVE 1000) = Valid kk ∧
    FromK false kk = Valid (mk TIME_LOCK LOCKTYPE_RELATIVE 512).
Proof.
  destruct (FromK_k TIME_LOCK LOCKTYPE_RELATIVE 1000
              (mk TIME_LOCK LOCKTYPE_RELATIVE 1000))
    as (kk & Hk & HF); [done..|].
  by exists kk.
Defined.

Lemma land_flag_small (a : Z) :
  0 <= a < 65536 → Z.land a SEQUENCE_LOCKTIME_TYPE_FLAG = 0.
Proof.
  intros Ha. rewrite land_flag_cases.
  destruct (decide (a = 0)) as [->|Hne]; [done|].
  rewrite (Z.bits_above_log2 a 22); [done|lia|].
  apply Z.log2_lt_pow2; [|change (2 ^ 22) with 4194304]; lia.
Qed.

Lemma lor_flag_add (a : Z) :
  0 <= a < 65536 →
  Z.lor a SEQUENCE_LOCKTIME_TYPE_FLAG = SEQUENCE_LOCKTIME_TYPE_FLAG + a.
Proof.
  intros Ha. rewrite Z.add_comm, <- Z.lxor_lor, <- Z.add_nocarry_lxor;
    [done|..]; by apply land_flag_small.
Qed.

(** X4.  A relative time lock is accepted exactly below 33554431 seconds;
    a value under 512, negative ones included, is raised to 512, and the
    encoding is the type flag plus the number of whole 512-second
    units. *)
Theorem relative_time_lock_granularity (v : Z) :
  Timelock TIME_LOCK LOCKTYPE_RELATIVE v =
    (if 33554431 <=? v then Invalid "Invalid time value"
     else Valid (mk TIME_LOCK LOCKTYPE_RELATIVE (Z.max v 512))) ∧
  (v < 33554431 →
   k (mk TIME_LOCK LOCKTYPE_RELATIVE (Z.max v 512)) =
     Valid (SEQUENCE_LOCKTIME_TYPE_FLAG + Z.max v 512 / 512)).
Proof.
  split; [apply Timelock_relative_time|]. intros Hv.
  unfold k. cbn [type_ based_ value_].
  destruct (Z.ltb_spec (Z.max v 512) 0); [lia|].
  destruct (Z.leb_spec 33554431 (Z.max v 512)); [lia|cbn [orb]].
  unfold SEQUENCE_LOCKTIME_GRANULARITY.
  rewrite lor_flag_add by (apply shiftr_granularity_range; lia).
  rewrite Z.shiftr_div_pow2 by lia. done.
Qed.

(** Witness of X4. *)
Lemma relative_time_lock_granularity_witness :
  k (mk TIME_LOCK LOCKTYPE_RELATIVE 512)
  = Valid (SEQUENCE_LOCKTIME_TYPE_FLAG + 1).
Proof. apply (proj2 (relative_time_lock_granularity (-5))). lia. Defined.

End TimelockProperties.


(** ** String utilities *)


Lemma getline_chars_length (delim : Ascii.ascii) (s : string) :
  match (getline_chars delim s).2 with
  | Some rest => (String.length rest < String.length s)%nat
  | None => True
  end.
Proof.
  induction s as [|c s IH]; [done|]. simpl.
  destruct (Ascii.eqb c delim); simpl; [lia|].
  destruct (getline_chars delim s) as [item [rest|]]; simpl in *; [lia|done].
Qed.

Lemma split_loop_total (turns : nat) (delim : Ascii.ascii) (ss : option string)
    (result : list string) :
  (stream_length ss < turns)%nat →
  is_Some (split_loop turns delim ss result).
Proof.
  revert ss result. induction turns as [|turns IH]; intros ss result Hlen;
    [lia|]. cbn [split_loop].
  destruct ss as [[|c s]|]; cbn [getline]; [done| |done].
  pose proof (getline_chars_length delim (String c s)) as Hl.
  destruct (getline_chars delim (String c s)) as [item rest] eqn:Hg.
  apply IH. cbn [stream_length snd String.length] in *.
  destruct rest; cbn [stream_length] in *; lia.
Qed.

Lemma split_loop_more (turns turns' : nat) (delim : Ascii.ascii)
    (ss : option string) (result r : list string) :
  split_loop turns delim ss result = Some r → (turns <= turns')%nat →
  split_loop turns' delim ss result = Some r.
Proof.
  revert turns' ss result. induction turns as [|turns IH];
    intros turns' ss result; [done|].
  intros Hr Hle. destruct turns' as [|turns']; [lia|]. simpl in *.
  destruct (getline delim ss) as [[item ss']|]; [|done].
  apply IH; [done|lia].
Qed.

Lemma split_unfold (s : string) (delim : Ascii.ascii) (turns : nat) :
  (String.length s < turns)%nat →
  split_loop turns delim (Some s) [] = Some (split s delim).
Proof.
  intros Hlen. unfold split.
  destruct (split_loop_total (S (String.length s)) delim (Some s) [])
    as [r Hr]; [simpl; lia|].
  rewrite Hr. simpl. eapply split_loop_more; [done|lia].
Qed.

Lemma append_cons (x : Ascii.ascii) (a b : string) :
  String x a +:+ b = String x (a +:+ b).
Proof. done. Qed.

Lemma append_assoc (a b c : string) : (a +:+ b) +:+ c = a +:+ (b +:+ c).
Proof.
  induction a as [|x a IH]; [done|]. rewrite !append_cons. by f_equal.
Qed.

Lemma append_empty_r (a : string) : a +:+ "" = a.
Proof. induction a as [|x a IH]; [done|]. rewrite append_cons. by f_equal. Qed.

Lemma append_length (a b : string) :
  String.length (a +:+ b) = (String.length a + String.length b)%nat.
Proof.
  induction a as [|x a IH]; [done|]. rewrite append_cons. simpl. by f_equal.
Qed.

Lemma join_fold_tail (delim : Ascii.ascii) (v : list string) (s : string)
    (n : nat) :
  fold_left
    (fun (s : string) (ii : nat * string) =>
       if decide (ii.1 = 0%nat) then s +:+ ii.2
       else s +:+ String delim ii.2)
    (imap (fun i x => (S (n + i), x)) v) s
  = s +:+ join_tail v delim.
Proof.
  revert s n. induction v as [|y v IH]; intros s n.
  { by rewrite append_empty_r. }
  cbn [imap fold_left foldr join_tail fst snd].
  rewrite decide_False by lia.
  fold (join_tail v delim).
  rewrite (imap_ext _ (λ i x, (S (S n + i), x)))
    by (intros; simpl; f_equal; lia).
  by rewrite IH, append_assoc, append_cons.
Qed.

Lemma join_cons (delim : Ascii.ascii) (x : string) (v : list string) :
  join (x :: v) delim = x +:+ join_tail v delim.
Proof.
  unfold join. cbn [imap fold_left fst snd]. rewrite decide_True by done.
  rewrite <- (join_fold_tail delim v _ 0). f_equal.
Qed.

Lemma getline_chars_delim (delim : Ascii.ascii) (x rest : string) :
  has_char delim x = false →
  getline_chars delim (x +:+ String delim rest) = (x, Some rest).
Proof.
  induction x as [|c x IH]; cbn [has_char].
  - intros _. change ("" +:+ String delim rest) with (String delim rest).
    cbn [getline_chars]. by rewrite Ascii.eqb_refl.
  - intros [Hc Hx]%orb_false_elim.
    change (String c x +:+ String delim rest)
      with (String c (x +:+ String delim rest)).
    cbn [getline_chars]. by rewrite Hc, IH.
Qed.

Lemma getline_chars_end (delim : Ascii.ascii) (x : string) :
  has_char delim x = false → getline_chars delim x = (x, None).
Proof.
  induction x as [|c x IH]; simpl; [done|].
  intros [Hc Hx]%orb_false_elim. by rewrite Hc, IH.
Qed.

Lemma without_empty_last_cons (x y : string) (v : list string) :
  without_empty_last (x :: y :: v) = x :: without_empty_last (y :: v).
Proof.
  unfold without_empty_last. change (last (x :: y :: v)) with (last (y :: v)).
  destruct (last (y :: v)) as [[|]|]; done.
Qed.

Lemma split_loop_joined (delim : Ascii.ascii) (x : string) (v : list string)
    (turns : nat) (result : list string) :
  Forall (fun y => has_char delim y = false) (x :: v) →
  (String.length (x +:+ join_tail v delim) < turns)%nat →
  split_loop turns delim (Some (x +:+ join_tail v delim)) result
  = Some (result ++ without_empty_last (x :: v)).
Proof.
  revert x turns result. induction v as [|y v IH]; intros x turns result Hfree.
  - apply Forall_cons in Hfree as [Hx _]. cbn [join_tail foldr].
    rewrite append_empty_r. intros Hlen.
    destruct x as [|c x].
    + destruct turns as [|turns]; [cbn in Hlen; lia|]. by rewrite app_nil_r.
    + destruct turns as [|[|turns]]; [cbn in Hlen; lia..|].
      cbn [split_loop getline]. by rewrite getline_chars_end.
  - apply Forall_cons in Hfree as [Hx Hfree]. cbn [join_tail foldr].
    fold (join_tail v delim). intros Hlen.
    destruct turns as [|turns]; [lia|].
    rewrite append_length in Hlen. cbn [String.length] in Hlen.
    cbn [split_loop].
    assert (Hg : getline delim (Some (x +:+ String delim (y +:+ join_tail v delim)))
                 = Some (x, Some (y +:+ join_tail v delim))).
    { destruct x as [|c x].
      - change ("" +:+ ?s) with s. simpl. by rewrite Ascii.eqb_refl.
      - rewrite append_cons. cbn [getline].
        by rewrite <- append_cons, getline_chars_delim. }
    rewrite Hg, IH by (done || lia).
    by rewrite without_empty_last_cons, <- app_assoc.
Qed.

Lemma split_joined (v : list string) (delim : Ascii.ascii) :
  Forall (fun x => has_char delim x = false) v →
  split (join v delim) delim = without_empty_last v.
Proof.
  intros Hfree. destruct v as [|x v]; [done|].
  rewrite join_cons. unfold split.
  rewrite (split_loop_joined delim x v _ []); [done|done|lia].
Qed.

(** X5.  Splitting what was joined gives the strings back, when none of
    them holds the delimiter, except that a last string that is empty is
    lost: [split] never ends on an empty item. *)
Theorem split_join (v : list string) (delim : Ascii.ascii) :
  Forall (fun x => has_char delim x = false) v →
  split (join v delim) delim = without_empty_last v.
Proof. apply split_joined. Qed.

(** Witness of X5. *)
Lemma split_join_witness :
  split (join ["null"; "5e3a"] PIPE) PIPE = ["null"; "5e3a"].
Proof. by rewrite split_join; [|repeat constructor]. Defined.

(** ** Memo, schedule and PSBT calls *)

Lemma FillExtra_set_memo (extra : ExtraString) (memo : string)
    (tx : Transaction) :
  FillExtra extra (set_memo memo tx) =
  match FillExtra extra tx with
  | Ok tx' => Ok (set_memo memo tx')
  | Throw e => Throw e
  end.
Proof.
  unfold FillExtra. destruct extra as [extra_json|]; [|done].
  cbn [set_memo get_signers get_height get_raw].
  destruct (match ej_signers extra_json with
            | Some _ => _ | None => _ end) as [signers|e]; done.
Qed.

(** *** Texts read as C strings *)

Lemma c_str_plain (s : string) : has_char NUL s = false → c_str s = s.
Proof.
  induction s as [|c s IH]; [done|]. cbn.
  intros [Hc Hs]%orb_false_elim. by rewrite Hc, IH.
Qed.

Lemma c_str_no_NUL (s : string) : has_char NUL (c_str s) = false.
Proof.
  induction s as [|c s IH]; [done|]. cbn.
  destruct (Ascii.eqb c NUL) eqn:Hc; [done|]. cbn. by rewrite Hc, IH.
Qed.

Lemma c_str_has_char (c : Ascii.ascii) (s : string) :
  has_char c s = false → has_char c (c_str s) = false.
Proof.
  induction s as [|d s IH]; [done|]. cbn.
  intros [Hd Hs]%orb_false_elim.
  destruct (Ascii.eqb d NUL); [done|]. cbn. by rewrite Hd, IH.
Qed.

Lemma c_str_append (a b : string) :
  has_char NUL a = false → c_str (a +:+ b) = a +:+ c_str b.
Proof.
  induction a as [|c a IH]; [done|]. rewrite !append_cons. cbn.
  intros [Hc Ha]%orb_false_elim. by rewrite Hc, IH.
Qed.

Lemma read_row_set_memo `{Wallet} (tx_id memo : string) (row : VtxRow) :
  read_row tx_id (row_with_MEMO memo row) =
  match read_row tx_id row with
  | Ok tx => Ok (set_memo (c_str memo) tx)
  | Throw e => Throw e
  end.
Proof.
  unfold read_row. cbn [row_with_MEMO VALUE HEIGHT EXTRA].
  destruct (GetTransactionFromStr (VALUE row) wallet_m (HEIGHT row))
    as [tx is_hex_tx].
  cbn [MEMO CHANGEPOS FEE BLOCKTIME].
  destruct (EXTRA row) as [|extra]; [done|].
  by rewrite <- FillExtra_set_memo.
Qed.

(** X6.  [UpdateTransactionMemo] on a stored id returns true and rewrites
    the memo of that row only, to the memo as given: every other column
    and every other row stay.  The memo is read back as a C string: where
    reading the transaction gave [tx] before, it gives [tx] with the new
    memo up to its first NUL byte afterwards, which is the new memo when
    it holds no NUL byte.  On an id that is not stored the call returns
    false and leaves the store as it was. *)
Theorem UpdateTransactionMemo_rewrites_memo `{Wallet} (tx_id memo : string)
    (db : WalletDb) :
  match VTX db !! tx_id with
  | Some row =>
      result (UpdateTransactionMemo tx_id memo) db = Ok true ∧
      VTX (exec (UpdateTransactionMemo tx_id memo) db)
        = <[tx_id := row_with_MEMO memo row]> (VTX db) ∧
      ADDRESS (exec (UpdateTransactionMemo tx_id memo) db) = ADDRESS db ∧
      addr_cache (exec (UpdateTransactionMemo tx_id memo) db)
        = addr_cache db ∧
      (∀ tx, result (GetTransaction tx_id) db = Ok tx →
         result (GetTransaction tx_id)
           (exec (UpdateTransactionMemo tx_id memo) db)
         = Ok (set_memo (c_str memo) tx)) ∧
      has_char NUL (c_str memo) = false ∧
      (has_char NUL memo = false → c_str memo = memo)
  | None =>
      UpdateTransactionMemo tx_id memo db = (Ok false, db)
  end.
Proof.
  unfold UpdateTransactionMemo, exec, result.
  destruct (VTX db !! tx_id) as [row|] eqn:Hrow.
  - rewrite (sql_update_vtx_Some _ _ _ row) by done. cbn [fst snd].
    split; [done|]. split; [done|]. split; [done|]. split; [done|].
    split; [|split; [apply c_str_no_NUL|apply c_str_plain]].
    intros tx. fold (result (GetTransaction tx_id) db).
    fold (result (GetTransaction tx_id)
            (with_VTX (<[tx_id:=row_with_MEMO memo row]> (VTX db)) db)).
    rewrite !GetTransaction_result, Hrow. cbn [with_VTX VTX].
    rewrite lookup_insert_eq, read_row_set_memo. by intros ->.
  - unfold sql_update_vtx. by rewrite Hrow.
Qed.

Lemma FillExtra_schedule_time (extra_json : ExtraJson) (value : Z)
    (tx : Transaction) :
  FillExtra (Some (ej_with_schedule_time (Some value) extra_json)) tx =
  match FillExtra (Some extra_json) tx with
  | Ok tx' => Ok (set_schedule_time value tx')
  | Throw e => Throw e
  end.
Proof.
  unfold FillExtra.
  cbn [ej_with_schedule_time ej_signers ej_outputs ej_fee_rate ej_subtract
       ej_replace_txid ej_schedule_time ej_replaced_by_txid ej_reject_msg].
  destruct (match ej_signers extra_json with
            | Some _ => _ | None => _ end) as [signers|e]; done.
Qed.

Lemma FillExtra_ej_null (tx : Transaction) :
  FillExtra (Some ej_null) tx = Ok tx.
Proof.
  unfold FillExtra. destruct tx. cbn.
  rewrite (right_id_L [] (++)), andb_false_r. cbn.
  by destruct (bool_decide _).
Qed.

(** X7.  [UpdateTransactionSchedule] on a row whose EXTRA is not NULL
    returns true and changes the EXTRA of that row only; where reading the
    transaction gave [tx] before, it gives [tx] with the new schedule time
    afterwards, also when EXTRA was the empty text.  Without such a row
    (no row, or a NULL EXTRA) it returns false and writes nothing. *)
Theorem UpdateTransactionSchedule_sets_schedule `{Wallet} (tx_id : string)
    (value : Z) (db : WalletDb) :
  match VTX db !! tx_id with
  | Some row =>
      match EXTRA row with
      | SqlText extra =>
          result (UpdateTransactionSchedule tx_id value) db = Ok true ∧
          (∃ extra',
             VTX (exec (UpdateTransactionSchedule tx_id value) db)
               = <[tx_id := row_with_EXTRA (SqlText (Some extra')) row]>
                   (VTX db) ∧
             ej_schedule_time extra' = Some value) ∧
          ADDRESS (exec (UpdateTransactionSchedule tx_id value) db)
            = ADDRESS db ∧
          (∀ tx, result (GetTransaction tx_id) db = Ok tx →
             result (GetTransaction tx_id)
               (exec (UpdateTransactionSchedule tx_id value) db)
             = Ok (set_schedule_time value tx))
      | SqlNull =>
          UpdateTransactionSchedule tx_id value db = (Ok false, db)
      end
  | None => UpdateTransactionSchedule tx_id value db = (Ok false, db)
  end.
Proof.
  unfold UpdateTransactionSchedule.
  destruct (VTX db !! tx_id) as [row|] eqn:Hrow.
  2: { unfold bind, get_db. by rewrite Hrow. }
  destruct (EXTRA row) as [|extra] eqn:Hextra.
  { unfold bind, get_db. rewrite Hrow. cbn. by rewrite Hextra. }
  set (extra_json := match extra with Some j => j | None => ej_null end).
  assert (Hrun :
    (let* db0 := get_db in
     match EXTRA <$> VTX db0 !! tx_id with
     | Some (SqlText extra0) =>
         let* extra_json0 :=
           match extra0 with
           | None => ret ej_null
           | Some _ => lift (json_parse extra0)
           end in
         let* _ := sql_update_vtx tx_id
                     (row_with_EXTRA
                        (SqlText
                           (Some (ej_with_schedule_time (Some value)
                                    extra_json0)))) in
         ret true
     | _ => ret false
     end) db
    = (Ok true,
       with_VTX
         (<[tx_id := row_with_EXTRA
                       (SqlText (Some (ej_with_schedule_time (Some value)
                                         extra_json))) row]> (VTX db)) db)).
  { unfold bind at 1, get_db. rewrite Hrow. cbn [fmap option_fmap option_map].
    rewrite Hextra. unfold bind at 1.
    destruct extra as [j|]; cbn [ret lift json_parse];
      unfold bind; by rewrite (sql_update_vtx_Some _ _ _ row). }
  unfold exec, result. rewrite Hrun. cbn [fst snd].
  split; [done|]. split; [by eexists|]. split; [done|].
  intros tx. fold (result (GetTransaction tx_id) db).
  match goal with
  | |- _ → (GetTransaction tx_id ?d).1 = _ =>
      fold (result (GetTransaction tx_id) d)
  end.
  rewrite !GetTransaction_result, Hrow. cbn [with_VTX VTX].
  rewrite lookup_insert_eq. unfold read_row.
  cbn [row_with_EXTRA VALUE HEIGHT EXTRA MEMO CHANGEPOS FEE BLOCKTIME].
  destruct (GetTransactionFromStr (VALUE row) wallet_m (HEIGHT row))
    as [tx0 is_hex_tx].
  rewrite Hextra, FillExtra_schedule_time.
  destruct extra as [j|]; subst extra_json.
  - by intros ->.
  - rewrite FillExtra_ej_null. cbn [FillExtra]. by intros [= <-].
Qed.

(** X8.  [UpdatePsbt] writes only to a transaction that is still
    unbroadcast: when the id of the PSBT has no row at height -1 the call
    returns false and leaves the store as it was, so a broadcast
    transaction is never overwritten; when it has one, only the payload of
    that row is replaced. *)
Theorem UpdatePsbt_only_unbroadcast `{Wallet} (psbt : string)
    (db : WalletDb) :
  match select_unbroadcast (PsbtTxId psbt) db with
  | None => UpdatePsbt psbt db = (Ok false, db)
  | Some row =>
      VTX (exec (UpdatePsbt psbt) db)
        = <[PsbtTxId psbt := row_with_VALUE psbt row]> (VTX db) ∧
      ADDRESS (exec (UpdatePsbt psbt) db) = ADDRESS db ∧
      GetPsbt (PsbtTxId psbt) (exec (UpdatePsbt psbt) db) = psbt
  end.
Proof.
  destruct (select_unbroadcast (PsbtTxId psbt) db) as [row|] eqn:Hsel.
  - apply select_unbroadcast_Some in Hsel as [Hrow Hheight].
    assert (Hsel : select_unbroadcast (PsbtTxId psbt) db = Some row)
      by by apply select_unbroadcast_Some.
    set (db1 := with_VTX (<[PsbtTxId psbt := row_with_VALUE psbt row]>
                            (VTX db)) db).
    assert (Hrun : UpdatePsbt psbt db =
      (let* _ := (let* _ := GetTransaction (PsbtTxId psbt) in ret tt) in
       ret true) db1).
    { unfold UpdatePsbt. unfold bind at 1, get_db. rewrite Hsel.
      by erewrite bind_Ok by (by apply sql_update_vtx_Some). }
    unfold exec. rewrite Hrun.
    pose proof (refresh_after_update (PsbtTxId psbt) db1) as Hr.
    cbv zeta in Hr. destruct Hr as (HV' & HA' & _).
    split; [exact HV'|]. split; [exact HA'|].
    unfold GetPsbt, select_unbroadcast. rewrite HV'. subst db1.
    cbn [with_VTX VTX]. rewrite lookup_insert_eq.
    cbn [row_with_VALUE HEIGHT VALUE].
    by rewrite bool_decide_eq_true_2.
  - unfold UpdatePsbt, bind, get_db. by rewrite Hsel.
Qed.

(** X9.  After [CreatePsbt] the PSBT can be read back under its id with
    [GetPsbt], whatever the store held under that id: a row that was there
    keeps its fee, memo, change position, block time and extra, and gets
    the PSBT as payload and height -1, also when it was a broadcast
    transaction. *)
Theorem CreatePsbt_GetPsbt `{Wallet} (psbt : string) (fee : Z)
    (memo : string) (change_pos : Z) (outputs : gmap string Z)
    (fee_rate : Z) (subtract_fee_from_amount : bool) (replace_tx : string)
    (db : WalletDb) :
  let db' := exec (CreatePsbt psbt fee memo change_pos outputs fee_rate
                     subtract_fee_from_amount replace_tx) db in
  GetPsbt (PsbtTxId psbt) db' = psbt ∧
  (∀ row, VTX db !! PsbtTxId psbt = Some row →
     VTX db' !! PsbtTxId psbt
       = Some (row_with_HEIGHT (-1) (row_with_VALUE psbt row))) ∧
  (∀ id, id ≠ PsbtTxId psbt → VTX db' !! id = VTX db !! id).
Proof.
  intros db'.
  assert (HV : ∀ id, VTX db' !! id =
    VTX (exec (sql_upsert_vtx (PsbtTxId psbt)
                 (mkVtxRow psbt (-1) fee memo change_pos 0
                    (SqlText (Some
                       (mkExtraJson None (Some outputs) (Some fee_rate)
                          (Some subtract_fee_from_amount)
                          (if String.eqb replace_tx "" then None
                           else Some replace_tx) None None None))))) db)
      !! id).
  { intros id. subst db'. unfold CreatePsbt, exec, bind.
    destruct (sql_upsert_vtx _ _ db) as [[[]|e] db1] eqn:Hup; [|done].
    cbn [snd].
    destruct (GetTransaction_tables (PsbtTxId psbt) db1) as [HV _].
    unfold exec in HV. by rewrite HV. }
  split; [|split].
  - unfold GetPsbt, select_unbroadcast. rewrite HV, sql_upsert_vtx_lookup.
    rewrite decide_True by done.
    destruct (VTX db !! PsbtTxId psbt) as [row|]; cbn;
      by rewrite bool_decide_eq_true_2.
  - intros row Hrow. rewrite HV, sql_upsert_vtx_lookup, decide_True by done.
    by rewrite Hrow.
  - intros id Hid. rewrite HV, sql_upsert_vtx_lookup.
    by rewrite decide_False.
Qed.

(** X10.  [DeleteTransaction] returns whether the id had a row; afterwards
    reading the id throws TX_NOT_FOUND and every other row, the address
    table and the cache are as before.  Deleting an id that has no row
    leaves the store as it was. *)
Theorem DeleteTransaction_then_not_found `{Wallet} (tx_id : string)
    (db : WalletDb) :
  let db' := exec (DeleteTransaction tx_id) db in
  result (DeleteTransaction tx_id) db
    = Ok (bool_decide (is_Some (VTX db !! tx_id))) ∧
  GetTransaction tx_id db' = (Throw TX_NOT_FOUND, db') ∧
  (∀ id, id ≠ tx_id → VTX db' !! id = VTX db !! id) ∧
  ADDRESS db' = ADDRESS db ∧ addr_cache db' = addr_cache db ∧
  (VTX db !! tx_id = None → db' = db).
Proof.
  intros db'. subst db'. unfold DeleteTransaction, exec, result.
  destruct (VTX db !! tx_id) as [row|] eqn:Hrow; cbn [fst snd].
  - split; [done|]. split.
    { unfold GetTransaction, bind, get_db. cbn [with_VTX VTX].
      by rewrite lookup_delete_eq. }
    split; [|done]. intros id Hid. cbn [with_VTX VTX].
    by rewrite lookup_delete_ne.
  - split; [done|]. split.
    { unfold GetTransaction, bind, get_db. by rewrite Hrow. }
    done.
Qed.

(** X11.  Inserting a transaction whose id has no row and deleting it again
    restores the transaction table and leaves the address table alone. *)
Theorem InsertTransaction_then_DeleteTransaction `{Wallet} (raw : string)
    (height blocktime fee : Z) (memo : string) (change_pos : Z)
    (db : WalletDb) :
  VTX db !! RawTxId raw = None →
  let db1 := exec (InsertTransaction raw height blocktime fee memo
                     change_pos) db in
  result (DeleteTransaction (RawTxId raw)) db1 = Ok true ∧
  VTX (exec (DeleteTransaction (RawTxId raw)) db1) = VTX db ∧
  ADDRESS (exec (DeleteTransaction (RawTxId raw)) db1) = ADDRESS db.
Proof.
  intros Hnew db1.
  assert (HV : VTX db1 =
    <[RawTxId raw := mkVtxRow raw height fee memo change_pos blocktime
                       (SqlText None)]> (VTX db)).
  { subst db1. rewrite InsertTransaction_VTX.
    unfold sql_upsert_vtx, modify, exec. cbn [snd]. by rewrite Hnew. }
  assert (HA : ADDRESS db1 = ADDRESS db).
  { subst db1. unfold InsertTransaction, exec, bind.
    unfold sql_upsert_vtx, modify. cbn [snd fst].
    match goal with
    | |- ADDRESS (GetTransaction _ ?d).2 = _ =>
        destruct (GetTransaction_tables (RawTxId raw) d) as [_ HA]
    end.
    unfold exec in HA. rewrite HA. by rewrite Hnew. }
  unfold DeleteTransaction, exec, result. rewrite HV, lookup_insert_eq.
  cbn [fst snd with_VTX VTX ADDRESS].
  split; [done|]. split; [|done].
  by rewrite delete_insert_eq, delete_id.
Qed.

(** Witness of X11. *)
Lemma InsertTransaction_then_DeleteTransaction_witness :
  result (DeleteTransaction (RawTxId "rawA"))
    (exec (InsertTransaction "rawA" 0 0 0 "" (-1)) empty_db) = Ok true ∧
  VTX (exec (DeleteTransaction (RawTxId "rawA"))
         (exec (InsertTransaction "rawA" 0 0 0 "" (-1)) empty_db))
  = VTX empty_db.
Proof.
  destruct (InsertTransaction_then_DeleteTransaction "rawA" 0 0 0 "" (-1)
              empty_db) as (Hr & HV & _); [done|].
  by split.
Defined.

(** ** Address queries *)

(** X12.  The address status makes the round trip through the store up
    to its first NUL byte: when [SetUtxos] stores for a known address the
    text that the synchroniser builds from a status without ['|'],
    [GetAddressStatus], which reads the text as a C string, returns the
    status up to its first NUL byte, so the status itself when it holds
    none; for an address that is not known [SetUtxos] returns false and
    the status read stays what it was. *)
Theorem address_status_round_trip `{Wallet} (address status : string)
    (db : WalletDb) (stored : bool) :
  has_char PIPE status = false →
  result (SetUtxos address (utxostatus status)) db = Ok stored →
  GetAddressStatus address (exec (SetUtxos address (utxostatus status)) db)
  = (if stored then c_str status else GetAddressStatus address db) ∧
  (has_char NUL status = false → c_str status = status).
Proof.
  intros Hfree Hresult. split; [|apply c_str_plain].
  revert Hresult. unfold SetUtxos, result, exec, bind.
  pose proof (GetAllAddressData_keeps_blind
                (fun db' => ADDRESS db' = ADDRESS db)) as Hkeep.
  specialize (Hkeep ltac:(done) db eq_refl).
  destruct (GetAllAddressData db) as [[all|e] db1]; [|done].
  cbn [snd] in Hkeep.
  destruct (all !! address) as [d|]; cbn [fst snd ret].
  - intros [= <-]. unfold SetAddress, modify. cbn [snd].
    assert (Hsplit : split (c_str (utxostatus status)) PIPE
                     = without_empty_last ["null"; c_str status]).
    { assert (Hread : c_str (utxostatus status)
                      = join ["null"; c_str status] PIPE).
      { unfold utxostatus. rewrite !join_cons. cbn [join_tail foldr].
        rewrite !append_empty_r.
        change ("null" +:+ String PIPE status)
          with (String.append "null|" status).
        change ("null" +:+ String PIPE (c_str status))
          with (String.append "null|" (c_str status)).
        by apply (c_str_append "null|"). }
      rewrite Hread. apply (split_joined ["null"; c_str status] PIPE).
      repeat apply Forall_cons_2;
        [by vm_compute|by apply c_str_has_char|apply Forall_nil_2]. }
    unfold GetAddressStatus.
    destruct (ADDRESS db1 !! address); cbn [with_ADDRESS ADDRESS ret snd];
      rewrite lookup_insert_eq; cbn [UTXO]; rewrite Hsplit;
      by destruct (c_str status).
  - intros [= <-]. unfold GetAddressStatus. by rewrite Hkeep.
Qed.

(** Witness of X12. *)
Lemma address_status_round_trip_witness :
  GetAddressStatus "ext1"
    (exec (SetUtxos "ext1" (utxostatus "5e3a")) demo_known_db) = "5e3a".
Proof.
  by apply (proj1 (address_status_round_trip "ext1" "5e3a" demo_known_db
                     true eq_refl eq_refl)).
Defined.

Lemma UseAddress_index_view (address : string) (v : option (gmap string Z)) :
  keeps (fun db => index_view db = v) (UseAddress address).
Proof.
  apply keeps_modify. intros db <-.
  destruct (String.eqb address ""); [done|].
  destruct (addr_cache db) as [cache|] eqn:Hcache; [|done].
  destruct (cache !! address) as [d|] eqn:Hd; [|done].
  unfold index_view. cbn [with_addr_cache addr_cache]. rewrite Hcache.
  cbn. f_equal. rewrite fmap_insert. apply insert_id.
  by rewrite lookup_fmap, Hd.
Qed.

Lemma GetAllAddressData_index_view `{Wallet} (db : WalletDb)
    (all : gmap string AddressData) :
  result GetAllAddressData db = Ok all →
  index_view (exec GetAllAddressData db) = Some (ad_index <$> all) ∧
  all = address_view db ∧
  ADDRESS (exec GetAllAddressData db) = ADDRESS db.
Proof.
  unfold address_view.
  destruct (addr_cache db) as [cache|] eqn:Hcache.
  { unfold result, exec.
    rewrite (GetAllAddressData_cached db cache) by done. cbn.
    intros [= <-]. unfold index_view. by rewrite Hcache. }
  set (db1 := with_addr_cache (Some (derive_address_data db)) db).
  set (marking := fun txs : list Transaction =>
         for_each txs (fun tx => for_each (get_outputs tx)
                                   (fun output => UseAddress output.1))).
  assert (Hrun : GetAllAddressData db =
    match GetTransactions db with
    | Ok txs => (Ok (derive_address_data db), (marking txs db1).2)
    | Throw e => (Throw e, db1)
    end).
  { unfold GetAllAddressData.
    rewrite (bind_Ok _ _ db db db) by done. rewrite Hcache.
    erewrite bind_Ok; [|done]. fold db1.
    destruct (GetTransactions db) as [txs|e] eqn:Htxs.
    - erewrite bind_Ok; [|by unfold lift].
      assert (Hok : (marking txs db1).1 = Ok tt).
      { apply for_each_ok. intros tx st. apply for_each_UseAddress_ok. }
      unfold bind. fold (marking txs).
      by destruct (marking txs db1) as [[[]|e] db2].
    - by erewrite bind_Throw by (by unfold lift). }
  unfold result, exec. rewrite Hrun.
  destruct (GetTransactions db) as [txs|e]; [|done].
  cbn [fst snd]. intros [= <-].
  pose proof (keeps_for_each
                (fun db' => index_view db'
                              = Some (ad_index <$> derive_address_data db))
                txs
                (fun tx => for_each (get_outputs tx)
                             (fun output => UseAddress output.1))) as Hk.
  pose proof (keeps_for_each (fun db' => ADDRESS db' = ADDRESS db) txs
                (fun tx => for_each (get_outputs tx)
                             (fun output => UseAddress output.1))) as Ha.
  specialize (Hk ltac:(intros; apply keeps_for_each; intros;
                         apply UseAddress_index_view) db1 eq_refl).
  specialize (Ha ltac:(intros; apply keeps_for_each; intros;
                         by apply UseAddress_keeps_blind) db1 eq_refl).
  done.
Qed.

(** X13.  [AddAddress] never re-indexes an address the wallet knows: when
    the call returns, [GetAddressIndex] gives the index the address had in
    the address map (the cached one, or the one derived once the row is
    written), and the index of the call only for an address that map did
    not hold. *)
Theorem AddAddress_keeps_known_index `{Wallet} (address : string)
    (index : Z) (internal : bool) (db : WalletDb) :
  result (AddAddress address index internal) db = Ok true →
  result (GetAddressIndex address)
    (exec (AddAddress address index internal) db)
  = Ok match address_view (exec (SetAddress address index internal "") db)
               !! address with
       | Some d => ad_index d
       | None => index
       end.
Proof.
  set (db1 := exec (SetAddress address index internal "") db).
  assert (Hrun : AddAddress address index internal db =
    match GetAllAddressData db1 with
    | (Ok all, db2) =>
        (Ok true,
         if IsMyAddress all address then db2
         else with_addr_cache
                (Some (<[address := mkAddressData address index internal
                                      false]>
                         (default ∅ (addr_cache db2)))) db2)
    | (Throw e, db2) => (Throw e, db2)
    end).
  { unfold AddAddress.
    rewrite (bind_Ok _ _ db tt db1) by done.
    unfold IsMyAddressM, bind.
    destruct (GetAllAddressData db1) as [[all|e] db2]; [|done].
    cbn [ret]. by destruct (IsMyAddress all address). }
  unfold result, exec. rewrite Hrun. clear Hrun.
  pose proof (GetAllAddressData_index_view db1) as Hview.
  unfold result, exec in Hview.
  destruct (GetAllAddressData db1) as [[all|e] db2]; [|done].
  destruct (Hview all eq_refl) as (Hiv & -> & _). clear Hview.
  cbn [fst snd] in *. intros _.
  unfold IsMyAddress. unfold index_view in Hiv.
  destruct (addr_cache db2) as [cache|] eqn:Hcache; [|done].
  injection Hiv as Hiv.
  assert (Hix : ad_index <$> cache !! address
                = ad_index <$> address_view db1 !! address).
  { by rewrite <- !lookup_fmap, Hiv. }
  unfold GetAddressIndex, bind.
  destruct (address_view db1 !! address) as [d|] eqn:Hd.
  - rewrite bool_decide_eq_true_2 by done.
    rewrite (GetAllAddressData_cached db2 cache) by done. cbn [ret fst].
    destruct (cache !! address) as [d'|]; [|done].
    by injection Hix as ->.
  - rewrite bool_decide_eq_false_2 by (by intros [? ?]).
    erewrite GetAllAddressData_cached; [|by cbn [with_addr_cache addr_cache]].
    cbn [ret fst default]. by rewrite lookup_insert_eq.
Qed.

(** Witness of X13. *)
Lemma AddAddress_keeps_known_index_witness :
  result (GetAddressIndex "ext1")
    (exec (AddAddress "ext1" 5 false) demo_known_db) = Ok 1 ∧
  result (GetAddressIndex "other")
    (exec (AddAddress "other" 5 false) demo_known_db) = Ok 5.
Proof.
  split.
  - by rewrite (AddAddress_keeps_known_index "ext1" 5 false demo_known_db).
  - by rewrite (AddAddress_keeps_known_index "other" 5 false demo_known_db).
Defined.

(** ** Coin ids *)

Lemma pretty_N_char_not_colon (n : N) :
  Ascii.eqb (pretty_N_char n) COLON = false.
Proof.
  destruct n as [|p]; [done|].
  do 4 (destruct p as [p|p|]; try done).
Qed.

Lemma pretty_N_go_no_colon (x : N) (s : string) :
  has_char COLON (pretty_N_go x s) = has_char COLON s.
Proof.
  revert s. induction (N.lt_wf_0 x) as [x _ IH]; intros s.
  destruct (decide (0 < x)%N) as [Hx|Hx].
  - rewrite pretty_N_go_step by done.
    rewrite IH by (by apply N.div_lt). cbn [has_char].
    by rewrite pretty_N_char_not_colon.
  - assert (x = 0%N) as -> by lia. by rewrite pretty_N_go_0.
Qed.

Lemma pretty_Z_no_colon (z : Z) : has_char COLON (pretty z) = false.
Proof.
  destruct z as [|p|p]; [done|..].
  - change (pretty (Z.pos p)) with (pretty_N_go (N.pos p) "").
    by rewrite pretty_N_go_no_colon.
  - change (pretty (Z.neg p)) with ("-" +:+ pretty_N_go (N.pos p) "").
    rewrite append_cons. cbn [has_char].
    change ("" +:+ ?s) with s. by rewrite pretty_N_go_no_colon.
Qed.

Lemma has_char_middle (c : Ascii.ascii) (a b : string) :
  has_char c (a +:+ String c b) = true.
Proof.
  induction a as [|x a IH].
  - change ("" +:+ String c b) with (String c b). cbn [has_char].
    by rewrite Ascii.eqb_refl.
  - rewrite append_cons. cbn [has_char]. rewrite IH. apply orb_true_r.
Qed.

Lemma append_separator_inj (c : Ascii.ascii) (t1 t2 p1 p2 : string) :
  has_char c p1 = false → has_char c p2 = false →
  t1 +:+ String c p1 = t2 +:+ String c p2 → t1 = t2 ∧ p1 = p2.
Proof.
  intros Hp1 Hp2. revert t2. induction t1 as [|x t1 IH]; intros [|y t2].
  - by intros [= ->].
  - change ("" +:+ String c p1) with (String c p1). rewrite append_cons.
    intros [= <- ->]. by rewrite has_char_middle in Hp1.
  - change ("" +:+ String c p2) with (String c p2). rewrite append_cons.
    intros [= -> <-]. by rewrite has_char_middle in Hp2.
  - rewrite !append_cons. intros [= -> Heq].
    by destruct (IH _ Heq) as [-> ->].
Qed.

Lemma CoinId_eq (tx_id1 tx_id2 : string) (vout1 vout2 : Z) :
  CoinId tx_id1 vout1 = CoinId tx_id2 vout2 →
  tx_id1 = tx_id2 ∧ vout1 = vout2.
Proof.
  unfold CoinId. intros Heq.
  apply (append_separator_inj COLON) in Heq as [-> Hp];
    [|apply pretty_Z_no_colon..].
  split; [done|]. by apply (inj pretty).
Qed.

(** X14.  Coin ids are unambiguous: two outputs have the same coin id only
    when they have the same transaction id and the same output number,
    whatever characters the transaction ids hold. *)
Theorem CoinId_inj (tx_id1 tx_id2 : string) (vout1 vout2 : Z) :
  CoinId tx_id1 vout1 = CoinId tx_id2 vout2 →
  tx_id1 = tx_id2 ∧ vout1 = vout2.
Proof. apply CoinId_eq. Qed.

(** Witness of X14. *)
Lemma CoinId_inj_witness :
  CoinId "a:1" 2 = "a:1:2" ∧ ("a:1" = "a:1" ∧ 2 = 2).
Proof. split; [done|]. by apply CoinId_inj. Defined.

(** ** Soundness of the coin ledger *)

Section CoinSoundness.
Variable all : gmap string AddressData.
Variable transactions : list Transaction.
Variable tx_map : gmap string Transaction.
Variable used_by : gmap string string.
Hypothesis tx_map_listed :
  ∀ id tx, tx_map !! id = Some tx → tx ∈ transactions ∧ get_txid tx = id.


Lemma touch_sound (f : UnspentOutput → UnspentOutput) (id : string)
    (coins : gmap string UnspentOutput) :
  (∀ c, utxo_txid (f c) = utxo_txid c ∧ utxo_vout (f c) = utxo_vout c ∧
        utxo_address (f c) = utxo_address c ∧
        utxo_amount (f c) = utxo_amount c) →
  is_Some (coins !! id) → coins_sound all transactions coins →
  coins_sound all transactions (<[id := f (coin_at coins id)]> coins) ∧
  is_Some (<[id := f (coin_at coins id)]> coins !! id).
Proof.
  intros Hf [c Hc] Hs. split; [|by rewrite lookup_insert_eq].
  apply map_Forall_insert_2; [|done].
  unfold coin_at. rewrite Hc. cbn [from_option Datatypes.id].
  destruct (Hs id c Hc) as (Hid & Hmine & Htx).
  destruct (Hf c) as (H1 & H2 & H3 & H4).
  unfold coin_sound. by rewrite H1, H2, H3, H4.
Qed.

Lemma set_status_sound (id : string) (status : CoinStatus.t)
    (coins : gmap string UnspentOutput) :
  is_Some (coins !! id) → coins_sound all transactions coins →
  coins_sound all transactions (set_status id status coins) ∧
  is_Some (set_status id status coins !! id).
Proof.
  intros Hin Hs. unfold set_status.
  destruct (CoinStatus.lt _ _).
  - by apply (touch_sound (with_status status)).
  - by apply (touch_sound (fun c => c)).
Qed.

Lemma origin_sound (id txid address : string)
    (vout amount height blocktime schedule_time : Z) (tx : Transaction)
    (coins : gmap string UnspentOutput) :
  id = CoinId txid vout → IsMyAddress all address = true →
  tx ∈ transactions → get_txid tx = txid →
  output_at (get_outputs tx) vout = (address, amount) →
  coins_sound all transactions coins →
  coins_sound all transactions (<[id := with_origin txid vout address amount height blocktime
                   schedule_time (coin_at coins id)]> coins).
Proof.
  intros Hid Hmine Htx Htxid Hout Hs.
  apply map_Forall_insert_2; [|done].
  split; [done|]. split; [done|]. by exists tx.
Qed.

Lemma spend_input_sound (tx : Transaction) (input : TxInput)
    (coins : gmap string UnspentOutput) :
  coins_sound all transactions coins → coins_sound all transactions (spend_input all tx_map tx coins input).
Proof.
  intros Hs. unfold spend_input.
  destruct (tx_map !! input.1) as [prev_tx|] eqn:Hprev; [|done].
  destruct (IsMyAddress all _) eqn:Hmine; [|done]. cbn [negb].
  destruct (tx_map_listed _ _ Hprev) as [Hin Hid].
  set (out := output_at (get_outputs prev_tx) input.2) in *.
  set (id := CoinId input.1 input.2).
  set (coins1 := <[id := _]> coins).
  assert (Hs1 : coins_sound all transactions coins1 ∧ is_Some (coins1 !! id)).
  { split; [|by unfold coins1; rewrite lookup_insert_eq].
    apply (origin_sound id input.1 out.1 input.2 out.2 _ _ _ prev_tx);
      try done. subst out. by destruct (output_at _ _). }
  destruct Hs1 as [Hs1 Hin1].
  set (coins2 := match spend_status (get_status tx) with
                 | Some s => set_status id s coins1
                 | None => coins1
                 end).
  assert (Hs2 : coins_sound all transactions coins2 ∧ is_Some (coins2 !! id)).
  { unfold coins2. destruct (spend_status _); [|done].
    by apply set_status_sound. }
  destruct Hs2 as [Hs2 Hin2].
  by destruct (touch_sound
                 (with_memo_change (get_memo prev_tx)
                    (IsMyChange all out.1)) id coins2) as [Hs3 _].
Qed.

Lemma receive_output_sound (tx : Transaction) (vo : Z * TxOutput)
    (coins : gmap string UnspentOutput) :
  tx ∈ transactions → vo ∈ numbered_outputs tx →
  coins_sound all transactions coins → coins_sound all transactions (receive_output all tx coins vo).
Proof.
  intros Htx Hvo Hs. unfold receive_output.
  destruct (IsMyAddress all _) eqn:Hmine; [|done]. cbn [negb].
  set (id := CoinId (get_txid tx) vo.1).
  set (coins1 := <[id := _]> coins).
  assert (Hs1 : coins_sound all transactions coins1 ∧ is_Some (coins1 !! id)).
  { split; [|by unfold coins1; rewrite lookup_insert_eq].
    apply (origin_sound id (get_txid tx) vo.2.1 vo.1 vo.2.2 _ _ _ tx);
      try done.
    unfold numbered_outputs in Hvo.
    apply elem_of_lookup_imap in Hvo as (i & o & -> & Ho).
    cbn [fst snd]. unfold output_at.
    destruct (Z.ltb_spec (Z.of_nat i) 0); [lia|].
    rewrite Nat2Z.id. setoid_rewrite Ho. by destruct o. }
  destruct Hs1 as [Hs1 Hin1].
  destruct (set_status_sound id (receive_status (get_height tx)) coins1)
    as [Hs2 Hin2]; [done..|].
  by destruct (touch_sound
                 (with_memo_change (get_memo tx) (IsMyChange all vo.2.1))
                 id _ ltac:(done) Hin2 Hs2) as [Hs3 _].
Qed.

Lemma replay_transaction_sound (tx : Transaction)
    (coins : gmap string UnspentOutput) :
  tx ∈ transactions →
  coins_sound all transactions coins → coins_sound all transactions (replay_transaction all tx_map used_by coins tx).
Proof.
  intros Htx Hs. unfold replay_transaction.
  destruct (skipped_status tx); [done|].
  destruct (shadowed used_by tx); [done|].
  assert (Hspend : coins_sound all transactions (fold_left (spend_input all tx_map tx)
                            (get_inputs tx) coins)).
  { generalize (get_inputs tx). intros inputs. revert coins Hs.
    induction inputs as [|input inputs IH]; intros coins Hs; [done|].
    apply IH. by apply spend_input_sound. }
  revert Hspend. generalize (fold_left (spend_input all tx_map tx)
                               (get_inputs tx) coins).
  assert (Hall : ∀ vo, vo ∈ numbered_outputs tx → vo ∈ numbered_outputs tx)
    by done.
  revert Hall. generalize (numbered_outputs tx) at 1 3.
  intros vos. induction vos as [|vo vos IH]; intros Hall coins' Hs'; [done|].
  apply IH; [intros; apply Hall; by apply list_elem_of_further|].
  apply receive_output_sound; [done| |done].
  apply Hall, list_elem_of_here.
Qed.

End CoinSoundness.

Lemma GetCoinsFromTransactions_coins_sound (all : gmap string AddressData)
    (transactions : list Transaction) :
  coins_sound all transactions (GetCoinsFromTransactions all transactions).
Proof.
  unfold GetCoinsFromTransactions.
  destruct (index_transactions transactions) as [tx_map used_by] eqn:Hindex.
  assert (Hlisted : ∀ id tx, tx_map !! id = Some tx →
                      tx ∈ transactions ∧ get_txid tx = id).
  { intros id tx Htx.
    replace tx_map with (index_transactions transactions).1
      in Htx by by rewrite Hindex.
    by apply tx_map_sound in Htx as [?|?]. }
  assert (Hsub : ∀ tx, tx ∈ transactions → tx ∈ transactions) by done.
  revert Hsub. generalize transactions at 1 4. intros l.
  assert (Hempty : coins_sound all transactions ∅)
    by apply map_Forall_empty.
  revert Hempty. generalize (∅ : gmap string UnspentOutput).
  induction l as [|tx l IH]; intros coins Hs Hsub; [done|].
  apply IH; [|intros; apply Hsub; by apply list_elem_of_further].
  apply (replay_transaction_sound all transactions tx_map used_by Hlisted);
    [apply Hsub, list_elem_of_here|done].
Qed.

(** X15.  The coin ledger invents no coin: every coin that
    [GetCoinsFromTransactions] returns is an output of one of the
    transactions it was given, pays an address of the wallet, carries the
    address and the amount of that output, and is filed under the coin id
    of its transaction id and output number. *)
Theorem GetCoinsFromTransactions_sound (all : gmap string AddressData)
    (transactions : list Transaction) :
  coins_sound all transactions (GetCoinsFromTransactions all transactions).
Proof. apply GetCoinsFromTransactions_coins_sound. Qed.

(** ** Balance of one address *)

Lemma sum_of_add {A} (f g : A → Z) (l : list A) :
  sum_of (fun x => f x + g x) l = sum_of f l + sum_of g l.
Proof. induction l as [|x l IH]; cbn [sum_of] in *; lia. Qed.

Lemma sum_of_ext {A} (f g : A → Z) (l : list A) :
  (∀ x, x ∈ l → f x = g x) → sum_of f l = sum_of g l.
Proof.
  induction l as [|x l IH]; intros Hfg; [done|]. cbn [sum_of].
  rewrite (Hfg x) by apply list_elem_of_here.
  rewrite IH; [done|].
  intros y Hy. apply Hfg. by apply list_elem_of_further.
Qed.

Lemma sum_of_swap {A B} (f : A → B → Z) (la : list A) (lb : list B) :
  sum_of (fun a => sum_of (f a) lb) la
  = sum_of (fun b => sum_of (fun a => f a b) la) lb.
Proof.
  induction la as [|a la IH]; cbn [sum_of].
  - induction lb as [|b lb IHb]; cbn [sum_of] in *; lia.
  - rewrite IH.
    by rewrite <- sum_of_add.
Qed.

Lemma fold_left_sum_of {A} (step : Z → A → Z) (l : list A) (start : Z) :
  (∀ b x, step b x = b + step 0 x) →
  fold_left step l start = start + sum_of (step 0) l.
Proof.
  intros Hstep. revert start.
  induction l as [|x l IH]; intros start; cbn [fold_left sum_of];
    [lia|].
  rewrite IH, Hstep. lia.
Qed.

(** Whether a coin counts for the balance of its address. *)
Lemma GetAddressBalance_step_0 (address : string) (coin : UnspentOutput) :
  GetAddressBalance_step address 0 coin
  = if String.eqb (utxo_address coin) address
    then GetAddressBalance_step (utxo_address coin) 0 coin else 0.
Proof.
  unfold GetAddressBalance_step. rewrite String.eqb_refl.
  by repeat case_match.
Qed.

Lemma address_share_absent (coin : UnspentOutput) (addresses : list string) :
  utxo_address coin ∉ addresses →
  sum_of (fun a => GetAddressBalance_step a 0 coin) addresses = 0.
Proof.
  induction addresses as [|a l IH]; intros Hnin; [done|].
  cbn [sum_of]. rewrite IH.
  - rewrite GetAddressBalance_step_0.
    destruct (String.eqb_spec (utxo_address coin) a) as [<-|]; [|done].
    exfalso. apply Hnin, list_elem_of_here.
  - intros Hin. apply Hnin. by apply list_elem_of_further.
Qed.

Lemma address_share_once (coin : UnspentOutput) (addresses : list string) :
  NoDup addresses → utxo_address coin ∈ addresses →
  sum_of (fun a => GetAddressBalance_step a 0 coin) addresses
  = GetAddressBalance_step (utxo_address coin) 0 coin.
Proof.
  induction 1 as [|a l Hnin Hnd IH]; intros Hin; [by apply elem_of_nil in Hin|].
  cbn [sum_of].
  rewrite (GetAddressBalance_step_0 a).
  destruct (String.eqb_spec (utxo_address coin) a) as [Heq|Hne].
  - rewrite address_share_absent; [lia|]. by rewrite Heq.
  - rewrite IH; [lia|]. apply elem_of_cons in Hin as [?|?]; done.
Qed.

Lemma GetBalance_step_split (balance : Z) (coin : UnspentOutput) :
  GetBalance_step false balance coin
  = balance + (GetAddressBalance_step (utxo_address coin) 0 coin
               + pending_change coin).
Proof.
  unfold GetBalance_step, GetAddressBalance_step, pending_change.
  rewrite String.eqb_refl.
  destruct (utxo_status coin), (utxo_change coin);
    repeat case_bool_decide; simplify_eq; cbn; lia.
Qed.

Lemma GetCoins_addresses `{Wallet} (db : WalletDb)
    (coins : list UnspentOutput) (coin : UnspentOutput) :
  GetCoins db = Ok coins → coin ∈ coins →
  utxo_address coin ∈ (map_to_list (address_view db)).*1.
Proof.
  unfold GetCoins. destruct (GetTransactions db) as [txs|e]; [|done].
  intros [= <-] Hin.
  apply list_elem_of_fmap in Hin as ([id c] & -> & Hin).
  apply elem_of_map_to_list in Hin.
  destruct (GetCoinsFromTransactions_coins_sound (address_view db) txs
              id c Hin) as (_ & Hmine & _).
  unfold IsMyAddress in Hmine. apply bool_decide_eq_true in Hmine as [d Hd].
  apply list_elem_of_fmap. exists (utxo_address c, d).
  split; [done|]. by apply elem_of_map_to_list.
Qed.

(** X16.  The balance that leaves the mempool out is made of the address
    balances: it is the sum of [GetAddressBalance] over the addresses of
    the wallet's address map, plus the change that is not confirmed yet,
    which [GetBalance] counts and [GetAddressBalance] does not. *)
Theorem GetBalance_by_address `{Wallet} (db : WalletDb)
    (coins : list UnspentOutput) :
  GetCoins db = Ok coins →
  (∀ address,
     GetAddressBalance address db = Ok (address_balance_of address coins)) ∧
  GetBalance false db
  = Ok (sum_of (fun address => address_balance_of address coins)
          (map_to_list (address_view db)).*1
        + sum_of pending_change coins).
Proof.
  intros Hcoins. split.
  { intros address. unfold GetAddressBalance. by rewrite Hcoins. }
  unfold GetBalance. rewrite Hcoins. f_equal. unfold balance_of.
  rewrite (fold_left_sum_of (GetBalance_step false))
    by (intros; rewrite GetBalance_step_split,
          (GetBalance_step_split 0); lia).
  rewrite (sum_of_ext _ (fun c => GetAddressBalance_step (utxo_address c) 0 c
                                  + pending_change c))
    by (intros; rewrite GetBalance_step_split; lia).
  rewrite sum_of_add, Z.add_0_l. f_equal.
  rewrite (sum_of_ext (fun address => address_balance_of address coins)
             (fun address =>
                sum_of (GetAddressBalance_step address 0) coins)).
  2: { intros address _. unfold address_balance_of.
       rewrite fold_left_sum_of; [lia|].
       intros b x. unfold GetAddressBalance_step. repeat case_match; lia. }
  rewrite sum_of_swap. apply sum_of_ext. intros coin Hin.
  symmetry. apply address_share_once.
  - apply NoDup_fst_map_to_list.
  - by apply (GetCoins_addresses db coins).
Qed.

(** Witness of X16. *)
Lemma GetBalance_by_address_witness :
  ∃ coins, GetCoins demo_balance_db = Ok coins ∧
    GetBalance false demo_balance_db
    = Ok (sum_of (fun address => address_balance_of address coins)
            (map_to_list (address_view demo_balance_db)).*1
          + sum_of pending_change coins).
Proof.
  destruct (GetCoins demo_balance_db) as [coins|e] eqn:Hcoins;
    [|by vm_compute in Hcoins].
  exists coins. split; [done|].
  apply (GetBalance_by_address demo_balance_db coins Hcoins).
Defined.

(** ** Coin control *)

(** X17.  Locks and memos of coins are independent and per coin: after
    [LockCoin] the coin is locked and after [UnlockCoin] it is not, both
    keep the memo of the coin, [UpdateCoinMemo] keeps the lock, and none
    of the three changes the lock or the memo of another output. *)
Theorem coin_lock_and_memo (tx_id : string) (vout : Z) (memo : string)
    (db : CoinControl) :
  IsLock tx_id vout (LockCoin tx_id vout db).2 = true ∧
  IsLock tx_id vout (UnlockCoin tx_id vout db).2 = false ∧
  IsLock tx_id vout (UpdateCoinMemo tx_id vout memo db).2
    = IsLock tx_id vout db ∧
  CI_MEMO <$> COININFO (UpdateCoinMemo tx_id vout memo db).2
                !! CoinId tx_id vout = Some memo ∧
  (∀ locked,
     CI_MEMO <$> COININFO (set_locked locked tx_id vout db).2
                   !! CoinId tx_id vout
     = Some (default "" (CI_MEMO <$> COININFO db !! CoinId tx_id vout))) ∧
  (∀ tx_id' vout' locked,
     (tx_id', vout') ≠ (tx_id, vout) →
     COININFO (set_locked locked tx_id vout db).2 !! CoinId tx_id' vout'
       = COININFO db !! CoinId tx_id' vout' ∧
     COININFO (UpdateCoinMemo tx_id vout memo db).2 !! CoinId tx_id' vout'
       = COININFO db !! CoinId tx_id' vout').
Proof.
  unfold LockCoin, UnlockCoin, IsLock, set_locked, UpdateCoinMemo.
  cbn [snd with_COININFO COININFO]. rewrite !lookup_insert_eq.
  repeat split.
  - by destruct (COININFO db !! CoinId tx_id vout).
  - by destruct (COININFO db !! CoinId tx_id vout).
  - by destruct (COININFO db !! CoinId tx_id vout).
  - by destruct (COININFO db !! CoinId tx_id vout).
  - intros locked. rewrite lookup_insert_eq.
    by destruct (COININFO db !! CoinId tx_id vout).
  - rewrite lookup_insert_ne; [done|].
    intros Heq. apply CoinId_eq in Heq as [-> ->]. done.
  - rewrite lookup_insert_ne; [done|].
    intros Heq. apply CoinId_eq in Heq as [-> ->]. done.
Qed.

Lemma elem_of_GetCoinByTag (coin : string) (tag_id : Z) (db : CoinControl) :
  coin ∈ GetCoinByTag tag_id db ↔ (coin, tag_id) ∈ COINTAGS db.
Proof.
  unfold GetCoinByTag. rewrite list_elem_of_fmap. split.
  - intros ([c t] & -> & Hin). apply elem_of_elements, elem_of_filter in Hin.
    cbn in *. by destruct Hin as [-> ?].
  - intros Hin. exists (coin, tag_id). split; [done|].
    by apply elem_of_elements, elem_of_filter.
Qed.

Lemma elem_of_GetAddedTags (tx_id : string) (vout tag_id : Z)
    (db : CoinControl) :
  tag_id ∈ GetAddedTags tx_id vout db
  ↔ (CoinId tx_id vout, tag_id) ∈ COINTAGS db.
Proof.
  unfold GetAddedTags. rewrite list_elem_of_fmap. split.
  - intros ([c t] & -> & Hin). apply elem_of_elements, elem_of_filter in Hin.
    cbn in *. by destruct Hin as [-> ?].
  - intros Hin. exists (CoinId tx_id vout, tag_id). split; [done|].
    by apply elem_of_elements, elem_of_filter.
Qed.


(** X19.  Deleting a tag deletes its memberships: [DeleteCoinTag] returns
    whether the tag had a row, and afterwards the tag has no row, no coin
    and is among the tags of no output, every other tag has the coins it
    had, and no membership of a tag without a row has been created. *)
Theorem DeleteCoinTag_cascades (tag_id : Z) (db : CoinControl) :
  let deleted := DeleteCoinTag tag_id db in
  deleted.1 = bool_decide (is_Some (TAGS db !! tag_id)) ∧
  TAGS deleted.2 = delete tag_id (TAGS db) ∧
  GetCoinByTag tag_id deleted.2 = [] ∧
  (∀ tx_id vout, tag_id ∉ GetAddedTags tx_id vout deleted.2) ∧
  (∀ tag_id' coin,
     tag_id' ≠ tag_id →
     coin ∈ GetCoinByTag tag_id' deleted.2 ↔ coin ∈ GetCoinByTag tag_id' db) ∧
  (memberships_consistent db → memberships_consistent deleted.2).
Proof.
  cbv zeta. unfold DeleteCoinTag. cbn [fst snd].
  split; [done|]. split; [done|]. split.
  { apply elem_of_nil_inv. intros coin Hin.
    apply elem_of_GetCoinByTag in Hin. cbn in Hin.
    apply elem_of_filter in Hin as [Hne _]. by apply Hne. }
  split.
  { intros tx_id vout Hin. apply elem_of_GetAddedTags in Hin. cbn in Hin.
    apply elem_of_filter in Hin as [Hne _]. by apply Hne. }
  split.
  { intros tag_id' coin Hne. rewrite !elem_of_GetCoinByTag. cbn.
    rewrite elem_of_filter. cbn. tauto. }
  intros [Htags Hcols]. split; [|done].
  intros [coin t] Hin. cbn in *. apply elem_of_filter in Hin as [Hne Hin].
  cbn in Hne. rewrite lookup_delete_ne by done. by apply (Htags (coin, t)).
Qed.

Lemma next_rowid_fresh {A} (table : gmap Z A) :
  table !! next_rowid table = None.
Proof.
  apply eq_None_not_Some. intros [r Hr].
  assert (Hin : next_rowid table ∈ (map_to_list table).*1).
  { apply list_elem_of_fmap. exists (next_rowid table, r).
    split; [done|]. by apply elem_of_map_to_list. }
  assert (Hle : ∀ x, x ∈ (map_to_list table).*1 → x < next_rowid table).
  { unfold next_rowid. destruct ((map_to_list table).*1) as [|i l].
    - by intros x ?%elem_of_nil.
    - intros x Hx%foldr_max_ge. lia. }
  apply Hle in Hin. lia.
Qed.

Lemma name_taken_spec {A} (name_of : A → string) (name : string)
    (table : gmap Z A) :
  name_taken name_of name table = true
  ↔ ∃ i r, table !! i = Some r ∧ name_of r = name.
Proof.
  unfold name_taken. rewrite bool_decide_eq_true, Exists_exists. split.
  - intros ([i r] & Hin & Hname). apply elem_of_map_to_list in Hin.
    by exists i, r.
  - intros (i & r & Hin & Hname). exists (i, r).
    split; [by apply elem_of_map_to_list|done].
Qed.

Lemma to_int_is_int (v : Z) : is_int v → to_int v = v.
Proof.
  unfold is_int, to_int. intros Hv.
  rewrite Z.mod_small by lia. lia.
Qed.

Lemma is_int_to_int (v : Z) : is_int (to_int v).
Proof.
  unfold is_int, to_int.
  pose proof (Z.mod_pos_bound (v + 2147483648) 4294967296). lia.
Qed.

Lemma next_rowid_bound {A} (table : gmap Z A) (lo hi : Z) :
  lo ≤ 0 → 0 ≤ hi →
  (∀ i, is_Some (table !! i) → lo ≤ i ≤ hi) →
  lo + 1 ≤ next_rowid table ≤ hi + 1.
Proof.
  intros Hlo Hhi Hkeys.
  assert (Hin : ∀ i, i ∈ (map_to_list table).*1 → lo ≤ i ≤ hi).
  { intros i ([i' r] & -> & Hir%elem_of_map_to_list)%list_elem_of_fmap.
    apply Hkeys. by exists r. }
  unfold next_rowid. destruct ((map_to_list table).*1) as [|i l]; [lia|].
  assert (Hmax : lo ≤ foldr Z.max i l ≤ hi).
  { pose proof (Hin i (list_elem_of_here _ _)) as Hi.
    assert (Hl : ∀ x, x ∈ l → lo ≤ x ≤ hi)
      by (intros x Hx; by apply Hin, list_elem_of_further).
    clear Hin. induction l as [|x l IH]; [done|]. cbn.
    pose proof (Hl x (list_elem_of_here _ _)).
    assert (lo ≤ foldr Z.max i l ≤ hi)
      by (apply IH; intros y Hy; by apply Hl, list_elem_of_further).
    lia. }
  lia.
Qed.

(** X20.  [CreateCoinTag] either throws TAG_EXISTS, exactly when a tag of
    the name is there, and then changes nothing; or it adds the tag under
    a row id that no tag had, leaving every other tag and all memberships,
    and returns that row id as an [int]: its low 32 bits, which are the
    row id itself when every id of the table is an [int] below
    2147483647.  Names stay unique.  The new tag has no coin provided no
    membership named a missing tag before, which [AddToCoinTag] does not
    check. *)
Theorem CreateCoinTag_fresh (name color : string) (db : CoinControl) :
  match CreateCoinTag name color db with
  | (Raises e, db') =>
      e = TAG_EXISTS ∧ db' = db ∧
      ∃ id row, TAGS db !! id = Some row ∧ TAG_NAME row = name
  | (Returns id, db') =>
      ∃ rowid,
        id = sqlite3_column_int rowid ∧ is_int id ∧
        ((∀ i, is_Some (TAGS db !! i) → is_int i ∧ i ≠ 2147483647) →
         id = rowid) ∧
        TAGS db !! rowid = None ∧
        (∀ i row, TAGS db !! i = Some row → TAG_NAME row ≠ name) ∧
        TAGS db' = <[rowid := mkTagRow name color]> (TAGS db) ∧
        COINTAGS db' = COINTAGS db ∧
        (names_unique db → names_unique db') ∧
        (memberships_consistent db →
         memberships_consistent db' ∧ GetCoinByTag rowid db' = [])
  end.
Proof.
  unfold CreateCoinTag.
  destruct (name_taken TAG_NAME name (TAGS db)) eqn:Htaken.
  { split; [done|]. split; [done|]. by apply name_taken_spec. }
  assert (Hfree : ∀ i row, TAGS db !! i = Some row → TAG_NAME row ≠ name).
  { intros i row Hrow Hname.
    assert (name_taken TAG_NAME name (TAGS db) = true) as Ht
      by (apply name_taken_spec; eauto).
    congruence. }
  pose proof (next_rowid_fresh (TAGS db)) as Hfresh.
  exists (next_rowid (TAGS db)).
  split; [done|]. split; [apply is_int_to_int|]. split.
  { intros Hids. apply to_int_is_int.
    pose proof (next_rowid_bound (TAGS db) (-2147483648) 2147483646) as Hb.
    unfold is_int in *.
    destruct Hb as [? ?]; [lia|lia| |lia].
    intros i Hi. destruct (Hids i Hi). lia. }
  split; [done|]. split; [done|]. split; [done|]. split; [done|].
  split.
  - intros [Htags Hcols]. split; [|done].
    intros i j r1 r2. cbn [with_TAGS TAGS].
    destruct (decide (i = next_rowid (TAGS db))) as [->|Hi],
             (decide (j = next_rowid (TAGS db))) as [->|Hj]; [done|..].
    + rewrite lookup_insert_eq, lookup_insert_ne by done.
      intros [= <-] Hr2 Hname. by destruct (Hfree j r2 Hr2).
    + rewrite lookup_insert_eq, lookup_insert_ne by done.
      intros Hr1 [= <-] Hname. by destruct (Hfree i r1 Hr1).
    + rewrite !lookup_insert_ne by done. apply Htags.
  - intros [Htags Hcols]. split.
    + split; [|done]. intros ct Hin. cbn in *.
      destruct (decide (ct.2 = next_rowid (TAGS db))) as [->|Hne];
        [by rewrite lookup_insert_eq|].
      rewrite lookup_insert_ne by done. by apply Htags.
    + apply elem_of_nil_inv. intros coin Hin.
      apply elem_of_GetCoinByTag in Hin. cbn in Hin.
      apply Htags in Hin as [row Hrow]. cbn in Hrow. congruence.
Qed.

(** *** Export and import *)

Lemma fold_left_insert_union {K V} `{Countable K} (l : list (K * V))
    (t : gmap K V) :
  NoDup l.*1 →
  fold_left (fun acc (kv : K * V) => <[kv.1 := kv.2]> acc) l t
  = list_to_map l ∪ t.
Proof.
  revert t. induction l as [|[k v] l IH]; intros t Hnd; cbn [fold_left].
  - by rewrite list_to_map_nil, (left_id_L ∅ (∪)).
  - rewrite fmap_cons in Hnd. apply NoDup_cons in Hnd as [Hk Hnd].
    rewrite IH by done. cbn [fst snd list_to_map foldr].
    rewrite <- insert_union_l, <- insert_union_r; [done|].
    by apply not_elem_of_list_to_map_1.
Qed.

Lemma fold_left_insert_map_to_list {K V} `{Countable K} (m : gmap K V) :
  fold_left (fun acc (kv : K * V) => <[kv.1 := kv.2]> acc) (map_to_list m) ∅
  = m.
Proof.
  rewrite fold_left_insert_union by apply NoDup_fst_map_to_list.
  by rewrite list_to_map_to_list, (right_id_L ∅ (∪)).
Qed.

Lemma fold_left_fmap_ext {A B C} (f : C → A → C) (g : C → B → C)
    (h : B → A) (l : list B) (start : C) :
  (∀ acc x, f acc (h x) = g acc x) →
  fold_left f (h <$> l) start = fold_left g l start.
Proof.
  intros Hfg. revert start.
  induction l as [|x l IH]; intros start; [done|].
  rewrite fmap_cons. cbn [fold_left]. by rewrite Hfg, IH.
Qed.

(** The coins that a group exports for one id. *)
Lemma NoDup_members_of (id : Z) (members : gset (string * Z)) :
  NoDup (elements (filter (fun m => m.2 = id) members)).*1.
Proof.
  apply NoDup_fmap_2_strong; [|apply NoDup_elements].
  intros [c1 t1] [c2 t2] [Ht1 _]%elem_of_elements%elem_of_filter
    [Ht2 _]%elem_of_elements%elem_of_filter Hc.
  cbn in *. by subst.
Qed.

Lemma insert_members_fresh (id : Z) (coins : list string)
    (members : gset (string * Z)) :
  NoDup coins → (∀ c, c ∈ coins → (c, id) ∉ members) →
  insert_members id coins members
  = (Returns tt, list_to_set ((fun c => (c, id)) <$> coins) ∪ members).
Proof.
  revert members. induction coins as [|c coins IH]; intros members Hnd Hnew.
  - cbn. by rewrite (left_id_L ∅ (∪)).
  - apply NoDup_cons in Hnd as [Hc Hnd]. cbn [insert_members].
    rewrite bool_decide_eq_false_2 by (apply Hnew, list_elem_of_here).
    rewrite IH; [|done|].
    + f_equal. rewrite fmap_cons, list_to_set_cons.
      apply set_eq. intros x. rewrite !elem_of_union. tauto.
    + intros c' Hc'. rewrite elem_of_union, elem_of_singleton.
      intros [[= ->]|Hin]; [done|].
      by apply (Hnew c'); [apply list_elem_of_further|].
Qed.

Section ImportGroup.
Context {R : Type} (name_of : R → string).
Variable table : gmap Z R.
Variable members : gset (string * Z).
Hypothesis names_differ :
  ∀ i j r1 r2, table !! i = Some r1 → table !! j = Some r2 →
    name_of r1 = name_of r2 → i = j.

Lemma import_group_rows (l : list (Z * R)) (t : gmap Z R) :
  NoDup l.*1 → (∀ i r, (i, r) ∈ l → table !! i = Some r) →
  t ⊆ table → (∀ i, i ∈ l.*1 → t !! i = None) →
  import_group name_of
    ((fun ir : Z * R =>
        (ir.1, ir.2,
         (elements (filter (fun m => m.2 = ir.1) members)).*1)) <$> l)
    t (with_row t members)
  = (Returns tt,
     (fold_left (fun acc (kv : Z * R) => <[kv.1 := kv.2]> acc) l t,
      with_row
        (fold_left (fun acc (kv : Z * R) => <[kv.1 := kv.2]> acc) l t)
        members)).
Proof.
  revert t. induction l as [|[i r] l IH]; intros t Hnd Hrows Hsub Hnew;
    [done|].
  rewrite fmap_cons in Hnd. apply NoDup_cons in Hnd as [Hi Hnd].
  rewrite fmap_cons. cbn [import_group fst snd fold_left].
  assert (Hir : table !! i = Some r) by apply Hrows, list_elem_of_here.
  assert (Hti : t !! i = None) by (apply Hnew; rewrite fmap_cons;
                                   apply list_elem_of_here).
  assert (Hname : name_taken name_of (name_of r) (delete i t) = false).
  { apply not_true_is_false. intros (j & r' & Hj & Hn)%name_taken_spec.
    apply lookup_delete_Some in Hj as [Hne Hj].
    apply Hne. symmetry. apply (names_differ j i r' r); [|done..].
    by eapply lookup_weaken. }
  rewrite Hname.
  rewrite insert_members_fresh.
  - assert (Hmem :
      list_to_set
        ((fun c => (c, i))
           <$> (elements (filter (fun m => m.2 = i) members)).*1)
      ∪ with_row t members = with_row (<[i := r]> t) members).
    { apply set_eq. intros [c k]. unfold with_row.
      rewrite elem_of_union, elem_of_list_to_set, list_elem_of_fmap,
        !elem_of_filter. cbn [snd]. split.
      - intros [(c' & [= -> ->] & Hc)|[Hk Hin]].
        + apply list_elem_of_fmap in Hc as ([c'' k'] & -> & Hin).
          apply elem_of_elements, elem_of_filter in Hin as [Hk Hin].
          cbn in *. subst. by rewrite lookup_insert_eq.
        + split; [|done]. destruct (decide (k = i)) as [->|Hne].
          * by rewrite lookup_insert_eq.
          * by rewrite lookup_insert_ne.
      - intros [Hk Hin]. destruct (decide (k = i)) as [->|Hne].
        + left. exists c. split; [done|]. apply list_elem_of_fmap.
          exists (c, i). split; [done|].
          by apply elem_of_elements, elem_of_filter.
        + right. by rewrite lookup_insert_ne in Hk. }
    rewrite Hmem. apply IH; [done|..].
    + intros j r' Hin. apply Hrows. by apply list_elem_of_further.
    + by apply insert_subseteq_l.
    + intros j Hj. rewrite lookup_insert_ne; [|by intros ->].
      apply Hnew. rewrite fmap_cons. by apply list_elem_of_further.
  - apply NoDup_members_of.
  - intros c _. unfold with_row. rewrite elem_of_filter. cbn [snd].
    rewrite Hti. by intros [[? ?] _].
Qed.

Lemma import_group_round_trip :
  import_group name_of
    ((fun ir : Z * R =>
        (ir.1, ir.2,
         (elements (filter (fun m => m.2 = ir.1) members)).*1))
       <$> map_to_list table)
    ∅ ∅
  = (Returns tt, (table, with_row table members)).
Proof.
  assert (Hempty : (∅ : gset (string * Z)) = with_row (∅ : gmap Z R) members).
  { apply set_eq. intros m. unfold with_row. rewrite elem_of_filter.
    rewrite lookup_empty. split; [set_solver|]. by intros [[? ?] _]. }
  rewrite Hempty at 1. rewrite import_group_rows.
  - by rewrite fold_left_insert_map_to_list.
  - apply NoDup_fst_map_to_list.
  - intros i r Hin. by apply elem_of_map_to_list.
  - apply map_empty_subseteq.
  - intros. apply lookup_empty.
Qed.

End ImportGroup.

Lemma GetCoinTags_plain (db : CoinControl) :
  store_plain db → GetCoinTags db = map_to_list (TAGS db).
Proof.
  intros (Htags & _). unfold GetCoinTags.
  rewrite <- (list_fmap_id (map_to_list (TAGS db))) at 2.
  apply list_fmap_ext. intros n [i [name color]] Hin.
  apply list_elem_of_lookup_2, elem_of_map_to_list in Hin.
  destruct (Htags i _ Hin) as (Hi & Hname & Hcolor). cbn in *.
  unfold sqlite3_column_int.
  by rewrite to_int_is_int, !c_str_plain by done.
Qed.

Lemma GetCoinCollections_plain (db : CoinControl) :
  store_plain db → GetCoinCollections db = map_to_list (COLLECTIONS db).
Proof.
  intros (_ & Hcols & _). unfold GetCoinCollections.
  rewrite <- (list_fmap_id (map_to_list (COLLECTIONS db))) at 2.
  apply list_fmap_ext. intros n [i [name add lock]] Hin.
  apply list_elem_of_lookup_2, elem_of_map_to_list in Hin.
  destruct (Hcols i _ Hin) as (Hi & Hname). cbn in *.
  unfold sqlite3_column_int.
  by rewrite to_int_is_int, c_str_plain by done.
Qed.

(** The import of the document of a plain store. *)
Lemma import_document_export (now : Z) (db db' : CoinControl) :
  names_unique db → store_plain db →
  import_document (export_document now db) db'
  = (Returns tt,
     mkCoinControl (COININFO db) (TAGS db)
       (with_row (TAGS db) (COINTAGS db)) (COLLECTIONS db)
       (with_row (COLLECTIONS db) (COINCOLLECTIONS db))).
Proof.
  intros [Htags Hcols] Hplain.
  pose proof Hplain as (Hptags & Hpcols & Hpinfo & _).
  unfold import_document, export_document.
  cbn [data_tags data_collections data_coininfo ClearCoinControlData
       TAGS COINTAGS COLLECTIONS COINCOLLECTIONS COININFO].
  rewrite GetCoinTags_plain, GetCoinCollections_plain by done.
  unfold GetCoinByTag, GetCoinInCollection.
  rewrite <- !list_fmap_compose.
  rewrite (list_fmap_ext _
             (fun ir : Z * TagRow =>
                (ir.1, ir.2,
                 (elements (filter (fun m => m.2 = ir.1) (COINTAGS db))).*1))
             (map_to_list (TAGS db))).
  2: { intros n [i [name color]] Hin.
       apply list_elem_of_lookup_2, elem_of_map_to_list in Hin.
       destruct (Hptags i _ Hin) as (Hi & _). cbn.
       by rewrite to_int_is_int. }
  rewrite (import_group_round_trip TAG_NAME (TAGS db) (COINTAGS db) Htags).
  rewrite (list_fmap_ext _
             (fun ir : Z * CollectionRow =>
                (ir.1, ir.2,
                 (elements (filter (fun m => m.2 = ir.1)
                              (COINCOLLECTIONS db))).*1))
             (map_to_list (COLLECTIONS db))).
  2: { intros n [i [name add lock]] Hin.
       apply list_elem_of_lookup_2, elem_of_map_to_list in Hin.
       destruct (Hpcols i _ Hin) as (Hi & _). cbn.
       by rewrite to_int_is_int. }
  rewrite (import_group_round_trip COLLECTION_NAME (COLLECTIONS db)
             (COINCOLLECTIONS db) Hcols).
  f_equal. f_equal. unfold import_coininfo.
  rewrite <- (fold_left_insert_map_to_list (COININFO db)) at 2.
  rewrite (list_fmap_ext _
             (fun cr : string * CoinInfoRow =>
                mkCoinInfoExport cr.1 (CI_MEMO cr.2) (CI_LOCKED cr.2))
             (map_to_list (COININFO db))).
  2: { intros n [coin [memo locked]] Hin.
       apply list_elem_of_lookup_2, elem_of_map_to_list in Hin.
       destruct (Hpinfo coin _ Hin) as (Hcoin & Hmemo & Hlocked). cbn in *.
       unfold sqlite3_column_int.
       by rewrite to_int_is_int, !c_str_plain by done. }
  assert (Hfold : ∀ (l : list (string * CoinInfoRow))
                     (start : gmap string CoinInfoRow),
    (∀ cr, cr ∈ l → is_int (CI_LOCKED cr.2)) →
    fold_left
      (fun (t : gmap string CoinInfoRow) i =>
         <[cie_coin i := mkCoinInfoRow (cie_memo i) (to_int (cie_locked i))]>
           t)
      ((fun cr : string * CoinInfoRow =>
          mkCoinInfoExport cr.1 (CI_MEMO cr.2) (CI_LOCKED cr.2)) <$> l)
      start
    = fold_left (fun acc (kv : string * CoinInfoRow) => <[kv.1 := kv.2]> acc)
        l start).
  { induction l as [|[coin [memo locked]] l IH]; intros start Hl; [done|].
    rewrite fmap_cons. cbn [fold_left]. cbn.
    rewrite to_int_is_int by apply (Hl (coin, mkCoinInfoRow memo locked)),
                                list_elem_of_here.
    apply IH. intros cr Hcr. by apply Hl, list_elem_of_further. }
  apply Hfold. intros [coin row] Hin%elem_of_map_to_list.
  by destruct (Hpinfo coin row Hin) as (_ & _ & ?).
Qed.

(** X21.  Importing the text that was exported restores the coin control
    data, whatever the tables hold at the time of the import, for a store
    whose texts hold no NUL byte and whose ids and lock values are [int]s
    (the export reads texts as C strings and integers as [int]s): the
    tags, the collections and the coin infos come back as they were, and
    so do the memberships of tags and collections that have a row; a
    membership that names a missing tag or collection, which
    [AddToCoinTag] and [AddToCoinCollection] allow, is not exported and is
    lost. *)
Theorem import_export_round_trip `{JsonLibrary} (now : Z)
    (db db' : CoinControl) (text : string) :
  names_unique db → store_plain db →
  ExportCoinControlData now db = Returns text →
  ImportCoinControlData text db'
  = Some (Returns tt,
          mkCoinControl (COININFO db) (TAGS db)
            (with_row (TAGS db) (COINTAGS db)) (COLLECTIONS db)
            (with_row (COLLECTIONS db) (COINCOLLECTIONS db))) ∧
  (memberships_consistent db →
   ImportCoinControlData text db' = Some (Returns tt, db)).
Proof.
  intros Hnames Hplain Hexport.
  assert (Hrun : ImportCoinControlData text db'
    = Some (Returns tt,
            mkCoinControl (COININFO db) (TAGS db)
              (with_row (TAGS db) (COINTAGS db)) (COLLECTIONS db)
              (with_row (COLLECTIONS db) (COINCOLLECTIONS db)))).
  { unfold ExportCoinControlData in Hexport.
    destruct (json_dump (export_document now db)) as [dumped|] eqn:Hdump;
      [|done].
    injection Hexport as ->. unfold ImportCoinControlData.
    rewrite (json_parse_dump _ _ Hdump).
    by rewrite import_document_export. }
  split; [done|]. intros [Hct Hcc]. rewrite Hrun. do 2 f_equal.
  destruct db as [ci t ct c cc]. cbn in *. f_equal.
  - apply set_eq. intros m. unfold with_row. rewrite elem_of_filter.
    split; [by intros [_ ?]|]. intros Hin. split; [by apply Hct|done].
  - apply set_eq. intros m. unfold with_row. rewrite elem_of_filter.
    split; [by intros [_ ?]|]. intros Hin. split; [by apply Hcc|done].
Qed.

(** Witness of X21. *)
Lemma import_export_round_trip_witness :
  (CoinId "a" 0, 7) ∈ COINTAGS demo_coin_control ∧
  ∃ text,
    @ExportCoinControlData demo_json 0 demo_coin_control = Returns text ∧
    @ImportCoinControlData demo_json text (mkCoinControl ∅ ∅ ∅ ∅ ∅)
    = Some (Returns tt,
            mkCoinControl (COININFO demo_coin_control)
              (TAGS demo_coin_control) {[(CoinId "a" 0, 1)]} ∅ ∅).
Proof.
  split; [by vm_compute|].
  assert (Hc : COLLECTIONS demo_coin_control = ∅) by by vm_compute.
  assert (Ht : TAGS demo_coin_control
               = {[1 := mkTagRow "savings" "#00ff00"]}) by by vm_compute.
  assert (Hi : COININFO demo_coin_control
               = {[CoinId "a" 0 := mkCoinInfoRow "" 1]}) by by vm_compute.
  assert (Hm : COINTAGS demo_coin_control
               = {[(CoinId "a" 0, 7); (CoinId "a" 0, 1)]})
    by by vm_compute.
  assert (Hcc : COINCOLLECTIONS demo_coin_control = ∅) by by vm_compute.
  assert (Hnames : names_unique demo_coin_control).
  { unfold names_unique. rewrite Hc, Ht.
    split; [|by intros ? ? ? ? ?%lookup_empty_Some].
    intros i j r1 r2 [<- _]%lookup_singleton_Some
      [<- _]%lookup_singleton_Some _. done. }
  assert (Hplain : store_plain demo_coin_control).
  { unfold store_plain. rewrite Hc, Ht, Hi, Hm, Hcc.
    split; [|split; [|split; [|split]]].
    - intros i row [<- <-]%lookup_singleton_Some. by vm_compute.
    - by intros ? ? ?%lookup_empty_Some.
    - intros coin row [<- <-]%lookup_singleton_Some. by vm_compute.
    - intros ct Hin. apply elem_of_union in Hin as [Hin|Hin];
        apply elem_of_singleton in Hin as ->; by vm_compute.
    - intros cc Hin. by apply elem_of_empty in Hin. }
  eexists. split; [reflexivity|].
  rewrite (proj1 (@import_export_round_trip demo_json 0 demo_coin_control
                    (mkCoinControl ∅ ∅ ∅ ∅ ∅) _ Hnames Hplain eq_refl)).
  do 3 f_equal; by vm_compute.
Defined.

(** ** Notifications of the synchroniser *)

Section Notifications.
Context `{Wallet} `{ElectrumClient}.
Variable items : list HistoryItem.
Variable calls : list (string * TransactionStatus.t).

Lemma extends_calls_storage (st : SyncState) (db : WalletDb) :
  extends_calls items calls st →
  extends_calls items calls
    (mkSyncState db (transaction_listener_calls st)).
Proof. done. Qed.

Lemma on_storage_extends {A} (c : M A) :
  keeps (extends_calls items calls) (on_storage c).
Proof.
  intros st HP. unfold on_storage.
  destruct (c (storage_ st)) as [r db]. by apply extends_calls_storage.
Qed.

Lemma transaction_listener_extends (tx_id : string)
    (status : TransactionStatus.t) :
  announces items (tx_id, status) →
  keeps (extends_calls items calls) (transaction_listener_ tx_id status).
Proof.
  intros Hcall st (added & Hadded & Hall).
  exists (added ++ [(tx_id, status)]). cbn.
  split; [by rewrite Hadded, app_assoc|].
  apply Forall_app. split; [done|]. by apply Forall_singleton.
Qed.

Lemma apply_history_item_extends (found : bool) (item : HistoryItem)
    (raw : string) (time fee : Z) :
  item ∈ items →
  keeps (extends_calls items calls)
    (apply_history_item found (item_tx_hash item) raw
       (item_height item) time fee).
Proof.
  intros Hin. unfold apply_history_item.
  apply keeps_bind.
  - destruct found;
      (apply keeps_bind; [apply on_storage_extends|intros; apply keeps_ret]).
  - intros _. destruct status_is_READY eqn:Hready; [|apply keeps_ret].
    apply transaction_listener_extends. right. split; [done|].
    by exists item.
Qed.

Lemma batch_scan_item_extends (acc : BatchScan) (item : HistoryItem) :
  keeps (extends_calls items calls) (batch_scan_item acc item).
Proof.
  intros st HP. unfold batch_scan_item.
  destruct (storage_GetTransaction _ _) as [r db].
  pose proof (extends_calls_storage st db HP).
  destruct r as [stx|[]]; try done.
  by destruct (bool_decide _).
Qed.

Lemma batch_update_item_extends (txs_hash : list string)
    (founds : gmap string bool) (rawtx : gmap string string)
    (rawheader : gmap Z string) (isSynced : bool) (item : HistoryItem) :
  item ∈ items →
  keeps (extends_calls items calls)
    (batch_update_item txs_hash founds rawtx rawheader isSynced item).
Proof.
  intros Hin. unfold batch_update_item.
  destruct (bool_decide _); [apply keeps_ret|].
  destruct (match rawtx !! item_tx_hash item with
            | Some raw => Some raw
            | None => blockchain_transaction_get (item_tx_hash item)
            end) as [raw|]; [|apply keeps_ret].
  apply keeps_bind; [by apply apply_history_item_extends|].
  intros; apply keeps_ret.
Qed.

Lemma sequential_item_extends (txs_hash : list string) (item : HistoryItem) :
  item ∈ items →
  keeps (extends_calls items calls) (sequential_item txs_hash item).
Proof.
  intros Hin st HP. unfold sequential_item.
  destruct (storage_GetTransaction _ _) as [r db].
  pose proof (extends_calls_storage st db HP) as HP'.
  assert (Hfetch : ∀ found,
    keeps (extends_calls items calls)
      (sequential_fetch txs_hash item found)).
  { intros found. unfold sequential_fetch.
    destruct (blockchain_transaction_get _); [|apply keeps_throw].
    apply keeps_bind.
    - destruct (_ <=? _); [apply keeps_ret|].
      destruct (blockchain_block_header _);
        [apply keeps_ret|apply keeps_throw].
    - intros time. apply keeps_bind;
        [by apply apply_history_item_extends|intros; apply keeps_ret]. }
  destruct r as [stx|[]]; try done.
  - destruct (bool_decide _); [done|]. by apply Hfetch.
  - by apply Hfetch.
Qed.

Lemma evict_pending_receive_extends (kept : string → bool) :
  keeps (extends_calls items calls) (evict_pending_receive kept).
Proof.
  unfold evict_pending_receive.
  apply keeps_bind; [apply on_storage_extends|]. intros pending.
  apply keeps_for_each. intros tx.
  destruct (negb _); [|apply keeps_ret].
  apply keeps_bind; [apply on_storage_extends|]. intros _.
  apply transaction_listener_extends. by left.
Qed.

Lemma keeps_for_each_acc_in {A B} (l : list A) (acc : B)
    (body : B → A → StateM SyncState B) :
  (∀ b x, x ∈ l → keeps (extends_calls items calls) (body b x)) →
  keeps (extends_calls items calls) (for_each_acc l acc body).
Proof.
  revert acc. induction l as [|x l IH]; intros acc Hbody; cbn [for_each_acc].
  - apply keeps_ret.
  - apply keeps_bind; [apply Hbody, list_elem_of_here|].
    intros acc'. apply IH. intros b y Hy. apply Hbody.
    by apply list_elem_of_further.
Qed.

End Notifications.

(** X22.  [UpdateTransactions], in both branches and in the overload that
    is handed the raw transactions, only adds calls of the transaction
    listener, and every call it adds either reports an eviction (REPLACED)
    or, with the synchroniser READY, reports an entry of the history as
    pending when its height is at most 0 and as confirmed otherwise; so a
    synchroniser that is not READY reports evictions only. *)
Theorem UpdateTransactions_notifications `{Wallet} `{ElectrumClient}
    (history : History) (rawtx : gmap string string)
    (rawheader : gmap Z string) (st : SyncState) :
  extends_calls (history_items history) (transaction_listener_calls st)
    (exec (UpdateTransactions history) st) ∧
  extends_calls (history_items history) (transaction_listener_calls st)
    (exec (UpdateTransactions_batched history rawtx rawheader) st) ∧
  (status_is_READY = false →
   ∀ call added,
     transaction_listener_calls (exec (UpdateTransactions history) st)
       = transaction_listener_calls st ++ added →
     call ∈ added → call.2 = TransactionStatus.REPLACED).
Proof.
  set (P := extends_calls (history_items history)
              (transaction_listener_calls st)).
  assert (HP : P st).
  { exists []. by rewrite app_nil_r. }
  assert (Hplain : keeps P (UpdateTransactions history)).
  { unfold UpdateTransactions. destruct history as [|items];
      [apply keeps_ret|].
    destruct support_batch_requests.
    - apply keeps_bind.
      { apply keeps_for_each_acc_in. intros. apply batch_scan_item_extends. }
      intros scan. apply keeps_bind.
      { apply keeps_for_each_acc_in. intros.
        by apply batch_update_item_extends. }
      intros isSynced. apply keeps_bind;
        [apply evict_pending_receive_extends|intros; apply keeps_ret].
    - apply keeps_bind.
      { apply keeps_for_each_acc_in. intros.
        by apply sequential_item_extends. }
      intros txs_hash. apply keeps_bind;
        [apply evict_pending_receive_extends|intros; apply keeps_ret]. }
  split; [by apply Hplain|]. split.
  - unfold UpdateTransactions_batched.
    destruct history as [|items] eqn:Hh; [done|].
    destruct support_batch_requests eqn:Hbatch;
      [|by apply Hplain].
    revert HP. generalize st. change (keeps P
      (let* scan := for_each_acc items (mkBatchScan [] [] ∅) batch_scan_item in
       let* isSynced :=
         for_each_acc items true
           (batch_update_item (scan_txs_hash scan) (scan_founds scan)
              rawtx rawheader) in
       let* _ := evict_pending_receive
                   (fun txid => bool_decide (is_Some (rawtx !! txid))) in
       ret isSynced)).
    apply keeps_bind.
    { apply keeps_for_each_acc_in. intros. apply batch_scan_item_extends. }
    intros scan. apply keeps_bind.
    { apply keeps_for_each_acc_in. intros.
      by apply batch_update_item_extends. }
    intros isSynced. apply keeps_bind;
      [apply evict_pending_receive_extends|intros; apply keeps_ret].
  - intros Hready call added Hadded Hin.
    destruct (Hplain st HP) as (added' & Hadded' & Hall).
    unfold exec in Hadded. rewrite Hadded in Hadded'.
    apply app_inv_head in Hadded' as <-.
    rewrite Forall_forall in Hall.
    destruct (Hall call Hin) as [?|[Hr _]]; [done|congruence].
Qed.

(** ** Derivation paths *)

Lemma replace_char_absent (from to : Ascii.ascii) (s : string) :
  has_char from s = false → replace_char from to s = s.
Proof.
  induction s as [|c s IH]; cbn; [done|].
  intros [Hc Hs]%orb_false_elim. by rewrite Hc, IH.
Qed.

Lemma replace_char_clears (from to : Ascii.ascii) (s : string) :
  from ≠ to → has_char from (replace_char from to s) = false.
Proof.
  intros Hne. induction s as [|c s IH]; cbn; [done|].
  rewrite IH, orb_false_r. destruct (Ascii.eqb c from) eqn:Hc; [|done].
  apply Ascii.eqb_neq. congruence.
Qed.

Lemma FormalizePath_shape (path : string) :
  has_char LETTER_h (FormalizePath path) = false ∧
  (FormalizePath path = EmptyString ∨
   ∃ rest, FormalizePath path = String SLASH rest).
Proof.
  unfold FormalizePath.
  set (rs := replace_char LETTER_h APOSTROPHE _).
  assert (Hrs : has_char LETTER_h rs = false)
    by by apply replace_char_clears.
  destruct rs as [|c rs']; [by split; [|left]|].
  destruct (Ascii.eqb c SLASH) eqn:Hc.
  - split; [done|]. right. apply Ascii.eqb_eq in Hc as ->. by exists rs'.
  - split; [|right; by eexists]. by cbn in *.
Qed.

(** X23.  [FormalizePath] gives a normal form: the result has no [h], is
    empty or begins with a slash, and is left as it is by a second call;
    writing the hardened steps with an apostrophe instead of [h], or
    putting the leading [m] before a path that begins with a slash, gives
    the same result. *)
Theorem FormalizePath_normal_form (path : string) :
  has_char LETTER_h (FormalizePath path) = false ∧
  (FormalizePath path = EmptyString ∨
   ∃ rest, FormalizePath path = String SLASH rest) ∧
  FormalizePath (FormalizePath path) = FormalizePath path ∧
  FormalizePath (replace_char LETTER_h APOSTROPHE path)
    = FormalizePath path ∧
  FormalizePath (String LETTER_m (String SLASH path))
    = FormalizePath (String SLASH path).
Proof.
  destruct (FormalizePath_shape path) as [Hh Hshape].
  split; [done|]. split; [done|]. split; [|split].
  - destruct Hshape as [->|[rest Hrest]]; [done|].
    rewrite Hrest in Hh |- *. unfold FormalizePath.
    change (Ascii.eqb SLASH LETTER_m) with false. cbv iota.
    rewrite replace_char_absent by done. cbn.
    by change (Ascii.eqb SLASH SLASH) with true.
  - unfold FormalizePath. destruct path as [|c rest]; [done|].
    cbn [replace_char].
    destruct (Ascii.eqb c LETTER_h) eqn:Hc.
    + apply Ascii.eqb_eq in Hc as ->.
      change (Ascii.eqb APOSTROPHE LETTER_m) with false.
      change (Ascii.eqb LETTER_h LETTER_m) with false. cbv iota.
      cbn [replace_char]. change (Ascii.eqb LETTER_h LETTER_h) with true.
      change (Ascii.eqb APOSTROPHE LETTER_h) with false. cbv iota.
      by rewrite (replace_char_absent _ _ (replace_char _ _ _))
        by by apply replace_char_clears.
    + destruct (Ascii.eqb c LETTER_m) eqn:Hm.
      * by rewrite (replace_char_absent _ _ (replace_char _ _ _))
          by by apply replace_char_clears.
      * cbn [replace_char]. rewrite Hc.
        assert (Hc' : Ascii.eqb c LETTER_h = false) by done.
        destruct (Ascii.eqb c SLASH) eqn:Hs;
          by rewrite (replace_char_absent _ _ (replace_char _ _ _))
            by by apply replace_char_clears.
  - done.
Qed.

(** ** Signer tags *)

Lemma elem_of_unique (x : Z) (l : list Z) : x ∈ unique l ↔ x ∈ l.
Proof.
  induction l as [|a l IH]; [done|].
  destruct l as [|b l]; [done|].
  change (unique (a :: b :: l))
    with (if a =? b then unique (b :: l) else a :: unique (b :: l)).
  destruct (Z.eqb_spec a b) as [->|Hne].
  - rewrite IH. rewrite !elem_of_cons. tauto.
  - rewrite elem_of_cons, IH. by rewrite <- elem_of_cons.
Qed.

Lemma unique_increasing (l : list Z) :
  StronglySorted Z.le l → StronglySorted Z.lt (unique l).
Proof.
  induction l as [|a l IH]; [constructor|].
  intros Hsorted. apply StronglySorted_inv in Hsorted as [Hl Ha].
  destruct l as [|b l]; [repeat constructor|].
  change (unique (a :: b :: l))
    with (if a =? b then unique (b :: l) else a :: unique (b :: l)).
  destruct (Z.eqb_spec a b) as [->|Hne]; [by apply IH|].
  constructor; [by apply IH|].
  apply Forall_forall. intros x Hx. apply (proj1 (elem_of_unique _ _)) in Hx.
  rewrite Forall_forall in Ha.
  apply StronglySorted_inv in Hl as [_ Hb]. rewrite Forall_forall in Hb.
  apply elem_of_cons in Hx as [->|Hx].
  - pose proof (Ha b (list_elem_of_here _ _)). lia.
  - pose proof (Ha b (list_elem_of_here _ _)). pose proof (Hb x Hx). lia.
Qed.

Lemma increasing_same_elements (l1 l2 : list Z) :
  StronglySorted Z.lt l1 → StronglySorted Z.lt l2 →
  (∀ x, x ∈ l1 ↔ x ∈ l2) → l1 = l2.
Proof.
  revert l2. induction l1 as [|a l1 IH]; intros l2 H1 H2 Hsame.
  - destruct l2 as [|b l2]; [done|].
    pose proof (proj2 (Hsame b) (list_elem_of_here _ _)) as Hin.
    by apply elem_of_nil in Hin.
  - destruct l2 as [|b l2].
    { pose proof (proj1 (Hsame a) (list_elem_of_here _ _)) as Hin.
      by apply elem_of_nil in Hin. }
    apply StronglySorted_inv in H1 as [H1 Ha].
    apply StronglySorted_inv in H2 as [H2 Hb].
    rewrite Forall_forall in Ha, Hb.
    assert (a = b) as <-.
    { pose proof (proj1 (Hsame a) (list_elem_of_here _ _)) as Hab.
      pose proof (proj2 (Hsame b) (list_elem_of_here _ _)) as Hba.
      apply elem_of_cons in Hab as [?|Hab]; [done|].
      apply elem_of_cons in Hba as [?|Hba]; [done|].
      pose proof (Ha b Hba). pose proof (Hb a Hab). lia. }
    f_equal. apply IH; [done|done|]. intros x. split; intros Hx.
    + pose proof (proj1 (Hsame x) (list_elem_of_further _ _ _ Hx)) as Hx'.
      apply elem_of_cons in Hx' as [->|?]; [|done].
      pose proof (Ha a Hx). lia.
    + pose proof (proj2 (Hsame x) (list_elem_of_further _ _ _ Hx)) as Hx'.
      apply elem_of_cons in Hx' as [->|?]; [|done].
      pose proof (Hb a Hx). lia.
Qed.

Lemma set_tags_increasing (tags : list Z) :
  StronglySorted Z.lt (set_tags tags).
Proof. apply unique_increasing, StronglySorted_merge_sort; apply _. Qed.

Lemma elem_of_set_tags (t : Z) (tags : list Z) : t ∈ set_tags tags ↔ t ∈ tags.
Proof.
  unfold set_tags. rewrite elem_of_unique.
  by rewrite (merge_sort_Permutation Z.le tags).
Qed.

(** X24.  [SingleSigner::set_tags] stores the tags in strictly increasing
    order, so without duplicates; it stores exactly the tags it is given;
    and two arguments with the same tags, in whatever order and however
    often repeated, leave the same sequence.  In particular storing the
    stored tags again changes nothing. *)
Theorem set_tags_canonical (tags : list Z) :
  StronglySorted Z.lt (set_tags tags) ∧
  (∀ t, t ∈ set_tags tags ↔ t ∈ tags) ∧
  (∀ tags', (∀ t, t ∈ tags ↔ t ∈ tags') → set_tags tags = set_tags tags') ∧
  set_tags (set_tags tags) = set_tags tags.
Proof.
  split; [apply set_tags_increasing|].
  split; [intros; apply elem_of_set_tags|].
  split.
  - intros tags' Hsame.
    apply increasing_same_elements; try apply set_tags_increasing.
    intros t. by rewrite !elem_of_set_tags.
  - apply increasing_same_elements; try apply set_tags_increasing.
    intros t. by rewrite !elem_of_set_tags.
Qed.

(** ** Settings of the synchroniser *)

Lemma differs_sym {A} `{EqDecision A} (x y : A) : differs x y = differs y x.
Proof. unfold differs. apply bool_decide_ext. naive_solver. Qed.

Lemma differs_false {A} `{EqDecision A} (x y : A) :
  differs x y = false ↔ x = y.
Proof.
  unfold differs. rewrite bool_decide_eq_false.
  split; [apply dec_stable|naive_solver].
Qed.

Lemma differs_same {A} `{EqDecision A} (x : A) : differs x x = false.
Proof. by apply differs_false. Qed.

Lemma NeedRecreate_same (settings : AppSettings.t) :
  NeedRecreate settings settings = Recreate false.
Proof.
  unfold NeedRecreate. rewrite !differs_same, !andb_false_r. cbn.
  by destruct (bool_decide _).
Qed.

Lemma NeedRecreate_sym (a b : AppSettings.t) :
  NeedRecreate a b = NeedRecreate b a.
Proof.
  unfold NeedRecreate.
  rewrite (differs_sym (AppSettings.get_backend_type b)),
    (differs_sym (AppSettings.get_chain b)),
    (differs_sym (AppSettings.use_proxy b)),
    (differs_sym (AppSettings.get_proxy_host b)),
    (differs_sym (AppSettings.get_proxy_port b)),
    (differs_sym (AppSettings.get_proxy_username b)),
    (differs_sym (AppSettings.get_proxy_password b)),
    (differs_sym (AppSettings.get_corerpc_host b)),
    (differs_sym (AppSettings.get_corerpc_port b)),
    (differs_sym (AppSettings.get_corerpc_username b)),
    (differs_sym (AppSettings.get_corerpc_password b)),
    (differs_sym (AppSettings.get_testnet_servers b)),
    (differs_sym (AppSettings.get_mainnet_servers b)),
    (differs_sym (AppSettings.get_signet_servers b)).
  destruct (differs (AppSettings.get_backend_type a) _) eqn:Hb; [done|].
  destruct (differs (AppSettings.get_chain a) _) eqn:Hc; [done|].
  destruct (differs (AppSettings.use_proxy a) _) eqn:Hp; [done|].
  apply (proj1 (differs_false _ _)) in Hb. apply (proj1 (differs_false _ _)) in Hc. apply (proj1 (differs_false _ _)) in Hp. by rewrite Hb, Hc, Hp.
Qed.

Lemma NeedRecreate_false_inv (a b : AppSettings.t) :
  NeedRecreate a b = Recreate false →
  AppSettings.get_backend_type a = AppSettings.get_backend_type b ∧
  AppSettings.get_chain a = AppSettings.get_chain b ∧
  AppSettings.use_proxy a = AppSettings.use_proxy b ∧
  (AppSettings.use_proxy b = true →
   AppSettings.get_proxy_host a = AppSettings.get_proxy_host b ∧
   AppSettings.get_proxy_port a = AppSettings.get_proxy_port b ∧
   AppSettings.get_proxy_username a = AppSettings.get_proxy_username b ∧
   AppSettings.get_proxy_password a = AppSettings.get_proxy_password b) ∧
  (AppSettings.get_backend_type b = AppSettings.CORERPC →
   AppSettings.get_corerpc_host a = AppSettings.get_corerpc_host b ∧
   AppSettings.get_corerpc_port a = AppSettings.get_corerpc_port b ∧
   AppSettings.get_corerpc_username a
     = AppSettings.get_corerpc_username b ∧
   AppSettings.get_corerpc_password a
     = AppSettings.get_corerpc_password b) ∧
  (AppSettings.get_backend_type b ≠ AppSettings.CORERPC →
   (AppSettings.get_chain b = AppSettings.TESTNET →
    AppSettings.get_testnet_servers a = AppSettings.get_testnet_servers b) ∧
   (AppSettings.get_chain b = AppSettings.MAIN →
    AppSettings.get_mainnet_servers a = AppSettings.get_mainnet_servers b) ∧
   (AppSettings.get_chain b = AppSettings.SIGNET →
    AppSettings.get_signet_servers a = AppSettings.get_signet_servers b)).
Proof.
  unfold NeedRecreate. cbv zeta.
  destruct (differs (AppSettings.get_backend_type a) _) eqn:Hb; [done|].
  destruct (differs (AppSettings.get_chain a) _) eqn:Hc; [done|].
  destruct (differs (AppSettings.use_proxy a) _) eqn:Hp; [done|].
  apply (proj1 (differs_false _ _)) in Hb.
  apply (proj1 (differs_false _ _)) in Hc.
  apply (proj1 (differs_false _ _)) in Hp.
  cbn [orb]. intros Hrest.
  split; [done|]. split; [done|]. split; [done|].
  destruct (AppSettings.use_proxy b && _) eqn:Hproxy; [done|].
  split.
  { intros Hon. rewrite Hon in Hproxy. cbn [andb] in Hproxy.
    apply orb_false_elim in Hproxy as [Hproxy H4].
    apply orb_false_elim in Hproxy as [Hproxy H3].
    apply orb_false_elim in Hproxy as [H1 H2].
    apply (proj1 (differs_false _ _)) in H1.
    apply (proj1 (differs_false _ _)) in H2.
    apply (proj1 (differs_false _ _)) in H3.
    by apply (proj1 (differs_false _ _)) in H4. }
  case_bool_decide as Hrpc.
  - split; [|done]. intros _.
    destruct (_ || _) eqn:Hfields in Hrest; [done|].
    apply orb_false_elim in Hfields as [Hfields R4].
    apply orb_false_elim in Hfields as [Hfields R3].
    apply orb_false_elim in Hfields as [R1 R2].
    apply (proj1 (differs_false _ _)) in R1.
    apply (proj1 (differs_false _ _)) in R2.
    apply (proj1 (differs_false _ _)) in R3.
    by apply (proj1 (differs_false _ _)) in R4.
  - split; [done|]. intros _.
    destruct (_ || _) eqn:Hservers in Hrest; [done|].
    apply orb_false_elim in Hservers as [Hservers S3].
    apply orb_false_elim in Hservers as [S1 S2].
    repeat split; intros Hchain; rewrite Hchain in *;
      cbn [andb bool_decide] in *.
    + by apply (proj1 (differs_false _ _)) in S1.
    + by apply (proj1 (differs_false _ _)) in S2.
    + by apply (proj1 (differs_false _ _)) in S3.
Qed.

Lemma NeedRecreate_false_l (a b c : AppSettings.t) :
  NeedRecreate a b = Recreate false → NeedRecreate a c = NeedRecreate b c.
Proof.
  intros (Hb & Hc & Hp & Hproxy & Hrpc & Hservers)%NeedRecreate_false_inv.
  unfold NeedRecreate. cbv zeta. rewrite Hb, Hc, Hp.
  destruct (differs (AppSettings.get_backend_type b) _) eqn:Hb'; [done|].
  destruct (differs (AppSettings.get_chain b) _) eqn:Hc'; [done|].
  destruct (differs (AppSettings.use_proxy b) _) eqn:Hp'; [done|].
  apply (proj1 (differs_false _ _)) in Hb'.
  apply (proj1 (differs_false _ _)) in Hc'.
  apply (proj1 (differs_false _ _)) in Hp'.
  cbn [orb].
  assert (Hsame_proxy :
    AppSettings.use_proxy c
    && (differs (AppSettings.get_proxy_host a)
          (AppSettings.get_proxy_host c)
        || differs (AppSettings.get_proxy_port a)
             (AppSettings.get_proxy_port c)
        || differs (AppSettings.get_proxy_username a)
             (AppSettings.get_proxy_username c)
        || differs (AppSettings.get_proxy_password a)
             (AppSettings.get_proxy_password c))
    = AppSettings.use_proxy c
      && (differs (AppSettings.get_proxy_host b)
            (AppSettings.get_proxy_host c)
          || differs (AppSettings.get_proxy_port b)
               (AppSettings.get_proxy_port c)
          || differs (AppSettings.get_proxy_username b)
               (AppSettings.get_proxy_username c)
          || differs (AppSettings.get_proxy_password b)
               (AppSettings.get_proxy_password c))).
  { destruct (AppSettings.use_proxy c) eqn:Hon; [|done].
    destruct (Hproxy Hp') as (-> & -> & -> & ->). done. }
  rewrite Hsame_proxy. clear Hsame_proxy.
  destruct (AppSettings.use_proxy c && _); [done|].
  rewrite <- Hb', <- Hc'. case_bool_decide as Hbackend.
  - by destruct (Hrpc Hbackend) as (-> & -> & -> & ->).
  - destruct (Hservers Hbackend) as (Htest & Hmain & Hsig).
    destruct (AppSettings.get_chain b); cbn [bool_decide andb orb];
      first [by rewrite Htest|by rewrite Hmain|by rewrite Hsig|done].
Qed.

(** X25.  The settings between which [NeedRecreate] answers false form
    classes: the call answers false (and does not throw) for the settings
    the synchroniser already holds, the outcome is the same with the two
    settings exchanged, and two settings between which the answer is false
    get the same outcome against any third. *)
Theorem NeedRecreate_equivalence (a b : AppSettings.t) :
  NeedRecreate a a = Recreate false ∧
  NeedRecreate a b = NeedRecreate b a ∧
  (NeedRecreate a b = Recreate false →
   ∀ c, NeedRecreate a c = NeedRecreate b c ∧
        NeedRecreate c a = NeedRecreate c b).
Proof.
  split; [apply NeedRecreate_same|]. split; [apply NeedRecreate_sym|].
  intros Hsame c. split; [by apply NeedRecreate_false_l|].
  rewrite (NeedRecreate_sym c a), (NeedRecreate_sym c b).
  by apply NeedRecreate_false_l.
Qed.

Lemma NeedRecreate_equivalence_witness :
  NeedRecreate demo_settings demo_settings_other_proxy = Recreate false ∧
  ∀ c, NeedRecreate demo_settings c
       = NeedRecreate demo_settings_other_proxy c.
Proof.
  assert (Hsame : NeedRecreate demo_settings demo_settings_other_proxy
                  = Recreate false) by (vm_compute; reflexivity).
  split; [exact Hsame|]. intros c.
  exact (proj1 (proj2 (proj2 (NeedRecreate_equivalence demo_settings
                                demo_settings_other_proxy)) Hsame c)).
Defined.

(** ** Script nodes *)

Section ScriptNodeIds.
Import ScriptNode.

Lemma set_id_subs (id : list N) (node : t) :
  sub_ (set_id id node)
  = imap (fun i sub => set_id (id ++ [N.of_nat i + 1]%N) sub) (sub_ node).
Proof.
  destruct node as [ty subs keys data k old]. cbn [set_id sub_].
  set (each := fix each (i : N) (subs : list t) : list t :=
    match subs with
    | [] => []
    | sub :: rest => set_id (id ++ [i + 1]%N) sub :: each (i + 1)%N rest
    end).
  assert (Heach : ∀ n, each (N.of_nat n) subs
    = imap (fun i sub => set_id (id ++ [N.of_nat (n + i) + 1]%N) sub) subs).
  { induction subs as [|sub subs IH]; intros n; [done|].
    cbn [each imap]. fold each. f_equal.
    - by rewrite Nat.add_0_r.
    - replace (N.of_nat n + 1)%N with (N.of_nat (S n)) by lia.
      rewrite IH. apply imap_ext. intros i x _. cbn.
      by replace (N.of_nat (S (n + i))) with (N.of_nat (n + S i)) by lia. }
  apply (Heach 0%nat).
Qed.

Lemma set_id_sub_lookup (id : list N) (node : t) (i : nat) :
  sub_ (set_id id node) !! i
  = set_id (id ++ [N.of_nat i + 1]%N) <$> sub_ node !! i.
Proof. by rewrite set_id_subs, list_lookup_imap. Qed.

Lemma node_at_set_id (path : list nat) (id : list N) (node : t) :
  node_at path (set_id id node)
  = set_id (id_of_path id path) <$> node_at path node.
Proof.
  revert id node. induction path as [|i path IH]; intros id node.
  - unfold id_of_path. cbn. by rewrite app_nil_r.
  - cbn [node_at]. rewrite set_id_sub_lookup.
    destruct (sub_ node !! i) as [sub|]; [|done]. cbn.
    rewrite IH. unfold id_of_path. cbn. by rewrite <- app_assoc.
Qed.

Lemma id_of_path_inj (id : list N) (path1 path2 : list nat) :
  id_of_path id path1 = id_of_path id path2 → path1 = path2.
Proof.
  unfold id_of_path. intros Heq%app_inv_head.
  revert path2 Heq. induction path1 as [|i path1 IH];
    intros [|j path2] Heq; try done.
  cbn in Heq. injection Heq as Hij Heq.
  f_equal; [lia|by apply IH].
Qed.

End ScriptNodeIds.

(** X26.  After [set_id(id)] on a node, the node at the end of a path of
    positions has the id followed by the positions of the path, each
    counted from 1; the rest of the node is as before.  So two nodes of
    the tree that have the same id are at the same place. *)
Theorem set_id_unique (id : list N) (root : ScriptNode.t)
    (path1 path2 : list nat) (node1 node2 : ScriptNode.t) :
  ScriptNode.node_at path1 (ScriptNode.set_id id root) = Some node1 →
  ScriptNode.node_at path2 (ScriptNode.set_id id root) = Some node2 →
  ScriptNode.id_ node1 = ScriptNode.id_of_path id path1 ∧
  (∃ old, ScriptNode.node_at path1 root = Some old ∧
     ScriptNode.node_type_ node1 = ScriptNode.node_type_ old ∧
     ScriptNode.keys_ node1 = ScriptNode.keys_ old ∧
     ScriptNode.data_ node1 = ScriptNode.data_ old ∧
     ScriptNode.k_ node1 = ScriptNode.k_ old ∧
     length (ScriptNode.sub_ node1) = length (ScriptNode.sub_ old)) ∧
  (ScriptNode.id_ node1 = ScriptNode.id_ node2 → path1 = path2).
Proof.
  rewrite !node_at_set_id. intros H1 H2.
  destruct (ScriptNode.node_at path1 root) as [old1|]; [|done].
  destruct (ScriptNode.node_at path2 root) as [old2|]; [|done].
  cbn in H1, H2. injection H1 as <-. injection H2 as <-.
  split; [by destruct old1|]. split.
  - exists old1. split; [done|]. rewrite set_id_subs, length_imap.
    by destruct old1.
  - destruct old1, old2. cbn. apply id_of_path_inj.
Qed.

Lemma set_id_unique_witness :
  ∃ node,
    ScriptNode.node_at [1%nat; 0%nat]
      (ScriptNode.set_id [] ScriptNode.demo_script) = Some node ∧
    ScriptNode.id_ node = [2%N; 1%N] ∧
    ScriptNode.node_type_ node = ScriptNode.OLDER.
Proof.
  eexists. split; [reflexivity|].
  destruct (set_id_unique [] ScriptNode.demo_script [1%nat; 0%nat]
              [1%nat; 0%nat] _ _ eq_refl eq_refl)
    as (Hid & (old & Hold & Htype & _) & _).
  split; [exact Hid|].
  rewrite Htype. injection Hold as <-. reflexivity.
Defined.

(** ** Send and receive amounts *)

Lemma for_each_acc_fold {S A B} (J : S → Prop) (f : B → A → B)
    (body : B → A → StateM S B) (l : list A) :
  (∀ b x, keeps J (body b x)) →
  (∀ b x st r st', J st → body b x st = (Ok r, st') → r = f b x) →
  ∀ acc st r st', J st → for_each_acc l acc body st = (Ok r, st') →
    r = fold_left f l acc ∧ J st'.
Proof.
  intros Hkeeps Hvalue. induction l as [|x l IH]; intros acc st r st' HJ.
  - cbn. by intros [= <- <-].
  - cbn [for_each_acc fold_left]. unfold bind.
    pose proof (Hkeeps acc x st HJ) as HJ1.
    pose proof (Hvalue acc x st) as Hv.
    destruct (body acc x st) as [[acc'|e] st1]; [|done].
    rewrite <- (Hv acc' st1 HJ eq_refl). by apply IH.
Qed.

Section SendReceive.
Context `{Wallet}.
Variable db0 : WalletDb.

Lemma UseAddress_same_addresses (address : string) :
  keeps (same_addresses db0) (UseAddress address).
Proof.
  apply keeps_modify. intros db (Hvtx & Haddr & Hmine).
  destruct (String.eqb address ""); [done|].
  destruct (addr_cache db) as [cache|] eqn:Hcache; [|done].
  destruct (cache !! address) as [d|] eqn:Hd; [|done].
  split; [done|]. split; [done|]. intros a. rewrite <- Hmine.
  unfold address_view. cbn [with_addr_cache addr_cache]. rewrite Hcache.
  unfold IsMyAddress. apply bool_decide_ext.
  destruct (decide (a = address)) as [->|Hne].
  - rewrite lookup_insert_eq, Hd. split; by eexists.
  - by rewrite lookup_insert_ne.
Qed.

Lemma GetAllAddressData_same_addresses :
  keeps (same_addresses db0) GetAllAddressData.
Proof.
  intros db (Hvtx & Haddr & Hmine). unfold GetAllAddressData.
  rewrite (bind_Ok _ _ db db db) by done.
  destruct (addr_cache db) as [cache|] eqn:Hcache; [done|].
  erewrite bind_Ok; [|done].
  assert (Hrest : keeps (same_addresses db0)
    (let* txs := lift (GetTransactions db) in
     let* _ := for_each txs (fun tx =>
                 for_each (get_outputs tx)
                   (fun output => UseAddress output.1)) in
     ret (derive_address_data db))).
  { apply keeps_bind; [apply keeps_lift|]. intros txs.
    apply keeps_bind; [|intros; apply keeps_ret].
    apply keeps_for_each. intros tx. apply keeps_for_each. intros output.
    apply UseAddress_same_addresses. }
  apply Hrest. split; [done|]. split; [done|]. intros a. rewrite <- Hmine.
  unfold address_view. cbn [with_addr_cache addr_cache]. by rewrite Hcache.
Qed.

Lemma IsMyAddressM_same_addresses (address : string) :
  keeps (same_addresses db0) (IsMyAddressM address).
Proof.
  apply IsMyAddressM_keeps, GetAllAddressData_same_addresses.
Qed.

Lemma previous_output_same_addresses (input : TxInput) :
  keeps (same_addresses db0) (previous_output input).
Proof. apply previous_output_keeps, UseAddress_same_addresses. Qed.

Lemma IsMyAddressM_value (address : string) (db db' : WalletDb) (r : bool) :
  same_addresses db0 db → IsMyAddressM address db = (Ok r, db') →
  r = IsMyAddress (address_view db0) address.
Proof.
  intros (_ & _ & Hmine). unfold IsMyAddressM, bind.
  pose proof (GetAllAddressData_index_view db) as Hview.
  unfold result in Hview.
  destruct (GetAllAddressData db) as [[all|e] db1]; [|done].
  destruct (Hview all eq_refl) as (_ & -> & _).
  cbn. intros [= <- <-]. apply Hmine.
Qed.

Lemma previous_output_value (input : TxInput) (db db' : WalletDb)
    (r : TxOutput) :
  same_addresses db0 db → previous_output input db = (Ok r, db') →
  r = stored_output db0 input.
Proof.
  intros (Hvtx & _ & _). unfold previous_output, stored_output.
  pose proof (GetTransaction_result input.1 db) as Hresult.
  unfold result in Hresult. rewrite <- Hvtx.
  destruct (GetTransaction input.1 db) as [[prev_tx|e] db1];
    cbn [fst] in Hresult.
  - intros [= <- <-].
    destruct (VTX db !! input.1) as [row|]; [|done]. by rewrite <- Hresult.
  - destruct e; try done. intros [= <- <-].
    destruct (VTX db !! input.1) as [row|]; [|done]. by rewrite <- Hresult.
Qed.

End SendReceive.

Section Amounts.
Variable all : gmap string AddressData.

Lemma amount_of_cons (output : TxOutput) (outputs : list TxOutput) :
  amount_of (output :: outputs) = output.2 + amount_of outputs.
Proof. done. Qed.

Lemma spent_fold {A} (prev : A → TxOutput) (inputs : list A)
    (acc : Z * bool) :
  fold_left
    (fun (acc : Z * bool) (input : A) =>
       if IsMyAddress all (prev input).1
       then (acc.1 + (prev input).2, true)
       else acc) inputs acc
  = (acc.1 + amount_of (own_outputs all (prev <$> inputs)),
     acc.2 || negb (bool_decide (own_outputs all (prev <$> inputs) = []))).
Proof.
  revert acc. induction inputs as [|i l IH]; intros [total is_send].
  - cbn. f_equal; [lia|by rewrite orb_false_r].
  - cbn [fold_left]. rewrite IH. unfold own_outputs.
    rewrite fmap_cons, filter_cons.
    destruct (IsMyAddress all (prev i).1) eqn:Ho.
    + rewrite decide_True by done. rewrite amount_of_cons. cbn.
      f_equal; [lia|by rewrite orb_true_r].
    + by rewrite decide_False by done.
Qed.

Lemma receive_fold (outputs : list TxOutput) (acc : Z * list TxOutput) :
  fold_left
    (fun (acc : Z * list TxOutput) (output : TxOutput) =>
       if IsMyAddress all output.1
       then (acc.1 + output.2, acc.2 ++ [output])
       else acc) outputs acc
  = (acc.1 + amount_of (own_outputs all outputs),
     acc.2 ++ own_outputs all outputs).
Proof.
  revert acc. induction outputs as [|o l IH]; intros [amount received].
  - cbn. f_equal; [lia|by rewrite app_nil_r].
  - cbn [fold_left]. rewrite IH. unfold own_outputs. rewrite filter_cons.
    destruct (IsMyAddress all o.1) eqn:Ho.
    + rewrite decide_True by done. rewrite amount_of_cons. cbn.
      f_equal; [lia|by rewrite <- app_assoc].
    + by rewrite decide_False by done.
Qed.

Lemma send_fold (outputs : list TxOutput) (n : nat) (acc : Z * Z * Z) :
  fold_left
    (fun (acc : Z * Z * Z) (io : Z * TxOutput) =>
       let '(total_amount, send_amount, change_index) := acc in
       if negb (IsMyAddress all io.2.1)
       then (total_amount - io.2.2, send_amount + io.2.2, change_index)
       else if change_index <? 0
       then (total_amount - io.2.2, send_amount, io.1)
       else (total_amount - io.2.2, send_amount, change_index))
    (imap (fun i o => (Z.of_nat (n + i), o)) outputs) acc
  = (acc.1.1 - amount_of outputs,
     acc.1.2 + amount_of (foreign_outputs all outputs),
     if acc.2 <? 0
     then default acc.2
            ((fun i => Z.of_nat n + i) <$> first_own_output all outputs)
     else acc.2).
Proof.
  revert n acc.
  induction outputs as [|o l IH]; intros n [[total send] change].
  - cbn. destruct (change <? 0); f_equal; try f_equal; lia.
  - cbn [imap fold_left].
    rewrite (imap_ext _ (fun i o => (Z.of_nat (S n + i), o)))
      by (intros; cbn; f_equal; lia).
    rewrite IH. unfold foreign_outputs, first_own_output.
    rewrite filter_cons. rewrite amount_of_cons. cbn [list_find].
    destruct (IsMyAddress all o.1) eqn:Ho; cbn [negb fst snd];
      rewrite ?Ho; cbn [negb fst snd].
    + rewrite decide_False by done. rewrite decide_True by done.
      destruct (change <? 0) eqn:Hchange; cbn [fst snd].
      * destruct (Z.ltb_spec (Z.of_nat (n + 0)) 0); [lia|].
        cbn. f_equal; [f_equal; lia|lia].
      * rewrite Hchange. f_equal. f_equal; lia.
    + rewrite decide_True by done. rewrite decide_False by done.
      rewrite amount_of_cons. cbn [fst snd].
      destruct (change <? 0) eqn:Hchange.
      * f_equal; [f_equal; lia|].
        destruct (list_find _ l) as [[i x]|]; cbn; [lia|done].
      * f_equal. f_equal; lia.
Qed.

End Amounts.

Section SendReceiveLoops.
Context `{Wallet}.
Variable db0 : WalletDb.

Lemma spent_loop (inputs : list TxInput) (db db' : WalletDb)
    (spent : Z * bool) :
  same_addresses db0 db →
  for_each_acc inputs (0, false)
    (fun (acc : Z * bool) input =>
       let* prev_out := previous_output input in
       let* mine := IsMyAddressM prev_out.1 in
       ret (if mine : bool then (acc.1 + prev_out.2, true) else acc)) db
  = (Ok spent, db') →
  spent = (amount_of (own_outputs (address_view db0)
                        (stored_output db0 <$> inputs)),
           negb (bool_decide (own_outputs (address_view db0)
                                (stored_output db0 <$> inputs) = []))) ∧
  same_addresses db0 db'.
Proof.
  intros HJ Hloop.
  eapply (for_each_acc_fold (same_addresses db0)
            (fun (acc : Z * bool) input =>
               if IsMyAddress (address_view db0) (stored_output db0 input).1
               then (acc.1 + (stored_output db0 input).2, true)
               else acc)) in Hloop as [-> HJ']; [|..|done].
  - by rewrite spent_fold.
  - intros acc input. apply keeps_bind;
      [apply previous_output_same_addresses|].
    intros prev_out. apply keeps_bind;
      [apply IsMyAddressM_same_addresses|intros; apply keeps_ret].
  - intros acc input st r st' Hst. unfold bind.
    pose proof (previous_output_same_addresses db0 input st Hst) as Hst1.
    pose proof (previous_output_value db0 input st) as Hprev.
    destruct (previous_output input st) as [[prev_out|e] st1]; [|done].
    rewrite (Hprev st1 prev_out Hst eq_refl).
    pose proof (IsMyAddressM_value db0 (stored_output db0 input).1 st1)
      as Hmine.
    destruct (IsMyAddressM _ st1) as [[mine|e] st2]; [|done].
    rewrite (Hmine st2 mine Hst1 eq_refl). cbn. by intros [= <- <-].
Qed.

Lemma send_loop (outputs : list TxOutput) (acc : Z * Z * Z)
    (db db' : WalletDb) (sent : Z * Z * Z) :
  same_addresses db0 db →
  for_each_acc (imap (fun i o => (Z.of_nat i, o)) outputs) acc
    (fun (acc : Z * Z * Z) (io : Z * TxOutput) =>
       let '(total_amount, send_amount, change_index) := acc in
       let* mine := IsMyAddressM io.2.1 in
       ret (if negb mine
            then (total_amount - io.2.2, send_amount + io.2.2,
                  change_index)
            else if change_index <? 0
            then (total_amount - io.2.2, send_amount, io.1)
            else (total_amount - io.2.2, send_amount, change_index))) db
  = (Ok sent, db') →
  sent = (acc.1.1 - amount_of outputs,
          acc.1.2 + amount_of (foreign_outputs (address_view db0) outputs),
          if acc.2 <? 0
          then default acc.2 (first_own_output (address_view db0) outputs)
          else acc.2).
Proof.
  intros HJ Hloop.
  eapply (for_each_acc_fold (same_addresses db0)
            (fun (acc : Z * Z * Z) (io : Z * TxOutput) =>
               let '(total_amount, send_amount, change_index) := acc in
               if negb (IsMyAddress (address_view db0) io.2.1)
               then (total_amount - io.2.2, send_amount + io.2.2,
                     change_index)
               else if change_index <? 0
               then (total_amount - io.2.2, send_amount, io.1)
               else (total_amount - io.2.2, send_amount, change_index)))
    in Hloop as [-> HJ']; [|..|done].
  - rewrite (send_fold (address_view db0) outputs 0 acc).
    f_equal. destruct (acc.2 <? 0); [|done].
    destruct (first_own_output _ _); cbn; [f_equal; lia|done].
  - intros [[total send] change] io. apply keeps_bind;
      [apply IsMyAddressM_same_addresses|intros; apply keeps_ret].
  - intros [[total send] change] io st r st' Hst. unfold bind.
    pose proof (IsMyAddressM_value db0 io.2.1 st) as Hmine.
    destruct (IsMyAddressM _ st) as [[mine|e] st2]; [|done].
    rewrite (Hmine st2 mine Hst eq_refl). cbn. by intros [= <- <-].
Qed.

Lemma receive_loop (outputs : list TxOutput) (acc : Z * list TxOutput)
    (db db' : WalletDb) (received : Z * list TxOutput) :
  same_addresses db0 db →
  for_each_acc outputs acc
    (fun (acc : Z * list TxOutput) (output : TxOutput) =>
       let* mine := IsMyAddressM output.1 in
       ret (if mine : bool
            then (acc.1 + output.2, acc.2 ++ [output])
            else acc)) db
  = (Ok received, db') →
  received = (acc.1 + amount_of (own_outputs (address_view db0) outputs),
              acc.2 ++ own_outputs (address_view db0) outputs).
Proof.
  intros HJ Hloop.
  eapply (for_each_acc_fold (same_addresses db0)
            (fun (acc : Z * list TxOutput) (output : TxOutput) =>
               if IsMyAddress (address_view db0) output.1
               then (acc.1 + output.2, acc.2 ++ [output])
               else acc)) in Hloop as [-> HJ']; [|..|done].
  - apply receive_fold.
  - intros a output. apply keeps_bind;
      [apply IsMyAddressM_same_addresses|intros; apply keeps_ret].
  - intros a output st r st' Hst. unfold bind.
    pose proof (IsMyAddressM_value db0 output.1 st) as Hmine.
    destruct (IsMyAddressM _ st) as [[mine|e] st2]; [|done].
    rewrite (Hmine st2 mine Hst eq_refl). cbn. by intros [= <- <-].
Qed.

End SendReceiveLoops.

(** X27.  When [FillSendReceiveData] returns, it has classified the
    transaction by the outputs its inputs spend, read from the store as it
    was at the call: the transaction is a receive when none of them pays an
    address of the wallet.  A receive gets as amount the sum of its outputs
    to the wallet, which are appended to its receive outputs, and keeps its
    fee and change index.  A send gets as amount the sum of its outputs to
    others and as fee the sum of the wallet's outputs it spends less the
    sum of all its outputs; a change index below 0 becomes the position of
    its first output to the wallet, when there is one. *)
Theorem FillSendReceiveData_accounts `{Wallet} (tx tx' : Transaction)
    (db : WalletDb) :
  result (FillSendReceiveData tx) db = Ok tx' →
  let all := address_view db in
  let spent := own_outputs all (stored_output db <$> get_inputs tx) in
  get_txid tx' = get_txid tx ∧
  get_inputs tx' = get_inputs tx ∧
  get_outputs tx' = get_outputs tx ∧
  is_receive tx' = bool_decide (spent = []) ∧
  if is_receive tx'
  then
    get_sub_amount tx' = amount_of (own_outputs all (get_outputs tx)) ∧
    get_receive_outputs tx'
      = get_receive_outputs tx ++ own_outputs all (get_outputs tx) ∧
    get_fee tx' = get_fee tx ∧
    get_change_index tx' = get_change_index tx
  else
    get_sub_amount tx' = amount_of (foreign_outputs all (get_outputs tx)) ∧
    get_fee tx' = amount_of spent - amount_of (get_outputs tx) ∧
    get_receive_outputs tx' = get_receive_outputs tx ∧
    get_change_index tx'
      = if get_change_index tx <? 0
        then default (get_change_index tx)
               (first_own_output all (get_outputs tx))
        else get_change_index tx.
Proof.
  intros Hresult all spent. unfold result, FillSendReceiveData in Hresult.
  assert (HJ : same_addresses db db) by done.
  match type of Hresult with
  | context [bind ?c _ db] =>
      destruct (c db) as [[spent_acc|e] db1] eqn:Hloop1;
        [erewrite bind_Ok in Hresult by exact Hloop1
        |by erewrite bind_Throw in Hresult by exact Hloop1]
  end.
  apply (spent_loop db) in Hloop1 as [-> HJ1]; [|done].
  fold all in Hresult. fold spent in Hresult. cbn [snd fst] in Hresult.
  destruct (bool_decide (spent = [])) eqn:Hnone; cbn [negb] in Hresult.
  - match type of Hresult with
    | context [bind ?c _ db1] =>
        destruct (c db1) as [[received|e] db2] eqn:Hloop2;
          [erewrite bind_Ok in Hresult by exact Hloop2
          |by erewrite bind_Throw in Hresult by exact Hloop2]
    end.
    apply (receive_loop db) in Hloop2 as ->; [|done].
    cbn in Hresult. injection Hresult as <-. cbn.
    repeat split; f_equal; lia.
  - match type of Hresult with
    | context [bind ?c _ db1] =>
        destruct (c db1) as [[sent|e] db2] eqn:Hloop2;
          [erewrite bind_Ok in Hresult by exact Hloop2
          |by erewrite bind_Throw in Hresult by exact Hloop2]
    end.
    apply (send_loop db) in Hloop2 as ->; [|done].
    cbn in Hresult. injection Hresult as <-. cbn.
    repeat split; lia.
Qed.

Lemma FillSendReceiveData_accounts_witness :
  ∃ tx',
    result (FillSendReceiveData demo_T2) demo_balance_db = Ok tx' ∧
    is_receive tx' = false ∧
    get_sub_amount tx' = 40000 ∧
    get_fee tx' = 10000.
Proof.
  assert (Hrun : ∃ tx',
    result (FillSendReceiveData demo_T2) demo_balance_db = Ok tx' ∧
    is_receive tx' = false).
  { eexists. split; vm_compute; reflexivity. }
  destruct Hrun as (tx' & Hrun & Hsend). exists tx'.
  split; [exact Hrun|]. split; [exact Hsend|].
  pose proof (FillSendReceiveData_accounts demo_T2 tx' demo_balance_db Hrun)
    as (_ & _ & _ & _ & Hamounts).
  rewrite Hsend in Hamounts. destruct Hamounts as (-> & -> & _).
  split; vm_compute; reflexivity.
Defined.

(** ** Script path of a descriptor *)

Lemma without_braces_append (a b : string) :
  without_braces (a +:+ b) = without_braces a +:+ without_braces b.
Proof.
  induction a as [|c a IH]; [done|]. rewrite append_cons. cbn.
  destruct (_ || _); [done|]. by rewrite append_cons, IH.
Qed.

Lemma without_braces_pair (a b : string) :
  without_braces
    (String LBRACE (a +:+ String COMMA (b +:+ String RBRACE "")))
  = without_braces a +:+ String COMMA (without_braces b).
Proof.
  cbn [without_braces]. change (Ascii.eqb LBRACE LBRACE) with true.
  cbn [orb]. rewrite without_braces_append. f_equal.
  cbn [without_braces]. change (Ascii.eqb COMMA LBRACE) with false.
  change (Ascii.eqb COMMA RBRACE) with false. cbn [orb]. f_equal.
  rewrite without_braces_append. cbn [without_braces].
  change (Ascii.eqb RBRACE RBRACE) with true. rewrite orb_true_r.
  apply append_empty_r.
Qed.

Lemma pair_nodes_ind (P : list string → Prop) :
  P [] → (∀ a, P [a]) → (∀ a b rest, P rest → P (a :: b :: rest)) →
  ∀ nodes, P nodes.
Proof.
  intros Hnil Hone Hstep nodes.
  assert (Hboth : P nodes ∧ ∀ a, P (a :: nodes)).
  { induction nodes as [|b rest [IH1 IH2]]; [by split|].
    split; [apply IH2|]. intros a. by apply Hstep. }
  apply Hboth.
Qed.

Lemma pair_nodes_length (nodes : list string) :
  (length (pair_nodes nodes) ≤ length nodes)%nat ∧
  (2 ≤ length nodes →
   length (pair_nodes nodes) < length nodes ∧ pair_nodes nodes ≠ [])%nat.
Proof.
  induction nodes as [| |a b rest [IH _]] using pair_nodes_ind;
    cbn [pair_nodes length]; (split; [lia|]); intros; try lia.
  split; [lia|done].
Qed.

Lemma pair_nodes_join_tail (nodes : list string) :
  join_tail (without_braces <$> pair_nodes nodes) COMMA
  = join_tail (without_braces <$> nodes) COMMA.
Proof.
  induction nodes as [| |a b rest IH] using pair_nodes_ind; [done|done|].
  cbn [pair_nodes fmap list_fmap join_tail foldr].
  fold (join_tail (without_braces <$> pair_nodes rest) COMMA).
  fold (join_tail (without_braces <$> rest) COMMA).
  rewrite without_braces_pair, IH. f_equal.
  by rewrite append_assoc, append_cons.
Qed.

Lemma pair_nodes_join (nodes : list string) :
  join (without_braces <$> pair_nodes nodes) COMMA
  = join (without_braces <$> nodes) COMMA.
Proof.
  destruct nodes as [|a [|b rest]]; [done|done|].
  cbn [pair_nodes fmap list_fmap]. rewrite !join_cons.
  fold (without_braces <$> pair_nodes rest).
  fold (without_braces <$> rest).
  rewrite without_braces_pair, pair_nodes_join_tail.
  cbn [join_tail foldr]. by rewrite append_assoc, append_cons.
Qed.

Lemma pair_nodes_size (nodes : list string) :
  (sum_list_with String.length (pair_nodes nodes)
   + 3 * length (pair_nodes nodes)
   = sum_list_with String.length nodes + 3 * length nodes)%nat.
Proof.
  induction nodes as [| |a b rest IH] using pair_nodes_ind; [done|done|].
  cbn [pair_nodes sum_list_with length].
  cbn [String.length]. rewrite append_length. cbn [String.length].
  rewrite append_length. cbn [String.length]. lia.
Qed.

(** X28.  [GetScriptpathDescriptor] never returns for an empty list of
    nodes: the recursion goes on with the empty list.  For a list that is
    not empty, a recursion as deep as the list is long returns, and the
    result holds the nodes in their order, separated by commas, with a
    pair of braces for every node but one. *)
Theorem GetScriptpathDescriptor_leaves (nodes : list string) (depth : nat) :
  GetScriptpathDescriptor depth [] = None ∧
  (nodes ≠ [] → (length nodes ≤ depth)%nat →
   ∃ result,
     GetScriptpathDescriptor depth nodes = Some result ∧
     without_braces result = join (without_braces <$> nodes) COMMA ∧
     (String.length result + 3
      = sum_list_with String.length nodes + 3 * length nodes)%nat).
Proof.
  split; [by induction depth|].
  revert nodes. induction depth as [|depth IH]; intros nodes Hne Hdepth.
  { destruct nodes; [done|cbn in Hdepth; lia]. }
  destruct nodes as [|a [|b rest]]; [done| |].
  - exists a. split; [done|]. split; [|cbn; lia].
    cbn [fmap list_fmap]. rewrite join_cons.
    change (join_tail [] COMMA) with EmptyString.
    by rewrite append_empty_r.
  - set (l := a :: b :: rest) in *.
    destruct (pair_nodes_length l) as [_ Hshorter].
    destruct Hshorter as [Hshorter Hsome]; [cbn; lia|].
    destruct (IH (pair_nodes l) Hsome) as (result & Hrun & Hleaves & Hsize);
      [lia|].
    exists result. split; [exact Hrun|].
    split; [by rewrite Hleaves, pair_nodes_join|].
    by rewrite Hsize, pair_nodes_size.
Qed.

Lemma GetScriptpathDescriptor_leaves_witness :
  ∃ result,
    GetScriptpathDescriptor 3 ["a"; "b"; "c"] = Some result ∧
    without_braces result = "a,b,c".
Proof.
  destruct (proj2 (GetScriptpathDescriptor_leaves ["a"; "b"; "c"] 3)
              ltac:(discriminate) ltac:(cbn; lia))
    as (result & Hrun & Hleaves & _).
  exists result. split; [exact Hrun|]. rewrite Hleaves. reflexivity.
Defined.

(** ** Keys of the policy compiler *)

Section CompilerKeys.
Import CompilerContext.

Lemma list_ascii_of_string_length (s : string) :
  length (String.list_ascii_of_string s) = String.length s.
Proof. induction s as [|c s IH]; [done|]. cbn. by f_equal. Qed.

Lemma list_ascii_of_string_inj (a b : string) :
  String.list_ascii_of_string a = String.list_ascii_of_string b → a = b.
Proof.
  revert b. induction a as [|c a IH]; intros [|d b]; cbn; try done.
  intros [= -> Hab]. f_equal. by apply IH.
Qed.

Lemma FromString_Some (chars key : string) :
  FromString chars = Some key →
  key = chars ∧ (1 ≤ String.length key ≤ 17)%nat.
Proof.
  unfold FromString.
  destruct (Nat.eqb_spec (String.length chars) 0); [done|].
  destruct (Nat.ltb_spec 17 (String.length chars)); [done|].
  cbn. intros [= <-]. split; [done|lia].
Qed.

Lemma copy_at_Some (offset : nat) (key : string) (ret : list Ascii.ascii) :
  (offset + String.length key ≤ length ret)%nat →
  ∃ bytes,
    copy_at offset key ret = Some bytes ∧
    length bytes = length ret ∧
    take offset bytes = take offset ret ∧
    take (String.length key) (drop offset bytes)
      = String.list_ascii_of_string key ∧
    drop (offset + String.length key) bytes
      = drop (offset + String.length key) ret.
Proof.
  intros Hfits. unfold copy_at. rewrite list_ascii_of_string_length.
  destruct (Nat.leb_spec (offset + String.length key) (length ret)); [|lia].
  eexists. split; [done|].
  assert (Htake : length (take offset ret) = offset)
    by (rewrite length_take; lia).
  split; [|split; [|split]].
  - rewrite !length_app, length_take, length_drop,
      list_ascii_of_string_length. lia.
  - by rewrite take_app_length' by done.
  - rewrite drop_app_length' by done.
    by rewrite take_app_length' by (by rewrite list_ascii_of_string_length).
  - rewrite <- drop_drop. rewrite drop_app_length' by done.
    by rewrite drop_app_length' by (by rewrite list_ascii_of_string_length).
Qed.

Lemma copy_at_lookup (offset : nat) (key : string)
    (ret bytes : list Ascii.ascii) (i : nat) :
  copy_at offset key ret = Some bytes →
  bytes !! i =
    if (i <? offset)%nat then ret !! i
    else if (i <? offset + String.length key)%nat
    then String.list_ascii_of_string key !! (i - offset)%nat
    else ret !! i.
Proof.
  unfold copy_at. rewrite list_ascii_of_string_length.
  destruct (Nat.leb_spec (offset + String.length key) (length ret));
    [|done].
  intros [= Hbytes]. rewrite <- Hbytes. clear Hbytes.
  assert (Htake : length (take offset ret) = offset)
    by (rewrite length_take; lia).
  destruct (Nat.ltb_spec i offset).
  - rewrite lookup_app_l by lia. by rewrite lookup_take_lt by lia.
  - rewrite lookup_app_r by lia. rewrite Htake.
    destruct (Nat.ltb_spec i (offset + String.length key)).
    + by rewrite lookup_app_l by (rewrite list_ascii_of_string_length; lia).
    + rewrite lookup_app_r by (rewrite list_ascii_of_string_length; lia).
      rewrite lookup_drop, list_ascii_of_string_length. f_equal. lia.
Qed.

Lemma has_char_lookup (c : Ascii.ascii) (s : string) (i : nat) :
  has_char c s = false → String.list_ascii_of_string s !! i ≠ Some c.
Proof.
  revert i. induction s as [|d s IH]; intros i; [done|].
  cbn. intros [Hd Hs]%orb_false_elim. destruct i as [|i]; cbn.
  - intros [= ->]. by rewrite Ascii.eqb_refl in Hd.
  - by apply IH.
Qed.

Lemma resize_lookup_zero (size : nat) (ret : list Ascii.ascii) (i : nat) :
  (length ret ≤ i < size)%nat → resize size ret !! i = Some (byte 0).
Proof.
  intros Hi. unfold resize. rewrite lookup_app_r by lia.
  apply lookup_replicate. split; [done|lia].
Qed.

Lemma resize_length (size : nat) (ret : list Ascii.ascii) :
  (length ret ≤ size)%nat → length (resize size ret) = size.
Proof.
  intros Hle. unfold resize. rewrite length_app, length_replicate. lia.
Qed.

(** Two keys without a zero byte that are written over the same zeroed
    vector, each inside the vector, and give the same bytes are equal. *)
Lemma copy_at_inj (offset size : nat) (prefix : list Ascii.ascii)
    (k1 k2 : string) (bytes : list Ascii.ascii) :
  length prefix = offset → (offset ≤ size)%nat →
  has_char (byte 0) k1 = false → has_char (byte 0) k2 = false →
  copy_at offset k1 (resize size prefix) = Some bytes →
  copy_at offset k2 (resize size prefix) = Some bytes →
  k1 = k2.
Proof.
  intros Hprefix Hsize Hz1 Hz2 H1 H2.
  assert (Hfits : ∀ k, copy_at offset k (resize size prefix) = Some bytes →
            (offset + String.length k ≤ size)%nat).
  { intros k. unfold copy_at. rewrite list_ascii_of_string_length.
    destruct (Nat.leb_spec (offset + String.length k)
                (length (resize size prefix))) as [Hle|]; [|done].
    intros _. unfold resize in Hle.
    rewrite length_app, length_replicate in Hle. lia. }
  pose proof (Hfits k1 H1) as Hfit1. pose proof (Hfits k2 H2) as Hfit2.
  assert (Hshorter : ∀ ka kb,
    has_char (byte 0) kb = false →
    copy_at offset ka (resize size prefix) = Some bytes →
    copy_at offset kb (resize size prefix) = Some bytes →
    (offset + String.length kb ≤ size)%nat →
    ¬ (String.length ka < String.length kb)%nat).
  { intros ka kb Hzb Ha Hb Hfitb Hlt.
    pose proof (copy_at_lookup _ _ _ _ (offset + String.length ka) Ha) as La.
    pose proof (copy_at_lookup _ _ _ _ (offset + String.length ka) Hb) as Lb.
    destruct (Nat.ltb_spec (offset + String.length ka) offset); [lia|].
    destruct (Nat.ltb_spec (offset + String.length ka)
                (offset + String.length ka)); [lia|].
    destruct (Nat.ltb_spec (offset + String.length ka)
                (offset + String.length kb)); [|lia].
    rewrite resize_lookup_zero in La by lia.
    rewrite La in Lb. symmetry in Lb. by apply has_char_lookup in Lb. }
  assert (Hlen : String.length k1 = String.length k2).
  { pose proof (Hshorter k1 k2 Hz2 H1 H2 Hfit2).
    pose proof (Hshorter k2 k1 Hz1 H2 H1 Hfit1). lia. }
  apply list_ascii_of_string_inj, list_eq. intros i.
  destruct (decide (i < String.length k1)%nat) as [Hi|Hi].
  - pose proof (copy_at_lookup _ _ _ _ (offset + i) H1) as L1.
    pose proof (copy_at_lookup _ _ _ _ (offset + i) H2) as L2.
    destruct (Nat.ltb_spec (offset + i) offset); [lia|].
    destruct (Nat.ltb_spec (offset + i) (offset + String.length k1));
      [|lia].
    destruct (Nat.ltb_spec (offset + i) (offset + String.length k2));
      [|lia].
    replace (offset + i - offset)%nat with i in L1, L2 by lia.
    by rewrite <- L1, <- L2.
  - rewrite !lookup_ge_None_2; [done|..];
      rewrite list_ascii_of_string_length; lia.
Qed.

End CompilerKeys.

(** X29.  A key that [FromString] accepts has from 1 to 17 characters,
    which is what [ToPKHBytes] has room for: its copy stays inside the 20
    bytes, as the copy of [ToPKBytes] stays inside the 33, while a key of
    18 characters would be written past the end of the 20.  The bytes
    begin with the fixed marker, then hold the key, then zeros; so two
    accepted keys without a zero byte that give the same bytes are the
    same key. *)
Theorem key_bytes_fit (chars key : string) :
  CompilerContext.FromString chars = Some key →
  (∃ pk pkh,
     CompilerContext.ToPKBytes key = Some pk ∧ length pk = 33%nat ∧
     CompilerContext.ToPKHBytes key = Some pkh ∧ length pkh = 20%nat ∧
     take (String.length key) (drop 4 pk)
       = String.list_ascii_of_string key ∧
     take (String.length key) (drop 3 pkh)
       = String.list_ascii_of_string key) ∧
  (∀ long, String.length long = 18%nat →
     CompilerContext.ToPKHBytes long = None) ∧
  (∀ chars' key',
     CompilerContext.FromString chars' = Some key' →
     has_char (CompilerContext.byte 0) key = false →
     has_char (CompilerContext.byte 0) key' = false →
     CompilerContext.ToPKBytes key = CompilerContext.ToPKBytes key' ∨
     CompilerContext.ToPKHBytes key = CompilerContext.ToPKHBytes key' →
     key = key').
Proof.
  intros [-> Hlen]%FromString_Some.
  assert (Hpk : ∀ k, (1 ≤ String.length k ≤ 17)%nat →
    ∃ pk, CompilerContext.ToPKBytes k = Some pk ∧ length pk = 33%nat ∧
      take (String.length k) (drop 4 pk) = String.list_ascii_of_string k).
  { intros k Hk.
    destruct (copy_at_Some 4 k
                (CompilerContext.resize 33
                   [CompilerContext.byte 2; CompilerContext.byte 80;
                    CompilerContext.byte 75; CompilerContext.byte 98]))
      as (pk & Hrun & Hsize & _ & Hkey & _).
    { rewrite resize_length; cbn; lia. }
    exists pk. split; [exact Hrun|]. split; [|exact Hkey].
    rewrite Hsize. apply resize_length. cbn. lia. }
  assert (Hpkh : ∀ k, (1 ≤ String.length k ≤ 17)%nat →
    ∃ pkh, CompilerContext.ToPKHBytes k = Some pkh ∧ length pkh = 20%nat ∧
      take (String.length k) (drop 3 pkh) = String.list_ascii_of_string k).
  { intros k Hk.
    destruct (copy_at_Some 3 k
                (CompilerContext.resize 20
                   [CompilerContext.byte 80; CompilerContext.byte 75;
                    CompilerContext.byte 104]))
      as (pkh & Hrun & Hsize & _ & Hkey & _).
    { rewrite resize_length; cbn; lia. }
    exists pkh. split; [exact Hrun|]. split; [|exact Hkey].
    rewrite Hsize. apply resize_length. cbn. lia. }
  split; [|split].
  - destruct (Hpk chars Hlen) as (pk & ? & ? & ?).
    destruct (Hpkh chars Hlen) as (pkh & ? & ? & ?).
    by exists pk, pkh.
  - intros long Hlong. unfold CompilerContext.ToPKHBytes,
      CompilerContext.copy_at.
    rewrite list_ascii_of_string_length, Hlong. done.
  - intros chars' key' [-> Hlen']%FromString_Some Hz Hz' [Hsame|Hsame].
    + destruct (Hpk chars Hlen) as (pk & Hrun & _).
      rewrite Hrun in Hsame. symmetry in Hsame.
      by apply (copy_at_inj 4 33
                  [CompilerContext.byte 2; CompilerContext.byte 80;
                   CompilerContext.byte 75; CompilerContext.byte 98]
                  chars chars' pk); [|lia|..].
    + destruct (Hpkh chars Hlen) as (pkh & Hrun & _).
      rewrite Hrun in Hsame. symmetry in Hsame.
      by apply (copy_at_inj 3 20
                  [CompilerContext.byte 80; CompilerContext.byte 75;
                   CompilerContext.byte 104]
                  chars chars' pkh); [|lia|..].
Qed.

Lemma key_bytes_fit_witness :
  ∃ pkh,
    CompilerContext.ToPKHBytes "key_0" = Some pkh ∧ length pkh = 20%nat.
Proof.
  destruct (proj1 (key_bytes_fit "key_0" "key_0" eq_refl))
    as (pk & pkh & _ & _ & Hrun & Hsize & _).
  exists pkh. split; [exact Hrun|exact Hsize].
Defined.

(** ** Signer names *)

Lemma without_empty_last_two (a b : string) (rest : list string) :
  b ≠ "" ∨ rest ≠ [] →
  ∃ rest', without_empty_last (a :: b :: rest) = a :: b :: rest'.
Proof.
  intros Hmore. unfold without_empty_last.
  destruct (last (a :: b :: rest)) as [[|c s]|] eqn:Hlast;
    [|by eexists..].
  destruct rest as [|c rest]; [|by eexists].
  cbn in Hlast. injection Hlast as ->. by destruct Hmore.
Qed.

(** X30.  The name [GetSignerNameFromDerivationPath] makes never holds an
    apostrophe.  It is empty for a path without a slash, and also for a
    path that ends with its first slash, such as [m/]: [split] drops the
    empty last step, so one step is left.  For a path of two or more
    steps whose second step is not empty or is followed by another, the
    name is the prefix, the first step, a slash and the second step, with
    every apostrophe (those of the prefix too) turned into [h]; the steps
    after the second do not count. *)
Theorem GetSignerNameFromDerivationPath_steps (prefix : string) :
  (∀ path,
     has_char APOSTROPHE (GetSignerNameFromDerivationPath path prefix)
       = false) ∧
  (∀ path, has_char SLASH path = false →
     GetSignerNameFromDerivationPath path prefix = "") ∧
  (∀ a, has_char SLASH a = false →
     GetSignerNameFromDerivationPath (join [a; ""] SLASH) prefix = "") ∧
  (∀ a b rest,
     Forall (fun step => has_char SLASH step = false) (a :: b :: rest) →
     b ≠ "" ∨ rest ≠ [] →
     GetSignerNameFromDerivationPath (join (a :: b :: rest) SLASH) prefix
     = replace_char APOSTROPHE LETTER_h
         (((prefix +:+ a) +:+ String SLASH "") +:+ b)).
Proof.
  split; [|split; [|split]].
  - intros path. unfold GetSignerNameFromDerivationPath.
    destruct (String.eqb path ""); [done|].
    destruct (split path SLASH) as [|sp0 [|sp1 sp]]; [done|done|].
    by apply replace_char_clears.
  - intros path Hfree. unfold GetSignerNameFromDerivationPath.
    destruct (String.eqb path ""); [done|].
    assert (Hsplit : split path SLASH = without_empty_last [path]).
    { rewrite <- (split_joined [path] SLASH) by by apply Forall_singleton.
      rewrite join_cons. change (join_tail [] SLASH) with EmptyString.
      by rewrite append_empty_r. }
    rewrite Hsplit. unfold without_empty_last. cbn [last].
    by destruct path.
  - intros a Hfree. unfold GetSignerNameFromDerivationPath.
    destruct (String.eqb (join [a; ""] SLASH) ""); [done|].
    rewrite split_joined
      by (repeat apply Forall_cons_2; [done|done|apply Forall_nil_2]).
    done.
  - intros a b rest Hfree Hmore. unfold GetSignerNameFromDerivationPath.
    destruct (String.eqb_spec (join (a :: b :: rest) SLASH) "")
      as [Hempty|_].
    { rewrite join_cons in Hempty. cbn [join_tail foldr] in Hempty.
      destruct a; [|by rewrite append_cons in Hempty].
      by change ("" +:+ ?s) with s in Hempty. }
    rewrite split_joined by done.
    by destruct (without_empty_last_two a b rest Hmore) as [rest' ->].
Qed.

Lemma GetSignerNameFromDerivationPath_steps_witness :
  GetSignerNameFromDerivationPath "m/48'/0'/0'" "key-" = "key-m/48h".
Proof.
  change "m/48'/0'/0'" with (join ["m"; "48'"; "0'"; "0'"] SLASH).
  rewrite (proj2 (proj2 (proj2
             (GetSignerNameFromDerivationPath_steps "key-")))
             "m" "48'" ["0'"; "0'"]).
  - reflexivity.
  - repeat constructor.
  - right. discriminate.
Defined.
